(* ===== verification/_CoqProject ===== *)
-Q . S2P
Prelude.v
GoStd.v
GoStdFacts.v
Prog.v
Goroutines.v
Messages.v
FlowPkg.v
Etcd.v
Codec.v
ApiStore.v
ApiStoreSpec.v
ApiStoreProps.v
Concurrency.v
SchemaStore.v
SchemaSpec.v
SchemaProps.v
Kube.v
Runtime.v
RuntimeProps.v
ControllerStore.v
WorkQueue.v
Controller.v
ControllerProps.v
ControllerRun.v
Config.v
Observability.v
ControllerMain.v
ApiService.v
Rpc.v
Gateway.v
ApiServer.v
Main.v
Remote.v
GatewayProps.v
Cli.v
CliFlags.v
CliProps.v
StoreTypes.v
System.v
