(* ===== verification/Prelude.v ===== *)
(** * flow-pipe control plane: verification development

    flow-pipe runs data pipelines ("flows") on Kubernetes.  Users describe a
    flow in a FlowSpec and hand it to the API server, with flowctl or over
    HTTP or gRPC; the API server keeps versioned specs and queue schemas in
    etcd; the controller watches etcd, brings the active version of every
    flow up as Kubernetes objects and writes the flow's status back.  This
    library models that control plane, all of it Go code under api/, cli/,
    controller/, pkg/ and gen/go/, and proves what makes it correct.

    ** How programs are modelled

    A function that calls out (etcd, Kubernetes, the work queue, files, the
    network) is a [prog E A] (Prog.v): a tree that performs one call of the
    family [E] at a time and goes on with the answer.  A [handler] says what
    a call does to the state of a world; [run] runs a program in a world,
    [trace] and [history] are the calls it makes, [wp] is its weakest
    precondition.  Go errors are values ([GoError], [result]); [x ←? p; q] is
    the early return on an error.  Pure Go functions are Rocq functions.
    uint64 and uint32 are [N] with their wrap-around written out ([wrap64],
    [wrap32]).  What the program uses of other code is a type class with the
    documented behaviour as laws, each with an instance the witnesses run on:

    - [EtcdService] (Etcd.v): a linearizable map with prefix reads and
      guarded transactions; any call may fail, a failed write having been
      applied or not.  Instance [MemEtcd].
    - [KubeService] (Kube.v): named objects with create, update and delete.
      Instance [MemKube].
    - [Codec] (Codec.v): proto.Marshal and encoding/json, of which only the
      round trip is used.  Instance [TestCodec].
    - [RateLimitingQueue] (WorkQueue.v): client-go's queue, with its delays
      and its shutdown.  [MapQueue].
    - [GrpcChannel] (Rpc.v): what grpc does between a stub and a method
      handler; calls may fail before or after the handler ran.
      [LocalChannel].
    - [GatewayRuntime] (Gateway.v): grpc-gateway's runtime package.
      [LocalGateway].
    - [GoRuntime] (GoStd.v): the order of map iteration and of sort.Slice,
      which Go leaves open.  [std_runtime].
    - [FlowFile] (Cli.v), [RuntimeEncoding] (Runtime.v), [Durations]
      (Config.v): YAML and JSON, SHA-256 and protojson, time.ParseDuration.

    ** The parts, in the order of the files

    - Prelude, GoStd, GoStdFacts: errors, machine words, automation; strings,
      path, strconv, unicode/utf8 of Go's standard library.
    - Prog: programs, handlers, interleaved clients, weakest preconditions
      (also with the calls made), confined programs, programs that notice
      failures, program equivalence.
    - Goroutines: pools of goroutines with endless loops and calls that may
      block; protocols, and pools that come to an end.
    - Messages: gen/go/flowpipe/v1/flow.pb.go, observability.pb.go and
      service.pb.go: enums, messages, getters; api/internal/model/schema.go.
    - FlowPkg: pkg/flow/validate, normalize, diff, fingerprint.
    - Etcd, Codec: the etcd client and the encodings.
    - ApiStore, ApiStoreSpec, ApiStoreProps, Concurrency:
      api/internal/store/etcd.go and keys.go; the abstract versioned store
      [Spec], its abstraction function [abs] and invariant [store_ok]; the
      theorems; concurrent writers as interleaved programs.
    - SchemaStore, SchemaSpec, SchemaProps:
      api/internal/store/etcd_schema_registry.go, in the same way
      ([Registry], [rabs], [registry_ok]).
    - Kube, Runtime, RuntimeProps: controller/internal/controller/runtime.go
      over the Kubernetes API.
    - ControllerStore, WorkQueue, Controller, ControllerProps, ControllerRun:
      controller/internal/store/etcd.go and store.go, workqueue_memory.go,
      reconcile.go, watch.go and controller.go; in ControllerRun the
      goroutines of [Controller.Run] are linked to the steps of MemoryQueue.
    - Config, Observability, ControllerMain: the configuration of both
      processes with flag.Parse, their telemetry and logger, the controller's
      start-up and leader election (controller/cmd/flow-controller/main.go,
      controller/internal/kube/client.go).
    - ApiService: api/internal/service, and store.go's interfaces as the
      classes [APIStore] and [SchemaRegistryStore]; the services are written
      against the classes, [etcd_store] is the etcd instance.
    - Rpc, Gateway: service_grpc.pb.go and service.pb.gw.go.
    - ApiServer, Main: api/internal/server (auth.go, grpc.go, http.go,
      server.go) and the [main] of both processes.
    - Remote, GatewayProps: calls to the API server over gRPC and over HTTP.
    - Cli, CliFlags, CliProps: cli/cmd/flowctl and cli/internal/loader.
    - StoreTypes, System: the parts together on one etcd and one cluster.

    Definitions keep the names of the source; a module is used where two
    packages share a name ([Ctl] for the controller's store, [ApiConfig] and
    [CtlConfig], [FlowServer], [flowServiceClient] and the like).

    ** What the theorems show

    - End to end: creating a flow and reconciling it stores the workload of
      the created spec and reports its version (a Job that exists is left
      unchanged, which is a defect of the code), deleting and reconciling
      leaves nothing (System); a gRPC call, an HTTP request, a flowctl submit has exactly
      the effect of the one method it names, or none, and none without the
      API key (Remote, GatewayProps, CliProps).
    - Refinement: any sequence of calls of the flow store and of the schema
      registry, with etcd failing anywhere, is a sequence of steps of the
      abstract store (ApiStoreProps, SchemaProps); the gateway's routes are
      the google.api.http rules of proto/flowpipe/v1/service.proto.
    - Invariants and types: the data of both stores stays well typed under
      every operation of the API and of the controller (StoreTypes);
      versions are not overwritten while a flow is neither rolled back nor
      deleted (ApiStoreProps); pods match their workload's selector
      (RuntimeProps).
    - Concurrency: successful concurrent writes of a flow get distinct,
      increasing versions under every interleaving (Concurrency); no queued
      key is lost and none processed twice at once, under every interleaving
      of the single steps of the watch, the workers and Run (ControllerRun).
    - The controller: what a reconcile does in every outcome, that it
      succeeds when its services answer, what start-up queues, which watch
      events count, what a worker does with a key (ControllerProps,
      RuntimeProps).
    - Termination: once its context is done, Run and all its goroutines
      return, under every interleaving (ControllerRun); every other function
      but the election loop is a finite program.
    - Errors: validation accepts exactly the valid specs and reports a true
      error otherwise (FlowPkg); which failures end a process, and how
      (Main).
    - Defects: several theorems state what the code does where that is not
      what it means to do: a delete that reaches other flows, a rollback that
      races a delete or lets a version be overwritten, schema versions that
      wrap, a controller that is inert after it regains the leadership, an
      authentication switch that is off when misspelt.

    ** Fuel and bounds

    The loops of the worker and the watch are endless ([Loop] of
    Goroutines.v); [worker_rounds] is any number of first rounds of a worker,
    for what holds of all its calls.  [lead_loop] takes the number of terms
    that are looked at; [Running] is a process that has not ended within
    them.  [trim_left_fuel] and its
    kin take the length of the string, of which every round drops a byte;
    [format_fuel] takes the bit length of the number, which exceeds the
    number of its decimal digits.  Everything else is structural.  Theorems
    on names and ids ask for a proper path segment ([proper_seg]: not empty,
    not ".", "..", without "/"); what happens for other names is stated
    where it matters.  Versions are bounded by [in64] and [in32].

    ** Not modelled

    - Spans, metrics and debug log lines, deadlines and cancellation of
      single calls, response metadata; gRPC reflection, which NewGRPCServer
      also registers.
    - Goroutines are interleaved at their calls (ControllerRun, Concurrency);
      the accesses to shared memory between two calls are the ones modelled
      as calls.  The goroutine of a watch stream and those of the servers are
      not in a pool: channels are the lists of what is sent on them, a
      blocked send is not modelled.  Calls to etcd and Kubernetes answer.
    - How cobra reads a command line, how client-go elects a leader and loads
      a kubeconfig, TLS: behind the calls that use them.
    - pkg/flow/codec (one call each into protojson) and
      api/internal/model/meta.go (a type no code uses); the reflection code
      protoc generates.
    - The flow runtime and its stages (C++). *)
From stdpp Require Export base tactics list gmap strings sorting.
From Stdlib Require Export ZArith NArith Lia Ascii.
From Stdlib Require String.
From Stdlib Require Import Sorted.

#[global] Set Default Proof Using "Type".
#[global] Open Scope stdpp_scope.

Declare Scope flow_scope.
Delimit Scope flow_scope with flow.

(** ** Go errors

    A Go [error] is kept as the expression that built it: the format string
    of [fmt.Errorf] with its arguments, the cause when the format uses %w,
    the joined list of [errors.Join].  Errors that come out of a library or
    a service are opaque codes. *)

Inductive GoArg :=
  | AStr (s : string)
  | AUint (n : N)
  | AInt (z : Z).

#[export] Instance GoArg_eq_dec : EqDecision GoArg.
Proof. solve_decision. Defined.

Inductive GoError :=
  | Errorf (format : string) (args : list GoArg)
  | Wrapf (format : string) (args : list GoArg) (cause : GoError)
  | JoinErr (errs : list GoError)
  | StatusErr (code : string) (msg : string)
  | FieldErr (field : string) (format : string) (args : list GoArg)
  | ExtErr (code : string).

(** ** Results of fallible functions *)

Inductive result (A : Type) :=
  | Ok (a : A)
  | Err (e : GoError).
Arguments Ok {A} a.
Arguments Err {A} e.

Definition is_ok {A} (r : result A) : bool :=
  match r with Ok _ => true | Err _ => false end.

#[export] Instance result_ret : MRet result := @Ok.
#[export] Instance result_bind : MBind result := λ A B f r,
  match r with Ok a => f a | Err e => Err e end.
#[export] Instance result_fmap : FMap result := λ A B f r,
  match r with Ok a => Ok (f a) | Err e => Err e end.

Lemma result_bind_ok {A B} (f : A → result B) r b :
  r ≫= f = Ok b ↔ ∃ a, r = Ok a ∧ f a = Ok b.
Proof. destruct r; naive_solver. Qed.

(** ** Tactics of the development *)

(** Splits a scrutinee of the goal or of a hypothesis, keeping the equation. *)
Ltac split_match :=
  match goal with
  | |- context [match ?x with _ => _ end] => destruct x eqn:?
  end.

Ltac split_match_in H :=
  match type of H with
  | context [match ?x with _ => _ end] => destruct x eqn:?
  end.

(** Destructs conjunctions and existentials of the context. *)
Ltac deex :=
  repeat match goal with
  | H : ∃ _, _ |- _ => destruct H
  | H : _ ∧ _ |- _ => destruct H
  end.

(** ** Machine words *)

Definition two64 : N := 2 ^ 64.
Definition two32 : N := 2 ^ 32.
Definition wrap64 (n : N) : N := (n mod two64)%N.
Definition wrap32 (n : N) : N := (n mod two32)%N.
Definition in64 (n : N) : Prop := (n < two64)%N.
Definition in32 (n : N) : Prop := (n < two32)%N.

#[export] Instance in64_dec n : Decision (in64 n).
Proof. unfold in64; apply _. Defined.
#[export] Instance in32_dec n : Decision (in32 n).
Proof. unfold in32; apply _. Defined.

(** int64 arithmetic, two's complement. *)
Definition wrap_int64 (z : Z) : Z := ((z + 2 ^ 63) mod 2 ^ 64 - 2 ^ 63)%Z.

Lemma wrap64_small n : in64 n → wrap64 n = n.
Proof. apply N.mod_small. Qed.

Lemma wrap64_in64 n : in64 (wrap64 n).
Proof. apply N.mod_lt. done. Qed.

Lemma wrap32_small n : in32 n → wrap32 n = n.
Proof. apply N.mod_small. Qed.

Lemma wrap32_in32 n : in32 (wrap32 n).
Proof. apply N.mod_lt. done. Qed.

Lemma in32_in64 n : in32 n → in64 n.
Proof. unfold in32, in64, two32, two64. lia. Qed.

Lemma wrap_int64_small z : (- 2 ^ 63 <= z < 2 ^ 63)%Z → wrap_int64 z = z.
Proof. intros ?. unfold wrap_int64. rewrite Z.mod_small; lia. Qed.

(** ** Hint database of the development *)
Create HintDb flow.
#[export] Hint Resolve wrap64_in64 wrap32_in32 in32_in64 : flow.
#[export] Hint Rewrite @lookup_insert_eq @lookup_empty @app_nil_r : flow.

(** ** Lists *)
Section Lists.
Context {A : Type}.
Implicit Types l : list A.

Lemma foldr_const_ind {B} (f : A → B → B) (P : B → Prop) b l :
  P b → (∀ a b', a ∈ l → P b' → P (f a b')) → P (foldr f b l).
Proof.
  intros Hb Hf. induction l as [|a l IH]; simpl; [done|].
  apply Hf; [left|]. apply IH. intros; apply Hf; [by right|done].
Qed.

Lemma NoDup_app_snoc l a : NoDup l → a ∉ l → NoDup (l ++ [a]).
Proof.
  intros. apply NoDup_app. split_and!; [done| |apply NoDup_singleton].
  intros x Hx ->%list_elem_of_singleton. done.
Qed.
End Lists.
