(* ===== verification/GoStd.v ===== *)
(** * The parts of the Go language and standard library the control plane uses

    - [strings]: HasPrefix, HasSuffix, TrimPrefix, TrimSuffix, Split, Join,
      ToLower, TrimSpace, on byte strings;
    - [path]: Clean, Join, Dir, Base, with absolute paths of proper segments
      ([abs_path]) as the normal forms the key layouts of the stores live in;
    - [strconv]: FormatUint, ParseUint, ParseBool, Atoi;
    - [sort.Slice] and [range] over a map, whose order Go leaves open: the
      class [GoRuntime] states what is guaranteed, and [std_runtime] is one
      runtime that satisfies it. *)
From S2P Require Import Prelude.
From Stdlib Require Import Sorted.

(** ** strings *)
Module strings.

Definition HasPrefix (s p : string) : bool := String.prefix p s.

(** [s[n:]] *)
Fixpoint slice_from (n : nat) (s : string) : string :=
  match n, s with
  | 0, _ => s
  | S n, EmptyString => EmptyString
  | S n, String _ s => slice_from n s
  end.

Definition TrimPrefix (s p : string) : string :=
  if HasPrefix s p then slice_from (String.length p) s else s.

Fixpoint HasSuffix (s p : string) : bool :=
  bool_decide (s = p) ||
  match s with EmptyString => false | String _ s => HasSuffix s p end.

Fixpoint TrimSuffix (s p : string) : string :=
  if bool_decide (s = p) then "" else
  match s with EmptyString => "" | String c s => String c (TrimSuffix s p) end.

(** [strings.Split(s, sep)] for a one-byte separator. *)
Fixpoint Split (s : string) (sep : ascii) : list string :=
  match s with
  | EmptyString => [EmptyString]
  | String c s =>
      if bool_decide (c = sep) then EmptyString :: Split s sep
      else match Split s sep with
           | [] => [String c EmptyString]
           | w :: ws => String c w :: ws
           end
  end.

(** [strings.Join(elems, "/")] *)
Fixpoint Join (elems : list string) (sep : string) : string :=
  match elems with
  | [] => ""
  | [x] => x
  | x :: xs => x +:+ sep +:+ Join xs sep
  end.

(** [strings.ToLower].  ASCII letters are mapped bytewise; of the other code
    points only U+0130 and U+212A have an ASCII lower case ("i" and "k").
    Every other byte is kept: the results are only ever compared with ASCII
    literals, which such bytes differ from before and after case mapping. *)
Definition lower_ascii (c : ascii) : ascii :=
  let n := N_of_ascii c in
  if (65 <=? n)%N && (n <=? 90)%N then ascii_of_N (n + 32) else c.

Fixpoint ToLower (s : string) : string :=
  match s with
  | String "196" (String "176" s) => String "i" (ToLower s)
  | String "226" (String "132" (String "170" s)) => String "k" (ToLower s)
  | String c s => String (lower_ascii c) (ToLower s)
  | EmptyString => EmptyString
  end.

(** The UTF-8 encodings of the code points [unicode.IsSpace] accepts. *)
Definition bytes (l : list N) : string :=
  foldr (λ n s, String (ascii_of_N n) s) EmptyString l.

Definition space_runes : list string :=
  bytes <$> [[9]; [10]; [11]; [12]; [13]; [32];
    [194; 133]; [194; 160]; [225; 154; 128];
    [226; 128; 128]; [226; 128; 129]; [226; 128; 130]; [226; 128; 131];
    [226; 128; 132]; [226; 128; 133]; [226; 128; 134]; [226; 128; 135];
    [226; 128; 136]; [226; 128; 137]; [226; 128; 138];
    [226; 128; 168]; [226; 128; 169]; [226; 128; 175];
    [226; 129; 159]; [227; 128; 128]]%N.

(** Drops leading spaces; the fuel is the length, each round drops a byte
    or more. *)
Fixpoint trim_left_fuel (fuel : nat) (s : string) : string :=
  match fuel with
  | 0 => s
  | S fuel =>
      match list_find (λ sp, HasPrefix s sp = true) space_runes with
      | Some (_, sp) => trim_left_fuel fuel (TrimPrefix s sp)
      | None => s
      end
  end.
Definition trim_left (s : string) : string := trim_left_fuel (String.length s) s.

Fixpoint trim_right_fuel (fuel : nat) (s : string) : string :=
  match fuel with
  | 0 => s
  | S fuel =>
      match list_find (λ sp, HasSuffix s sp = true) space_runes with
      | Some (_, sp) => trim_right_fuel fuel (TrimSuffix s sp)
      | None => s
      end
  end.
Definition trim_right (s : string) : string := trim_right_fuel (String.length s) s.

Definition TrimSpace (s : string) : string := trim_right (trim_left s).

End strings.

(** ** path *)
Module path.

(** One path element of [path.Clean]: empty and "." elements vanish, ".."
    removes the element before it, at the root it vanishes too. *)
Definition clean_step (rooted : bool) (stack : list string) (seg : string) : list string :=
  if bool_decide (seg = "") || bool_decide (seg = ".") then stack
  else if bool_decide (seg = "..") then
    match stack with
    | [] => if rooted then [] else [".."]
    | top :: rest => if bool_decide (top = "..") then ".." :: stack else rest
    end
  else seg :: stack.

Definition is_rooted (p : string) : bool := strings.HasPrefix p "/".

Definition Clean (p : string) : string :=
  if bool_decide (p = "") then "." else
  let rooted := is_rooted p in
  let segs := reverse (foldl (clean_step rooted) [] (strings.Split p "/")) in
  if rooted then "/" +:+ strings.Join segs "/"
  else match segs with [] => "." | _ => strings.Join segs "/" end.

(** [path.Join] ignores leading empty elements and cleans the rest. *)
Fixpoint Join (elems : list string) : string :=
  match elems with
  | [] => ""
  | e :: es => if bool_decide (e = "") then Join es
               else Clean (strings.Join (e :: es) "/")
  end.

(** [path.Dir]: everything before the last slash, cleaned. *)
Definition Dir (p : string) : string :=
  match reverse (strings.Split p "/") with
  | [] | [_] => "."
  | _ :: rest => Clean (strings.Join (reverse rest) "/" +:+ "/")
  end.

(** [path.Base]: the last element, trailing slashes removed. *)
Definition Base (p : string) : string :=
  if bool_decide (p = "") then "." else
  match filter (λ seg, seg ≠ "") (reverse (strings.Split p "/")) with
  | [] => "/"
  | seg :: _ => seg
  end.

End path.

(** ** strconv *)
Module strconv.

Definition digit (n : N) : ascii := ascii_of_N (48 + n).

Definition digit_value (c : ascii) : option N :=
  let n := N_of_ascii c in
  if (48 <=? n)%N && (n <=? 57)%N then Some (n - 48)%N else None.

(** Decimal digits, most significant first; a number below [2^fuel] needs at
    most [fuel] digits. *)
Fixpoint format_fuel (fuel : nat) (n : N) (acc : string) : string :=
  match fuel with
  | 0 => acc
  | S fuel =>
      let acc := String (digit (n mod 10)) acc in
      if (n <? 10)%N then acc else format_fuel fuel (n / 10) acc
  end.

Definition FormatUint (n : N) : string := format_fuel (S (N.size_nat n)) n "".

Fixpoint parse_digits (acc : N) (s : string) : option N :=
  match s with
  | EmptyString => Some acc
  | String c s =>
      match digit_value c with
      | Some d => parse_digits (acc * 10 + d) s
      | None => None
      end
  end.

(** [strconv.ParseUint(s, 10, bits)]: [None] is an error, of syntax or of
    range. *)
Definition ParseUint (s : string) (bits : N) : option N :=
  match s with
  | EmptyString => None
  | _ => match parse_digits 0 s with
         | Some n => if (n <? 2 ^ bits)%N then Some n else None
         | None => None
         end
  end.

(** [strconv.Atoi]: an optional sign and digits, in the range of int64. *)
Definition Atoi (s : string) : option Z :=
  let signed (neg : bool) (s : string) :=
    match s with
    | EmptyString => None
    | _ => match parse_digits 0 s with
           | Some n =>
               let z := if neg then (- Z.of_N n)%Z else Z.of_N n in
               if (- 2 ^ 63 <=? z)%Z && (z <? 2 ^ 63)%Z then Some z else None
           | None => None
           end
    end in
  match s with
  | String "-" s => signed true s
  | String "+" s => signed false s
  | _ => signed false s
  end.

Definition ParseBool (s : string) : option bool :=
  if bool_decide (s ∈ ["1"; "t"; "T"; "TRUE"; "true"; "True"]) then Some true
  else if bool_decide (s ∈ ["0"; "f"; "F"; "FALSE"; "false"; "False"]) then Some false
  else None.

#[global] Arguments FormatUint : simpl never.
#[global] Arguments ParseUint : simpl never.

End strconv.

(** ** Iteration over maps and sort.Slice

    Go visits the entries of a map in an order it does not specify, and
    [sort.Slice] leaves equal elements in an order it does not specify. *)

(** A [less] function [sort.Slice] accepts: a strict weak order. *)
Definition strict_weak {A} (less : A → A → bool) : Prop :=
  (∀ x y, less x y = true → less y x = false) ∧
  (∀ x y z, less y x = false → less z y = false → less z x = false).

Definition sorted_by {A} (less : A → A → bool) (l : list A) : Prop :=
  StronglySorted (λ x y, less y x = false) l.

Class GoRuntime := {
  range_map : ∀ {A : Type}, gmap string A → list (string * A);
  sort_slice : ∀ {A : Type}, (A → A → bool) → list A → list A;
  range_map_perm : ∀ {A : Type} (m : gmap string A), range_map m ≡ₚ map_to_list m;
  sort_slice_perm : ∀ {A : Type} (less : A → A → bool) (l : list A),
    sort_slice less l ≡ₚ l;
  sort_slice_sorted : ∀ {A : Type} (less : A → A → bool) (l : list A),
    strict_weak less → sorted_by less (sort_slice less l);
}.

(** [a < b] on strings: bytewise lexicographic order. *)
Definition string_less (a b : string) : bool := negb (String.leb b a).

(** [sort.Strings] *)
Definition sort_Strings `{GoRuntime} (l : list string) : list string :=
  sort_slice string_less l.

(** ** unicode/utf8 *)
Module utf8.

Definition in_range (c : ascii) (lo hi : N) : bool :=
  (lo <=? N_of_ascii c)%N && (N_of_ascii c <=? hi)%N.

Definition cont (c : ascii) : bool := in_range c 128 191.

(** [utf8.ValidString] *)
Fixpoint ValidString (s : string) : bool :=
  match s with
  | EmptyString => true
  | String a s =>
      if in_range a 0 127 then ValidString s
      else match s with
      | EmptyString => false
      | String b s =>
          if in_range a 194 223 then cont b && ValidString s
          else match s with
          | EmptyString => false
          | String c s =>
              if in_range a 224 239 then
                in_range b (if bool_decide (a = "224"%char) then 160 else 128)
                  (if bool_decide (a = "237"%char) then 159 else 191) &&
                cont c && ValidString s
              else match s with
              | EmptyString => false
              | String d s =>
                  in_range a 240 244 &&
                  in_range b (if bool_decide (a = "240"%char) then 144 else 128)
                    (if bool_decide (a = "244"%char) then 143 else 191) &&
                  cont c && cont d && ValidString s
              end
          end
      end
  end.

End utf8.
