(* ===== verification/GoStdFacts.v ===== *)
(** * Facts about the Go standard library model

    Prefix and suffix tests, splitting and joining, the normal form of
    absolute paths, and the round trip of decimal numbers. *)
From S2P Require Import Prelude GoStd.

(** ** Append *)
Lemma append_cons (x : ascii) (a b : string) : String x a +:+ b = String x (a +:+ b).
Proof. done. Qed.

Lemma append_nil_l (a : string) : "" +:+ a = a.
Proof. done. Qed.

Lemma append_assoc (a b c : string) : (a +:+ b) +:+ c = a +:+ (b +:+ c).
Proof. induction a as [|x a IH]; [done|]. by rewrite !append_cons, IH. Qed.

Lemma append_nil_r (a : string) : a +:+ "" = a.
Proof. induction a as [|x a IH]; [done|]. by rewrite append_cons, IH. Qed.

Lemma append_length (a b : string) :
  String.length (a +:+ b) = String.length a + String.length b.
Proof. induction a as [|x a IH]; [done|]. rewrite append_cons. cbn. by rewrite IH. Qed.

Lemma append_inj_r (a b c : string) : a +:+ c = b +:+ c → a = b.
Proof.
  revert b. induction a as [|x a IH]; intros [|y b] H; [done| | |];
    rewrite ?append_nil_l, ?append_cons in H.
  - apply (f_equal String.length) in H. cbn in H. rewrite append_length in H. lia.
  - apply (f_equal String.length) in H. cbn in H. rewrite append_length in H. lia.
  - injection H as -> H. by rewrite (IH b).
Qed.

Lemma append_eq_nil (a b : string) : a +:+ b = "" → a = "" ∧ b = "".
Proof. destruct a; [by split|]. done. Qed.

#[export] Hint Rewrite append_assoc append_nil_r append_length : flow.

(** ** strings *)
Section Strings.
Import strings.

Lemma HasPrefix_app p t : HasPrefix (p +:+ t) p = true.
Proof.
  unfold HasPrefix. induction p as [|x p IH]; [by destruct t|].
  rewrite append_cons. cbn. destruct (ascii_dec x x); done.
Qed.

Lemma HasPrefix_spec s p : HasPrefix s p = true ↔ ∃ t, s = p +:+ t.
Proof.
  split; [|intros [t ->]; apply HasPrefix_app].
  unfold HasPrefix. revert s. induction p as [|x p IH]; intros s H; [by exists s|].
  destruct s as [|y s]; cbn in H; [done|].
  destruct (ascii_dec x y) as [->|]; [|done].
  destruct (IH s H) as [t ->]. by exists t.
Qed.

Lemma HasPrefix_self s : HasPrefix s s = true.
Proof. apply HasPrefix_spec. exists "". by rewrite append_nil_r. Qed.

Lemma HasPrefix_trans a b c :
  HasPrefix a b = true → HasPrefix b c = true → HasPrefix a c = true.
Proof.
  rewrite !HasPrefix_spec. intros [t ->] [u ->]. exists (u +:+ t).
  by rewrite append_assoc.
Qed.

Lemma HasPrefix_app_l (a b c : string) :
  HasPrefix (a +:+ b) (a +:+ c) = HasPrefix b c.
Proof.
  unfold HasPrefix. induction a as [|x a IH]; [done|].
  rewrite !append_cons. cbn. destruct (ascii_dec x x); done.
Qed.

Lemma HasSuffix_spec s p : HasSuffix s p = true ↔ ∃ t, s = t +:+ p.
Proof.
  split.
  - induction s as [|x s IH]; cbn [HasSuffix]; rewrite orb_true_iff, bool_decide_eq_true.
    + intros [<-|]; [by exists ""|done].
    + intros [<-|H]; [by exists ""|]. destruct (IH H) as [t ->]. by exists (String x t).
  - intros [t ->]. induction t as [|x t IH].
    + rewrite append_nil_l. destruct p; cbn [HasSuffix]; by rewrite bool_decide_eq_true_2.
    + rewrite append_cons. cbn [HasSuffix]. rewrite IH. apply orb_true_r.
Qed.

Lemma HasSuffix_app t p : HasSuffix (t +:+ p) p = true.
Proof. apply HasSuffix_spec. by exists t. Qed.

Lemma slice_from_app (p t : string) : slice_from (String.length p) (p +:+ t) = t.
Proof. induction p; done. Qed.

Lemma TrimPrefix_app p t : TrimPrefix (p +:+ t) p = t.
Proof. unfold TrimPrefix. rewrite HasPrefix_app. apply slice_from_app. Qed.

Lemma TrimSuffix_app t p : TrimSuffix (t +:+ p) p = t.
Proof.
  induction t as [|x t IH].
  - rewrite append_nil_l. destruct p; cbn [TrimSuffix]; by rewrite bool_decide_eq_true_2.
  - rewrite append_cons. cbn [TrimSuffix]. rewrite bool_decide_eq_false_2, IH; [done|].
    intros H. apply (f_equal String.length) in H. cbn in H.
    rewrite append_length in H. lia.
Qed.

Lemma Split_nonempty s c : Split s c ≠ [].
Proof. destruct s; cbn; [done|]. case_bool_decide; [done|]. by case_match. Qed.

(** A string without the separator is one element. *)
Fixpoint lacks (s : string) (c : ascii) : bool :=
  match s with
  | EmptyString => true
  | String x s => negb (bool_decide (x = c)) && lacks s c
  end.

Lemma lacks_app a b c : lacks (a +:+ b) c = lacks a c && lacks b c.
Proof.
  induction a as [|x a IH]; [done|]. rewrite append_cons. cbn [lacks].
  by rewrite IH, andb_assoc.
Qed.

Lemma Split_lacks s c : lacks s c = true → Split s c = [s].
Proof.
  induction s as [|x s IH]; [done|]. cbn [lacks Split].
  rewrite andb_true_iff, negb_true_iff, bool_decide_eq_false.
  intros [? Hs]. rewrite bool_decide_eq_false_2 by done. by rewrite IH.
Qed.

Lemma Split_concat s c t :
  Split (s +:+ String c t) c = Split s c ++ Split t c.
Proof.
  induction s as [|x s IH].
  - rewrite append_nil_l. cbn. by rewrite bool_decide_eq_true_2.
  - rewrite append_cons. cbn [Split]. case_bool_decide; [by rewrite IH|]. rewrite IH.
    pose proof (Split_nonempty s c). by destruct (Split s c).
Qed.

Lemma Split_app s c t :
  lacks s c = true → Split (s +:+ String c t) c = s :: Split t c.
Proof.
  induction s as [|x s IH]; cbn [lacks].
  - intros _. rewrite append_nil_l. cbn. by rewrite bool_decide_eq_true_2.
  - rewrite andb_true_iff, negb_true_iff, bool_decide_eq_false. intros [? Hs].
    rewrite append_cons. cbn [Split]. rewrite bool_decide_eq_false_2 by done.
    by rewrite IH.
Qed.
End Strings.

(** ** Absolute paths of proper segments *)

(** A segment [path.Clean] leaves alone: not empty, no slash, not "." or
    "..". *)
Definition proper_seg (s : string) : bool :=
  negb (bool_decide (s = "")) && negb (bool_decide (s = ".")) &&
  negb (bool_decide (s = "..")) && lacks s "/".

Definition abs_path (segs : list string) : string :=
  foldr (λ seg acc, "/" +:+ seg +:+ acc) "" segs.

Lemma proper_seg_spec s :
  proper_seg s = true ↔ s ≠ "" ∧ s ≠ "." ∧ s ≠ ".." ∧ lacks s "/" = true.
Proof.
  unfold proper_seg. rewrite !andb_true_iff, !negb_true_iff, !bool_decide_eq_false.
  tauto.
Qed.

Lemma abs_path_app a b : abs_path (a ++ b) = abs_path a +:+ abs_path b.
Proof.
  induction a as [|x a IH]; [done|]. cbn [app abs_path foldr]. fold (abs_path (a ++ b)).
  fold (abs_path a). by rewrite IH, !append_assoc.
Qed.

Lemma abs_path_cons x a : abs_path (x :: a) = "/" +:+ x +:+ abs_path a.
Proof. done. Qed.

Section Paths.
Import strings.

Lemma Split_abs_path_aux x segs :
  lacks x "/" = true → Forall (λ s, proper_seg s = true) segs →
  Split (x +:+ abs_path segs) "/" = x :: segs.
Proof.
  intros Hx Hs. revert x Hx. induction Hs as [|y segs Hy Hs IH]; intros x Hx.
  - cbn. rewrite append_nil_r. by apply Split_lacks.
  - rewrite abs_path_cons. change ("/" +:+ y +:+ abs_path segs)
      with (String "/" (y +:+ abs_path segs)).
    rewrite Split_app by done. rewrite IH; [done|].
    apply proper_seg_spec in Hy. naive_solver.
Qed.

Lemma Split_abs_path segs :
  Forall (λ s, proper_seg s = true) segs → Split (abs_path segs) "/" = "" :: segs.
Proof. intros H. by apply (Split_abs_path_aux ""). Qed.

Lemma abs_path_inj a b :
  Forall (λ s, proper_seg s = true) a → Forall (λ s, proper_seg s = true) b →
  abs_path a = abs_path b → a = b.
Proof.
  intros Ha Hb H. apply (f_equal (λ s, Split s "/")) in H.
  rewrite !Split_abs_path in H by done. by injection H.
Qed.

Lemma Split_abs_path_slash x segs t :
  lacks x "/" = true → Forall (λ s, proper_seg s = true) segs →
  Split (x +:+ abs_path segs +:+ String "/" t) "/" = x :: segs ++ Split t "/".
Proof.
  intros Hx Hs. revert x Hx. induction Hs as [|y segs Hy Hs IH]; intros x Hx.
  - cbn [abs_path foldr app]. rewrite append_nil_l. by apply Split_app.
  - rewrite abs_path_cons, !append_assoc.
    change ("/" +:+ y +:+ ?z) with (String "/" (y +:+ z)).
    rewrite Split_app by done. rewrite IH; [done|].
    apply proper_seg_spec in Hy. naive_solver.
Qed.

(** A path is below a directory exactly when its segments extend it. *)
Lemma HasPrefix_abs_path a b :
  Forall (λ s, proper_seg s = true) a → Forall (λ s, proper_seg s = true) b →
  HasPrefix (abs_path a) (abs_path b +:+ "/") = true ↔ ∃ rest, rest ≠ [] ∧ a = b ++ rest.
Proof.
  intros Ha Hb. rewrite HasPrefix_spec. split.
  - intros [t Ht]. rewrite append_assoc in Ht. change ("/" +:+ t) with (String "/" t) in Ht.
    apply (f_equal (λ s, Split s "/")) in Ht.
    rewrite Split_abs_path in Ht by done.
    pose proof (Split_abs_path_slash "" b t eq_refl Hb) as Hsp. rewrite append_nil_l in Hsp.
    rewrite Hsp in Ht. injection Ht as ->. exists (Split t "/"). split; [|done].
    apply Split_nonempty.
  - intros ([|r rest] & Hne & ->); [done|]. exists (r +:+ abs_path rest).
    by rewrite abs_path_app, abs_path_cons, !append_assoc.
Qed.

Lemma clean_step_empty rooted stack : path.clean_step rooted stack "" = stack.
Proof. done. Qed.

Lemma clean_steps segs stack :
  Forall (λ s, proper_seg s = true) segs →
  foldl (path.clean_step true) stack segs = reverse segs ++ stack.
Proof.
  intros H. revert stack. induction H as [|x segs Hx H IH]; intros stack; [done|].
  apply proper_seg_spec in Hx as (?&?&?&?). cbn [foldl]. unfold path.clean_step at 2.
  rewrite !bool_decide_eq_false_2 by done. cbn [orb]. rewrite IH, reverse_cons.
  by rewrite <-app_assoc.
Qed.

Lemma Join_slash segs :
  segs ≠ [] → "/" +:+ Join segs "/" = abs_path segs.
Proof.
  induction segs as [|x [|y segs] IH]; intros H; [done| |].
  - cbn. by rewrite append_nil_r.
  - rewrite abs_path_cons, <-IH by done. done.
Qed.

Lemma is_rooted_abs segs : segs ≠ [] → path.is_rooted (abs_path segs) = true.
Proof. destruct segs; [done|]. intros _. apply HasPrefix_app. Qed.

Lemma Clean_abs_path segs :
  segs ≠ [] → Forall (λ s, proper_seg s = true) segs →
  path.Clean (abs_path segs) = abs_path segs.
Proof.
  intros Hne H. unfold path.Clean. rewrite bool_decide_eq_false_2 by by destruct segs.
  rewrite is_rooted_abs by done. rewrite Split_abs_path by done.
  cbn [foldl]. rewrite clean_step_empty.
  rewrite clean_steps by done. rewrite app_nil_r, reverse_involutive.
  by apply Join_slash.
Qed.

Lemma Join_elems x segs :
  Join (x :: segs) "/" = x +:+ abs_path segs.
Proof.
  revert x. induction segs as [|y segs IH]; intros x.
  - cbn. by rewrite append_nil_r.
  - rewrite abs_path_cons. rewrite <-IH. done.
Qed.

(** [path.Join] of a normal path and proper segments appends them. *)
Lemma Join_abs_path segs more :
  segs ≠ [] → Forall (λ s, proper_seg s = true) (segs ++ more) →
  path.Join (abs_path segs :: more) = abs_path (segs ++ more).
Proof.
  intros Hne H. cbn [path.Join]. rewrite bool_decide_eq_false_2 by by destruct segs.
  rewrite Join_elems, <-abs_path_app. apply Clean_abs_path; [|done].
  by destruct segs.
Qed.

Lemma Dir_abs_path segs x :
  segs ≠ [] → Forall (λ s, proper_seg s = true) (segs ++ [x]) →
  path.Dir (abs_path (segs ++ [x])) = abs_path segs.
Proof.
  intros Hne H. unfold path.Dir. rewrite Split_abs_path by done.
  apply Forall_app in H as [H _].
  rewrite app_comm_cons, reverse_snoc.
  destruct (reverse ("" :: segs)) eqn:E.
  { apply (f_equal length) in E. by rewrite length_reverse in E. }
  rewrite <-E, reverse_involutive, Join_elems, append_nil_l.
  unfold path.Clean.
  assert (abs_path segs +:+ "/" ≠ "") by by destruct segs.
  rewrite bool_decide_eq_false_2 by done.
  assert (Split (abs_path segs +:+ "/") "/" = "" :: segs ++ [""]) as Hsplit.
  { clear -H. assert (∀ x, lacks x "/" = true →
      Split (x +:+ abs_path segs +:+ "/") "/" = x :: segs ++ [""]) as Hgen.
    { induction H as [|y segs Hy H IH]; intros x Hx.
      - cbn [abs_path foldr app]. rewrite append_nil_l. by rewrite (Split_app x "/" "").
      - rewrite abs_path_cons. rewrite !append_assoc.
        change ("/" +:+ y +:+ abs_path segs +:+ "/")
          with (String "/" (y +:+ abs_path segs +:+ "/")).
        rewrite Split_app by done. rewrite IH; [done|].
        apply proper_seg_spec in Hy. naive_solver. }
    by apply (Hgen ""). }
  rewrite Hsplit.
  assert (path.is_rooted (abs_path segs +:+ "/") = true) as ->.
  { destruct segs; [done|]. rewrite abs_path_cons, !append_assoc. apply HasPrefix_app. }
  cbn [foldl]. rewrite clean_step_empty.
  rewrite foldl_app, (clean_steps segs) by done. cbn [foldl].
  rewrite clean_step_empty, app_nil_r, reverse_involutive.
  by apply Join_slash.
Qed.

Lemma Base_abs_path segs x :
  Forall (λ s, proper_seg s = true) (segs ++ [x]) →
  path.Base (abs_path (segs ++ [x])) = x.
Proof.
  intros H. unfold path.Base. rewrite Split_abs_path by done.
  rewrite bool_decide_eq_false_2 by by destruct segs.
  rewrite app_comm_cons, reverse_snoc. rewrite filter_cons.
  apply Forall_app in H as [_ H%Forall_inv]. cbn beta in H.
  apply proper_seg_spec in H as [? _]. by rewrite decide_True.
Qed.
End Paths.

(** ** strconv *)
Section Decimal.
Import strconv.
Local Open Scope N_scope.

Lemma digit_value_digit n : n < 10 → digit_value (digit n) = Some n.
Proof.
  intros Hn. unfold digit_value, digit. rewrite N_ascii_embedding by lia.
  replace (48 <=? 48 + n) with true by (symmetry; apply N.leb_le; lia).
  replace (48 + n <=? 57) with true by (symmetry; apply N.leb_le; lia).
  cbn. f_equal. lia.
Qed.

Lemma digit_not_slash n : n < 10 → digit n ≠ "/"%char ∧ digit n ≠ "."%char.
Proof.
  intros Hn. split; intros H; apply (f_equal digit_value) in H;
    by rewrite digit_value_digit in H.
Qed.

(** The digits of [n], put before [acc], parse back to [n] and go on with
    [acc]. *)
Lemma parse_format_fuel fuel n acc k :
  n < 2 ^ N.of_nat fuel → k * 10 <= 0 → (0 < fuel)%nat →
  parse_digits k (format_fuel fuel n acc) = parse_digits n acc.
Proof.
  revert n acc k. induction fuel as [|fuel IH]; intros n acc k Hn Hk Hf; [lia|].
  assert (k = 0) as -> by lia. cbn [format_fuel].
  pose proof (N.mod_lt n 10 ltac:(done)) as Hm.
  destruct (n <? 10) eqn:E.
  - apply N.ltb_lt in E. cbn [parse_digits]. rewrite digit_value_digit by done.
    rewrite N.mod_small by done. done.
  - apply N.ltb_ge in E. destruct fuel as [|fuel].
    { cbn in Hn. lia. }
    rewrite IH.
    + cbn [parse_digits]. rewrite digit_value_digit by done. f_equal.
      rewrite (N.div_mod' n 10) at 3. lia.
    + apply N.Div0.div_lt_upper_bound. rewrite (Nat2N.inj_succ (S fuel)), N.pow_succ_r' in Hn.
      lia.
    + lia.
    + lia.
Qed.

Lemma size_nat_bound n : n < 2 ^ N.of_nat (S (N.size_nat n)).
Proof.
  rewrite Nat2N.inj_succ, N.pow_succ_r'. pose proof (N.size_gt n).
  assert (N.of_nat (N.size_nat n) = N.size n) as ->; [|lia].
  destruct n as [|p]; [done|]. cbn. clear. induction p; cbn; lia.
Qed.

Lemma format_fuel_cons fuel n acc :
  (0 < fuel)%nat → ∃ c s, format_fuel fuel n acc = String c s.
Proof.
  revert n acc. induction fuel as [|fuel IH]; intros n acc Hf; [lia|]. cbn [format_fuel].
  destruct (n <? 10); [by eauto|]. destruct fuel as [|fuel]; [by cbn; eauto|].
  apply IH. lia.
Qed.

Lemma ParseUint_FormatUint n bits : n < 2 ^ bits → ParseUint (FormatUint n) bits = Some n.
Proof.
  intros Hn. unfold FormatUint.
  destruct (format_fuel_cons (S (N.size_nat n)) n "") as (c & s & E); [lia|].
  unfold ParseUint. rewrite E, <-E, parse_format_fuel; [|apply size_nat_bound|lia|lia].
  cbn [parse_digits]. by apply N.ltb_lt in Hn as ->.
Qed.

Lemma FormatUint_inj a b : FormatUint a = FormatUint b → a = b.
Proof.
  intros H. set (k := N.max (N.size a) (N.size b)).
  assert (∀ x, N.size x <= k → x < 2 ^ k) as Hk.
  { intros x Hx. eapply N.lt_le_trans; [apply N.size_gt|].
    apply N.pow_le_mono_r; [done|lia]. }
  pose proof (ParseUint_FormatUint a k (Hk a ltac:(lia))) as Ha.
  rewrite H, (ParseUint_FormatUint b k (Hk b ltac:(lia))) in Ha. congruence.
Qed.

Lemma lacks_format_fuel fuel n acc c :
  (∀ d, d < 10 → digit d ≠ c) → lacks acc c = true →
  lacks (format_fuel fuel n acc) c = true.
Proof.
  intros Hc. revert n acc. induction fuel as [|fuel IH]; intros n acc Hacc; [done|].
  cbn [format_fuel]. pose proof (N.mod_lt n 10 ltac:(done)) as Hm.
  assert (lacks (String (digit (n mod 10)) acc) c = true) as H.
  { cbn [lacks]. rewrite Hacc, bool_decide_eq_false_2; [done|]. by apply Hc. }
  destruct (n <? 10); [done|]. by apply IH.
Qed.

Lemma proper_seg_FormatUint n : proper_seg (FormatUint n) = true.
Proof.
  assert (lacks (FormatUint n) "/" = true) as Hs.
  { apply lacks_format_fuel; [|done]. intros d Hd. by apply digit_not_slash. }
  assert (lacks (FormatUint n) "." = true) as Hd.
  { apply lacks_format_fuel; [|done]. intros d Hd. by apply digit_not_slash. }
  apply proper_seg_spec. split_and!; [| | |done].
  - unfold FormatUint. destruct (format_fuel_cons (S (N.size_nat n)) n "") as (c&s&->);
      [lia|done].
  - intros H. by rewrite H in Hd.
  - intros H. by rewrite H in Hd.
Qed.

Lemma ParseUint_bound s bits n : ParseUint s bits = Some n → n < 2 ^ bits.
Proof.
  unfold ParseUint. destruct s; [done|]. destruct (parse_digits _ _); [|done].
  destruct (_ <? _) eqn:E; [|done]. intros [= <-]. by apply N.ltb_lt.
Qed.
End Decimal.

(** Side conditions that all segments of a path are proper. *)
Ltac solve_segs := repeat constructor; try done; apply proper_seg_FormatUint.


#[export] Hint Resolve proper_seg_FormatUint HasPrefix_self HasPrefix_app HasSuffix_app : flow.

(** ** Map iteration and sorting *)

Lemma string_less_strict_weak : strict_weak string_less.
Proof.
  unfold string_less. split.
  - intros x y H%negb_true_iff. apply negb_false_iff.
    destruct (String.leb_total x y) as [|Hl]; [done|]. congruence.
  - intros x y z H1%negb_false_iff H2%negb_false_iff. apply negb_false_iff.
    apply Is_true_true. apply Is_true_true in H1, H2.
    exact (transitivity (R := String.le) H1 H2).
Qed.

Lemma strict_weak_on {A B} (f : A → B) (less : B → B → bool) :
  strict_weak less → strict_weak (λ x y, less (f x) (f y)).
Proof. intros [H1 H2]. split; eauto. Qed.

(** Two sorted permutations are equal when only equal elements tie. *)
Lemma sorted_by_unique {A} (less : A → A → bool) (l k : list A) :
  (∀ x y, less x y = false → less y x = false → x = y) →
  l ≡ₚ k → sorted_by less l → sorted_by less k → l = k.
Proof.
  intros Htie Hp Hl Hk. revert k Hp Hk.
  induction Hl as [|x l Hl IH Hx]; intros k Hp Hk; [by apply Permutation_nil_l in Hp|].
  destruct Hk as [|y k Hk Hy]; [by apply Permutation_nil_r in Hp|].
  assert (x = y) as ->.
  { assert (y ∈ x :: l) as Hin by (rewrite Hp; left).
    assert (x ∈ y :: k) as Hin' by (rewrite <-Hp; left).
    apply elem_of_cons in Hin as [->|Hin]; [done|].
    apply elem_of_cons in Hin' as [->|Hin']; [done|].
    rewrite Forall_forall in Hx, Hy. apply Htie; [by apply Hy|by apply Hx]. }
  f_equal. apply IH; [|done]. by apply Permutation_cons_inv in Hp.
Qed.

Lemma string_less_tie a b : string_less a b = false → string_less b a = false → a = b.
Proof.
  unfold string_less. intros H1%negb_false_iff H2%negb_false_iff.
  by apply String.leb_antisym.
Qed.

Lemma sort_Strings_spec `{GoRuntime} (l k : list string) :
  l ≡ₚ k → sort_Strings l = sort_Strings k.
Proof.
  intros Hp. apply (sorted_by_unique string_less); [apply string_less_tie| | |];
    unfold sort_Strings; [|apply sort_slice_sorted, string_less_strict_weak..].
  by rewrite !sort_slice_perm.
Qed.

(** One Go runtime: maps are visited in the order of [map_to_list], sorting is
    a merge sort. *)
Section StdRuntime.
Context {A : Type} (less : A → A → bool).

Definition not_less (x y : A) : Prop := less y x = false.
#[local] Instance not_less_dec : RelDecision not_less.
Proof. intros x y. unfold not_less. apply _. Defined.

Definition std_sort (l : list A) : list A := merge_sort not_less l.

Lemma std_sort_sorted l : strict_weak less → sorted_by less (std_sort l).
Proof.
  intros [Hasym Htrans]. unfold std_sort.
  assert (Transitive not_less).
  { intros x y z H1 H2. unfold not_less in *. by apply (Htrans x y z). }
  assert (Total not_less).
  { intros x y. unfold not_less. destruct (less y x) eqn:E; [|by left].
    right. by apply Hasym. }
  apply StronglySorted_merge_sort; apply _.
Qed.
End StdRuntime.

Definition std_runtime : GoRuntime := {|
  range_map := λ A m, map_to_list m;
  sort_slice := λ A less l, std_sort less l;
  range_map_perm := λ A m, reflexivity _;
  sort_slice_perm := λ A less l, merge_sort_Permutation _ l;
  sort_slice_sorted := λ A less l, std_sort_sorted less l
|}.

(** ** TrimSpace: its results are the strings with no space at either end *)
Section Trim.
Import strings.

Definition no_space_prefix (s : string) : Prop := ∀ sp, sp ∈ space_runes → HasPrefix s sp = false.
Definition no_space_suffix (s : string) : Prop := ∀ sp, sp ∈ space_runes → HasSuffix s sp = false.
Definition trimmed (s : string) : Prop := no_space_prefix s ∧ no_space_suffix s.

(** A space is one ASCII byte or starts with a byte above them. *)
Lemma space_first sp :
  sp ∈ space_runes → ∃ c t, sp = String c t ∧ (t = "" ∨ (128 <= N_of_ascii c)%N).
Proof.
  intros Hsp.
  assert (forallb (λ sp, match sp with
    | EmptyString => false
    | String c t => bool_decide (t = "") || (128 <=? N_of_ascii c)%N
    end) space_runes = true) as Hall by (vm_compute; reflexivity).
  rewrite forallb_forall in Hall. apply list_elem_of_In, Hall in Hsp.
  destruct sp as [|c t]; [done|]. exists c, t. split; [done|].
  apply orb_true_iff in Hsp as [Ht%bool_decide_eq_true|Hc%N.leb_le]; [by left|by right].
Qed.

Lemma trim_right_fuel_spec n s :
  String.length s ≤ n → (∃ t, s = trim_right_fuel n s +:+ t) ∧ no_space_suffix (trim_right_fuel n s).
Proof.
  revert s. induction n as [|n IH]; intros s Hn; cbn [trim_right_fuel].
  - destruct s; [|cbn in Hn; lia]. split; [by exists ""|].
    intros sp (c & t & -> & _)%space_first. done.
  - destruct (list_find _ _) as [[i sp]|] eqn:Hf.
    + apply list_find_Some in Hf as (Hi & Hs & _).
      apply list_elem_of_lookup_2, space_first in Hi as (c & t & Hsp & _).
      apply HasSuffix_spec in Hs as [u ->]. rewrite TrimSuffix_app.
      rewrite append_length, Hsp in Hn. cbn in Hn.
      destruct (IH u) as [[v Hv] Hno]; [lia|]. split; [|done].
      exists (v +:+ sp). by rewrite Hv at 1; rewrite append_assoc.
    + split; [exists ""; by rewrite append_nil_r|]. apply list_find_None in Hf.
      rewrite Forall_forall in Hf. intros sp Hsp. by apply not_true_is_false, Hf.
Qed.

Lemma trim_left_fuel_spec n s :
  String.length s ≤ n → no_space_prefix (trim_left_fuel n s).
Proof.
  revert s. induction n as [|n IH]; intros s Hn; cbn [trim_left_fuel].
  - destruct s; [|cbn in Hn; lia]. intros sp (c & t & -> & _)%space_first. done.
  - destruct (list_find _ _) as [[i sp]|] eqn:Hf.
    + apply list_find_Some in Hf as (Hi & Hs & _).
      apply list_elem_of_lookup_2, space_first in Hi as (c & t & Hsp & _).
      apply HasPrefix_spec in Hs as [u ->]. rewrite TrimPrefix_app.
      rewrite append_length, Hsp in Hn. cbn in Hn. apply IH. lia.
    + apply list_find_None in Hf. rewrite Forall_forall in Hf.
      intros sp Hsp. by apply not_true_is_false, Hf.
Qed.

Lemma TrimSpace_trimmed s : trimmed (TrimSpace s).
Proof.
  unfold TrimSpace, trim_right, trim_left.
  set (l := trim_left_fuel _ s). destruct (trim_right_fuel_spec (String.length l) l) as [[t Ht] Hno];
    [done|]. split; [|done]. intros sp Hsp. apply not_true_is_false. intros [u Hu]%HasPrefix_spec.
  assert (HasPrefix l sp = false) as Hl by (by apply trim_left_fuel_spec).
  apply not_true_iff_false in Hl. apply Hl. rewrite Ht, Hu, append_assoc. apply HasPrefix_app.
Qed.

Lemma TrimSpace_id s : trimmed s → TrimSpace s = s.
Proof.
  intros [Hp Hs]. unfold TrimSpace.
  assert (trim_left s = s) as ->.
  { unfold trim_left. destruct (String.length s); [done|]. cbn [trim_left_fuel].
    destruct (list_find _ _) as [[i sp]|] eqn:Hf; [|done].
    apply list_find_Some in Hf as (Hi%list_elem_of_lookup_2 & Hpre & _).
    by rewrite Hp in Hpre. }
  unfold trim_right. destruct (String.length s); [done|]. cbn [trim_right_fuel].
  destruct (list_find _ _) as [[i sp]|] eqn:Hf; [|done].
  apply list_find_Some in Hf as (Hi%list_elem_of_lookup_2 & Hsuf & _). by rewrite Hs in Hsuf.
Qed.

(** By evaluation on a concrete string. *)
Lemma trimmed_eval s :
  forallb (λ sp, negb (HasPrefix s sp) && negb (HasSuffix s sp)) space_runes = true → trimmed s.
Proof.
  rewrite forallb_forall. intros Hs.
  split; intros sp Hsp%list_elem_of_In%Hs; apply andb_true_iff in Hsp as [Hp Hq];
    by apply negb_true_iff.
Qed.

(** ASCII text that starts with no space, before trimmed text. *)
Fixpoint ascii_only (s : string) : bool :=
  match s with
  | EmptyString => true
  | String c s => (N_of_ascii c <? 128)%N && ascii_only s
  end.

Lemma trimmed_app c p v :
  ascii_only (String c p) = true → trimmed (String c "") → trimmed v → v ≠ "" →
  trimmed (String c p +:+ v).
Proof.
  intros Ha [Hc _] [_ Hv] Hne. split.
  - intros sp Hsp. destruct (space_first sp Hsp) as (d & t & -> & Ht).
    apply not_true_is_false. intros [u Hu]%HasPrefix_spec. injection Hu as <- Hu.
    destruct Ht as [->|Ht].
    + apply (Hc _) in Hsp. by rewrite HasPrefix_self in Hsp.
    + cbn [ascii_only] in Ha. apply andb_true_iff in Ha as [Ha _].
      apply N.ltb_lt in Ha. lia.
  - intros sp Hsp. apply not_true_is_false. intros [u Hu]%HasSuffix_spec.
    revert u Hu. generalize (String c p) Ha. clear c p Ha Hc. intros p.
    induction p as [|c p IH]; intros Ha u Hu.
    + rewrite append_nil_l in Hu. subst v. specialize (Hv sp Hsp). by rewrite HasSuffix_app in Hv.
    + cbn [ascii_only] in Ha. apply andb_true_iff in Ha as [Hc Ha]. apply N.ltb_lt in Hc.
      destruct u as [|d u].
      * rewrite append_nil_l in Hu. destruct (space_first sp Hsp) as (d & t & -> & Ht).
        rewrite append_cons in Hu. injection Hu as <- Hu. destruct Ht as [->|Ht]; [|lia].
        apply append_eq_nil in Hu as [_ ->]. done.
      * rewrite !append_cons in Hu. injection Hu as _ Hu. by apply (IH Ha u).
Qed.
End Trim.
