(* ===== verification/Prog.v ===== *)
(** * Programs that call out

    The control plane's functions call etcd, the Kubernetes API server, the
    work queue, the clock and the file system.  A function is modelled as a
    [prog E A]: a tree that performs one call [e : E X] at a time, goes on
    with the answer of type [X], and returns an [A].  What a call does is a
    [handler E S] over the state of the world [S].  Several clients of one
    service are a pool of programs whose calls are interleaved by a
    schedule. *)
From S2P Require Import Prelude.

Inductive prog (E : Type → Type) (A : Type) : Type :=
  | Ret (a : A)
  | Vis {X : Type} (e : E X) (k : X → prog E A).
Arguments Ret {E A} a.
Arguments Vis {E A X} e k.

#[export] Instance prog_ret E : MRet (prog E) := λ A a, Ret a.
#[export] Instance prog_bind E : MBind (prog E) := λ A B f,
  fix go (p : prog E A) : prog E B :=
    match p with
    | Ret a => f a
    | Vis e k => Vis e (λ x, go (k x))
    end.
#[export] Instance prog_fmap E : FMap (prog E) := λ A B f p, p ≫= λ a, Ret (f a).

Definition call {E X} (e : E X) : prog E X := Vis e Ret.

(** Early return on error: the rest of the function runs on [Ok]. *)
Definition try_bind {E A B} (p : prog E (result A)) (k : A → prog E (result B)) :
    prog E (result B) :=
  p ≫= λ r, match r with Ok a => k a | Err e => Ret (Err e) end.

Notation "x ←? p ; q" := (try_bind p (λ x, q))
  (at level 20, p at level 100, q at level 200, only parsing) : stdpp_scope.
Notation "' x ←? p ; q" := (try_bind p (λ x, q))
  (at level 20, x pattern, p at level 100, q at level 200, only parsing) : stdpp_scope.

(** A [for] loop over a list, threading an accumulator. *)
Fixpoint for_each {E A B} (l : list B) (body : A → B → prog E A) (a : A) : prog E A :=
  match l with
  | [] => Ret a
  | b :: l => a ← body a b; for_each l body a
  end.

(** ** Handlers and runs *)

Definition handler (E : Type → Type) (S : Type) := ∀ X, E X → S → X * S.

Fixpoint run {E S A} (h : handler E S) (p : prog E A) (s : S) : A * S :=
  match p with
  | Ret a => (a, s)
  | Vis e k => run h (k (h _ e s).1) (h _ e s).2
  end.

(** The calls a run makes, in order. *)
Fixpoint trace {E S A} (h : handler E S) (p : prog E A) (s : S) : list {X & E X} :=
  match p with
  | Ret _ => []
  | Vis e k => existT _ e :: trace h (k (h _ e s).1) (h _ e s).2
  end.

(** The calls with their answers. *)
Fixpoint history {E S A} (h : handler E S) (p : prog E A) (s : S) : list {X & (E X * X)%type} :=
  match p with
  | Ret _ => []
  | Vis e k => existT _ (e, (h _ e s).1) :: history h (k (h _ e s).1) (h _ e s).2
  end.

(** Two families of calls side by side, and programs of one family used in
    the larger one. *)
Variant sumE (E F : Type → Type) (X : Type) : Type :=
  | inlE (e : E X)
  | inrE (f : F X).
Arguments inlE {E F X} e.
Arguments inrE {E F X} f.

Fixpoint translate {E F A} (f : ∀ X, E X → F X) (p : prog E A) : prog F A :=
  match p with
  | Ret a => Ret a
  | Vis e k => Vis (f _ e) (λ x, translate f (k x))
  end.

Definition liftL {E F A} (p : prog E A) : prog (sumE E F) A := translate (λ X e, inlE e) p.
Definition liftR {E F A} (p : prog F A) : prog (sumE E F) A := translate (λ X e, inrE e) p.

Definition sum_handler {E F S T} (h : handler E S) (g : handler F T) :
    handler (sumE E F) (S * T) := λ X e st,
  match e with
  | inlE e => let '(x, s) := h X e st.1 in (x, (s, st.2))
  | inrE f => let '(x, t) := g X f st.2 in (x, (st.1, t))
  end.

(** ** Interleaved clients *)

Definition pool_step {E S A} (h : handler E S) (i : nat)
    (c : S * list (prog E A)) : S * list (prog E A) :=
  match c.2 !! i with
  | Some (Vis e k) => ((h _ e c.1).2, <[i := k (h _ e c.1).1]> c.2)
  | _ => c
  end.

Definition run_schedule {E S A} (h : handler E S) (sched : list nat)
    (c : S * list (prog E A)) : S * list (prog E A) :=
  foldl (λ c i, pool_step h i c) c sched.

(** ** Weakest preconditions *)

Definition wp {E S A} (h : handler E S) (p : prog E A) (s : S)
    (Φ : A → S → Prop) : Prop := Φ (run h p s).1 (run h p s).2.

Section Facts.
Context {E : Type → Type} {S : Type} (h : handler E S).

Lemma run_bind {A B} (p : prog E A) (k : A → prog E B) s :
  run h (p ≫= k) s = run h (k (run h p s).1) (run h p s).2.
Proof. revert s. induction p as [a|X e q IH]; intros s; [done|]. apply IH. Qed.

Lemma trace_bind {A B} (p : prog E A) (k : A → prog E B) s :
  trace h (p ≫= k) s = trace h p s ++ trace h (k (run h p s).1) (run h p s).2.
Proof.
  revert s. induction p as [a|X e q IH]; intros s; [done|].
  cbn. f_equal. apply IH.
Qed.

Lemma history_bind {A B} (p : prog E A) (k : A → prog E B) s :
  history h (p ≫= k) s = history h p s ++ history h (k (run h p s).1) (run h p s).2.
Proof.
  revert s. induction p as [a|X e q IH]; intros s; [done|].
  cbn. f_equal. apply IH.
Qed.

Lemma wp_ret {A} (a : A) s Φ : Φ a s → wp h (Ret a) s Φ.
Proof. done. Qed.

Lemma wp_bind {A B} (p : prog E A) (k : A → prog E B) s Φ :
  wp h p s (λ a s', wp h (k a) s' Φ) → wp h (p ≫= k) s Φ.
Proof. unfold wp. by rewrite run_bind. Qed.

Lemma wp_vis {A X} (e : E X) (k : X → prog E A) s Φ :
  (∀ x s', h X e s = (x, s') → wp h (k x) s' Φ) → wp h (Vis e k) s Φ.
Proof. intros H. apply H. by destruct (h X e s). Qed.

Lemma wp_call {X} (e : E X) s (Φ : X → S → Prop) :
  (∀ x s', h X e s = (x, s') → Φ x s') → wp h (call e) s Φ.
Proof. intros H. apply wp_vis. intros x s' Hx. by apply H. Qed.

Lemma wp_mono {A} (p : prog E A) s (Φ Ψ : A → S → Prop) :
  wp h p s Φ → (∀ a s', Φ a s' → Ψ a s') → wp h p s Ψ.
Proof. unfold wp. eauto. Qed.

Lemma wp_and {A} (p : prog E A) s (Φ Ψ : A → S → Prop) :
  wp h p s Φ → wp h p s Ψ → wp h p s (λ a s', Φ a s' ∧ Ψ a s').
Proof. done. Qed.

Lemma wp_try {A B} (p : prog E (result A)) (k : A → prog E (result B)) s Φ :
  wp h p s (λ r s', match r with
                    | Ok a => wp h (k a) s' Φ
                    | Err e => Φ (Err e) s'
                    end) →
  wp h (try_bind p k) s Φ.
Proof.
  intros H. apply wp_bind. eapply wp_mono; [exact H|]. by intros [a|e] s' ?.
Qed.

Lemma wp_run {A} (p : prog E A) s Φ a s' :
  wp h p s Φ → run h p s = (a, s') → Φ a s'.
Proof. unfold wp. intros H Hr. by rewrite Hr in H. Qed.

Lemma run_wp {A} (p : prog E A) s Φ :
  (∀ a s', run h p s = (a, s') → Φ a s') → wp h p s Φ.
Proof. intros H. unfold wp. apply H. by destruct (run h p s). Qed.

(** A loop keeps an invariant its body keeps. *)
Lemma wp_for_each {A B} (I : list B → A → S → Prop) (l : list B)
    (body : A → B → prog E A) a s :
  I l a s →
  (∀ b l' a s, I (b :: l') a s → wp h (body a b) s (λ a' s', I l' a' s')) →
  wp h (for_each l body a) s (λ a' s', I [] a' s').
Proof.
  intros Hi Hb. revert a s Hi. induction l as [|b l IH]; intros a s Hi; [done|].
  cbn [for_each]. apply wp_bind. eapply wp_mono; [by apply Hb|]. by intros; apply IH.
Qed.
End Facts.

(** ** Confined programs

    Every call the program can make satisfies [P]. *)
Inductive confined {E : Type → Type} (P : ∀ X, E X → Prop) {A} : prog E A → Prop :=
  | confined_ret a : confined P (Ret a)
  | confined_vis X (e : E X) k : P X e → (∀ x, confined P (k x)) → confined P (Vis e k).

Section Confined.
Context {E : Type → Type} (P : ∀ X, E X → Prop).

Lemma confined_bind {A B} (p : prog E A) (k : A → prog E B) :
  confined P p → (∀ a, confined P (k a)) → confined P (p ≫= k).
Proof. intros Hp Hk. induction Hp; cbn; [done|]. by constructor. Qed.

Lemma confined_inv {A} (p : prog E A) :
  confined P p → match p with Ret _ => True | Vis e k => P _ e ∧ ∀ x, confined P (k x) end.
Proof. by destruct 1. Qed.

Lemma confined_try {A B} (p : prog E (result A)) (k : A → prog E (result B)) :
  confined P p → (∀ a, confined P (k a)) → confined P (try_bind p k).
Proof. intros Hp Hk. apply confined_bind; [done|]. intros [a|e]; [done|constructor]. Qed.

Lemma confined_call {X} (e : E X) : P X e → confined P (call e).
Proof. intros. constructor; [done|]. constructor. Qed.

Lemma confined_for_each {A B} (l : list B) (body : A → B → prog E A) a :
  (∀ a b, confined P (body a b)) → confined P (for_each l body a).
Proof.
  intros Hb. revert a. induction l as [|b l IH]; intros a; [constructor|].
  cbn. by apply confined_bind.
Qed.

Lemma confined_translate {F A} (f : ∀ X, F X → E X) (p : prog F A) :
  confined (λ X e, P X (f X e)) p → confined P (translate f p).
Proof. induction 1; cbn; by constructor. Qed.

Lemma confined_all {A} (p : prog E A) : (∀ X e, P X e) → confined P p.
Proof. intros HP. induction p; by constructor. Qed.

Lemma confined_mono (P' : ∀ X, E X → Prop) {A} (p : prog E A) :
  confined P p → (∀ X e, P X e → P' X e) → confined P' p.
Proof. intros Hp HP. induction Hp; constructor; auto. Qed.

Lemma confined_trace {A S} (h : handler E S) (p : prog E A) s :
  confined P p → Forall (λ c, P (projT1 c) (projT2 c)) (trace h p s).
Proof. intros Hp. revert s. induction Hp; intros s; by constructor. Qed.

Lemma confined_history {A S} (h : handler E S) (p : prog E A) s :
  confined P p → Forall (λ c, P (projT1 c) (projT2 c).1) (history h p s).
Proof. intros Hp. revert s. induction Hp; intros s; by constructor. Qed.
End Confined.

(** ** Weakest preconditions with the calls made and their answers *)

Definition wph {E S A} (h : handler E S) (p : prog E A) (s : S)
    (Φ : A → S → list {X & (E X * X)%type} → Prop) : Prop :=
  Φ (run h p s).1 (run h p s).2 (history h p s).

Section Histories.
Context {E : Type → Type} {S : Type} (h : handler E S).

Lemma wph_ret {A} (a : A) s Φ : Φ a s [] → wph h (Ret a) s Φ.
Proof. done. Qed.

Lemma wph_bind {A B} (p : prog E A) (k : A → prog E B) s Φ :
  wph h p s (λ a s1 l1, wph h (k a) s1 (λ b s2 l2, Φ b s2 (l1 ++ l2))) → wph h (p ≫= k) s Φ.
Proof. unfold wph. by rewrite run_bind, history_bind. Qed.

Lemma wph_call {X} (e : E X) s (Φ : X → S → list {X & (E X * X)%type} → Prop) :
  (∀ x s', h X e s = (x, s') → Φ x s' [existT X (e, x)]) → wph h (call e) s Φ.
Proof. intros HΦ. unfold wph. cbn. apply HΦ. by destruct (h X e s). Qed.

Lemma wph_mono {A} (p : prog E A) s (Φ Ψ : A → S → list {X & (E X * X)%type} → Prop) :
  wph h p s Φ → (∀ a s' l, Φ a s' l → Ψ a s' l) → wph h p s Ψ.
Proof. unfold wph. eauto. Qed.
End Histories.

(** ** Programs that notice failures

    [bad] says which answers of which calls are failures. *)
Definition any_fault {E : Type → Type} (bad : ∀ X, E X → X → bool)
    (l : list {X & (E X * X)%type}) : bool :=
  existsb (λ c, bad (projT1 c) (projT2 c).1 (projT2 c).2) l.

(** The result is [ok] only if no call failed, and not [ok] only if one did
    or for the reason [P]. *)
Definition notices {E A} (bad : ∀ X, E X → X → bool) (P : Prop) (ok : A → bool)
    (p : prog E A) : Prop :=
  ∀ S (h : handler E S) s,
    if ok (run h p s).1 then any_fault bad (history h p s) = false
    else P ∨ any_fault bad (history h p s) = true.

Section Notices.
Context {E : Type → Type} (bad : ∀ X, E X → X → bool) (P : Prop).

Lemma any_fault_app l k : any_fault bad (l ++ k) = any_fault bad l || any_fault bad k.
Proof. apply existsb_app. Qed.

Lemma faultless {A S} (h : handler E S) (p : prog E A) s :
  confined (λ X e, ∀ x, bad X e x = false) p → any_fault bad (history h p s) = false.
Proof.
  intros Hp. apply (confined_history _ h p s) in Hp. unfold any_fault.
  induction Hp as [|[X [e x]] l Hx _ IH]; [done|]. cbn in *. by rewrite Hx.
Qed.

Lemma notices_ret {A} (ok : A → bool) a : (ok a = false → P) → notices bad P ok (Ret a).
Proof. intros Ha S h s. cbn. destruct (ok a); [done|]. left. by apply Ha. Qed.

Lemma notices_call {X} (ok : X → bool) (e : E X) :
  (∀ x, bad X e x = negb (ok x)) → notices bad P ok (call e).
Proof. intros Hb S h s. cbn. rewrite Hb. destruct (ok _); cbn; [done|by right]. Qed.

(** A step that cannot fail. *)
Lemma notices_quiet {A B} (ok : B → bool) (p : prog E A) k :
  confined (λ X e, ∀ x, bad X e x = false) p → (∀ a, notices bad P ok (k a)) →
  notices bad P ok (p ≫= k).
Proof.
  intros Hp Hk S h s. rewrite run_bind, history_bind, any_fault_app, faultless by done. apply Hk.
Qed.

Lemma notices_bind {A B} (ok1 : A → bool) (ok : B → bool) (p : prog E A) k :
  notices bad P ok1 p → (∀ a, ok1 a = true → notices bad P ok (k a)) →
  (∀ a, ok1 a = false → ∀ S (h : handler E S) s, ok (run h (k a) s).1 = false) →
  notices bad P ok (p ≫= k).
Proof.
  intros Hp Hk He S h s. rewrite run_bind, history_bind, any_fault_app.
  specialize (Hp S h s). destruct (ok1 (run h p s).1) eqn:Hok.
  - rewrite Hp. apply (Hk _ Hok).
  - rewrite (He _ Hok). destruct Hp as [?|Hp]; [by left|right]. by rewrite Hp.
Qed.

Lemma notices_try {A B} (p : prog E (result A)) (k : A → prog E (result B)) :
  notices bad P is_ok p → (∀ a, notices bad P is_ok (k a)) → notices bad P is_ok (try_bind p k).
Proof.
  intros Hp Hk. eapply notices_bind; [exact Hp| |]; by intros [a|e].
Qed.

Lemma notices_translate {F A} (f : ∀ X, F X → E X) (ok : A → bool) (p : prog F A) :
  notices (λ X e, bad X (f X e)) P ok p → notices bad P ok (translate f p).
Proof.
  intros Hp S h s. specialize (Hp S (λ X e, h X (f X e)) s).
  assert (run h (translate f p) s = run (λ X e, h X (f X e)) p s ∧
    any_fault bad (history h (translate f p) s) =
    any_fault (λ X e, bad X (f X e)) (history (λ X e, h X (f X e)) p s)) as [-> ->]; [|done].
  clear Hp. revert s. induction p as [a|X e k IH]; intros s; [done|]. cbn.
  destruct (IH (h X (f X e) s).1 (h X (f X e) s).2) as [-> H2]. split; [done|].
  unfold any_fault in H2 |- *. cbn. by rewrite H2.
Qed.
End Notices.

(** ** Program equivalence: the same result and state under every handler *)

#[export] Instance prog_equiv E A : Equiv (prog E A) := λ p q,
  ∀ (S : Type) (h : handler E S) s, run h p s = run h q s.

#[export] Instance prog_equivalence E A : Equivalence (≡@{prog E A}).
Proof.
  split.
  - by intros p S h s.
  - by intros p q H S h s.
  - intros p q r H1 H2 S h s. by rewrite H1.
Qed.

#[export] Instance bind_proper E A B :
  Proper (pointwise_relation A (≡) ==> (≡@{prog E A}) ==> (≡@{prog E B})) mbind.
Proof. intros f g Hf p q Hp S h s. by rewrite !run_bind, Hp, Hf. Qed.

Lemma bind_ret_l {E A B} (a : A) (k : A → prog E B) : mret a ≫= k ≡ k a.
Proof. done. Qed.

Lemma bind_ret_r {E A} (p : prog E A) : p ≫= mret ≡ p.
Proof. intros S h s. rewrite run_bind. cbn. by destruct (run h p s). Qed.

Lemma bind_bind {E A B C} (p : prog E A) (f : A → prog E B) (g : B → prog E C) :
  (p ≫= f) ≫= g ≡ p ≫= λ a, f a ≫= g.
Proof. intros S h s. by rewrite !run_bind. Qed.

(** ** Lifting *)

(** A translated program runs as the program with the calls renamed. *)
Lemma run_translate {E F S A} (h : handler F S) (f : ∀ X, E X → F X) (p : prog E A) s :
  run h (translate f p) s = run (λ X e, h X (f X e)) p s.
Proof. revert s. induction p as [a|X e k IH]; intros s; [done|]. apply IH. Qed.

Lemma wp_translate {E F S A} (h : handler F S) (f : ∀ X, E X → F X) (p : prog E A) s Φ :
  wp (λ X e, h X (f X e)) p s Φ → wp h (translate f p) s Φ.
Proof. unfold wp. by rewrite run_translate. Qed.

Section Lifting.
Context {E F : Type → Type} {S T : Type} (h : handler E S) (g : handler F T).

Lemma run_liftL {A} (p : prog E A) s t :
  run (sum_handler h g) (liftL p) (s, t) = ((run h p s).1, ((run h p s).2, t)).
Proof.
  revert s. induction p as [a|X e k IH]; intros s; [done|]. cbn.
  destruct (h X e s) as [x s']. apply IH.
Qed.

Lemma run_liftR {A} (p : prog F A) s t :
  run (sum_handler h g) (liftR p) (s, t) = ((run g p t).1, (s, (run g p t).2)).
Proof.
  revert t. induction p as [a|X e k IH]; intros t; [done|]. cbn.
  destruct (g X e t) as [x t']. apply IH.
Qed.

Lemma wp_liftL {A} (p : prog E A) s t (Φ : A → S * T → Prop) :
  wp h p s (λ a s', Φ a (s', t)) → wp (sum_handler h g) (liftL p) (s, t) Φ.
Proof. unfold wp. by rewrite run_liftL. Qed.

Lemma wp_liftR {A} (p : prog F A) s t (Φ : A → S * T → Prop) :
  wp g p t (λ a t', Φ a (s, t')) → wp (sum_handler h g) (liftR p) (s, t) Φ.
Proof. unfold wp. by rewrite run_liftR. Qed.
End Lifting.

(** Symbolic execution of a program up to its next call. *)
Ltac wp_step :=
  lazymatch goal with
  | |- wp _ (try_bind _ _) _ _ => apply wp_try
  | |- wp _ (_ ≫= _) _ _ => apply wp_bind
  | |- wp _ (Ret _) _ _ => apply wp_ret
  | |- wp _ (mret _) _ _ => apply wp_ret
  | |- wp _ (match ?x with _ => _ end) _ _ => destruct x eqn:?
  | |- wp _ (if ?x then _ else _) _ _ => destruct x eqn:?
  end.

(** Walks through a program down to its calls. *)
Ltac confined_step :=
  lazymatch goal with
  | |- confined _ (Ret _) => constructor
  | |- confined _ (try_bind _ _) => apply confined_try; [|intros ?]
  | |- confined _ (_ ≫= _) => apply confined_bind; [|intros ?]
  | |- confined _ (_ <$> _) => apply confined_bind; [|intros ?; constructor]
  | |- confined _ (for_each _ _ _) => apply confined_for_each; intros ? ?
  | |- confined _ (call _) => apply confined_call
  | |- confined _ (translate _ _) => apply confined_translate
  | |- confined _ (match ?x with _ => _ end) => destruct x
  | |- confined _ (let _ := _ in _) => cbv zeta
  end.
