(* ===== verification/Goroutines.v ===== *)
(** * Goroutines: pools of programs and endless loops

    A [routine] is a goroutine: a program, or a [for] loop without end whose
    body says whether to go on, followed by what is deferred.  A pool of
    routines shares a state; a step is one call of one routine, by a
    semantics that may have no answer in a state (the call blocks) or several
    (a clock, a [select]), or a step of the environment.  The log of a run
    has an entry for every call [note] reports, with the routine that made
    it.  Two things are proved once for all pools: a routine that follows a
    protocol in its code follows it in every log, and a pool whose routines
    can only go down a well-founded order cannot run forever. *)
From S2P Require Import Prelude Prog.

(** Each call of a program replaced by a program that carries it out. *)
Fixpoint interp {E F A} (f : ∀ X, E X → prog F X) (p : prog E A) : prog F A :=
  match p with
  | Ret a => Ret a
  | Vis e k => f _ e ≫= λ x, interp f (k x)
  end.

Lemma run_interp_bind {E F A B S} (f : ∀ X, E X → prog F X) (h : handler F S) (p : prog E A)
    (k : A → prog E B) s :
  run h (interp f (p ≫= k)) s =
    run h (interp f (k (run h (interp f p) s).1)) (run h (interp f p) s).2.
Proof.
  revert s. induction p as [a|X e q IH]; intros s; [done|].
  change (interp f (Vis e q ≫= k)) with (f X e ≫= λ x, interp f (q x ≫= k)).
  cbn [interp]. rewrite !run_bind. apply IH.
Qed.

(** A number of rounds of a loop whose body says whether to go on. *)
Fixpoint loop_rounds {E} (body : prog E bool) (rounds : nat) : prog E unit :=
  match rounds with
  | 0 => Ret tt
  | S rounds => again ← body; if (again : bool) then loop_rounds body rounds else Ret tt
  end.

Inductive routine (E : Type → Type) :=
  | Straight (p : prog E unit)
  | Loop (body current : prog E bool) (after : prog E unit).
Arguments Straight {E} p.
Arguments Loop {E} body current after.

Definition finished {E} (r : routine E) : Prop := r = Straight (Ret tt).

(** ** Steps *)
Section Pools.
Context {E : Type → Type} {S L : Type}.
Context (sem : ∀ X, E X → S → X → S → Prop) (env : S → S → Prop) (note : ∀ X, E X → X → option L).

Definition rstep (s : S) (r : routine E) (o : option L) (s' : S) (r' : routine E) : Prop :=
  match r with
  | Straight (Ret _) => False
  | Straight (Vis e k) =>
      ∃ x, sem _ e s x s' ∧ o = note _ e x ∧ r' = Straight (k x)
  | Loop body (Vis e k) after =>
      ∃ x, sem _ e s x s' ∧ o = note _ e x ∧ r' = Loop body (k x) after
  | Loop body (Ret again) after =>
      s' = s ∧ o = None ∧ r' = if (again : bool) then Loop body body after else Straight after
  end.

Definition pool : Type := S * list (routine E).

(** The second component is the entry of the log, if any. *)
Inductive pstep : pool → list (nat * L) → pool → Prop :=
  | pstep_go s rs i r o s' r' :
      rs !! i = Some r → rstep s r o s' r' →
      pstep (s, rs) (option_list (pair i <$> o)) (s', <[i := r']> rs)
  | pstep_env s s' rs : env s s' → pstep (s, rs) [] (s', rs).

Inductive reaches (c : pool) : list (nat * L) → pool → Prop :=
  | reaches_nil : reaches c [] c
  | reaches_snoc log c1 entry c2 :
      reaches c log c1 → pstep c1 entry c2 → reaches c (log ++ entry) c2.

(** Some step. *)
Definition steps (c c' : pool) : Prop := ∃ entry, pstep c entry c'.

Lemma reaches_steps c log c1 c2 : reaches c log c1 → rtc steps c1 c2 → ∃ log', reaches c log' c2.
Proof.
  intros Hr Hs. revert log Hr. induction Hs as [|x y z [o Hxy] _ IH]; intros log Hr; [by eexists|].
  eapply IH. by econstructor.
Qed.

(** An invariant of the steps is one of the runs. *)
Lemma reaches_invariant (P : pool → Prop) c log c' :
  P c → (∀ c1 entry c2, P c1 → pstep c1 entry c2 → P c2) → reaches c log c' → P c'.
Proof. intros Hc Hstep. induction 1; eauto. Qed.

(** ** Protocols *)
Section Protocol.
Context {P : Type} (idle : P) (move : P → L → option P).

Definition advance (φ : P) {X} (e : E X) (x : X) : option P :=
  match note X e x with None => Some φ | Some a => move φ a end.

(** From phase [φ] the program makes only moves the protocol has, and ends
    with a result and a phase in [Φ]. *)
Fixpoint obeys {A} (φ : P) (p : prog E A) (Φ : A → P → Prop) : Prop :=
  match p with
  | Ret a => Φ a φ
  | Vis e k => ∀ x, ∃ φ', advance φ e x = Some φ' ∧ obeys φ' (k x) Φ
  end.

Lemma obeys_bind {A B} φ (p : prog E A) (k : A → prog E B) Φ :
  obeys φ (p ≫= k) Φ ↔ obeys φ p (λ a ψ, obeys ψ (k a) Φ).
Proof.
  revert φ. induction p as [a|X e q IH]; intros φ; [done|].
  split; intros H x; destruct (H x) as (φ' & Ha & Hb); exists φ'; (split; [done|]); by apply IH.
Qed.

Lemma obeys_mono {A} φ (p : prog E A) (Φ Ψ : A → P → Prop) :
  obeys φ p Φ → (∀ a ψ, Φ a ψ → Ψ a ψ) → obeys φ p Ψ.
Proof.
  intros Hp HΦ. revert φ Hp. induction p as [a|X e q IH]; intros φ Hp; [by apply HΦ|].
  intros x. destruct (Hp x) as (φ' & Ha & Hb). exists φ'. split; [done|]. by apply IH.
Qed.

Lemma obeys_interp_bind {F A B} (f : ∀ X, F X → prog E X) φ (p : prog F A) (k : A → prog F B) Φ :
  obeys φ (interp f p) (λ a ψ, obeys ψ (interp f (k a)) Φ) → obeys φ (interp f (p ≫= k)) Φ.
Proof.
  revert φ. induction p as [a|X e q IH]; intros φ H; [done|].
  cbn [interp] in *. apply (proj1 (obeys_bind _ _ _ _)) in H. apply (proj2 (obeys_bind _ _ _ _)). eapply obeys_mono; [exact H|].
  intros x ψ. apply IH.
Qed.

Definition robeys (φ : P) (r : routine E) : Prop :=
  match r with
  | Straight p => obeys φ p (λ _ ψ, ψ = idle)
  | Loop body current after =>
      obeys φ current (λ _ ψ, ψ = idle) ∧ obeys idle body (λ _ ψ, ψ = idle) ∧
      obeys idle after (λ _ ψ, ψ = idle)
  end.

Lemma rstep_obeys s r o s' r' φ :
  rstep s r o s' r' → robeys φ r →
  ∃ φ', match o with None => Some φ | Some a => move φ a end = Some φ' ∧ robeys φ' r'.
Proof.
  destruct r as [[u|X e k]|body [again|X e k] after]; cbn.
  - done.
  - intros (x & _ & -> & ->) Ho. exact (Ho x).
  - intros (_ & -> & ->) (-> & Hb & Ha). exists idle. by destruct again.
  - intros (x & _ & -> & ->) (Ho & Hb & Ha). destruct (Ho x) as (φ' & Hm & Hk). by exists φ'.
Qed.

(** The phase of routine [i] by the log; [None] once it broke the protocol. *)
Definition phase_step (i : nat) (φ : option P) (entry : nat * L) : option P :=
  if decide (entry.1 = i) then φ ≫= λ φ, move φ entry.2 else φ.

Definition phase (log : list (nat * L)) (i : nat) : option P := foldl (phase_step i) (Some idle) log.

Lemma phase_snoc log entry i : phase (log ++ [entry]) i = phase_step i (phase log i) entry.
Proof. unfold phase. by rewrite foldl_app. Qed.

Lemma phase_other log i j a : i ≠ j → phase (log ++ [(j, a)]) i = phase log i.
Proof. intros Hij. rewrite phase_snoc. unfold phase_step. cbn. by case_decide. Qed.

Lemma phase_own log i a : phase (log ++ [(i, a)]) i = phase log i ≫= λ φ, move φ a.
Proof. rewrite phase_snoc. unfold phase_step. cbn. by case_decide. Qed.

(** Routines that follow the protocol in their code follow it in every log. *)
Lemma reaches_obeys s rs log c :
  Forall (robeys idle) rs → reaches (s, rs) log c →
  ∀ i r, c.2 !! i = Some r → ∃ φ, phase log i = Some φ ∧ robeys φ r.
Proof.
  intros Hrs Hr. induction Hr as [|log c1 entry c2 _ IH Hstep]; intros i r Hi.
  { exists idle. split; [done|]. by eapply Forall_lookup_1. }
  destruct Hstep as [s1 rs1 j r1 o s2 r2 Hj Hstep|]; cbn [snd] in *; [|rewrite app_nil_r; by apply IH].
  destruct (decide (i = j)) as [->|Hij].
  - rewrite list_lookup_insert_eq in Hi by by eapply lookup_lt_Some. injection Hi as <-.
    destruct (IH _ _ Hj) as (φ & Hφ & Ho). destruct (rstep_obeys _ _ _ _ _ _ Hstep Ho) as (φ' & Hm & Ho').
    exists φ'. split; [|done]. destruct o as [a|]; cbn; [by rewrite phase_own, Hφ|].
    rewrite app_nil_r, Hφ. exact Hm.
  - rewrite list_lookup_insert_ne in Hi by done. destruct (IH _ _ Hi) as (φ & Hφ & Ho).
    exists φ. split; [|done]. destruct o as [a|]; cbn; [by rewrite phase_other|by rewrite app_nil_r].
Qed.
End Protocol.

(** ** Running out of steps

    [R] orders the routines: [R r' r] when [r] may become [r']. *)
Section Order.
Context (R : routine E → routine E → Prop).

Inductive one_down : list (routine E) → list (routine E) → Prop :=
  one_down_at rs i r r' : rs !! i = Some r → R r' r → one_down (<[i := r']> rs) rs.

Lemma one_down_cons r rs rs' :
  one_down rs' (r :: rs) →
  (∃ r', R r' r ∧ rs' = r' :: rs) ∨ (∃ rs1, one_down rs1 rs ∧ rs' = r :: rs1).
Proof.
  inversion 1 as [rs0 [|i] x r' Hi Hx]; subst; cbn in *.
  - injection Hi as <-. left. by eexists.
  - right. eexists. by split; [econstructor|].
Qed.

Lemma acc_one_down rs : Forall (Acc R) rs → Acc one_down rs.
Proof.
  induction rs as [|r rs IH]; intros Hall.
  { constructor. inversion 1 as [? i ? ? Hi]; subst. done. }
  apply Forall_cons in Hall as [Hr Hrs]. specialize (IH Hrs). clear Hrs.
  revert rs IH. induction Hr as [r _ IHr]. intros rs Hrs.
  induction Hrs as [rs Hacc IHrs]. constructor. intros rs' Hd.
  apply one_down_cons in Hd as [(r' & Hr' & ->)|(rs1 & Hrs1 & ->)]; [|by apply IHrs].
  apply IHr; [done|]. by constructor.
Qed.
End Order.

(** [I] is a condition of the state that steps keep and the environment
    respects by doing nothing; [load] is an amount of work in the state, which
    no step adds to.  A routine may make steps that take work off the load;
    without those it must come to an end from the start of its body. *)
Section Termination.
Context (load : S → nat) (I : S → Prop).
Context (HI : ∀ X (e : E X) s x s', I s → sem X e s x s' → I s' ∧ load s' ≤ load s).
Context (Henv : ∀ s s', I s → env s s' → False).

Definition down (r' r : routine E) : Prop :=
  ∃ s o s', I s ∧ rstep s r o s' r' ∧ load s' = load s.

Definition ends (r : routine E) : Prop :=
  match r with
  | Straight _ => True
  | Loop body _ after => Acc down (Loop body body after)
  end.

Lemma acc_straight p : Acc down (Straight p).
Proof.
  induction p as [a|X e k IH]; constructor; intros r' (s & o & s' & _ & Hr & _); [done|].
  destruct Hr as (x & _ & _ & ->). apply IH.
Qed.

Lemma acc_loop body after cur :
  Acc down (Loop body body after) → Acc down (Loop body cur after).
Proof.
  intros Hb. induction cur as [again|X e k IH]; constructor; intros r' (s & o & s' & _ & Hr & _).
  - destruct Hr as (_ & _ & ->). destruct again; [done|apply acc_straight].
  - destruct Hr as (x & _ & _ & ->). apply IH.
Qed.

Lemma ends_acc r : ends r → Acc down r.
Proof. destruct r as [p|body cur after]; [intros _; apply acc_straight|apply acc_loop]. Qed.

Lemma rstep_ends s r o s' r' : rstep s r o s' r' → ends r → ends r'.
Proof.
  destruct r as [[u|X e k]|body [[]|X e k] after]; cbn; [done|..].
  - by intros (x & _ & _ & ->).
  - by intros (_ & _ & ->).
  - by intros (_ & _ & ->).
  - by intros (x & _ & _ & ->).
Qed.

Lemma rstep_load s r o s' r' : rstep s r o s' r' → I s → I s' ∧ load s' ≤ load s.
Proof using HI.
  destruct r as [[u|X e k]|body [again|X e k] after]; cbn; [done|..].
  - intros (x & Hs & _) Hi. by eapply HI.
  - by intros (-> & _).
  - intros (x & Hs & _) Hi. by eapply HI.
Qed.

Lemma reaches_ends s rs log s' rs' :
  Forall ends rs → reaches (s, rs) log (s', rs') → Forall ends rs'.
Proof.
  intros Hends. apply (reaches_invariant (λ c, Forall ends c.2)); [done|].
  intros c1 entry c2 Hc Hstep. destruct Hstep; cbn in *; [|done].
  apply Forall_insert; [done|]. eapply rstep_ends; [done|]. by eapply Forall_lookup_1.
Qed.

(** Every run of the pool comes to an end. *)
Lemma pool_ends s rs : I s → Forall ends rs → sn steps (s, rs).
Proof using HI Henv.
  remember (load s) as n eqn:Hn. revert s rs Hn.
  induction (lt_wf n) as [n _ IHn]. intros s rs Hn Hs Hends.
  assert (Acc (one_down down) rs) as Hacc.
  { apply acc_one_down. eapply Forall_impl; [exact Hends|]. apply ends_acc. }
  revert s Hn Hs Hends. induction Hacc as [rs _ IHrs]. intros s Hn Hs Hends.
  constructor. intros [s' rs'] [entry Hstep].
  inversion Hstep as [s0 rs0 i r o s1 r' Hi Hr|]; subst; [|exfalso; eapply Henv; [exact Hs|done]].
  destruct (rstep_load _ _ _ _ _ Hr Hs) as [Hs' Hl].
  assert (Forall ends (<[i := r']> rs)) as Hends'.
  { apply Forall_insert; [done|]. eapply rstep_ends; [exact Hr|]. by eapply Forall_lookup_1. }
  destruct (decide (load s' = load s)) as [He|He].
  - apply (IHrs (<[i := r']> rs)); [|done..]. econstructor; [exact Hi|]. by exists s, o, s'.
  - apply (IHn (load s')); [lia|done..].
Qed.
End Termination.
End Pools.
