(* ===== verification/Messages.v ===== *)
(** * The protobuf messages of the control plane

    The structs of gen/go/flowpipe/v1: a pointer field or an [optional]
    field is an [option], a repeated field a list, a map field a [gmap].
    proto3 enums are open: a number without a name is kept in the last
    constructor.  Getters are defined on pointers and answer the zero value
    for nil.  uint32 and uint64 are [N], int32 and int64 are [Z]. *)
From S2P Require Import Prelude.

(** ** Enums *)

Inductive CronConcurrencyPolicy :=
  | CRON_CONCURRENCY_POLICY_UNSPECIFIED
  | CRON_CONCURRENCY_POLICY_ALLOW
  | CRON_CONCURRENCY_POLICY_FORBID
  | CRON_CONCURRENCY_POLICY_REPLACE
  | CRON_CONCURRENCY_POLICY_other (n : Z).

Inductive StreamingWorkloadKind :=
  | STREAMING_WORKLOAD_KIND_UNSPECIFIED
  | STREAMING_WORKLOAD_KIND_DEPLOYMENT
  | STREAMING_WORKLOAD_KIND_DAEMONSET
  | STREAMING_WORKLOAD_KIND_other (n : Z).

Inductive ImagePullPolicy :=
  | IMAGE_PULL_POLICY_UNSPECIFIED
  | IMAGE_PULL_POLICY_ALWAYS
  | IMAGE_PULL_POLICY_IF_NOT_PRESENT
  | IMAGE_PULL_POLICY_NEVER
  | IMAGE_PULL_POLICY_other (n : Z).

Inductive RestartPolicy :=
  | RESTART_POLICY_UNSPECIFIED
  | RESTART_POLICY_ALWAYS
  | RESTART_POLICY_ON_FAILURE
  | RESTART_POLICY_NEVER
  | RESTART_POLICY_other (n : Z).

Inductive ExecutionMode :=
  | EXECUTION_MODE_UNSPECIFIED
  | EXECUTION_MODE_STREAMING
  | EXECUTION_MODE_JOB
  | EXECUTION_MODE_other (n : Z).

Inductive InMemorySchemaFormat :=
  | IN_MEMORY_SCHEMA_FORMAT_UNSPECIFIED
  | IN_MEMORY_SCHEMA_FORMAT_ARROW
  | IN_MEMORY_SCHEMA_FORMAT_PROTOBUF
  | IN_MEMORY_SCHEMA_FORMAT_FLATBUFFERS
  | IN_MEMORY_SCHEMA_FORMAT_JSON
  | IN_MEMORY_SCHEMA_FORMAT_other (n : Z).

Inductive QueueType :=
  | QUEUE_TYPE_UNSPECIFIED
  | QUEUE_TYPE_IN_MEMORY
  | QUEUE_TYPE_other (n : Z).

Inductive FlowState :=
  | FLOW_STATE_UNSPECIFIED
  | FLOW_STATE_PENDING
  | FLOW_STATE_DEPLOYING
  | FLOW_STATE_RUNNING
  | FLOW_STATE_SUCCEEDED
  | FLOW_STATE_FAILED
  | FLOW_STATE_STOPPED
  | FLOW_STATE_other (n : Z).

#[export] Instance CronConcurrencyPolicy_eq_dec : EqDecision CronConcurrencyPolicy.
Proof. solve_decision. Defined.
#[export] Instance StreamingWorkloadKind_eq_dec : EqDecision StreamingWorkloadKind.
Proof. solve_decision. Defined.
#[export] Instance ImagePullPolicy_eq_dec : EqDecision ImagePullPolicy.
Proof. solve_decision. Defined.
#[export] Instance RestartPolicy_eq_dec : EqDecision RestartPolicy.
Proof. solve_decision. Defined.
#[export] Instance ExecutionMode_eq_dec : EqDecision ExecutionMode.
Proof. solve_decision. Defined.
#[export] Instance InMemorySchemaFormat_eq_dec : EqDecision InMemorySchemaFormat.
Proof. solve_decision. Defined.
#[export] Instance QueueType_eq_dec : EqDecision QueueType.
Proof. solve_decision. Defined.
#[export] Instance FlowState_eq_dec : EqDecision FlowState.
Proof. solve_decision. Defined.

(** ** google.protobuf.Struct: the opaque configuration of a stage.  A number
    is kept as the bits of its IEEE double. *)

Inductive StructValue :=
  | NullValue
  | NumberValue (bits : Z)
  | StringValue (s : string)
  | BoolValue (b : bool)
  | StructValue_struct (fields : list (string * StructValue))
  | ListValue (values : list StructValue).

Definition Struct : Type := gmap string StructValue.

(** ** Observability overrides (observability.pb.go); enums are numbers *)

Record BatchConfig := {
  bc_MaxQueueSize : N;
  bc_MaxExportBatchSize : N;
  bc_ScheduleDelayMs : N;
  bc_ExportTimeoutMs : N;
}.

Record TracingConfig := {
  tc_TraceHint : Z;
  tc_Processor : Z;
  tc_Batch : option BatchConfig;
  tc_StageSpansEnabled : bool;
  tc_QueueSpansEnabled : bool;
  tc_RecordSpansEnabled : bool;
  tc_AttributeLevel : Z;
  tc_LatencyBudgetMs : N;
}.

Record MetricsConfig := {
  mc_StageMetricsDisabled : bool;
  mc_QueueMetricsDisabled : bool;
  mc_FlowMetricsDisabled : bool;
  mc_LatencyHistogramsDisabled : bool;
  mc_CountersOnly : bool;
  mc_JemallocMetricsDisabled : bool;
  mc_MinCollectionIntervalMs : N;
  mc_CollectionIntervalMs : N;
  mc_LatencyBudgetMs : N;
}.

Record LoggingBatchConfig := {
  lbc_MaxQueueSize : N;
  lbc_MaxExportBatchSize : N;
  lbc_ScheduleDelayMs : N;
  lbc_ExportTimeoutMs : N;
}.

Record LoggingConfig := {
  lc_Processor : Z;
  lc_Batch : option LoggingBatchConfig;
}.

Record ObservabilityConfig := {
  oc_MetricsEnabled : bool;
  oc_TracingEnabled : bool;
  oc_LogsEnabled : bool;
  oc_OtlpEndpoint : string;
  oc_Transport : Z;
  oc_Tracing : option TracingConfig;
  oc_Metrics : option MetricsConfig;
  oc_Logging : option LoggingConfig;
  oc_Debug : bool;
}.

(** ** Flow specification *)

Record Execution := { ex_Mode : ExecutionMode }.

Record StageSpec := {
  ss_Name : string;
  ss_Type : string;
  ss_Threads : N;
  ss_InputQueue : option string;
  ss_OutputQueue : option string;
  ss_Config : option Struct;
  ss_Plugin : option string;
  ss_RealtimePriority : option N;
}.

Record QueueSchema := {
  qsc_Format : InMemorySchemaFormat;
  qsc_SchemaId : string;
  qsc_Version : option N;
  qsc_RegistryUrl : option string;
}.

Record QueueSpec := {
  qs_Name : string;
  qs_Capacity : N;
  qs_Schema : option QueueSchema;
  qs_Type : option QueueType;
}.

Record Resources := {
  re_CpuCores : option N;
  re_MemoryMb : option N;
  re_Profile : option string;
}.

Record CpuSet := { cs_Cpu : list N }.

Record KubernetesSettings := {
  ks_Image : option string;
  ks_ImagePullPolicy : ImagePullPolicy;
  ks_RestartPolicy : RestartPolicy;
  ks_CpuPinning : gmap string CpuSet;
  ks_Resources : option Resources;
}.

Record KubernetesCronOptions := {
  cr_Schedule : string;
  cr_TimeZone : option string;
  cr_Suspend : option bool;
  cr_StartingDeadlineSeconds : option Z;
  cr_ConcurrencyPolicy : CronConcurrencyPolicy;
  cr_SuccessfulJobsHistoryLimit : option Z;
  cr_FailedJobsHistoryLimit : option Z;
}.

Record KubernetesOptions := {
  ko_PodLabels : gmap string string;
  ko_PodAnnotations : gmap string string;
  ko_ServiceAccountName : option string;
  ko_ImagePullSecrets : list string;
  ko_RuntimeClassName : option string;
  ko_StreamingWorkloadKind : StreamingWorkloadKind;
  ko_Cron : option KubernetesCronOptions;
}.

Record FlowSpec := {
  fs_Name : string;
  fs_Version : N;
  fs_Execution : option Execution;
  fs_Stages : list StageSpec;
  fs_Queues : list QueueSpec;
  fs_Labels : gmap string string;
  fs_Observability : option ObservabilityConfig;
  fs_Kubernetes : option KubernetesSettings;
  fs_KubernetesOptions : option KubernetesOptions;
  fs_Env : gmap string string;
}.

(** ** Status and flow *)

(** google.protobuf.Timestamp *)
Record Timestamp := { ts_Seconds : Z; ts_Nanos : Z }.

Record FlowStatus := {
  st_State : FlowState;
  st_Message : string;
  st_ActiveVersion : N;
  st_Workload : string;
  st_LastUpdated : option Timestamp;
}.

Record Flow := {
  fl_Name : string;
  fl_Version : N;
  fl_Spec : option FlowSpec;
  fl_Status : option FlowStatus;
}.

(** Struct assignments [spec.Name = name] and [spec.Version = v]. *)
Definition set_fs_Name (name : string) (spec : FlowSpec) : FlowSpec :=
  Build_FlowSpec name (fs_Version spec) (fs_Execution spec) (fs_Stages spec)
    (fs_Queues spec) (fs_Labels spec) (fs_Observability spec) (fs_Kubernetes spec)
    (fs_KubernetesOptions spec) (fs_Env spec).

Definition set_fs_Version (v : N) (spec : FlowSpec) : FlowSpec :=
  Build_FlowSpec (fs_Name spec) v (fs_Execution spec) (fs_Stages spec)
    (fs_Queues spec) (fs_Labels spec) (fs_Observability spec) (fs_Kubernetes spec)
    (fs_KubernetesOptions spec) (fs_Env spec).

Definition set_fs_Queues_Stages (qs : list QueueSpec) (ss : list StageSpec)
    (spec : FlowSpec) : FlowSpec :=
  Build_FlowSpec (fs_Name spec) (fs_Version spec) (fs_Execution spec) ss
    qs (fs_Labels spec) (fs_Observability spec) (fs_Kubernetes spec)
    (fs_KubernetesOptions spec) (fs_Env spec).

(** The zero value [flowpipev1.FlowSpec{}] with a name. *)
Definition empty_spec (name : string) : FlowSpec :=
  Build_FlowSpec name 0 None [] [] ∅ None None None ∅.

(** ** Getters *)

Definition Flow_GetName (x : option Flow) : string :=
  match x with Some x => fl_Name x | None => "" end.
Definition Flow_GetStatus (x : option Flow) : option FlowStatus :=
  match x with Some x => fl_Status x | None => None end.
Definition FlowSpec_GetName (x : option FlowSpec) : string :=
  match x with Some x => fs_Name x | None => "" end.
Definition FlowSpec_GetVersion (x : option FlowSpec) : N :=
  match x with Some x => fs_Version x | None => 0 end.
Definition FlowSpec_GetKubernetesOptions (x : option FlowSpec) : option KubernetesOptions :=
  match x with Some x => fs_KubernetesOptions x | None => None end.
Definition FlowSpec_GetEnv (x : option FlowSpec) : gmap string string :=
  match x with Some x => fs_Env x | None => ∅ end.
Definition KubernetesCronOptions_GetSchedule (x : option KubernetesCronOptions) : string :=
  match x with Some x => cr_Schedule x | None => "" end.

(** ** Requests and responses (service.pb.go) *)

Record CreateFlowRequest := { cfr_Spec : option FlowSpec }.
Record UpdateFlowRequest := { ufr_Name : string; ufr_Spec : option FlowSpec }.
Record DeleteFlowRequest := { dfr_Name : string }.
Record GetFlowRequest := { gfr_Name : string }.
Record ListFlowsRequest := { }.
Record FlowSummary := { fsum_Name : string; fsum_Status : option FlowStatus }.
Record ListFlowsResponse := { lfr_Flows : list FlowSummary }.
Record GetFlowStatusRequest := { gfsr_Name : string }.
Record RollbackFlowRequest := { rfr_Name : string; rfr_Version : N }.

Record PbSchemaDefinition := {
  psd_SchemaId : string;
  psd_Version : N;
  psd_Format : InMemorySchemaFormat;
  psd_RawSchema : list Byte.byte;
}.

Record CreateSchemaRequest := { csr_Schema : option PbSchemaDefinition }.
Record GetSchemaRequest := { gsr_SchemaId : string; gsr_Version : N }.
Record ListSchemaVersionsRequest := { lsr_SchemaId : string }.
(** The elements of [Schemas] are pointers the service fills in, nil ones too. *)
Record ListSchemaVersionsResponse := { lsr_Schemas : list (option PbSchemaDefinition) }.
Record DeleteSchemaRequest := { dsr_SchemaId : string }.

(** google.protobuf.Empty *)
Record Empty := { }.

(** Getters of the flow messages. *)
Definition CreateFlowRequest_GetSpec (x : option CreateFlowRequest) : option FlowSpec :=
  match x with Some x => cfr_Spec x | None => None end.
Definition UpdateFlowRequest_GetName (x : option UpdateFlowRequest) : string :=
  match x with Some x => ufr_Name x | None => "" end.
Definition UpdateFlowRequest_GetSpec (x : option UpdateFlowRequest) : option FlowSpec :=
  match x with Some x => ufr_Spec x | None => None end.
Definition DeleteFlowRequest_GetName (x : option DeleteFlowRequest) : string :=
  match x with Some x => dfr_Name x | None => "" end.
Definition GetFlowRequest_GetName (x : option GetFlowRequest) : string :=
  match x with Some x => gfr_Name x | None => "" end.
Definition FlowSummary_GetName (x : option FlowSummary) : string :=
  match x with Some x => fsum_Name x | None => "" end.
Definition FlowSummary_GetStatus (x : option FlowSummary) : option FlowStatus :=
  match x with Some x => fsum_Status x | None => None end.
Definition ListFlowsResponse_GetFlows (x : option ListFlowsResponse) : list FlowSummary :=
  match x with Some x => lfr_Flows x | None => [] end.
Definition GetFlowStatusRequest_GetName (x : option GetFlowStatusRequest) : string :=
  match x with Some x => gfsr_Name x | None => "" end.
Definition RollbackFlowRequest_GetName (x : option RollbackFlowRequest) : string :=
  match x with Some x => rfr_Name x | None => "" end.
Definition RollbackFlowRequest_GetVersion (x : option RollbackFlowRequest) : N :=
  match x with Some x => rfr_Version x | None => 0 end.

(** Getters of the schema messages. *)
Definition GetSchemaRequest_GetSchemaId (x : option GetSchemaRequest) : string :=
  match x with Some x => gsr_SchemaId x | None => "" end.
Definition GetSchemaRequest_GetVersion (x : option GetSchemaRequest) : N :=
  match x with Some x => gsr_Version x | None => 0 end.
Definition ListSchemaVersionsRequest_GetSchemaId (x : option ListSchemaVersionsRequest) : string :=
  match x with Some x => lsr_SchemaId x | None => "" end.
Definition ListSchemaVersionsResponse_GetSchemas (x : option ListSchemaVersionsResponse) :
    list (option PbSchemaDefinition) :=
  match x with Some x => lsr_Schemas x | None => [] end.
Definition DeleteSchemaRequest_GetSchemaId (x : option DeleteSchemaRequest) : string :=
  match x with Some x => dsr_SchemaId x | None => "" end.
Definition CreateSchemaRequest_GetSchema (x : option CreateSchemaRequest) :
    option PbSchemaDefinition :=
  match x with Some x => csr_Schema x | None => None end.
Definition SchemaDefinition_GetSchemaId (x : option PbSchemaDefinition) : string :=
  match x with Some x => psd_SchemaId x | None => "" end.
Definition SchemaDefinition_GetVersion (x : option PbSchemaDefinition) : N :=
  match x with Some x => psd_Version x | None => 0 end.
Definition SchemaDefinition_GetFormat (x : option PbSchemaDefinition) : InMemorySchemaFormat :=
  match x with Some x => psd_Format x | None => IN_MEMORY_SCHEMA_FORMAT_UNSPECIFIED end.
Definition SchemaDefinition_GetRawSchema (x : option PbSchemaDefinition) : list Byte.byte :=
  match x with Some x => psd_RawSchema x | None => [] end.

(** ** api/internal/model *)
Record SchemaDefinition := {
  sd_SchemaID : string;
  sd_Version : N;
  sd_Format : InMemorySchemaFormat;
  sd_RawSchema : list Byte.byte;
}.

Definition set_sd_Version (v : N) (s : SchemaDefinition) : SchemaDefinition :=
  Build_SchemaDefinition (sd_SchemaID s) v (sd_Format s) (sd_RawSchema s).
