(* ===== verification/FlowPkg.v ===== *)
(** * pkg/flow: validation, normalisation, diff and fingerprint of flow specs

    [Validate.Validate], [Normalize.Normalize], [Diff.Diff] and
    [Fingerprint.Fingerprint] are the functions of pkg/flow/validate,
    normalize, diff and fingerprint.  Spec slices hold non-nil elements, as
    unmarshalling produces them.  [proto.Marshal] is a call, since equal
    messages may be encoded by different bytes from one time to the next. *)
From S2P Require Import Prelude GoStd GoStdFacts Prog Messages.

(** ** pkg/flow/validate *)
Module Validate.

(** [&Error{field, message}]: the message is [fmt.Sprintf format args]. *)
Definition Error (field format : string) (args : list GoArg) : GoError :=
  FieldErr field format args.

(** The loop over [spec.Queues]; [queueNames] is the set built so far. *)
Fixpoint validate_queues (qs : list QueueSpec) (queueNames : gset string) :
    result (gset string) :=
  match qs with
  | [] => Ok queueNames
  | q :: qs =>
      if bool_decide (qs_Name q = "") then
        Err (Error "queues.name" "queue name is required" [])
      else if bool_decide (qs_Name q ∈ queueNames) then
        Err (Error "queues.name" "duplicate queue name %q" [AStr (qs_Name q)])
      else validate_queues qs ({[qs_Name q]} ∪ queueNames)
  end.

(** The check of an optional queue reference of a stage. *)
Definition validate_ref (queueNames : gset string) (stage field format : string)
    (ref : option string) : option GoError :=
  match ref with
  | Some q =>
      if bool_decide (q ∈ queueNames) then None
      else Some (Error field format [AStr stage; AStr q])
  | None => None
  end.

(** The loop over [spec.Stages]. *)
Fixpoint validate_stages (queueNames : gset string) (stages : list StageSpec)
    (stageNames : gset string) : option GoError :=
  match stages with
  | [] => None
  | s :: stages =>
      if bool_decide (ss_Name s = "") then
        Some (Error "stages.name" "stage name is required" [])
      else if bool_decide (ss_Name s ∈ stageNames) then
        Some (Error "stages.name" "duplicate stage %q" [AStr (ss_Name s)])
      else if bool_decide (ss_Type s = "") then
        Some (Error "stages.type" "stage %q missing type" [AStr (ss_Name s)])
      else if (ss_Threads s <? 1)%N then
        Some (Error "stages.threads" "stage %q must declare at least one thread"
          [AStr (ss_Name s)])
      else
        match validate_ref queueNames (ss_Name s) "stages.input_queue"
          "stage %q references unknown input queue %q" (ss_InputQueue s) with
        | Some e => Some e
        | None =>
            match validate_ref queueNames (ss_Name s) "stages.output_queue"
              "stage %q references unknown output queue %q" (ss_OutputQueue s) with
            | Some e => Some e
            | None => validate_stages queueNames stages ({[ss_Name s]} ∪ stageNames)
            end
        end
  end.

Definition Validate (spec : option FlowSpec) : option GoError :=
  match spec with
  | None => Some (Error "spec" "flow spec is nil" [])
  | Some spec =>
      if bool_decide (fs_Name spec = "") then
        Some (Error "name" "flow name is required" [])
      else match fs_Stages spec with
      | [] => Some (Error "stages" "flow must contain at least one stage" [])
      | stages =>
          match validate_queues (fs_Queues spec) ∅ with
          | Err e => Some e
          | Ok queueNames => validate_stages queueNames stages ∅
          end
      end
  end.

(** The method [Error] of [Error]: the text of a validation error, [None] when the error is
    not one. *)
Definition Error_Error (e : GoError) : option (string * string * list GoArg) :=
  match e with
  | FieldErr field format args =>
      if bool_decide (field = "") then Some ("", format, args)
      else Some (field +:+ ": ", format, args)
  | _ => None
  end.

(** What a valid spec is. *)
Definition valid_stage (queueNames : list string) (s : StageSpec) : Prop :=
  ss_Name s ≠ "" ∧ ss_Type s ≠ "" ∧ (1 <= ss_Threads s)%N ∧
  (∀ q, ss_InputQueue s = Some q → q ∈ queueNames) ∧
  (∀ q, ss_OutputQueue s = Some q → q ∈ queueNames).

Definition valid_spec (spec : FlowSpec) : Prop :=
  let queueNames := qs_Name <$> fs_Queues spec in
  fs_Name spec ≠ "" ∧ fs_Stages spec ≠ [] ∧
  "" ∉ queueNames ∧ NoDup queueNames ∧
  NoDup (ss_Name <$> fs_Stages spec) ∧
  Forall (valid_stage queueNames) (fs_Stages spec).

End Validate.

(** ** pkg/flow/normalize *)
Module Normalize.
Section Normalize.
Context `{GoRuntime}.

(** [if q.Capacity == 0 { q.Capacity = 128 }] *)
Definition default_capacity (q : QueueSpec) : QueueSpec :=
  if (qs_Capacity q =? 0)%N
  then Build_QueueSpec (qs_Name q) 128 (qs_Schema q) (qs_Type q)
  else q.

Definition queue_less (a b : QueueSpec) : bool := string_less (qs_Name a) (qs_Name b).
Definition stage_less (a b : StageSpec) : bool := string_less (ss_Name a) (ss_Name b).

(** [Normalize(in)] answers the copy and, second, the struct [in] points to
    after the call: the copy is shallow, so sorting and the capacity
    defaults are done in the slices both structs share. *)
Definition Normalize (in_ : option FlowSpec) : option FlowSpec * option FlowSpec :=
  match in_ with
  | None => (None, None)
  | Some spec =>
      let queues := default_capacity <$> sort_slice queue_less (fs_Queues spec) in
      let stages := sort_slice stage_less (fs_Stages spec) in
      let copy := set_fs_Queues_Stages queues stages spec in
      let orig := set_fs_Queues_Stages queues stages spec in
      (Some copy, Some orig)
  end.
End Normalize.
End Normalize.

(** ** pkg/flow/diff *)
Module Diff.

(** One line per difference, as its format and arguments. *)
Definition Diff (a b : FlowSpec) : list (string * list GoArg) :=
  (if bool_decide (fs_Name a = fs_Name b) then []
   else [("name: %q → %q", [AStr (fs_Name a); AStr (fs_Name b)])]) ++
  (if bool_decide (length (fs_Queues a) = length (fs_Queues b)) then []
   else [("queues: %d → %d", [AUint (N.of_nat (length (fs_Queues a))); AUint (N.of_nat (length (fs_Queues b)))])]) ++
  (if bool_decide (length (fs_Stages a) = length (fs_Stages b)) then []
   else [("stages: %d → %d", [AUint (N.of_nat (length (fs_Stages a))); AUint (N.of_nat (length (fs_Stages b)))])]).

End Diff.

(** ** pkg/flow/fingerprint

    [proto.Marshal] is a call: it is documented not to be deterministic, the
    entries of a map field may come in any order.  SHA-256 is a parameter. *)
Inductive marshalE (Message : Type) : Type → Type :=
  | ProtoMarshal (msg : Message) : marshalE Message (result string).
Arguments ProtoMarshal {Message} msg.

Module Fingerprint.
Section Fingerprint.
Context {Message : Type} (sha256_hex : string → string).

(** The error of [Marshal] is dropped; the bytes are then nil. *)
Definition Fingerprint (msg : Message) : prog (marshalE Message) string :=
  b ← call (ProtoMarshal msg);
  Ret (sha256_hex (match b with Ok b => b | Err _ => "" end)).
End Fingerprint.
End Fingerprint.

(** ** Validation accepts exactly the valid specs *)
Section ValidateFacts.
Import Validate.

Lemma validate_queues_ok qs names names' :
  validate_queues qs names = Ok names' ↔
  names' = list_to_set (qs_Name <$> qs) ∪ names ∧
  "" ∉ (qs_Name <$> qs) ∧ NoDup (qs_Name <$> qs) ∧
  (∀ q, q ∈ qs_Name <$> qs → q ∉ names).
Proof.
  revert names. induction qs as [|q qs IH]; intros names; cbn [validate_queues fmap list_fmap].
  { split; [intros [= ->]|intros [-> _]; f_equal; set_solver].
    split_and!; [set_solver|set_solver|constructor|set_solver]. }
  repeat case_bool_decide.
  - split; [done|]. intros (_ & Hne & _). set_solver.
  - split; [done|]. intros (_ & _ & _ & Hd). set_solver.
  - rewrite IH, NoDup_cons. cbn. split.
    + intros (-> & Hne & Hnd & Hd). split_and!; set_solver.
    + intros (-> & Hne & [Hq Hnd] & Hd). split_and!; set_solver.
Qed.

Lemma validate_ref_none names stage f fmt ref :
  validate_ref names stage f fmt ref = None ↔ (∀ q, ref = Some q → q ∈ names).
Proof.
  unfold validate_ref. destruct ref as [q|]; [|naive_solver].
  case_bool_decide; naive_solver.
Qed.

Lemma validate_stages_none names (qnames : list string) stages snames :
  (∀ q, q ∈ names ↔ q ∈ qnames) →
  validate_stages names stages snames = None ↔
  NoDup (ss_Name <$> stages) ∧ Forall (valid_stage qnames) stages ∧
  (∀ s, s ∈ ss_Name <$> stages → s ∉ snames).
Proof.
  intros Hq. revert snames. induction stages as [|s stages IH]; intros snames;
    cbn [validate_stages fmap list_fmap].
  { split; [|done]. intros _. split_and!; [constructor|constructor|set_solver]. }
  rewrite Forall_cons, NoDup_cons. unfold valid_stage at 1.
  case_bool_decide; [naive_solver|]. case_bool_decide; [set_solver|].
  case_bool_decide; [naive_solver|]. destruct (_ <? _)%N eqn:Et.
  { apply N.ltb_lt in Et. split; [done|]. intros (_ & [(_ & _ & ? & _) _] & _). lia. }
  apply N.ltb_ge in Et.
  destruct (validate_ref _ _ "stages.input_queue" _ _) eqn:Ei.
  { split; [done|]. intros (_ & [(_ & _ & _ & Hi & _) _] & _).
    assert (∀ q, ss_InputQueue s = Some q → q ∈ names) as Hi' by naive_solver.
    eapply validate_ref_none in Hi'. by rewrite Hi' in Ei. }
  destruct (validate_ref _ _ "stages.output_queue" _ _) eqn:Eo.
  { split; [done|]. intros (_ & [(_ & _ & _ & _ & Ho) _] & _).
    assert (∀ q, ss_OutputQueue s = Some q → q ∈ names) as Ho' by naive_solver.
    eapply validate_ref_none in Ho'. by rewrite Ho' in Eo. }
  rewrite validate_ref_none in Ei, Eo. rewrite IH. split.
  - intros (Hnd & Hv & Hd). split_and!; set_solver.
  - intros ([Hs Hnd] & [_ Hv] & Hd). split_and!; set_solver.
Qed.

Lemma Validate_none spec : Validate (Some spec) = None ↔ valid_spec spec.
Proof.
  unfold Validate, valid_spec. case_bool_decide; [naive_solver|].
  destruct (fs_Stages spec) as [|s stages] eqn:Es; [naive_solver|].
  destruct (validate_queues (fs_Queues spec) ∅) as [names|e] eqn:Eq.
  - apply validate_queues_ok in Eq as (-> & Hne & Hnd & _).
    rewrite (validate_stages_none _ (qs_Name <$> fs_Queues spec)); [set_solver|].
    set_solver.
  - split; [done|]. intros (_ & _ & Hne & Hnd & _).
    assert (validate_queues (fs_Queues spec) ∅ =
      Ok (list_to_set (qs_Name <$> fs_Queues spec) ∪ ∅)) as H0.
    { apply validate_queues_ok. split_and!; [done..|]. set_solver. }
    by rewrite H0 in Eq.
Qed.
End ValidateFacts.

(** ** What an error of validation says of the spec *)
Section ValidateErrors.
Import Validate.

(** The defect each error reports. *)
Inductive defect (spec : FlowSpec) : GoError → Prop :=
  | defect_name : fs_Name spec = "" →
      defect spec (Error "name" "flow name is required" [])
  | defect_stages : fs_Stages spec = [] →
      defect spec (Error "stages" "flow must contain at least one stage" [])
  | defect_queue_name q : q ∈ fs_Queues spec → qs_Name q = "" →
      defect spec (Error "queues.name" "queue name is required" [])
  | defect_queue_dup pre q : (pre ++ [q]) `prefix_of` fs_Queues spec →
      qs_Name q ∈ qs_Name <$> pre →
      defect spec (Error "queues.name" "duplicate queue name %q" [AStr (qs_Name q)])
  | defect_stage_name s : s ∈ fs_Stages spec → ss_Name s = "" →
      defect spec (Error "stages.name" "stage name is required" [])
  | defect_stage_dup pre s : (pre ++ [s]) `prefix_of` fs_Stages spec →
      ss_Name s ∈ ss_Name <$> pre →
      defect spec (Error "stages.name" "duplicate stage %q" [AStr (ss_Name s)])
  | defect_type s : s ∈ fs_Stages spec → ss_Type s = "" →
      defect spec (Error "stages.type" "stage %q missing type" [AStr (ss_Name s)])
  | defect_threads s : s ∈ fs_Stages spec → ss_Threads s = 0%N →
      defect spec (Error "stages.threads" "stage %q must declare at least one thread"
        [AStr (ss_Name s)])
  | defect_input s q : s ∈ fs_Stages spec → ss_InputQueue s = Some q →
      q ∉ qs_Name <$> fs_Queues spec →
      defect spec (Error "stages.input_queue"
        "stage %q references unknown input queue %q" [AStr (ss_Name s); AStr q])
  | defect_output s q : s ∈ fs_Stages spec → ss_OutputQueue s = Some q →
      q ∉ qs_Name <$> fs_Queues spec →
      defect spec (Error "stages.output_queue"
        "stage %q references unknown output queue %q" [AStr (ss_Name s); AStr q]).

Lemma validate_queues_err spec pre qs names e :
  fs_Queues spec = pre ++ qs → (∀ n, n ∈ names ↔ n ∈ qs_Name <$> pre) →
  validate_queues qs names = Err e → defect spec e.
Proof.
  revert pre names. induction qs as [|q qs IH]; intros pre names Hs Hn;
    cbn [validate_queues]; [done|].
  case_bool_decide.
  { intros [= <-]. apply (defect_queue_name _ q); [rewrite Hs; set_solver|done]. }
  case_bool_decide.
  { intros [= <-]. apply (defect_queue_dup _ pre q); [|by apply Hn].
    exists qs. by rewrite Hs, <-app_assoc. }
  apply (IH (pre ++ [q])); [by rewrite <-app_assoc|].
  intros n. rewrite fmap_app. cbn. set_solver.
Qed.

Lemma validate_ref_err names stage f fmt ref e :
  validate_ref names stage f fmt ref = Some e →
  ∃ q, ref = Some q ∧ q ∉ names ∧ e = Error f fmt [AStr stage; AStr q].
Proof.
  unfold validate_ref. destruct ref as [q|]; [|done]. case_bool_decide; [done|].
  intros [= <-]. eauto.
Qed.

Lemma validate_stages_err spec names pre stages snames e :
  fs_Stages spec = pre ++ stages → (∀ n, n ∈ snames ↔ n ∈ ss_Name <$> pre) →
  (∀ n, n ∈ names ↔ n ∈ qs_Name <$> fs_Queues spec) →
  validate_stages names stages snames = Some e → defect spec e.
Proof.
  intros Hs Hn Hq. revert pre snames Hs Hn.
  induction stages as [|s stages IH]; intros pre snames Hs Hn;
    cbn [validate_stages]; [done|].
  assert (s ∈ fs_Stages spec) as Hin by (rewrite Hs; set_solver).
  case_bool_decide; [intros [= <-]; by apply (defect_stage_name _ s)|].
  case_bool_decide.
  { intros [= <-]. apply (defect_stage_dup _ pre s); [|by apply Hn].
    exists stages. by rewrite Hs, <-app_assoc. }
  case_bool_decide; [intros [= <-]; by apply (defect_type _ s)|].
  destruct (_ <? _)%N eqn:Et.
  { intros [= <-]. apply N.ltb_lt in Et. apply (defect_threads _ s); [done|lia]. }
  destruct (validate_ref _ _ "stages.input_queue" _ _) eqn:Ei.
  { intros [= <-]. apply validate_ref_err in Ei as (q & ? & ? & ->).
    apply (defect_input _ s q); [done..|]. by rewrite <-Hq. }
  destruct (validate_ref _ _ "stages.output_queue" _ _) eqn:Eo.
  { intros [= <-]. apply validate_ref_err in Eo as (q & ? & ? & ->).
    apply (defect_output _ s q); [done..|]. by rewrite <-Hq. }
  apply (IH (pre ++ [s])); [by rewrite <-app_assoc|].
  intros n. rewrite fmap_app. cbn. set_solver.
Qed.

Lemma Validate_some spec e : Validate (Some spec) = Some e → defect spec e.
Proof.
  unfold Validate. case_bool_decide; [intros [= <-]; by constructor|].
  destruct (fs_Stages spec) as [|s stages] eqn:Es; [intros [= <-]; by constructor|].
  destruct (validate_queues (fs_Queues spec) ∅) as [names|e'] eqn:Eq.
  - apply validate_queues_ok in Eq as (-> & _).
    apply (validate_stages_err _ _ []); [done|set_solver|set_solver].
  - intros [= <-]. by eapply (validate_queues_err _ [] _ ∅); [|set_solver|].
Qed.
End ValidateErrors.

(** ** Normal forms *)
Section NormalizeFacts.
Context `{GoRuntime}.
Import Normalize.

Lemma default_capacity_name q : qs_Name (default_capacity q) = qs_Name q.
Proof. unfold default_capacity. by destruct (_ =? _)%N. Qed.

Lemma default_capacity_names (qs : list QueueSpec) : qs_Name <$> (default_capacity <$> qs) = qs_Name <$> qs.
Proof.
  rewrite <-list_fmap_compose. apply list_fmap_ext. intros i q _.
  apply default_capacity_name.
Qed.

Lemma default_capacity_idemp q : default_capacity (default_capacity q) = default_capacity q.
Proof.
  unfold default_capacity at 2 3. destruct (_ =? _)%N eqn:E; [done|].
  unfold default_capacity. by rewrite E.
Qed.

Lemma default_capacity_pos q : qs_Capacity (default_capacity q) ≠ 0%N.
Proof.
  unfold default_capacity. destruct (_ =? _)%N eqn:E; [done|]. by apply N.eqb_neq.
Qed.

(** The elements of a slice with distinct names are told apart by name. *)
Lemma named_eq {A} (name : A → string) (l k : list A) :
  NoDup (name <$> l) → l ≡ₚ k → name <$> l = name <$> k → l = k.
Proof.
  intros Hnd Hp Heq.
  assert (∀ x y, x ∈ l → y ∈ l → name x = name y → x = y) as Hinj.
  { clear -Hnd. induction l as [|a l IH]; [set_solver|].
    rewrite fmap_cons, NoDup_cons in Hnd. destruct Hnd as [Ha Hnd].
    intros x y [->|Hx]%elem_of_cons [->|Hy]%elem_of_cons Hxy; [done| | |by apply IH];
      destruct Ha; [rewrite Hxy|rewrite <-Hxy]; by apply list_elem_of_fmap_2. }
  apply list_eq_Forall2, Forall2_same_length_lookup. split.
  { by apply (f_equal length) in Heq; rewrite !length_fmap in Heq. }
  intros i x y Hx Hy. apply Hinj.
  - by eapply list_elem_of_lookup_2.
  - rewrite Hp. by eapply list_elem_of_lookup_2.
  - apply (f_equal (.!! i)) in Heq. rewrite !list_lookup_fmap, Hx, Hy in Heq.
    by injection Heq.
Qed.

Lemma named_sorted_eq {A} (name : A → string) (l k : list A) :
  NoDup (name <$> l) → l ≡ₚ k →
  sorted_by (λ a b, string_less (name a) (name b)) l →
  sorted_by (λ a b, string_less (name a) (name b)) k → l = k.
Proof.
  assert (∀ m, sorted_by (λ a b, string_less (name a) (name b)) m →
    sorted_by string_less (name <$> m)) as Hs.
  { unfold sorted_by. induction 1 as [|x xs _ IH Hx]; [constructor|].
    rewrite fmap_cons. constructor; [done|]. by apply Forall_fmap. }
  intros Hnd Hp Hl Hk. apply (named_eq name); [done..|].
  apply (sorted_by_unique string_less); [apply string_less_tie| |by apply Hs|by apply Hs].
  by rewrite Hp.
Qed.

Lemma named_sort_sorted {A} (name : A → string) (l : list A) :
  sorted_by (λ a b, string_less (name a) (name b))
    (sort_slice (λ a b, string_less (name a) (name b)) l).
Proof. apply sort_slice_sorted, (strict_weak_on name), string_less_strict_weak. Qed.

(** Slices with distinct names have one sorted order. *)
Lemma named_sort_unique {A} (name : A → string) (l k : list A) :
  NoDup (name <$> l) → l ≡ₚ k →
  sort_slice (λ a b, string_less (name a) (name b)) l =
  sort_slice (λ a b, string_less (name a) (name b)) k.
Proof.
  intros Hnd Hp. apply (named_sorted_eq name); [| |apply named_sort_sorted..];
    by rewrite !sort_slice_perm.
Qed.

(** A sorted slice with distinct names is its own sorted order. *)
Lemma named_sort_id {A} (name : A → string) (l : list A) :
  NoDup (name <$> l) → sorted_by (λ a b, string_less (name a) (name b)) l →
  sort_slice (λ a b, string_less (name a) (name b)) l = l.
Proof.
  intros Hnd Hs. apply (named_sorted_eq name); [| |apply named_sort_sorted|done];
    by rewrite sort_slice_perm.
Qed.

Lemma default_capacity_sorted qs :
  sorted_by queue_less qs → sorted_by queue_less (default_capacity <$> qs).
Proof.
  unfold sorted_by. induction 1 as [|x xs _ IH Hx]; [constructor|].
  rewrite fmap_cons. constructor; [done|]. apply Forall_fmap.
  eapply Forall_impl; [exact Hx|]. intros y Hy. unfold queue_less in *. cbn.
  by rewrite !default_capacity_name.
Qed.

Lemma normal_queues_idemp qs :
  NoDup (qs_Name <$> qs) →
  default_capacity <$> sort_slice queue_less (default_capacity <$> sort_slice queue_less qs)
  = default_capacity <$> sort_slice queue_less qs.
Proof.
  intros Hnd. rewrite (named_sort_id qs_Name).
  - rewrite <-list_fmap_compose. apply list_fmap_ext. intros i q _.
    apply default_capacity_idemp.
  - by rewrite default_capacity_names, sort_slice_perm.
  - apply default_capacity_sorted, (named_sort_sorted qs_Name).
Qed.

Lemma normal_stages_idemp ss :
  NoDup (ss_Name <$> ss) →
  sort_slice stage_less (sort_slice stage_less ss) = sort_slice stage_less ss.
Proof.
  intros Hnd. apply (named_sort_id ss_Name); [|apply (named_sort_sorted ss_Name)].
  by rewrite sort_slice_perm.
Qed.
End NormalizeFacts.

(** ** Properties *)
Section Properties.
Context `{GoRuntime}.
Import Validate Normalize Fingerprint.

Lemma normalized_valid spec :
  valid_spec spec →
  valid_spec (set_fs_Queues_Stages (default_capacity <$> sort_slice queue_less (fs_Queues spec))
    (sort_slice stage_less (fs_Stages spec)) spec).
Proof.
  intros (Hn & Hst & Hne & Hq & Hs & Hv). unfold valid_spec; cbn.
  rewrite default_capacity_names.
  assert (qs_Name <$> sort_slice queue_less (fs_Queues spec) ≡ₚ qs_Name <$> fs_Queues spec)
    as Hp by by rewrite sort_slice_perm.
  assert (sort_slice stage_less (fs_Stages spec) ≡ₚ fs_Stages spec) as Hps
    by apply sort_slice_perm.
  split_and!; [done| |by rewrite Hp|by rewrite Hp|by rewrite Hps|].
  - intros E. rewrite E in Hps. by apply Permutation_nil_l in Hps.
  - rewrite Hps. eapply Forall_impl; [exact Hv|].
    intros s (? & ? & ? & Hi & Ho). split_and!; [done..| |];
      intros q Hx; rewrite Hp; eauto.
Qed.

(** A queue with the default capacity filled in. *)
Definition capacity_128 (q : QueueSpec) : QueueSpec :=
  Build_QueueSpec (qs_Name q) (if decide (qs_Capacity q = 0%N) then 128%N else qs_Capacity q)
    (qs_Schema q) (qs_Type q).

Lemma default_capacity_128 q : default_capacity q = capacity_128 q.
Proof.
  unfold default_capacity, capacity_128. destruct q as [n c sc ty]; cbn.
  destruct (N.eqb_spec c 0); by case_decide.
Qed.

(** The specs are the same up to the order of stages and queues, a capacity
    of 0 counting as 128. *)
Definition same_flow (a b : FlowSpec) : Prop :=
  fs_Stages a ≡ₚ fs_Stages b ∧
  capacity_128 <$> fs_Queues a ≡ₚ capacity_128 <$> fs_Queues b ∧
  set_fs_Queues_Stages [] [] a = set_fs_Queues_Stages [] [] b.

Lemma normal_form_same a b :
  (Normalize (Some a)).1 = (Normalize (Some b)).1 → same_flow a b.
Proof.
  cbn. intros E%Some_inj. split_and!.
  - apply (f_equal fs_Stages) in E. cbn in E.
    by rewrite <-(sort_slice_perm stage_less (fs_Stages a)), E, sort_slice_perm.
  - apply (f_equal fs_Queues) in E. cbn in E.
    rewrite <-(sort_slice_perm queue_less (fs_Queues a)), <-(sort_slice_perm queue_less (fs_Queues b)).
    by rewrite !(list_fmap_ext capacity_128 default_capacity)
      by (intros; symmetry; apply default_capacity_128); rewrite E.
  - by apply (f_equal (set_fs_Queues_Stages [] [])) in E.
Qed.

(** Sorting first and filling in the capacities first comes to the same. *)
Lemma normal_queues_eq qs qs' :
  NoDup (qs_Name <$> qs) → capacity_128 <$> qs ≡ₚ capacity_128 <$> qs' →
  default_capacity <$> sort_slice queue_less qs = default_capacity <$> sort_slice queue_less qs'.
Proof.
  intros Hnd Hp. apply (named_sorted_eq qs_Name).
  - by rewrite default_capacity_names, sort_slice_perm.
  - rewrite !sort_slice_perm.
    by rewrite !(list_fmap_ext default_capacity capacity_128) by (intros; apply default_capacity_128).
  - apply default_capacity_sorted, (named_sort_sorted qs_Name).
  - apply default_capacity_sorted, (named_sort_sorted qs_Name).
Qed.

Lemma normal_form_eq a b :
  NoDup (qs_Name <$> fs_Queues a) → NoDup (ss_Name <$> fs_Stages a) →
  ((Normalize (Some a)).1 = (Normalize (Some b)).1 → same_flow a b) ∧
  (same_flow a b → (Normalize (Some a)).1 = (Normalize (Some b)).1).
Proof.
  intros Hq Hs. split; [apply normal_form_same|]. intros (Hps & Hpq & Hrest). cbn. f_equal.
  rewrite (normal_queues_eq _ _ Hq Hpq).
  unfold stage_less. rewrite (named_sort_unique ss_Name _ _ Hs Hps).
  change (set_fs_Queues_Stages ?q ?t a) with (set_fs_Queues_Stages q t (set_fs_Queues_Stages [] [] a)).
  by rewrite Hrest.
Qed.

(** C14: [Validate] accepts a spec exactly when it has a name, at least one
    stage, distinct non-empty queue and stage names, and every stage has a
    type, a thread and only references to declared queues; a nil spec is
    refused. *)
Theorem Validate_exact :
  Validate None ≠ None ∧
  ∀ spec, Validate (Some spec) = None ↔ valid_spec spec.
Proof. split; [done|]. apply Validate_none. Qed.

(** C27: the error [Validate] reports names a defect the spec really has:
    the field, the stage or queue name and the kind of violation. *)
Theorem Validate_error_accurate spec e :
  Validate (Some spec) = Some e → defect spec e.
Proof. apply Validate_some. Qed.

(** C30: [Normalize] answers the spec with the same stages sorted by name and
    the same queues sorted by name, a capacity of 0 replaced by 128, and
    every other field as it was; the caller's struct is left with the same
    slices.  On a valid spec the answer is valid, is a fixed point of
    [Normalize], and identifies exactly the specs that differ only in the
    order of stages and queues and in a capacity of 0 for 128, whatever order
    [sort.Slice] leaves equal elements in. *)
Theorem Normalize_normal_form spec :
  ∃ out, Normalize (Some spec) = (Some out, Some out) ∧
    fs_Stages out ≡ₚ fs_Stages spec ∧ sorted_by stage_less (fs_Stages out) ∧
    fs_Queues out ≡ₚ capacity_128 <$> fs_Queues spec ∧ sorted_by queue_less (fs_Queues out) ∧
    set_fs_Queues_Stages [] [] out = set_fs_Queues_Stages [] [] spec ∧
    (valid_spec spec →
       valid_spec out ∧ Normalize (Some out) = (Some out, Some out) ∧
       ∀ b, valid_spec b → (Normalize (Some b)).1 = Some out ↔ same_flow spec b).
Proof.
  eexists. split; [done|]. cbn. split_and!.
  - apply sort_slice_perm.
  - apply (named_sort_sorted ss_Name).
  - by rewrite sort_slice_perm, (list_fmap_ext _ capacity_128)
      by (intros; apply default_capacity_128).
  - apply default_capacity_sorted, (named_sort_sorted qs_Name).
  - done.
  - intros Hv. split; [by apply normalized_valid|].
    destruct Hv as (_ & _ & _ & Hq & Hs & _). split.
    { unfold Normalize. cbn. by rewrite normal_queues_idemp, normal_stages_idemp. }
    intros b Hb. destruct (normal_form_eq spec b Hq Hs) as [H1 H2]. split.
    + intros E. apply H1. symmetry. exact E.
    + intros Hsame. symmetry. by apply H2.
Qed.

(** C37: equal fingerprints mean the same flow.  If the fingerprints of two
    normalized specs are equal and both could be encoded, the specs differ
    at most in the order of stages and queues and in a capacity of 0 for 128,
    or else SHA-256 takes the very two encodings to one value; whatever bytes
    [proto.Marshal] chooses to encode a message by, as long as they decode to
    it. *)
Theorem Fingerprint_distinguishes {S} (h : handler (marshalE FlowSpec) S)
    (Unmarshal : string → result FlowSpec) sha256_hex a b na nb s t :
  (∀ m s b s', h _ (ProtoMarshal m) s = (Ok b, s') → Unmarshal b = Ok m) →
  (Normalize (Some a)).1 = Some na → (Normalize (Some b)).1 = Some nb →
  is_ok (h _ (ProtoMarshal na) s).1 = true → is_ok (h _ (ProtoMarshal nb) t).1 = true →
  (run h (Fingerprint sha256_hex na) s).1 = (run h (Fingerprint sha256_hex nb) t).1 →
  same_flow a b ∨
  ∃ x y, (h _ (ProtoMarshal na) s).1 = Ok x ∧ (h _ (ProtoMarshal nb) t).1 = Ok y ∧
    x ≠ y ∧ sha256_hex x = sha256_hex y.
Proof.
  intros Hround Ha Hb Hoa Hob. unfold Fingerprint. cbn.
  destruct (h _ (ProtoMarshal na) s) as [[x|] s'] eqn:Hx; [|done].
  destruct (h _ (ProtoMarshal nb) t) as [[y|] t'] eqn:Hy; [|done]. cbn. intros Hsha.
  destruct (decide (x = y)) as [<-|Hne]; [left|right; by exists x, y].
  apply Hround in Hx, Hy. rewrite Hx in Hy. injection Hy as <-.
  apply normal_form_same. by rewrite Ha, Hb.
Qed.
End Properties.

(** ** Witnesses *)
Section Witnesses.
Import Validate Normalize.

Definition ex_stage (name : string) (i o : option string) : StageSpec :=
  Build_StageSpec name "noop" 1 i o None None None.
Definition ex_queue (name : string) (n : N) : QueueSpec :=
  Build_QueueSpec name n None None.
Definition ex_spec : FlowSpec :=
  set_fs_Queues_Stages [ex_queue "z" 0; ex_queue "a" 16]
    [ex_stage "sink" (Some "z") None; ex_stage "gen" None (Some "z")]
    (empty_spec "trade-ingest").

Lemma ex_spec_valid : valid_spec ex_spec.
Proof. by apply Validate_none. Defined.

Lemma Validate_error_accurate_witness :
  defect (empty_spec "") (Error "name" "flow name is required" []).
Proof. apply Validate_error_accurate. reflexivity. Defined.

Lemma Normalize_normal_form_witness :
  ∃ out, @Normalize std_runtime (Some ex_spec) = (Some out, Some out) ∧ valid_spec out ∧
    (@Normalize std_runtime (Some (set_fs_Queues_Stages [ex_queue "a" 16; ex_queue "z" 128]
      [ex_stage "gen" None (Some "z"); ex_stage "sink" (Some "z") None] ex_spec))).1 = Some out.
Proof.
  destruct (@Normalize_normal_form std_runtime ex_spec) as (out & H1 & _ & _ & _ & _ & _ & H2).
  destruct (H2 ex_spec_valid) as (Hv & _ & Hb). exists out. split; [exact H1|]. split; [exact Hv|].
  apply Hb; [by apply Validate_none|]. split_and!; [apply perm_swap|apply perm_swap|reflexivity].
Defined.

(** [proto.Marshal] as the name of the spec, a byte telling the calls apart. *)
Definition name_marshal : handler (marshalE FlowSpec) bool := λ X e s,
  match e in marshalE _ X return X * bool with
  | ProtoMarshal m =>
      (match m with
       | Build_FlowSpec name 0 None [] [] labels None None None env =>
           if decide (size labels = 0 ∧ size env = 0)
           then Ok ((if s then "1" else "0") +:+ name) else Err (ExtErr "unsupported")
       | _ => Err (ExtErr "unsupported")
       end, negb s)
  end.

Lemma Fingerprint_distinguishes_witness :
  same_flow (empty_spec "a") (empty_spec "a").
Proof.
  destruct (@Fingerprint_distinguishes std_runtime _ name_marshal
    (λ b, Ok (empty_spec (strings.slice_from 1 b))) id (empty_spec "a") (empty_spec "a")
    (empty_spec "a") (empty_spec "a") true true) as [Hsame|(x & y & _ & _ & Hne & Heq)].
  - intros [name [] [] [] [] labels [] [] [] env] st b st'; cbn; try discriminate.
    destruct (decide _) as [[Hl He]|]; [|discriminate]. intros [= <- _].
    apply map_size_empty_inv in Hl as ->. apply map_size_empty_inv in He as ->. by destruct st.
  - vm_compute. reflexivity.
  - vm_compute. reflexivity.
  - reflexivity.
  - reflexivity.
  - reflexivity.
  - exact Hsame.
  - destruct (Hne Heq).
Defined.
End Witnesses.
