(* ===== verification/Etcd.v ===== *)
(** * etcd as the stores use it

    The calls of clientv3 the control plane makes ([etcdE]) and, as the class
    [EtcdService], what etcd documents about them: a linearizable map from
    keys to values, reads by key or by prefix in key order, transactions that
    compare and then put atomically, and calls that may fail, a failed write
    having been applied or not.  [MemEtcd] is a small in-memory service with
    scheduled failures that satisfies the class; the witnesses run on it. *)
From S2P Require Import Prelude GoStd GoStdFacts Prog.
From Stdlib Require Import Sorted.

Record KeyValue := {
  kv_Key : string;
  kv_Value : string;
  kv_CreateRevision : Z;
  kv_ModRevision : Z;
}.

(** [clientv3.Compare(..., "=", ...)] on a creation revision or a value. *)
Inductive Cmp :=
  | CmpCreateRevision (key : string) (rev : Z)
  | CmpValue (key value : string).

Inductive Op := OpPut (key value : string).

Inductive etcdE : Type → Type :=
  | Get (key : string) : etcdE (result (list KeyValue))
  | GetPrefix (prefix : string) : etcdE (result (list KeyValue))
  | Put (key value : string) : etcdE (result unit)
  | DeletePrefix (prefix : string) : etcdE (result unit)
  | Txn (cmps : list Cmp) (thn : list Op) : etcdE (result bool).

Definition kv_pair (kv : KeyValue) : string * string := (kv_Key kv, kv_Value kv).

(** The answer to a read of one key. *)
Definition read_key (m : gmap string string) (k : string) : list (string * string) :=
  match m !! k with Some v => [(k, v)] | None => [] end.

Definition with_prefix (p : string) (m : gmap string string) : gmap string string :=
  filter (λ kv, strings.HasPrefix kv.1 p = true) m.

Definition without_prefix (p : string) (m : gmap string string) : gmap string string :=
  filter (λ kv, strings.HasPrefix kv.1 p ≠ true) m.

Definition apply_op (m : gmap string string) (o : Op) : gmap string string :=
  match o with OpPut k v => <[k := v]> m end.
Definition apply_ops (ops : list Op) (m : gmap string string) : gmap string string :=
  foldl apply_op m ops.

Class EtcdService (S : Type) := {
  etcd_exec : handler etcdE S;
  kvs : S → gmap string string;
  create_rev : S → string → Z;

  create_rev_zero : ∀ s k, create_rev s k = 0%Z ↔ kvs s !! k = None;

  Get_spec : ∀ k s r s', etcd_exec _ (Get k) s = (r, s') →
    kvs s' = kvs s ∧ (∀ l, r = Ok l → kv_pair <$> l = read_key (kvs s) k);

  GetPrefix_spec : ∀ p s r s', etcd_exec _ (GetPrefix p) s = (r, s') →
    kvs s' = kvs s ∧
    (∀ l, r = Ok l → kv_pair <$> l ≡ₚ map_to_list (with_prefix p (kvs s)) ∧
       sorted_by string_less (kv_Key <$> l));

  Put_spec : ∀ k v s r s', etcd_exec _ (Put k v) s = (r, s') →
    kvs s' = <[k := v]> (kvs s) ∨ (r ≠ Ok tt ∧ kvs s' = kvs s);

  DeletePrefix_spec : ∀ p s r s', etcd_exec _ (DeletePrefix p) s = (r, s') →
    kvs s' = without_prefix p (kvs s) ∨ (r ≠ Ok tt ∧ kvs s' = kvs s);

  Txn_spec : ∀ cmps ops s r s', etcd_exec _ (Txn cmps ops) s = (r, s') →
    let holds := Forall (λ c, match c with
                              | CmpCreateRevision k rev => create_rev s k = rev
                              | CmpValue k v => kvs s !! k = Some v
                              end) cmps in
    match r with
    | Ok true => holds ∧ kvs s' = apply_ops ops (kvs s)
    | Ok false => ¬ holds ∧ kvs s' = kvs s
    | Err _ => kvs s' = kvs s ∨ (holds ∧ kvs s' = apply_ops ops (kvs s))
    end;
}.

(** ** Rules for the calls *)
Section Rules.
Context {S : Type} `{EtcdService S}.

Lemma wp_Get k s (Φ : result (list KeyValue) → S → Prop) :
  (∀ e s', kvs s' = kvs s → Φ (Err e) s') →
  (∀ s', kvs s' = kvs s → kvs s !! k = None → Φ (Ok []) s') →
  (∀ kv s', kvs s' = kvs s → kvs s !! k = Some (kv_Value kv) → Φ (Ok [kv]) s') →
  wp etcd_exec (call (Get k)) s Φ.
Proof.
  intros Herr Hnone Hsome. apply wp_call. intros r s' Hx.
  destruct (Get_spec k s r s' Hx) as [Hk Hr]. destruct r as [l|e]; [|by apply Herr].
  specialize (Hr l eq_refl). unfold read_key in Hr.
  destruct (kvs s !! k) as [v|] eqn:E.
  - destruct l as [|kv [|]]; [done| |done]. injection Hr as _ <-. by apply Hsome.
  - destruct l as [|]; [|done]. by apply Hnone.
Qed.

Lemma wp_GetPrefix p s (Φ : result (list KeyValue) → S → Prop) :
  (∀ e s', kvs s' = kvs s → Φ (Err e) s') →
  (∀ l s', kvs s' = kvs s → kv_pair <$> l ≡ₚ map_to_list (with_prefix p (kvs s)) →
     sorted_by string_less (kv_Key <$> l) → Φ (Ok l) s') →
  wp etcd_exec (call (GetPrefix p)) s Φ.
Proof.
  intros Herr Hok. apply wp_call. intros r s' Hx.
  destruct (GetPrefix_spec p s r s' Hx) as [Hk Hr]. destruct r as [l|e]; [|by apply Herr].
  destruct (Hr l eq_refl). by apply Hok.
Qed.

Lemma wp_Put k v s (Φ : result unit → S → Prop) :
  (∀ s', kvs s' = <[k := v]> (kvs s) → Φ (Ok tt) s') →
  (∀ e s', kvs s' = <[k := v]> (kvs s) ∨ kvs s' = kvs s → Φ (Err e) s') →
  wp etcd_exec (call (Put k v)) s Φ.
Proof.
  intros Hok Herr. apply wp_call. intros r s' Hx.
  destruct (Put_spec k v s r s' Hx) as [Hk|[Hne Hk]]; destruct r as [[]|e]; auto; done.
Qed.

Lemma wp_DeletePrefix p s (Φ : result unit → S → Prop) :
  (∀ s', kvs s' = without_prefix p (kvs s) → Φ (Ok tt) s') →
  (∀ e s', kvs s' = without_prefix p (kvs s) ∨ kvs s' = kvs s → Φ (Err e) s') →
  wp etcd_exec (call (DeletePrefix p)) s Φ.
Proof.
  intros Hok Herr. apply wp_call. intros r s' Hx.
  destruct (DeletePrefix_spec p s r s' Hx) as [Hk|[Hne Hk]]; destruct r as [[]|e];
    auto; done.
Qed.

(** A guard on one key: creation if it was absent, replacement if it was
    present. *)
Definition cas_guard (k : string) (old : option string) : list Cmp :=
  match old with
  | None => [CmpCreateRevision k 0]
  | Some v => [CmpValue k v]
  end.

Lemma wp_cas k old ops s (Φ : result bool → S → Prop) :
  (∀ s', kvs s !! k = old → kvs s' = apply_ops ops (kvs s) → Φ (Ok true) s') →
  (∀ s', kvs s !! k ≠ old → kvs s' = kvs s → Φ (Ok false) s') →
  (∀ e s', kvs s' = kvs s ∨ (kvs s !! k = old ∧ kvs s' = apply_ops ops (kvs s)) →
     Φ (Err e) s') →
  wp etcd_exec (call (Txn (cas_guard k old) ops)) s Φ.
Proof.
  intros Htrue Hfalse Herr. apply wp_call. intros r s' Hx.
  pose proof (Txn_spec _ _ s r s' Hx) as Ht. cbn zeta in Ht.
  assert (Forall (λ c, match c with
      | CmpCreateRevision k rev => create_rev s k = rev
      | CmpValue k v => kvs s !! k = Some v end) (cas_guard k old) ↔ kvs s !! k = old) as Hg.
  { destruct old as [v|]; unfold cas_guard; rewrite Forall_singleton; [done|].
    apply create_rev_zero. }
  destruct r as [[]|e]; rewrite Hg in Ht; [| |by apply Herr].
  - by apply Htrue; apply Ht.
  - by apply Hfalse; apply Ht.
Qed.
End Rules.

Lemma lookup_with_prefix p m k :
  with_prefix p m !! k = if strings.HasPrefix k p then m !! k else None.
Proof.
  unfold with_prefix. destruct (strings.HasPrefix k p) eqn:E.
  - destruct (m !! k) eqn:Em.
    + by apply map_lookup_filter_Some_2.
    + apply map_lookup_filter_None. by left.
  - apply map_lookup_filter_None. right. intros v _. cbn [fst]. by rewrite E.
Qed.

Lemma lookup_without_prefix p m k :
  without_prefix p m !! k = if strings.HasPrefix k p then None else m !! k.
Proof.
  unfold without_prefix. destruct (strings.HasPrefix k p) eqn:E.
  - apply map_lookup_filter_None. right. intros v _. cbn [fst]. intros Hn. by apply Hn.
  - destruct (m !! k) eqn:Em.
    + apply map_lookup_filter_Some_2; [done|]. cbn [fst]. by rewrite E.
    + apply map_lookup_filter_None. by left.
Qed.

(** ** An in-memory service *)
Module MemEtcd.

(** How the next call ends: normally, failing without effect, or failing
    after the effect. *)
Inductive outcome := Succeed | FailBefore | FailAfter.

Record state := {
  store : gmap string (string * positive);
  rev : positive;
  outcomes : list outcome;
}.

Definition empty (l : list outcome) : state := Build_state ∅ 1 l.

Definition contents (s : state) : gmap string string := fst <$> store s.
Definition creation (s : state) (k : string) : Z :=
  match store s !! k with Some (_, p) => Zpos p | None => 0 end.

(** The next outcome is used up; the default is success. *)
Definition next (s : state) : outcome * state :=
  match outcomes s with
  | [] => (Succeed, s)
  | o :: l => (o, Build_state (store s) (rev s) l)
  end.

Definition put (k v : string) (s : state) : state :=
  let c := match store s !! k with Some (_, c) => c | None => rev s end in
  Build_state (<[k := (v, c)]> (store s)) (rev s) (outcomes s).

Definition tick (s : state) : state :=
  Build_state (store s) (Pos.succ (rev s)) (outcomes s).

Definition delete_prefix (p : string) (s : state) : state :=
  Build_state (filter (λ kv, strings.HasPrefix kv.1 p ≠ true) (store s)) (rev s) (outcomes s).

Definition to_kv (e : string * (string * positive)) : KeyValue :=
  Build_KeyValue e.1 e.2.1 (Zpos e.2.2) (Zpos e.2.2).

Definition scan (p : string) (s : state) : list KeyValue :=
  std_sort (λ a b, string_less (kv_Key a) (kv_Key b))
    (to_kv <$> map_to_list (filter (λ kv, strings.HasPrefix kv.1 p = true) (store s))).

Definition holds (s : state) (c : Cmp) : bool :=
  match c with
  | CmpCreateRevision k r => bool_decide (creation s k = r)
  | CmpValue k v => bool_decide (contents s !! k = Some v)
  end.

Definition unavailable : GoError := ExtErr "etcd: unavailable".

(** A write under an outcome. *)
Definition write {A} (o : outcome) (a : A) (s s' : state) : result A * state :=
  match o with
  | Succeed => (Ok a, s')
  | FailBefore => (Err unavailable, s)
  | FailAfter => (Err unavailable, s')
  end.

Definition exec : handler etcdE state := λ X e s,
  let '(o, s) := next s in
  match e in etcdE X return X * state with
  | Get k =>
      match o with
      | Succeed => (Ok match store s !! k with Some e => [to_kv (k, e)] | None => [] end, s)
      | _ => (Err unavailable, s)
      end
  | GetPrefix p => match o with Succeed => (Ok (scan p s), s) | _ => (Err unavailable, s) end
  | Put k v => write o tt s (tick (put k v s))
  | DeletePrefix p => write o tt s (tick (delete_prefix p s))
  | Txn cmps ops =>
      if forallb (holds s) cmps
      then write o true s (tick (foldl (λ s op, match op with OpPut k v => put k v s end) s ops))
      else match o with Succeed => (Ok false, s) | _ => (Err unavailable, s) end
  end.

End MemEtcd.

Section MemEtcdFacts.
Import MemEtcd.

Lemma next_store s o s' : next s = (o, s') → store s' = store s ∧ rev s' = rev s.
Proof. unfold next. destruct (outcomes s); by intros [= <- <-]. Qed.

Lemma contents_lookup s k : contents s !! k = fst <$> store s !! k.
Proof. apply lookup_fmap. Qed.

Lemma contents_put k v s : contents (put k v s) = <[k := v]> (contents s).
Proof. unfold contents, put. cbn. by rewrite fmap_insert. Qed.

Lemma contents_filter (P : string → Prop) `{∀ k, Decision (P k)} (m : gmap string (string * positive)) :
  fst <$> filter (λ kv, P kv.1) m = filter (λ kv, P kv.1) (fst <$> m).
Proof.
  apply map_eq. intros k. rewrite lookup_fmap. destruct (decide (P k)) as [Hp|Hp].
  - destruct (m !! k) as [e|] eqn:E.
    + rewrite (map_lookup_filter_Some_2 _ m k e) by done. cbn. symmetry.
      apply map_lookup_filter_Some_2; [|done]. by rewrite lookup_fmap, E.
    + rewrite (proj2 (map_lookup_filter_None _ m k)) by by left. cbn. symmetry.
      apply map_lookup_filter_None. left. by rewrite lookup_fmap, E.
  - rewrite (proj2 (map_lookup_filter_None _ m k)) by by right. cbn. symmetry.
    apply map_lookup_filter_None. by right.
Qed.

Lemma contents_delete p s : contents (delete_prefix p s) = without_prefix p (contents s).
Proof. unfold contents, delete_prefix, without_prefix. cbn.
  pose proof (contents_filter (λ k, strings.HasPrefix k p ≠ true) (store s)) as Hf.
  exact Hf.
Qed.

Lemma contents_puts ops s :
  contents (foldl (λ s op, match op with OpPut k v => put k v s end) s ops) =
  apply_ops ops (contents s).
Proof.
  revert s. induction ops as [|[k v] ops IH]; intros s; [done|]. cbn [foldl].
  by rewrite IH, contents_put.
Qed.

Lemma scan_pairs p s : kv_pair <$> scan p s ≡ₚ map_to_list (with_prefix p (contents s)).
Proof.
  unfold scan, std_sort. rewrite merge_sort_Permutation. unfold with_prefix, contents.
  pose proof (contents_filter (λ k, strings.HasPrefix k p = true) (store s)) as Hf.
  cbn beta in Hf. rewrite <-Hf, map_to_list_fmap, <-!list_fmap_compose.
  apply reflexive_eq, list_fmap_ext. intros i [k [v c]] _. done.
Qed.

Lemma scan_sorted p s : sorted_by string_less (kv_Key <$> scan p s).
Proof.
  pose proof (std_sort_sorted (λ a b, string_less (kv_Key a) (kv_Key b))
    (to_kv <$> map_to_list (filter (λ kv, strings.HasPrefix kv.1 p = true) (store s)))
    (strict_weak_on kv_Key _ string_less_strict_weak)) as Hs.
  unfold sorted_by in *. fold (scan p s) in Hs.
  induction Hs as [|x xs _ IH Hx]; [constructor|]. rewrite fmap_cons.
  constructor; [done|]. by apply Forall_fmap.
Qed.

Lemma holds_spec s c :
  holds s c = true ↔ match c with
                     | CmpCreateRevision k r => creation s k = r
                     | CmpValue k v => contents s !! k = Some v
                     end.
Proof. destruct c; apply bool_decide_eq_true. Qed.

Lemma mem_Txn_spec cmps ops s r s' :
  exec _ (Txn cmps ops) s = (r, s') →
  let hs := Forall (λ c, match c with
                         | CmpCreateRevision k rev => creation s k = rev
                         | CmpValue k v => contents s !! k = Some v
                         end) cmps in
  match r with
  | Ok true => hs ∧ contents s' = apply_ops ops (contents s)
  | Ok false => ¬ hs ∧ contents s' = contents s
  | Err _ => contents s' = contents s ∨ (hs ∧ contents s' = apply_ops ops (contents s))
  end.
Proof.
  unfold exec. destruct (next s) as [o t] eqn:En. apply next_store in En as [Hs _].
  assert (contents t = contents s) as Hc by (unfold contents; by rewrite Hs).
  assert (∀ k, creation t k = creation s k) as Hcr by (intros k; unfold creation; by rewrite Hs).
  destruct (forallb (holds t) cmps) eqn:Ef.
  - assert (Forall (λ c, match c with
      | CmpCreateRevision k rev => creation s k = rev
      | CmpValue k v => contents s !! k = Some v end) cmps) as Hh.
    { apply Forall_forall. intros c Hin. rewrite forallb_forall in Ef.
      specialize (Ef c (proj1 (list_elem_of_In _ _) Hin)). apply holds_spec in Ef.
      destruct c; [by rewrite <-Hcr|by rewrite <-Hc]. }
    pose proof (contents_puts ops t) as Hp. rewrite Hc in Hp.
    destruct o; intros [= <- <-]; cbn zeta;
      [split; [done|exact Hp]|by left|right; split; [done|exact Hp]].
  - assert (¬ Forall (λ c, match c with
      | CmpCreateRevision k rev => creation s k = rev
      | CmpValue k v => contents s !! k = Some v end) cmps) as Hh.
    { intros Hh. rewrite Forall_forall in Hh. apply not_true_iff_false in Ef. apply Ef.
      apply forallb_forall. intros c Hin%list_elem_of_In. apply holds_spec.
      specialize (Hh c Hin). destruct c; [by rewrite Hcr|by rewrite Hc]. }
    destruct o; intros [= <- <-]; cbn zeta; auto.
Qed.

#[export] Program Instance mem_etcd : EtcdService state := {|
  etcd_exec := exec;
  kvs := contents;
  create_rev := creation
|}.
Next Obligation.
  intros s k. cbn. rewrite contents_lookup. unfold creation.
  by destruct (store s !! k) as [[]|].
Qed.
Next Obligation.
  intros k s r s'. unfold exec. destruct (next s) as [o t] eqn:En.
  apply next_store in En as [Hs _]. intros Hx.
  assert (contents t = contents s) as Hc by (unfold contents; by rewrite Hs).
  destruct o; injection Hx as <- <-; (split; [done|]); [|done..].
  intros l [= <-]. unfold read_key. rewrite contents_lookup, <-Hs.
  by destruct (store t !! k) as [[]|].
Qed.
Next Obligation.
  intros p s r s'. unfold exec. destruct (next s) as [o t] eqn:En.
  apply next_store in En as [Hs _]. intros Hx.
  assert (contents t = contents s) as Hc by (unfold contents; by rewrite Hs).
  destruct o; injection Hx as <- <-; (split; [done|]); [|done..].
  intros l [= <-]. rewrite <-Hc. split; [apply scan_pairs|apply scan_sorted].
Qed.
Next Obligation.
  intros k v s r s'. unfold exec. destruct (next s) as [o t] eqn:En.
  apply next_store in En as [Hs _]. intros Hx.
  assert (contents t = contents s) as Hc by (unfold contents; by rewrite Hs).
  rewrite <-Hc, <-contents_put.
  destruct o; injection Hx as <- <-; [by left|by right|by left].
Qed.
Next Obligation.
  intros p s r s'. unfold exec. destruct (next s) as [o t] eqn:En.
  apply next_store in En as [Hs _]. intros Hx.
  assert (contents t = contents s) as Hc by (unfold contents; by rewrite Hs).
  rewrite <-Hc, <-contents_delete.
  destruct o; injection Hx as <- <-; [by left|by right|by left].
Qed.
Next Obligation. intros cmps ops s r s' Hx. by apply mem_Txn_spec. Qed.
End MemEtcdFacts.
