(* ===== verification/Codec.v ===== *)
(** * Encodings of stored values

    [proto.Marshal]/[proto.Unmarshal] on specs and statuses and
    [encoding/json] on schema definitions are parameters; the class [Codec]
    states the round trip their documentation promises (for JSON, of strings
    that are valid UTF-8).  [TestCodec] encodes enough messages to run the
    witnesses. *)
From S2P Require Import Prelude GoStd GoStdFacts Messages.

Class Codec := {
  spec_Marshal : FlowSpec → result string;
  spec_Unmarshal : string → result FlowSpec;
  status_Marshal : FlowStatus → result string;
  status_Unmarshal : string → result FlowStatus;
  schema_Marshal : SchemaDefinition → result string;
  schema_Unmarshal : string → result SchemaDefinition;

  spec_roundtrip : ∀ m b, spec_Marshal m = Ok b → spec_Unmarshal b = Ok m;
  status_roundtrip : ∀ m b, status_Marshal m = Ok b → status_Unmarshal b = Ok m;
  schema_roundtrip : ∀ m b, utf8.ValidString (sd_SchemaID m) = true →
    schema_Marshal m = Ok b → schema_Unmarshal b = Ok m;
}.

(** ** A codec for the witnesses

    Fields are separated by "|"; a message with a field the format has no
    room for does not marshal. *)
Module TestCodec.

Definition unsupported : GoError := ExtErr "codec: unsupported message".

Definition simple_settings (img : string) : KubernetesSettings :=
  Build_KubernetesSettings (Some img) IMAGE_PULL_POLICY_UNSPECIFIED
    RESTART_POLICY_UNSPECIFIED ∅ None.

Definition simple_spec (name : string) (v : N) (img : option string) : FlowSpec :=
  Build_FlowSpec name v None [] [] ∅ None (simple_settings <$> img) None ∅.

(** A spec with one stage of one thread. *)
Definition one_stage (name type : string) : StageSpec :=
  Build_StageSpec name type 1 None None None None None.

Definition staged_spec (name : string) (v : N) (img sname stype : string) : FlowSpec :=
  Build_FlowSpec name v None [one_stage sname stype] [] ∅ None (Some (simple_settings img)) None ∅.

Definition simple_status (v : N) (workload : string) : FlowStatus :=
  Build_FlowStatus FLOW_STATE_DEPLOYING "flow runtime created" v workload
    (Some (Build_Timestamp 0 0)).

(** The image, if this is its settings. *)
Definition settings_image (k : KubernetesSettings) : option string :=
  match k with
  | Build_KubernetesSettings (Some img) IMAGE_PULL_POLICY_UNSPECIFIED
      RESTART_POLICY_UNSPECIFIED pins None =>
      if decide (size pins = 0) then Some img else None
  | _ => None
  end.

(** Name and type, if this is [one_stage] of them. *)
Definition stage_fields (s : StageSpec) : option (string * string) :=
  match s with
  | Build_StageSpec n t (Npos xH) None None None None None => Some (n, t)
  | _ => None
  end.

(** Fields to text, when none holds the separator and the number is a
    uint64. *)
Definition join_fields (v : N) (fields : list string) : result string :=
  if (v <? two64)%N && forallb (λ f, lacks f "|") fields
  then Ok (strconv.FormatUint v +:+ foldr (λ f acc, "|" +:+ f +:+ acc) "" fields)
  else Err unsupported.

Definition split_fields (b : string) : result (N * list string) :=
  match strings.Split b "|" with
  | v :: fields =>
      match strconv.ParseUint v 64 with
      | Some v => Ok (v, fields)
      | None => Err unsupported
      end
  | [] => Err unsupported
  end.

Definition spec_Marshal (m : FlowSpec) : result string :=
  match m with
  | Build_FlowSpec name v None [] [] labels None k None env =>
      if decide (size labels = 0 ∧ size env = 0) then
        match k with
        | None => join_fields v [name]
        | Some k => match settings_image k with
                    | Some img => join_fields v [img; name]
                    | None => Err unsupported
                    end
        end
      else Err unsupported
  | Build_FlowSpec name v None [s] [] labels None (Some k) None env =>
      if decide (size labels = 0 ∧ size env = 0) then
        match settings_image k, stage_fields s with
        | Some img, Some (sname, stype) => join_fields v [img; name; sname; stype]
        | _, _ => Err unsupported
        end
      else Err unsupported
  | _ => Err unsupported
  end.

Definition spec_Unmarshal (b : string) : result FlowSpec :=
  match split_fields b with
  | Ok (v, [name]) => Ok (simple_spec name v None)
  | Ok (v, [img; name]) => Ok (simple_spec name v (Some img))
  | Ok (v, [img; name; sname; stype]) => Ok (staged_spec name v img sname stype)
  | _ => Err unsupported
  end.

Definition status_Marshal (m : FlowStatus) : result string :=
  match m with
  | Build_FlowStatus FLOW_STATE_DEPLOYING msg v workload (Some (Build_Timestamp 0 0)) =>
      if decide (msg = "flow runtime created") then join_fields v [workload]
      else Err unsupported
  | _ => Err unsupported
  end.

Definition status_Unmarshal (b : string) : result FlowStatus :=
  match split_fields b with
  | Ok (v, [workload]) => Ok (simple_status v workload)
  | _ => Err unsupported
  end.

Definition schema_Marshal (m : SchemaDefinition) : result string :=
  match sd_Format m with
  | IN_MEMORY_SCHEMA_FORMAT_JSON =>
      join_fields (sd_Version m) [sd_SchemaID m; String.string_of_list_byte (sd_RawSchema m)]
  | _ => Err unsupported
  end.

Definition schema_Unmarshal (b : string) : result SchemaDefinition :=
  match split_fields b with
  | Ok (v, [id; raw]) =>
      Ok (Build_SchemaDefinition id v IN_MEMORY_SCHEMA_FORMAT_JSON
        (String.list_byte_of_string raw))
  | _ => Err unsupported
  end.

Lemma split_join v fields b : join_fields v fields = Ok b → split_fields b = Ok (v, fields).
Proof.
  unfold join_fields, split_fields.
  destruct ((v <? two64)%N && _) eqn:E; [|done]. apply andb_true_iff in E as [Hv Hf].
  apply N.ltb_lt in Hv. intros [= <-].
  assert (∀ x, lacks x "|" = true → strings.Split (x +:+
    foldr (λ f acc, "|" +:+ f +:+ acc) "" fields) "|" = x :: fields) as Hs.
  { induction fields as [|f fields IH]; intros x Hx; cbn [foldr].
    - rewrite append_nil_r. by apply Split_lacks.
    - cbn in Hf. apply andb_true_iff in Hf as [Hf Hfs].
      change ("|" +:+ f +:+ ?z) with (String "|" (f +:+ z)).
      rewrite Split_app by done. by rewrite IH. }
  rewrite Hs by (apply lacks_format_fuel; [|done]; intros d Hd H;
    apply (f_equal strconv.digit_value) in H; by rewrite digit_value_digit in H).
  by rewrite ParseUint_FormatUint.
Qed.

Lemma settings_image_ok k img : settings_image k = Some img → k = simple_settings img.
Proof.
  destruct k as [[i|] [] [] pins []]; cbn; try done.
  destruct (decide _) as [Hp|]; [|done]. apply map_size_empty_inv in Hp as ->. by intros [= ->].
Qed.

Lemma stage_fields_ok s n t : stage_fields s = Some (n, t) → s = one_stage n t.
Proof.
  destruct s as [? ? [|[]] [] [] [] [] []]; cbn; try done. by intros [= -> ->].
Qed.

Lemma spec_ok m b : spec_Marshal m = Ok b → spec_Unmarshal b = Ok m.
Proof.
  unfold spec_Unmarshal.
  destruct m as [name v [] [|s []] [] labels [] [k|] [] env]; try done; cbn;
    (destruct (decide _) as [[Hl He]|]; [|done];
     apply map_size_empty_inv in Hl as ->; apply map_size_empty_inv in He as ->);
    [| by intros ->%split_join |];
    destruct (settings_image k) as [img|] eqn:Hk; try done; apply settings_image_ok in Hk as ->.
  - by intros ->%split_join.
  - destruct (stage_fields s) as [[sname stype]|] eqn:Hs; [|done].
    apply stage_fields_ok in Hs as ->. by intros ->%split_join.
Qed.

Lemma status_ok m b : status_Marshal m = Ok b → status_Unmarshal b = Ok m.
Proof.
  destruct m as [[] msg v w [[[] []]|]]; try done. cbn. destruct (decide _) as [->|]; [|done].
  unfold status_Unmarshal. by intros ->%split_join.
Qed.

Lemma schema_ok m b : schema_Marshal m = Ok b → schema_Unmarshal b = Ok m.
Proof.
  destruct m as [id v [] raw]; try done. unfold schema_Marshal, schema_Unmarshal. cbn.
  intros Hb%split_join. rewrite Hb. do 2 f_equal. apply String.list_byte_of_string_of_list_byte.
Qed.

Lemma simple_marshals name v img :
  in64 v → lacks name "|" = true → (∀ i, img = Some i → lacks i "|" = true) →
  is_ok (spec_Marshal (simple_spec name v img)) = true.
Proof.
  intros Hv Hn Hi. unfold in64 in Hv. apply N.ltb_lt in Hv.
  destruct img as [i|].
  - change (is_ok (join_fields v [i; name]) = true). unfold join_fields. cbn [forallb].
    by rewrite Hv, (Hi i eq_refl), Hn.
  - change (is_ok (join_fields v [name]) = true). unfold join_fields. cbn [forallb].
    by rewrite Hv, Hn.
Qed.

#[export] Instance test_codec : Codec := {|
  Codec.spec_Marshal := spec_Marshal;
  Codec.spec_Unmarshal := spec_Unmarshal;
  Codec.status_Marshal := status_Marshal;
  Codec.status_Unmarshal := status_Unmarshal;
  Codec.schema_Marshal := schema_Marshal;
  Codec.schema_Unmarshal := schema_Unmarshal;
  spec_roundtrip := spec_ok;
  status_roundtrip := status_ok;
  schema_roundtrip := λ m b _, schema_ok m b
|}.

End TestCodec.
