(* ===== verification/ApiStore.v ===== *)
(** * api/internal/store/etcd.go: the versioned flow store of the API

    Definitions follow the file function by function.  [EtcdStore]'s only
    state is in etcd; each method is a program over etcd calls. *)
From S2P Require Import Prelude GoStd GoStdFacts Prog Messages Etcd Codec.

(** ** Key layout *)

Definition rootPrefix : string := "/flowpipe/flows".

Definition flowPrefix (name : string) : string := path.Join [rootPrefix; name].

Definition activeKey (name : string) : string := path.Join [flowPrefix name; "active"].

Definition versionSpecKey (name : string) (version : N) : string :=
  path.Join [flowPrefix name; "versions"; strconv.FormatUint version; "spec"].

Definition statusKey (name : string) : string := path.Join [flowPrefix name; "status"].

#[global] Arguments flowPrefix : simpl never.
#[global] Arguments activeKey : simpl never.
#[global] Arguments versionSpecKey : simpl never.
#[global] Arguments statusKey : simpl never.

(** keys.go *)
Definition FlowRoot (name : string) : string := "/flowpipe/flows/" +:+ name.
Definition FlowMetaKey (name : string) : string := FlowRoot name +:+ "/meta".
Definition FlowActiveKey (name : string) : string := FlowRoot name +:+ "/active".
Definition FlowStatusKey (name : string) : string := FlowRoot name +:+ "/status".
Definition FlowVersionSpecKey (name : string) (version : N) : string :=
  FlowRoot name +:+ "/versions/" +:+ strconv.FormatUint version +:+ "/spec".
Definition FlowVersionsPrefix (name : string) : string := FlowRoot name +:+ "/versions/".

(** ** Methods *)
Section Methods.
Context `{Codec}.

(** The values [(prevVersion, nextVersion)] are computed from the answer to
    the read of the active key; [None] is the "invalid active version"
    error. *)
Definition next_version (resp : list KeyValue) : option N :=
  match resp with
  | [] => Some 1%N
  | kv :: _ =>
      match strconv.ParseUint (kv_Value kv) 64 with
      | Some prevVersion => Some (wrap64 (prevVersion + 1))
      | None => None
      end
  end.

(** [txn.If(...)]: the comparison that guards the new version. *)
Definition version_guard (key : string) (resp : list KeyValue) : list Cmp :=
  match resp with
  | [] => [CmpCreateRevision key 0]
  | kv :: _ => [CmpValue key (kv_Value kv)]
  end.

Definition createNewVersion (name : string) (spec : FlowSpec) :
    prog etcdE (result Flow) :=
  resp ←? call (Get (activeKey name));
  match next_version resp with
  | None => Ret (Err (Errorf "invalid active version" []))
  | Some nextVersion =>
      let spec := set_fs_Version nextVersion spec in
      match spec_Marshal spec with
      | Err e => Ret (Err e)
      | Ok specBytes =>
          succeeded ←? call (Txn (version_guard (activeKey name) resp)
            [OpPut (versionSpecKey name nextVersion) specBytes;
             OpPut (activeKey name) (strconv.FormatUint nextVersion)]);
          if (succeeded : bool) then
            Ret (Ok (Build_Flow name nextVersion (Some spec) None))
          else Ret (Err (Errorf "flow %q modified concurrently" [AStr name]))
      end
  end.

Definition CreateFlow (spec : option FlowSpec) : prog etcdE (result Flow) :=
  match spec with
  | None => Ret (Err (Errorf "flow name is required" []))
  | Some spec =>
      if bool_decide (fs_Name spec = "") then
        Ret (Err (Errorf "flow name is required" []))
      else createNewVersion (fs_Name spec) spec
  end.

Definition UpdateFlow (name : string) (spec : option FlowSpec) :
    prog etcdE (result Flow) :=
  match spec with
  | None => Ret (Err (Errorf "spec is nil" []))
  | Some spec => createNewVersion name (set_fs_Name name spec)
  end.

(** A failed read counts as no status; only a bad encoding is an error. *)
Definition GetFlowStatus (name : string) : prog etcdE (result (option FlowStatus)) :=
  resp ← call (Get (statusKey name));
  match resp with
  | Err _ | Ok [] => Ret (Ok None)
  | Ok (kv :: _) =>
      match status_Unmarshal (kv_Value kv) with
      | Ok status => Ret (Ok (Some status))
      | Err e => Ret (Err e)
      end
  end.

Definition GetFlow (name : string) : prog etcdE (result Flow) :=
  activeResp ←? call (Get (activeKey name));
  match activeResp with
  | [] => Ret (Err (Errorf "flow %q not found" [AStr name]))
  | kv :: _ =>
      match strconv.ParseUint (kv_Value kv) 64 with
      | None => Ret (Err (Errorf "invalid active version" []))
      | Some version =>
          specResp ←? call (Get (versionSpecKey name version));
          match specResp with
          | [] => Ret (Err (Errorf "spec missing for %q version %d"
                              [AStr name; AUint version]))
          | kv :: _ =>
              match spec_Unmarshal (kv_Value kv) with
              | Err e => Ret (Err e)
              | Ok spec =>
                  status ← GetFlowStatus name;
                  let status := match status with Ok st => st | Err _ => None end in
                  Ret (Ok (Build_Flow name version (Some spec) status))
              end
          end
      end
  end.

(** The name the loop of [ListFlows] reads off a key. *)
Definition list_name (key : string) : string :=
  strings.TrimSuffix (strings.TrimPrefix key (rootPrefix +:+ "/")) "/active".

(** One round of the loop of [ListFlows] over [resp.Kvs]; the accumulator
    is [(seen, out)]. *)
Definition list_step (acc : gset string * list Flow) (kv : KeyValue) :
    prog etcdE (gset string * list Flow) :=
  let '(seen, out) := acc in
  if negb (strings.HasSuffix (kv_Key kv) "/active") then Ret acc
  else
    let name := list_name (kv_Key kv) in
    if bool_decide (name ∈ seen) then Ret acc
    else
      f ← GetFlow name;
      Ret ({[name]} ∪ seen, match f with Ok f => out ++ [f] | Err _ => out end).

Definition ListFlows : prog etcdE (result (list Flow)) :=
  resp ←? call (GetPrefix rootPrefix);
  acc ← for_each resp list_step (∅, []);
  Ret (Ok acc.2).

Definition DeleteFlow (name : string) : prog etcdE (result unit) :=
  call (DeletePrefix (flowPrefix name)).

Definition RollbackFlow (name : string) (version : N) : prog etcdE (result Flow) :=
  specResp ←? call (Get (versionSpecKey name version));
  match specResp with
  | [] => Ret (Err (Errorf "version %d does not exist" [AUint version]))
  | _ :: _ =>
      _ ←? call (Put (activeKey name) (strconv.FormatUint version));
      GetFlow name
  end.
End Methods.

(** ** The key layout on proper names *)
Section Keys.
Lemma flowPrefix_proper name :
  proper_seg name = true → flowPrefix name = abs_path ["flowpipe"; "flows"; name].
Proof.
  intros Hn. unfold flowPrefix. change rootPrefix with (abs_path ["flowpipe"; "flows"]).
  by rewrite Join_abs_path by (repeat constructor; done).
Qed.

Lemma key_proper name segs :
  proper_seg name = true → Forall (λ s, proper_seg s = true) segs →
  path.Join (flowPrefix name :: segs) = abs_path (["flowpipe"; "flows"; name] ++ segs).
Proof.
  intros Hn Hs. rewrite flowPrefix_proper by done. apply Join_abs_path; [done|].
  apply Forall_app. split; [by repeat constructor|done].
Qed.

Lemma activeKey_proper name :
  proper_seg name = true →
  activeKey name = abs_path ["flowpipe"; "flows"; name; "active"].
Proof. intros Hn. unfold activeKey. by rewrite key_proper by (repeat constructor; done). Qed.

Lemma statusKey_proper name :
  proper_seg name = true →
  statusKey name = abs_path ["flowpipe"; "flows"; name; "status"].
Proof. intros Hn. unfold statusKey. by rewrite key_proper by (repeat constructor; done). Qed.

Lemma versionSpecKey_proper name v :
  proper_seg name = true →
  versionSpecKey name v =
    abs_path ["flowpipe"; "flows"; name; "versions"; strconv.FormatUint v; "spec"].
Proof.
  intros Hn. unfold versionSpecKey. rewrite key_proper; [done..|].
  repeat constructor; try done. apply proper_seg_FormatUint.
Qed.

(** The keys of all flows, and of all parts of one flow, are distinct. *)
Lemma activeKey_inj a b :
  proper_seg a = true → proper_seg b = true → activeKey a = activeKey b → a = b.
Proof.
  intros Ha Hb. rewrite !activeKey_proper by done. intros E%abs_path_inj; [|solve_segs..].
  by injection E.
Qed.

Lemma statusKey_inj a b :
  proper_seg a = true → proper_seg b = true → statusKey a = statusKey b → a = b.
Proof.
  intros Ha Hb. rewrite !statusKey_proper by done. intros E%abs_path_inj; [|solve_segs..].
  by injection E.
Qed.

Lemma versionSpecKey_inj a b v w :
  proper_seg a = true → proper_seg b = true →
  versionSpecKey a v = versionSpecKey b w → a = b ∧ v = w.
Proof.
  intros Ha Hb. rewrite !versionSpecKey_proper by done.
  intros E%abs_path_inj; [|solve_segs..]. injection E as -> E. split; [done|].
  by apply FormatUint_inj.
Qed.

Lemma active_ne_version a b v :
  proper_seg a = true → proper_seg b = true → activeKey a ≠ versionSpecKey b v.
Proof.
  intros Ha Hb. rewrite activeKey_proper, versionSpecKey_proper by done.
  intros E%abs_path_inj; [done|solve_segs..].
Qed.

Lemma active_ne_status a b :
  proper_seg a = true → proper_seg b = true → activeKey a ≠ statusKey b.
Proof.
  intros Ha Hb. rewrite activeKey_proper, statusKey_proper by done.
  intros E%abs_path_inj; [done|solve_segs..].
Qed.

Lemma status_ne_version a b v :
  proper_seg a = true → proper_seg b = true → statusKey a ≠ versionSpecKey b v.
Proof.
  intros Ha Hb. rewrite statusKey_proper, versionSpecKey_proper by done.
  intros E%abs_path_inj; [done|solve_segs..].
Qed.

(** A flow's keys start with [flowPrefix name] exactly when the flow's name
    starts with [name]. *)
Lemma HasPrefix_before_slash a b name :
  lacks name "/" = true →
  strings.HasPrefix (a +:+ String "/" b) name = strings.HasPrefix a name.
Proof.
  unfold strings.HasPrefix. revert a. induction name as [|c name IH]; intros a Hn.
  - destruct a; [|by destruct (String a a0 +:+ _)]. done.
  - cbn [lacks] in Hn. apply andb_true_iff in Hn as [Hc Hn].
    apply negb_true_iff, bool_decide_eq_false in Hc. destruct a as [|x a].
    + rewrite append_nil_l. cbn. destruct (ascii_dec c "/"); done.
    + rewrite append_cons. cbn. destruct (ascii_dec c x); [by apply IH|done].
Qed.

Lemma flow_key_prefix name other seg segs :
  proper_seg name = true → proper_seg other = true →
  strings.HasPrefix (abs_path (["flowpipe"; "flows"; other] ++ seg :: segs)) (flowPrefix name)
  = strings.HasPrefix other name.
Proof.
  intros Hn Ho. rewrite flowPrefix_proper by done.
  assert (∀ x rest, abs_path (["flowpipe"; "flows"; x] ++ rest) =
    "/flowpipe/flows/" +:+ x +:+ abs_path rest) as Hp by done.
  rewrite Hp. change (abs_path ["flowpipe"; "flows"; name])
    with (abs_path (["flowpipe"; "flows"; name] ++ [])). rewrite Hp.
  rewrite HasPrefix_app_l. cbn [abs_path foldr]. rewrite append_nil_r.
  apply HasPrefix_before_slash. apply proper_seg_spec in Hn. naive_solver.
Qed.
End Keys.
