(* ===== verification/ApiStoreSpec.v ===== *)
(** * What the flow store promises, and that it keeps it

    [Spec] is the abstract store: per flow an active version, the specs by
    version and the status.  [abs] reads it off the keys of etcd.  Every
    method of [ApiStore] is shown to refine its abstract counterpart, failed
    calls included, and to preserve the invariant [store_ok]. *)
From S2P Require Import Prelude GoStd GoStdFacts Prog Messages Etcd Codec ApiStore.

(** ** The abstract store *)
Module Spec.

Record AFlow := {
  a_active : option N;
  a_spec : N → option FlowSpec;
  a_status : option FlowStatus;
}.

Definition state : Type := string → AFlow.

Definition none : AFlow := Build_AFlow None (λ _, None) None.

(** The version a create or update gets. *)
Definition next (a : AFlow) : N :=
  match a_active a with None => 1%N | Some n => wrap64 (n + 1) end.

(** The active version, 0 for a new flow. *)
Definition latest (a : AFlow) : N := default 0%N (a_active a).

(** A new version: stored under the next number, and active. *)
Definition push (spec : FlowSpec) (a : AFlow) : AFlow :=
  let n := next a in
  Build_AFlow (Some n)
    (λ v, if decide (v = n) then Some (set_fs_Version n spec) else a_spec a v)
    (a_status a).

(** Rollback moves the active pointer. *)
Definition activate (v : N) (a : AFlow) : AFlow :=
  Build_AFlow (Some v) (a_spec a) (a_status a).

Definition update (name : string) (a : AFlow) (σ : state) : state :=
  λ x, if decide (x = name) then a else σ x.

(** Delete as the code does it: every flow whose name starts with [name]. *)
Definition delete (name : string) (σ : state) : state :=
  λ x, if strings.HasPrefix x name then none else σ x.

#[global] Instance AFlow_equiv : Equiv AFlow := λ a b,
  a_active a = a_active b ∧ (∀ v, a_spec a v = a_spec b v) ∧ a_status a = a_status b.

(** States agree on the names a flow can be stored under unambiguously. *)
#[global] Instance state_equiv : Equiv state := λ σ τ,
  ∀ name, proper_seg name = true → σ name ≡ τ name.

#[global] Instance AFlow_equivalence : Equivalence (≡@{AFlow}).
Proof.
  split.
  - done.
  - intros a b (?&?&?). repeat split; congruence.
  - intros a b c (H1&H2&H3) (H4&H5&H6). repeat split; [congruence| |congruence].
    intros v. by rewrite H2.
Qed.

#[global] Instance state_equivalence : Equivalence (≡@{state}).
Proof.
  split.
  - done.
  - intros σ τ H name Hn. by rewrite (H name Hn).
  - intros σ τ ρ H1 H2 name Hn. by rewrite (H1 name Hn), (H2 name Hn).
Qed.

#[global] Instance update_proper name : Proper ((≡) ==> (≡@{state}) ==> (≡)) (update name).
Proof. intros a b Hab σ τ Hst x Hx. unfold update. case_decide; [done|by apply Hst]. Qed.

#[global] Instance push_proper spec : Proper ((≡) ==> (≡)) (push spec).
Proof.
  intros a b (H1&H2&H3). unfold push, next. rewrite H1. repeat split; [|done].
  intros v. cbn. case_decide; [done|apply H2].
Qed.

End Spec.

(** ** The abstraction function and the invariant *)
Section Abs.
Context `{Codec}.

Definition decode {A} (f : string → result A) (b : string) : option A :=
  match f b with Ok a => Some a | Err _ => None end.

Definition abs (m : gmap string string) : Spec.state := λ name, {|
  Spec.a_active := m !! activeKey name ≫= λ v, strconv.ParseUint v 64;
  Spec.a_spec := λ v, m !! versionSpecKey name v ≫= decode spec_Unmarshal;
  Spec.a_status := m !! statusKey name ≫= decode status_Unmarshal
|}.

(** The active pointer is the decimal form of a version that exists. *)
Definition active_ok (m : gmap string string) (name : string) : Prop :=
  ∀ v, m !! activeKey name = Some v →
    ∃ n, in64 n ∧ v = strconv.FormatUint n ∧ is_Some (m !! versionSpecKey name n).

(** Every stored version decodes to a spec of that name and version. *)
Definition versions_ok (m : gmap string string) (name : string) : Prop :=
  ∀ n b, in64 n → m !! versionSpecKey name n = Some b →
    ∃ spec, spec_Unmarshal b = Ok spec ∧ fs_Name spec = name ∧ fs_Version spec = n.

Definition store_ok (m : gmap string string) : Prop :=
  ∀ name, proper_seg name = true → active_ok m name ∧ versions_ok m name.

Lemma store_ok_empty : store_ok ∅.
Proof. intros name _. split; intros ?; set_solver. Qed.

(** The map after a version is installed. *)
Definition install (m : gmap string string) (name : string) (n : N) (b : string) :
    gmap string string :=
  apply_ops [OpPut (versionSpecKey name n) b;
             OpPut (activeKey name) (strconv.FormatUint n)] m.
#[local] Arguments install : simpl never.

Lemma install_active m name n b x :
  proper_seg name = true → proper_seg x = true →
  install m name n b !! activeKey x =
    if decide (x = name) then Some (strconv.FormatUint n) else m !! activeKey x.
Proof.
  intros Hn Hx. unfold install, apply_ops. cbn. case_decide as Hd.
  - subst. apply lookup_insert_eq.
  - rewrite lookup_insert_ne by (intros E; apply Hd; symmetry; by apply activeKey_inj).
    apply lookup_insert_ne. intros E. symmetry in E. by apply active_ne_version in E.
Qed.

Lemma install_version m name n b x v :
  proper_seg name = true → proper_seg x = true →
  install m name n b !! versionSpecKey x v =
    if decide (x = name ∧ v = n) then Some b else m !! versionSpecKey x v.
Proof.
  intros Hn Hx. unfold install, apply_ops. cbn.
  rewrite lookup_insert_ne by by apply active_ne_version.
  case_decide as Hd.
  - destruct Hd as [-> ->]. apply lookup_insert_eq.
  - apply lookup_insert_ne. intros E. apply Hd.
    apply versionSpecKey_inj in E as [-> ->]; done.
Qed.

Lemma install_status m name n b x :
  proper_seg name = true → proper_seg x = true →
  install m name n b !! statusKey x = m !! statusKey x.
Proof.
  intros Hn Hx. unfold install, apply_ops. cbn.
  rewrite lookup_insert_ne by by apply active_ne_status.
  apply lookup_insert_ne. intros E. symmetry in E. by apply status_ne_version in E.
Qed.

Lemma install_ok m name n spec b :
  proper_seg name = true → in64 n → fs_Name spec = name → store_ok m →
  spec_Marshal (set_fs_Version n spec) = Ok b → store_ok (install m name n b).
Proof.
  intros Hn H64 Hs Hm Hb x Hx. destruct (Hm x Hx) as [Ha Hv]. split.
  - intros v. rewrite install_active by done. case_decide as Hd.
    + intros [= <-]. exists n. split_and!; [done..|]. subst.
      rewrite install_version by done. rewrite decide_True by done. eauto.
    + intros Hl. destruct (Ha v Hl) as (k & ? & -> & Hk). exists k. split_and!; [done..|].
      rewrite install_version by done. rewrite decide_False by naive_solver. done.
  - intros k b' Hk. rewrite install_version by done. case_decide as Hd.
    + destruct Hd as [-> ->]. intros [= <-]. eexists. split; [by apply spec_roundtrip|].
      done.
    + intros Hl. by apply Hv.
Qed.

Lemma install_abs m name n spec b :
  proper_seg name = true → in64 n → Spec.next (abs m name) = n →
  spec_Marshal (set_fs_Version n spec) = Ok b →
  abs (install m name n b) ≡ Spec.update name (Spec.push spec (abs m name)) (abs m).
Proof.
  intros Hn H64 Hnext Hb x Hx. unfold Spec.update. case_decide as Hd.
  - subst x. unfold Spec.push. rewrite Hnext. split_and!; cbn.
    + rewrite install_active, decide_True by done. cbn. by rewrite ParseUint_FormatUint.
    + intros v. rewrite install_version by done. case_decide; case_decide; try naive_solver.
      cbn. unfold decode. by rewrite (spec_roundtrip _ _ Hb).
    + by rewrite install_status.
  - split_and!; cbn.
    + by rewrite install_active, decide_False by done.
    + intros v. by rewrite install_version, decide_False by naive_solver.
    + by rewrite install_status.
Qed.
End Abs.

(** ** Operations and their abstract steps *)

Inductive op :=
  | OpCreate (spec : option FlowSpec)
  | OpUpdate (name : string) (spec : option FlowSpec)
  | OpGet (name : string)
  | OpList
  | OpDelete (name : string)
  | OpStatus (name : string)
  | OpRollback (name : string) (version : N).

Inductive response :=
  | RFlow (r : result Flow)
  | RFlows (r : result (list Flow))
  | RUnit (r : result unit)
  | RStatus (r : result (option FlowStatus)).

Definition run_op `{Codec} (o : op) : prog etcdE response :=
  match o with
  | OpCreate spec => RFlow <$> CreateFlow spec
  | OpUpdate name spec => RFlow <$> UpdateFlow name spec
  | OpGet name => RFlow <$> GetFlow name
  | OpList => RFlows <$> ListFlows
  | OpDelete name => RUnit <$> DeleteFlow name
  | OpStatus name => RStatus <$> GetFlowStatus name
  | OpRollback name version => RFlow <$> RollbackFlow name version
  end.

(** Names and versions within the store's contract. *)
Definition op_ok (o : op) : Prop :=
  match o with
  | OpCreate (Some spec) => proper_seg (fs_Name spec) = true
  | OpUpdate name _ | OpGet name | OpDelete name | OpStatus name => proper_seg name = true
  | OpRollback name v => proper_seg name = true ∧ in64 v
  | OpCreate None | OpList => True
  end.

(** A flow as a reader may see it: the active version, its spec, and the
    status unless reading it failed. *)
Definition sees (a : Spec.AFlow) (f : Flow) : Prop :=
  ∃ v spec st, Spec.a_active a = Some v ∧ Spec.a_spec a v = Some spec ∧
    (st = None ∨ st = Spec.a_status a) ∧ f = Build_Flow (fl_Name f) v (Some spec) st.

Definition write_post (name : string) (spec : FlowSpec) (σ : Spec.state)
    (r : result Flow) (σ' : Spec.state) : Prop :=
  let done := Spec.update name (Spec.push spec (σ name)) σ in
  match r with
  | Ok f => σ' ≡ done ∧
      let v := Spec.next (σ name) in
      f = Build_Flow name v (Some (set_fs_Version v spec)) None
  | Err _ => σ' ≡ σ ∨ σ' ≡ done
  end.

Definition spec_step (σ : Spec.state) (o : op) (r : response) (σ' : Spec.state) : Prop :=
  match o, r with
  | OpCreate None, RFlow r | OpUpdate _ None, RFlow r => is_ok r = false ∧ σ' ≡ σ
  | OpCreate (Some spec), RFlow r => write_post (fs_Name spec) spec σ r σ'
  | OpUpdate name (Some spec), RFlow r => write_post name (set_fs_Name name spec) σ r σ'
  | OpGet name, RFlow r =>
      σ' ≡ σ ∧ ∀ f, r = Ok f → fl_Name f = name ∧ sees (σ name) f
  | OpList, RFlows r =>
      σ' ≡ σ ∧ ∀ fs, r = Ok fs →
        NoDup (fl_Name <$> fs) ∧ Forall (λ f, sees (σ (fl_Name f)) f) fs
  | OpDelete name, RUnit r =>
      match r with
      | Ok _ => σ' ≡ Spec.delete name σ
      | Err _ => σ' ≡ σ ∨ σ' ≡ Spec.delete name σ
      end
  | OpStatus name, RStatus r =>
      σ' ≡ σ ∧ ∀ st, r = Ok st → st = None ∨ st = Spec.a_status (σ name)
  | OpRollback name v, RFlow r =>
      let done := Spec.update name (Spec.activate v (σ name)) σ in
      match r with
      | Ok f => is_Some (Spec.a_spec (σ name) v) ∧ σ' ≡ done ∧
          fl_Name f = name ∧ fl_Version f = v ∧ sees (Spec.activate v (σ name)) f
      | Err _ => σ' ≡ σ ∨ (is_Some (Spec.a_spec (σ name) v) ∧ σ' ≡ done)
      end
  | _, _ => False
  end.

(** ** Each method against its abstract step *)
Section Methods.
Context `{Codec} {S : Type} `{EtcdService S}.

Lemma wp_fmap_result {A} (f : A → response) (p : prog etcdE A) s Φ :
  wp etcd_exec p s (λ a s', Φ (f a) s') → wp etcd_exec (f <$> p) s Φ.
Proof. intros Hw. by apply wp_bind. Qed.

Lemma guard_cas key resp :
  version_guard key resp = cas_guard key (kv_Value <$> head resp).
Proof. by destruct resp. Qed.

Lemma next_version_abs m name v :
  active_ok m name → m !! activeKey name = Some v →
  ∃ n, v = strconv.FormatUint n ∧ in64 n ∧ strconv.ParseUint v 64 = Some n ∧
    Spec.next (abs m name) = wrap64 (n + 1).
Proof.
  intros Ha Hv. destruct (Ha v Hv) as (n & Hn & -> & _). exists n.
  rewrite ParseUint_FormatUint by done. split_and!; [done..|].
  unfold Spec.next, abs. cbn. rewrite Hv. cbn. by rewrite ParseUint_FormatUint.
Qed.

(** The part of [createNewVersion] after the read. *)
Lemma wp_commit name spec resp n b s s0 Φ :
  proper_seg name = true → fs_Name spec = name → in64 n → store_ok (kvs s0) →
  kvs s = kvs s0 → kvs s0 !! activeKey name = kv_Value <$> head resp →
  Spec.next (abs (kvs s0) name) = n → spec_Marshal (set_fs_Version n spec) = Ok b →
  (∀ r s', store_ok (kvs s') → write_post name spec (abs (kvs s0)) r (abs (kvs s')) → Φ r s') →
  wp etcd_exec (succeeded ←? call (Txn (version_guard (activeKey name) resp)
      [OpPut (versionSpecKey name n) b; OpPut (activeKey name) (strconv.FormatUint n)]);
    if (succeeded : bool) then Ret (Ok (Build_Flow name n (Some (set_fs_Version n spec)) None))
    else Ret (Err (Errorf "flow %q modified concurrently" [AStr name]))) s Φ.
Proof.
  intros Hn Hname H64 Hok Hs Hact Hnext Hb HΦ. rewrite guard_cas.
  apply wp_try, wp_cas; rewrite Hs.
  - intros s' _ Hm. apply wp_ret, HΦ; fold (install (kvs s0) name n b) in Hm; rewrite Hm.
    + by eapply install_ok.
    + unfold write_post. rewrite Hnext. split; [|done]. by apply install_abs.
  - intros s' Hne. by destruct Hne.
  - intros e s' Hm. apply HΦ; destruct Hm as [Hm|[_ Hm]].
    + by rewrite Hm.
    + fold (install (kvs s0) name n b) in Hm. rewrite Hm. by eapply install_ok.
    + rewrite Hm. by left.
    + fold (install (kvs s0) name n b) in Hm. rewrite Hm. right. by apply install_abs.
Qed.

Lemma wp_createNewVersion name spec s Φ :
  proper_seg name = true → fs_Name spec = name → store_ok (kvs s) →
  (∀ r s', store_ok (kvs s') → write_post name spec (abs (kvs s)) r (abs (kvs s')) → Φ r s') →
  wp etcd_exec (createNewVersion name spec) s Φ.
Proof.
  intros Hn Hname Hok HΦ. unfold createNewVersion.
  apply wp_try, wp_Get.
  - intros e s' Hs. apply HΦ; rewrite Hs; [done|by left].
  - intros s' Hs Hnone. cbn [next_version].
    assert (Spec.next (abs (kvs s) name) = 1%N) as Hnext.
    { unfold Spec.next, abs. cbn. by rewrite Hnone. }
    destruct (spec_Marshal _) as [b|e] eqn:Hb.
    + by eapply wp_commit.
    + apply wp_ret, HΦ; rewrite Hs; [done|by left].
  - intros kv s' Hs Hkv. cbn [next_version].
    destruct (next_version_abs _ _ _ (proj1 (Hok name Hn)) Hkv) as (n & Hv & H64 & Hp & Hnext).
    rewrite Hp. destruct (spec_Marshal _) as [b|e] eqn:Hb.
    + eapply wp_commit; eauto with flow.
    + apply wp_ret, HΦ; rewrite Hs; [done|by left].
Qed.

Lemma wp_GetFlowStatus name s Φ :
  (∀ r s', kvs s' = kvs s →
    (∀ st, r = Ok st → st = None ∨ st = Spec.a_status (abs (kvs s) name)) → Φ r s') →
  wp etcd_exec (GetFlowStatus name) s Φ.
Proof.
  intros HΦ. unfold GetFlowStatus. apply wp_bind, wp_Get.
  - intros e s' Hs. apply wp_ret, HΦ; naive_solver.
  - intros s' Hs _. apply wp_ret, HΦ; naive_solver.
  - intros kv s' Hs Hkv. unfold abs in HΦ. cbn in HΦ. unfold decode in HΦ.
    destruct (status_Unmarshal (kv_Value kv)) eqn:E; apply wp_ret, HΦ; try done.
    intros st [= <-]. right. rewrite Hkv. cbn. by rewrite E.
Qed.

Lemma wp_GetFlow name s Φ :
  (∀ r s', kvs s' = kvs s →
    (∀ f, r = Ok f → fl_Name f = name ∧ sees (abs (kvs s) name) f) → Φ r s') →
  wp etcd_exec (GetFlow name) s Φ.
Proof.
  intros HΦ. unfold GetFlow. apply wp_try, wp_Get; [naive_solver| |].
  { intros s1 Hs1 _. apply wp_ret, HΦ; naive_solver. }
  intros kv s1 Hs1 Hkv. destruct (strconv.ParseUint _ _) as [v|] eqn:Hp;
    [|apply wp_ret, HΦ; naive_solver].
  apply wp_try, wp_Get; [naive_solver congruence| |].
  { intros s2 Hs2 _. apply wp_ret, HΦ; [congruence|done]. }
  intros kv2 s2 Hs2 Hkv2. destruct (spec_Unmarshal _) as [spec|e] eqn:Hu;
    [|apply wp_ret, HΦ; [congruence|done]].
  apply wp_bind, wp_GetFlowStatus. intros r s3 Hs3 Hst. apply wp_ret, HΦ; [congruence|].
  intros f [= <-]. split; [done|]. rewrite Hs1 in Hkv2, Hs2. rewrite Hs2 in Hst.
  exists v, spec, (match r with Ok st => st | Err _ => None end). split_and!.
  - unfold abs. cbn. by rewrite Hkv.
  - unfold abs. cbn. rewrite Hkv2. cbn. unfold decode. by rewrite Hu.
  - destruct r as [st|]; [|by left]. by apply Hst.
  - done.
Qed.

Lemma wp_ListFlows s Φ :
  (∀ r s', kvs s' = kvs s →
    (∀ fs, r = Ok fs → NoDup (fl_Name <$> fs) ∧
      Forall (λ f, sees (abs (kvs s) (fl_Name f)) f) fs) → Φ r s') →
  wp etcd_exec ListFlows s Φ.
Proof.
  intros HΦ. unfold ListFlows. apply wp_try, wp_GetPrefix; [naive_solver|].
  intros l s1 Hs1 _ _. apply wp_bind.
  pose (I := λ (_ : list KeyValue) (acc : gset string * list Flow) s',
    kvs s' = kvs s ∧ NoDup (fl_Name <$> acc.2) ∧ (∀ n, n ∈ fl_Name <$> acc.2 → n ∈ acc.1) ∧
    Forall (λ f, sees (abs (kvs s) (fl_Name f)) f) acc.2).
  eapply wp_mono; [apply (wp_for_each _ I)|].
  - split_and!; [done|constructor|set_solver|constructor].
  - intros kv l' [seen out] s' (Hs' & Hnd & Hsub & Hf). unfold list_step.
    destruct (negb _); [by apply wp_ret|].
    case_bool_decide as Hseen; [by apply wp_ret|].
    apply wp_bind, wp_GetFlow. intros r s2 Hs2 Hr. apply wp_ret.
    unfold I. destruct r as [f|e]; cbn [fst snd] in *;
      [|split_and!; [congruence|done|set_solver|done]].
    destruct (Hr f eq_refl) as [Hname Hsees].
    split_and!; [congruence|rewrite fmap_app| |].
    + apply NoDup_app_snoc; [done|]. rewrite Hname. naive_solver.
    + rewrite fmap_app. cbn. set_solver.
    + apply Forall_app. split; [done|]. apply Forall_singleton. by rewrite Hname, <-Hs'.
  - intros [seen out] s' (Hs' & Hnd & _ & Hf). apply wp_ret, HΦ; [done|].
    intros fs [= <-]. done.
Qed.
End Methods.

Section DeleteRollback.
Context `{Codec} {S : Type} `{EtcdService S}.

(** The keys of a flow after a delete by prefix. *)
Lemma without_flow_key m name other seg segs key :
  proper_seg name = true → proper_seg other = true →
  key = abs_path (["flowpipe"; "flows"; other] ++ seg :: segs) →
  without_prefix (flowPrefix name) m !! key =
    if strings.HasPrefix other name then None else m !! key.
Proof. intros Hn Ho ->. by rewrite lookup_without_prefix, flow_key_prefix. Qed.

Lemma without_active m name other :
  proper_seg name = true → proper_seg other = true →
  without_prefix (flowPrefix name) m !! activeKey other =
    if strings.HasPrefix other name then None else m !! activeKey other.
Proof. intros. eapply without_flow_key; [done..|]. by rewrite activeKey_proper. Qed.

Lemma without_version m name other v :
  proper_seg name = true → proper_seg other = true →
  without_prefix (flowPrefix name) m !! versionSpecKey other v =
    if strings.HasPrefix other name then None else m !! versionSpecKey other v.
Proof. intros. eapply without_flow_key; [done..|]. by rewrite versionSpecKey_proper. Qed.

Lemma without_status m name other :
  proper_seg name = true → proper_seg other = true →
  without_prefix (flowPrefix name) m !! statusKey other =
    if strings.HasPrefix other name then None else m !! statusKey other.
Proof. intros. eapply without_flow_key; [done..|]. by rewrite statusKey_proper. Qed.

Lemma delete_ok m name :
  proper_seg name = true → store_ok m → store_ok (without_prefix (flowPrefix name) m).
Proof.
  intros Hn Hm x Hx. destruct (Hm x Hx) as [Ha Hv]. split.
  - intros v. rewrite without_active by done. destruct (strings.HasPrefix x name) eqn:E; [done|].
    intros Hl. destruct (Ha v Hl) as (n & ? & ? & ?). exists n. split_and!; [done..|].
    by rewrite without_version, E.
  - intros n b Hb. rewrite without_version by done.
    destruct (strings.HasPrefix x name); [done|]. by apply Hv.
Qed.

Lemma delete_abs m name :
  proper_seg name = true →
  abs (without_prefix (flowPrefix name) m) ≡ Spec.delete name (abs m).
Proof.
  intros Hn x Hx. unfold Spec.delete. destruct (strings.HasPrefix x name) eqn:E;
    split_and!; intros; cbn;
    rewrite ?without_active, ?without_version, ?without_status, ?E by done; done.
Qed.

Lemma activate_ok m name v :
  proper_seg name = true → in64 v → is_Some (m !! versionSpecKey name v) → store_ok m →
  store_ok (<[activeKey name := strconv.FormatUint v]> m).
Proof.
  intros Hn Hv Hs Hm x Hx. destruct (Hm x Hx) as [Ha Hvs]. split.
  - intros w. destruct (decide (x = name)) as [->|Hne].
    + rewrite lookup_insert_eq. intros [= <-]. exists v. split_and!; [done..|].
      by rewrite lookup_insert_ne by by apply active_ne_version.
    + rewrite lookup_insert_ne by (intros E; apply Hne; symmetry; by apply activeKey_inj).
      intros Hl. destruct (Ha w Hl) as (n & ? & ? & ?). exists n. split_and!; [done..|].
      by rewrite lookup_insert_ne by by apply active_ne_version.
  - intros n b Hb. rewrite lookup_insert_ne by by apply active_ne_version. by apply Hvs.
Qed.

Lemma activate_abs m name v :
  proper_seg name = true → in64 v →
  abs (<[activeKey name := strconv.FormatUint v]> m) ≡
    Spec.update name (Spec.activate v (abs m name)) (abs m).
Proof.
  intros Hn Hv x Hx. unfold Spec.update. case_decide as Hd.
  - subst. split_and!; intros; cbn.
    + rewrite lookup_insert_eq. cbn. by rewrite ParseUint_FormatUint.
    + by rewrite lookup_insert_ne by by apply active_ne_version.
    + by rewrite lookup_insert_ne by by apply active_ne_status.
  - split_and!; intros; cbn.
    + by rewrite lookup_insert_ne by (intros E; apply Hd; symmetry; by apply activeKey_inj).
    + by rewrite lookup_insert_ne by by apply active_ne_version.
    + by rewrite lookup_insert_ne by by apply active_ne_status.
Qed.

Lemma sees_equiv a b f : a ≡ b → sees a f → sees b f.
Proof.
  intros (H1&H2&H3) (v & spec & st & ? & ? & ? & ?). exists v, spec, st.
  rewrite <-H1, <-H2, <-H3. done.
Qed.

Lemma stored_version_decodes m name v :
  proper_seg name = true → in64 v → store_ok m → is_Some (m !! versionSpecKey name v) →
  is_Some (Spec.a_spec (abs m name) v).
Proof.
  intros Hn Hv Hok [b Hb]. destruct (Hok name Hn) as [_ Hvs].
  destruct (Hvs v b Hv Hb) as (spec & Hu & _). exists spec. unfold abs. cbn.
  rewrite Hb. cbn. unfold decode. by rewrite Hu.
Qed.

Lemma wp_RollbackFlow name v s Φ :
  proper_seg name = true → in64 v → store_ok (kvs s) →
  (∀ r s', store_ok (kvs s') →
     spec_step (abs (kvs s)) (OpRollback name v) (RFlow r) (abs (kvs s')) → Φ r s') →
  wp etcd_exec (RollbackFlow name v) s Φ.
Proof.
  intros Hn Hv Hok HΦ. unfold RollbackFlow.
  assert (∀ e s', kvs s' = kvs s → Φ (Err e) s') as Hsame.
  { intros e s' Hs. apply HΦ; rewrite Hs; [done|]. by left. }
  apply wp_try, wp_Get; [by eauto|intros; by apply wp_ret, Hsame|].
  intros kv s1 Hs1 Hkv.
  assert (is_Some (kvs s !! versionSpecKey name v)) as Hsome by eauto.
  pose proof (stored_version_decodes _ _ _ Hn Hv Hok Hsome) as Hdec.
  assert (∀ s', kvs s' = <[activeKey name := strconv.FormatUint v]> (kvs s) →
    store_ok (kvs s') ∧
    abs (kvs s') ≡ Spec.update name (Spec.activate v (abs (kvs s) name)) (abs (kvs s)))
    as Hdone.
  { intros s' ->. split; [by apply activate_ok|by apply activate_abs]. }
  apply wp_try, wp_Put; rewrite Hs1.
  - intros s2 Hs2. destruct (Hdone s2 Hs2) as [Hok2 Habs2].
    apply wp_GetFlow. intros r s3 Hs3 Hr. rewrite <-Hs3 in Hok2, Habs2.
    apply HΦ; [done|]. cbn. destruct r as [f|e]; [|by right].
    destruct (Hr f eq_refl) as [Hname Hsees]. rewrite <-Hs3 in Hsees.
    assert (sees (Spec.activate v (abs (kvs s) name)) f) as Hsees'.
    { eapply sees_equiv; [|exact Hsees]. rewrite (Habs2 name Hn). unfold Spec.update.
      by rewrite decide_True. }
    split_and!; try done. destruct Hsees' as (w & ? & ? & Hw & _ & _ & ->).
    cbn in Hw. by injection Hw as ->.
  - intros e s2 [Hs2|Hs2]; [|by apply Hsame]. destruct (Hdone s2 Hs2).
    apply HΦ; [done|]. cbn. by right.
Qed.

(** One operation. *)
Lemma wp_run_op o s Φ :
  op_ok o → store_ok (kvs s) →
  (∀ r s', store_ok (kvs s') → spec_step (abs (kvs s)) o r (abs (kvs s')) → Φ r s') →
  wp etcd_exec (run_op o) s Φ.
Proof.
  intros Ho Hok HΦ.
  destruct o as [[spec|]|name [spec|]|name| |name|name|name v]; cbn [run_op];
    apply wp_fmap_result.
  - unfold CreateFlow. case_bool_decide as Hne; [cbn in Ho; by rewrite Hne in Ho|].
    apply wp_createNewVersion; [done..|]. intros r s' ? ?. by apply HΦ.
  - apply wp_ret, HΦ; done.
  - apply wp_createNewVersion; [done..|]. intros r s' ? ?. by apply HΦ.
  - apply wp_ret, HΦ; done.
  - apply wp_GetFlow. intros r s' Hs Hr. apply HΦ; [by rewrite Hs|]. cbn. by rewrite Hs.
  - apply wp_ListFlows. intros r s' Hs Hr. apply HΦ; [by rewrite Hs|]. cbn. by rewrite Hs.
  - apply wp_DeletePrefix.
    + intros s' Hs. apply HΦ; rewrite Hs; [by apply delete_ok|by apply delete_abs].
    + intros e s' [Hs|Hs]; apply HΦ; rewrite Hs; [by apply delete_ok| |done|by left].
      right. by apply delete_abs.
  - apply wp_GetFlowStatus. intros r s' Hs Hr. apply HΦ; [by rewrite Hs|]. cbn.
    by rewrite Hs.
  - destruct Ho as [Hn Hv]. apply wp_RollbackFlow; [done..|]. intros r s' ? ?. by apply HΦ.
Qed.
End DeleteRollback.
