(* ===== verification/ApiStoreProps.v ===== *)
(** * Properties of the flow store

    Refinement of sequences of operations, create-then-read, rollback, the
    reach of a delete and the key layout, with their witnesses on the
    in-memory etcd. *)
From S2P Require Import Prelude GoStd GoStdFacts Prog Messages Etcd Codec ApiStore ApiStoreSpec.

(** ** Sequences of operations *)

Definition run_ops `{Codec} (ops : list op) : prog etcdE (list response) :=
  for_each ops (λ rs o, r ← run_op o; Ret (rs ++ [r])) [].

Inductive spec_steps : Spec.state → list op → list response → Spec.state → Prop :=
  | steps_nil σ σ' : σ' ≡ σ → spec_steps σ [] [] σ'
  | steps_cons σ o r σ1 ops rs σ2 :
      spec_step σ o r σ1 → spec_steps σ1 ops rs σ2 →
      spec_steps σ (o :: ops) (r :: rs) σ2.

(** ** The history of a flow *)

(** A call that neither rolls the flow back nor deletes it. *)
Definition forward (name : string) (o : op) : Prop :=
  match o with
  | OpRollback n _ => n ≠ name
  | OpDelete n => strings.HasPrefix name n = false
  | _ => True
  end.

(** The flow a call writes a version of. *)
Definition written_name (o : op) : option string :=
  match o with
  | OpCreate (Some spec) => Some (fs_Name spec)
  | OpUpdate name (Some _) => Some name
  | _ => None
  end.

(** The [i]-th call wrote the version [f] of the flow. *)
Definition wrote (name : string) (ops : list op) (rs : list response) (i : nat) (f : Flow) : Prop :=
  ∃ o, ops !! i = Some o ∧ written_name o = Some name ∧ rs !! i = Some (RFlow (Ok f)).

(** No version is above the active one. *)
Definition linear (a : Spec.AFlow) : Prop :=
  ∀ v, is_Some (Spec.a_spec a v) → (v <= Spec.latest a)%N ∧ is_Some (Spec.a_active a).

Definition grows (a b : Spec.AFlow) : Prop :=
  (∀ v spec, Spec.a_spec a v = Some spec → Spec.a_spec b v = Some spec) ∧
  (Spec.latest a <= Spec.latest b)%N ∧ Spec.a_status b = Spec.a_status a.

Section History.
Context (name : string) (Hname : proper_seg name = true).

Lemma grows_equiv a b : b ≡ a → grows a b.
Proof using. intros (Ha & Hs & Ht). unfold grows, Spec.latest. rewrite Ha, Ht. split_and!; [|apply N.le_refl|done].
  intros v spec. by rewrite Hs. Qed.

Lemma grows_trans a b c : grows a b → grows b c → grows a c.
Proof using. intros (H1 & H2 & H3) (H4 & H5 & H6). split_and!; [auto|lia|congruence]. Qed.

Lemma linear_equiv a b : b ≡ a → linear a → linear b.
Proof using.
  intros (Ha & Hs & _) Hl v. unfold Spec.latest. rewrite Hs, Ha. apply Hl.
Qed.

Lemma latest_equiv a b : b ≡ a → Spec.latest b = Spec.latest a.
Proof using. intros (Ha & _). unfold Spec.latest. by rewrite Ha. Qed.

Lemma next_latest a : (Spec.latest a + 1 < two64)%N → Spec.next a = (Spec.latest a + 1)%N.
Proof using.
  unfold Spec.latest, Spec.next. destruct (Spec.a_active a) as [n|]; cbn; [|done].
  apply wrap64_small.
Qed.

Lemma push_history spec a b :
  linear a → (Spec.latest a + 1 < two64)%N → b ≡ Spec.push spec a →
  grows a b ∧ linear b ∧ Spec.latest b = (Spec.latest a + 1)%N.
Proof using.
  intros Hl Hlt Hb. pose proof (next_latest a Hlt) as Hn.
  assert (Spec.latest b = (Spec.latest a + 1)%N) as Hlb.
  { rewrite (latest_equiv _ _ Hb). exact Hn. }
  destruct Hb as (Ha & Hs & Ht). split; [split_and!; [|rewrite Hlb; lia|done]|split; [|done]].
  - intros v sp Hv. rewrite Hs. cbn. destruct (Hl v) as [Hle _]; [by eexists|].
    rewrite decide_False; [done|]. rewrite Hn. lia.
  - intros v. rewrite Hs, Hlb, Ha. cbn. case_decide as Hv; [rewrite Hn in Hv; intros _; split; [lia|done]|].
    intros Hsp. destruct (Hl v Hsp) as [? _]. split; [lia|done].
Qed.

(** What one call does to the history of the flow. *)
Definition advances (o : op) (r : response) (a b : Spec.AFlow) : Prop :=
  grows a b ∧ linear b ∧ (Spec.latest b <= Spec.latest a + 1)%N ∧
  ∀ f, written_name o = Some name → r = RFlow (Ok f) →
    fl_Version f = (Spec.latest a + 1)%N ∧ Spec.latest b = fl_Version f ∧
    is_Some (fl_Spec f) ∧ Spec.a_spec b (fl_Version f) = fl_Spec f.

Lemma advances_same o r a b :
  linear a → b ≡ a → (∀ f, written_name o = Some name → r ≠ RFlow (Ok f)) → advances o r a b.
Proof using.
  intros Hl He Hr. split; [by apply grows_equiv|]. split; [by eapply linear_equiv|].
  split; [rewrite (latest_equiv _ _ He); lia|]. intros f Hw ->. by destruct (Hr f Hw).
Qed.

Lemma advances_write o n spec r σ σ' :
  written_name o = Some n → write_post n spec σ r σ' →
  linear (σ name) → (Spec.latest (σ name) + 1 < two64)%N →
  advances o (RFlow r) (σ name) (σ' name).
Proof using Hname.
  intros Hw Hp Hl Hlt. destruct (decide (n = name)) as [->|Hne].
  2: { apply advances_same; [done| |by rewrite Hw; intros ? [= ?]].
    destruct r as [f|e]; cbn in Hp; [destruct Hp as [Hp _]|destruct Hp as [Hp|Hp]];
      rewrite (Hp name Hname); unfold Spec.update; by rewrite ?decide_False. }
  assert (σ' ≡ Spec.update name (Spec.push spec (σ name)) σ →
    σ' name ≡ Spec.push spec (σ name)) as Hhere.
  { intros Hs. rewrite (Hs name Hname). unfold Spec.update. by rewrite decide_True. }
  destruct r as [f|e].
  - destruct Hp as [Hs ->]. pose proof (Hhere Hs) as Hb.
    destruct (push_history _ _ _ Hl Hlt Hb) as (? & ? & Hlat).
    split; [done|]. split; [done|]. split; [lia|]. intros ? _ [= <-]. cbn.
    rewrite (next_latest _ Hlt), Hlat. split_and!; [done|done|by eexists|].
    destruct Hb as (_ & Hsp & _). rewrite Hsp. cbn.
    rewrite decide_True; by rewrite (next_latest _ Hlt).
  - destruct Hp as [Hs|Hs]; [by apply advances_same; [|apply Hs|]|].
    destruct (push_history _ _ _ Hl Hlt (Hhere Hs)) as (? & ? & Hlat).
    split; [done|]. split; [done|]. split; [lia|done].
Qed.

Lemma step_history σ o r σ' :
  forward name o → spec_step σ o r σ' →
  linear (σ name) → (Spec.latest (σ name) + 1 < two64)%N →
  advances o r (σ name) (σ' name).
Proof using Hname.
  intros Hf Hstep Hl Hlt.
  destruct o as [[spec|]|n [spec|]|n| |n|n|n v], r as [r|r|r|r]; cbn in Hstep; try done;
    try (apply advances_same; [done|by apply Hstep|done]).
  - by eapply advances_write.
  - by eapply (advances_write _ n (set_fs_Name n spec)).
  - apply advances_same; [done| |done].
    destruct r as [u|e]; [|destruct Hstep as [Hs|Hs]; [by apply Hs|]; rename Hs into Hstep];
      rewrite (Hstep name Hname); unfold Spec.delete; cbn in Hf; by rewrite Hf.
  - apply advances_same; [done| |done]. cbn in Hf.
    assert (∀ σ', σ' ≡ Spec.update n (Spec.activate v (σ n)) σ → σ' name ≡ σ name) as Hother.
    { intros σ1 Hs. rewrite (Hs name Hname). unfold Spec.update. by rewrite decide_False. }
    destruct r as [f|e]; [by apply Hother, Hstep|].
    destruct Hstep as [Hs|[_ Hs]]; [by apply Hs|by apply Hother].
Qed.

Lemma steps_history σ ops rs σ' :
  Forall (forward name) ops → linear (σ name) →
  (Spec.latest (σ name) + N.of_nat (length ops) < two64)%N → spec_steps σ ops rs σ' →
  grows (σ name) (σ' name) ∧ linear (σ' name) ∧
  (∀ i f, wrote name ops rs i f →
     (Spec.latest (σ name) < fl_Version f <= Spec.latest (σ' name))%N ∧
     is_Some (fl_Spec f) ∧ Spec.a_spec (σ' name) (fl_Version f) = fl_Spec f) ∧
  (∀ i j f g, wrote name ops rs i f → wrote name ops rs j g → i < j →
     (fl_Version f < fl_Version g)%N).
Proof using Hname.
  intros Hf Hl Hlt Hs. revert Hf Hl Hlt.
  induction Hs as [σ σ' He|σ o r σ1 ops rs σ2 Hstep _ IH]; intros Hf Hl Hlt.
  { split_and!; [by apply grows_equiv, He|by eapply linear_equiv, Hl; apply He|
      by intros i f (o & Ho & _)|by intros i j f g (o & Ho & _)]. }
  apply Forall_cons in Hf as [Hf Hfs]. cbn [length] in Hlt. rewrite Nat2N.inj_succ in Hlt.
  destruct (step_history σ o r σ1 Hf Hstep Hl) as (Hg1 & Hl1 & Hle & Hw1); [lia|].
  destruct IH as (Hg2 & Hl2 & Hw2 & Hlt2); [done|done|lia|].
  assert (∀ f, wrote name (o :: ops) (r :: rs) 0 f →
    fl_Version f = (Spec.latest (σ name) + 1)%N ∧ Spec.latest (σ1 name) = fl_Version f ∧
    is_Some (fl_Spec f) ∧ Spec.a_spec (σ1 name) (fl_Version f) = fl_Spec f) as Hw0.
  { intros f (o' & [= <-] & Hw & [= ->]). by apply Hw1. }
  pose proof Hg1 as (_ & Hlat1 & _). pose proof Hg2 as (Hkeep & Hlat2 & _).
  split_and!; [by eapply grows_trans|done| |].
  - intros [|i] f Hw.
    + destruct (Hw0 f Hw) as (Hv & Hlv & [sp Hsp] & Hst). split_and!; [lia|lia|by eexists|].
      rewrite Hsp in Hst |- *. by apply Hkeep.
    + destruct (Hw2 i f Hw) as ([? ?] & ? & ?). split_and!; [lia|done..].
  - intros i [|j] f g Hw Hw' Hij; [lia|]. destruct (Hw2 j g Hw') as ([? _] & _).
    destruct i as [|i]; [destruct (Hw0 f Hw) as (_ & ? & _); lia|].
    apply (Hlt2 i j f g Hw Hw'). lia.
Qed.
End History.

(** ** A service that answers *)

(** The states from which no call fails, kept by every call. *)
Record available {S} `{EtcdService S} (P : S → Prop) : Prop := {
  available_step : ∀ X (e : etcdE X) s, P s → P (etcd_exec X e s).2;
  available_Get : ∀ k s, P s → is_ok (etcd_exec _ (Get k) s).1 = true;
  available_Txn : ∀ c o s, P s → is_ok (etcd_exec _ (Txn c o) s).1 = true;
  available_Put : ∀ k v s, P s → is_ok (etcd_exec _ (Put k v) s).1 = true;
  available_GetPrefix : ∀ p s, P s → is_ok (etcd_exec _ (GetPrefix p) s).1 = true;
  available_DeletePrefix : ∀ p s, P s → is_ok (etcd_exec _ (DeletePrefix p) s).1 = true;
}.

Section Facts.
Context `{Codec} {S : Type} `{EtcdService S}.

Lemma wp_run_ops ops rs0 s :
  Forall op_ok ops → store_ok (kvs s) →
  wp etcd_exec (for_each ops (λ rs o, r ← run_op o; Ret (rs ++ [r])) rs0) s
    (λ rs s', store_ok (kvs s') ∧
      ∃ rs', rs = rs0 ++ rs' ∧ spec_steps (abs (kvs s)) ops rs' (abs (kvs s'))).
Proof.
  intros Ho. revert rs0 s. induction Ho as [|o ops Ho Hops IH]; intros rs0 s Hok.
  - apply wp_ret. split; [done|]. exists []. rewrite app_nil_r. split; [done|]. by constructor.
  - cbn [for_each]. apply wp_bind, wp_bind, wp_run_op; [done..|].
    intros r s1 Hok1 Hstep. apply wp_ret. eapply wp_mono; [by apply IH|].
    intros rs s2 (Hok2 & rs' & -> & Hsteps). split; [done|]. exists (r :: rs').
    rewrite <-app_assoc. split; [done|]. by econstructor.
Qed.

Lemma run_createNewVersion name spec s r s' :
  proper_seg name = true → fs_Name spec = name → store_ok (kvs s) →
  run etcd_exec (createNewVersion name spec) s = (r, s') →
  store_ok (kvs s') ∧ write_post name spec (abs (kvs s)) r (abs (kvs s')).
Proof.
  intros Hn Hname Hok.
  refine (wp_run etcd_exec _ s (λ r s', store_ok (kvs s') ∧
    write_post name spec (abs (kvs s)) r (abs (kvs s'))) r s' _).
  by apply wp_createNewVersion.
Qed.

Lemma run_CreateFlow spec s r s' :
  proper_seg (fs_Name spec) = true → store_ok (kvs s) →
  run etcd_exec (CreateFlow (Some spec)) s = (r, s') →
  store_ok (kvs s') ∧ write_post (fs_Name spec) spec (abs (kvs s)) r (abs (kvs s')).
Proof.
  intros Hn Hok. unfold CreateFlow. case_bool_decide as E; [by rewrite E in Hn|].
  by apply run_createNewVersion.
Qed.

Lemma run_GetFlow name s f s' :
  run etcd_exec (GetFlow name) s = (Ok f, s') →
  kvs s' = kvs s ∧ fl_Name f = name ∧ sees (abs (kvs s) name) f.
Proof.
  intros Hr. eapply (wp_run etcd_exec _ s (λ r s', kvs s' = kvs s ∧
    ∀ f, r = Ok f → fl_Name f = name ∧ sees (abs (kvs s) name) f)) in Hr.
  - destruct Hr as [? Hf]. split; [done|]. by apply Hf.
  - by apply wp_GetFlow.
Qed.

Lemma run_DeleteFlow name s s' :
  run etcd_exec (DeleteFlow name) s = (Ok tt, s') →
  kvs s' = without_prefix (flowPrefix name) (kvs s).
Proof.
  intros Hr. refine (wp_run etcd_exec _ s (λ r s', r = Ok tt →
    kvs s' = without_prefix (flowPrefix name) (kvs s)) _ s' _ Hr eq_refl).
  by apply wp_DeletePrefix.
Qed.

Lemma sees_push spec a f :
  sees (Spec.push spec a) f →
  fl_Version f = Spec.next a ∧ fl_Spec f = Some (set_fs_Version (Spec.next a) spec).
Proof.
  intros (v & sp & st & Hv & Hsp & _ & ->). cbn in *. injection Hv as <-.
  rewrite decide_True in Hsp by done. injection Hsp as <-. done.
Qed.

Lemma updated_here name a σ τ :
  proper_seg name = true → τ ≡ Spec.update name a σ → τ name ≡ a.
Proof. intros Hn Hτ. rewrite (Hτ name Hn). unfold Spec.update. by rewrite decide_True. Qed.

(** Reads of an available service answer. *)
Lemma wp_Get_available P k s (Φ : result (list KeyValue) → S → Prop) :
  available P → P s →
  (∀ l s', P s' → kvs s' = kvs s → kv_Value <$> head l = kvs s !! k → Φ (Ok l) s') →
  wp etcd_exec (call (Get k)) s Φ.
Proof.
  intros HP Hs HΦ. apply wp_call. intros r s' Hx.
  pose proof (available_step P HP _ (Get k) s Hs) as Hs'.
  pose proof (available_Get P HP k s Hs) as Hok. rewrite Hx in Hs', Hok.
  destruct (Get_spec k s r s' Hx) as [Hk Hr]. destruct r as [l|]; [|done].
  apply HΦ; [done..|]. specialize (Hr l eq_refl). unfold read_key in Hr.
  destruct (kvs s !! k), l as [|kv [|]]; try done. injection Hr as _ Hv. cbn. by rewrite Hv.
Qed.

(** The calls themselves, on an available service. *)
Lemma exec_Get P k s :
  available P → P s → ∃ l s', etcd_exec _ (Get k) s = (Ok l, s') ∧ P s' ∧ kvs s' = kvs s ∧
    kv_Value <$> head l = kvs s !! k.
Proof.
  intros HP Hs.
  pose proof (wp_Get_available P k s (λ r s', P s' ∧ kvs s' = kvs s ∧
    ∃ l, r = Ok l ∧ kv_Value <$> head l = kvs s !! k) HP Hs) as Hw.
  destruct (etcd_exec _ (Get k) s) as [r s'] eqn:Hx. unfold wp in Hw. cbn in Hw.
  rewrite Hx in Hw. cbn in Hw. destruct Hw as (? & ? & l & -> & ?); eauto 10.
Qed.

Lemma exec_Put P k v s :
  available P → P s → ∃ s', etcd_exec _ (Put k v) s = (Ok tt, s') ∧ P s' ∧
    kvs s' = <[k := v]> (kvs s).
Proof.
  intros HP Hs. pose proof (available_step P HP _ (Put k v) s Hs) as Hs'.
  pose proof (available_Put P HP k v s Hs) as Hok.
  destruct (etcd_exec _ (Put k v) s) as [[[]|] s'] eqn:Hx; [|done].
  exists s'. destruct (Put_spec _ _ _ _ _ Hx) as [?|[? _]]; done.
Qed.

Lemma exec_DeletePrefix P p s :
  available P → P s → ∃ s', etcd_exec _ (DeletePrefix p) s = (Ok tt, s') ∧ P s' ∧
    kvs s' = without_prefix p (kvs s).
Proof.
  intros HP Hs. pose proof (available_step P HP _ (DeletePrefix p) s Hs) as Hs'.
  pose proof (available_DeletePrefix P HP p s Hs) as Hok.
  destruct (etcd_exec _ (DeletePrefix p) s) as [[[]|] s'] eqn:Hx; [|done].
  exists s'. destruct (DeletePrefix_spec _ _ _ _ Hx) as [?|[? _]]; done.
Qed.

Lemma wp_create_available P name spec s :
  available P → P s → proper_seg name = true → store_ok (kvs s) →
  (∀ v, in64 v → is_ok (spec_Marshal (set_fs_Version v spec)) = true) →
  wp etcd_exec (createNewVersion name spec) s (λ r s', is_ok r = true ∧ P s').
Proof.
  intros HP Hs Hn Hok Hm. unfold createNewVersion.
  apply wp_try, (wp_Get_available P); [done..|]. intros l s1 HP1 Hs1 Hl.
  assert (∃ n, next_version l = Some n ∧ in64 n) as (n & -> & H64).
  { destruct l as [|kv l]; cbn in *; [by exists 1%N|]. symmetry in Hl.
    destruct (next_version_abs _ _ _ (proj1 (Hok name Hn)) Hl) as (n & _ & _ & -> & _).
    eauto with flow. }
  specialize (Hm n H64). destruct (spec_Marshal _) as [b|]; [|done].
  rewrite guard_cas. set (ops := [OpPut _ b; _]). set (cmps := cas_guard _ _).
  assert (∀ r s', etcd_exec _ (Txn cmps ops) s1 = (r, s') → r ≠ Ok false) as Hne.
  { intros r s' Hx. refine (wp_run etcd_exec (call (Txn cmps ops)) s1 (λ r _, r ≠ Ok false)
      r s' _ _); [|cbn; by rewrite Hx].
    apply wp_cas; [done| |done]. intros ? Hne. by rewrite Hs1, Hl in Hne. }
  apply wp_try, wp_call. intros r s2 Hx.
  pose proof (available_step P HP _ (Txn cmps ops) s1 HP1) as HP2.
  pose proof (available_Txn P HP cmps ops s1 HP1) as Hr.
  specialize (Hne r s2 Hx). rewrite Hx in HP2, Hr.
  destruct r as [[]|]; [by apply wp_ret|by destruct Hne|done].
Qed.

Lemma wp_GetFlow_available P name s :
  available P → P s → proper_seg name = true → store_ok (kvs s) →
  is_Some (kvs s !! activeKey name) →
  wp etcd_exec (GetFlow name) s (λ r s', is_ok r = true ∧ P s').
Proof.
  intros HP Hs Hn Hok [v Hv]. unfold GetFlow.
  destruct (Hok name Hn) as [Ha Hvs]. destruct (Ha v Hv) as (n & H64 & -> & [b Hb]).
  apply wp_try, (wp_Get_available P); [done..|]. intros l s1 HP1 Hs1 Hl.
  rewrite Hv in Hl. destruct l as [|kv l]; [done|]. injection Hl as ->.
  rewrite ParseUint_FormatUint by done.
  apply wp_try, (wp_Get_available P); [done..|]. intros l2 s2 HP2 Hs2 Hl2.
  rewrite Hs1, Hb in Hl2. destruct l2 as [|kv2 l2]; [done|]. injection Hl2 as ->.
  destruct (Hvs n b H64 Hb) as (spec & -> & _).
  apply wp_bind. unfold GetFlowStatus. apply wp_bind, (wp_Get_available P); [done..|].
  intros [|kv3 l3] s3 HP3 _ _; [by apply wp_ret|].
  by destruct (status_Unmarshal _).
Qed.
End Facts.

Lemma mem_available : available (λ s, MemEtcd.outcomes s = []).
Proof.
  split.
  - intros X e [m r o] Ho. cbn in Ho. subst. destruct e as [k|p|k v|p|c ops]; try done.
    cbn. destruct (forallb _ _); [|done]. cbn.
    induction ops as [|[k v] ops IH] using rev_ind; [done|]. by rewrite foldl_app.
  - intros k [m r o] Ho. cbn in Ho. by subst.
  - intros c ops [m r o] Ho. cbn in Ho. subst. cbn. by destruct (forallb _ _).
  - intros k v [m r o] Ho. cbn in Ho. by subst.
  - intros p [m r o] Ho. cbn in Ho. by subst.
  - intros p [m r o] Ho. cbn in Ho. by subst.
Qed.

(** ** Properties *)
Section Properties.
Context `{Codec} {S : Type} `{EtcdService S}.

(** C2: any sequence of API calls on a well-formed store refines the
    abstract versioned store, call by call, also when etcd fails calls at
    any point, and leaves the store well formed: active pointers are the
    decimal form of a stored version, and every stored version decodes to a
    spec of its own name and version number. *)
Theorem flow_store_refines ops s rs s' :
  Forall op_ok ops → store_ok (kvs s) →
  run etcd_exec (run_ops ops) s = (rs, s') →
  store_ok (kvs s') ∧ spec_steps (abs (kvs s)) ops rs (abs (kvs s')).
Proof.
  intros Ho Hok Hr. eapply wp_run in Hr; [|by apply (wp_run_ops ops [])].
  destruct Hr as (? & rs' & -> & ?). done.
Qed.

(** C20: on an etcd that answers, creating a flow succeeds and a read that
    follows succeeds and returns the same flow: the spec submitted, under
    version 1 for a new name and the successor of the active version
    otherwise. *)
Theorem create_then_get P spec s :
  available P → P s → proper_seg (fs_Name spec) = true → store_ok (kvs s) →
  (∀ v, in64 v → is_ok (spec_Marshal (set_fs_Version v spec)) = true) →
  let v := Spec.next (abs (kvs s) (fs_Name spec)) in
  ∃ f s1 g s2,
    run etcd_exec (CreateFlow (Some spec)) s = (Ok f, s1) ∧
    run etcd_exec (GetFlow (fs_Name spec)) s1 = (Ok g, s2) ∧
    fl_Name g = fs_Name spec ∧ fl_Version f = v ∧ fl_Version g = v ∧
    fl_Spec f = Some (set_fs_Version v spec) ∧ fl_Spec g = fl_Spec f.
Proof.
  intros HP Hs Hn Hok Hm v.
  destruct (run etcd_exec (CreateFlow (Some spec)) s) as [r s1] eqn:Hc.
  destruct (run_CreateFlow spec s r s1 Hn Hok Hc) as [Hok1 Hpost].
  pose proof (wp_create_available P (fs_Name spec) spec s HP Hs Hn Hok Hm) as Hw.
  unfold CreateFlow in Hc. case_bool_decide as E; [by rewrite E in Hn|].
  eapply wp_run in Hw; [|exact Hc]. destruct Hw as [Hr HP1].
  destruct r as [f|]; [|done]. destruct Hpost as [Habs ->].
  pose proof (updated_here _ _ _ _ Hn Habs) as Hhere.
  destruct (run etcd_exec (GetFlow (fs_Name spec)) s1) as [r s2] eqn:Hg.
  assert (is_Some (kvs s1 !! activeKey (fs_Name spec))) as Hact.
  { destruct Hhere as [Ha _]. unfold abs in Ha. cbn in Ha.
    destruct (kvs s1 !! activeKey (fs_Name spec)); [by eauto|done]. }
  eapply wp_run in Hg as Hg'; [|by apply (wp_GetFlow_available P)]. destruct Hg' as [Hgok _].
  destruct r as [g|]; [|done]. apply run_GetFlow in Hg as Hg'. destruct Hg' as (_ & Hgn & Hsees).
  eapply sees_equiv, sees_push in Hsees as [Hv Hsp]; [|exact Hhere].
  eexists _, s1, g, s2. split_and!; try done.
Qed.

(** C29: versions are never overwritten, as long as the flow is neither
    rolled back nor deleted.  Over any sequence of calls, with etcd failing
    anywhere, on a flow whose versions do not exceed its active one: every
    version stored before is stored after, with the same spec, and the
    flow's status is unchanged; every create or update of the flow that
    reports success got a number above all earlier ones, and at the end the
    spec it answered is still stored under it. *)
Theorem versions_never_overwritten name ops s rs s' :
  proper_seg name = true → Forall op_ok ops → Forall (forward name) ops → store_ok (kvs s) →
  let a := abs (kvs s) name in let a' := abs (kvs s') name in
  linear a → (Spec.latest a + N.of_nat (length ops) < two64)%N →
  run etcd_exec (run_ops ops) s = (rs, s') →
  grows a a' ∧ linear a' ∧
  (∀ i f, wrote name ops rs i f →
     (Spec.latest a < fl_Version f <= Spec.latest a')%N ∧
     is_Some (fl_Spec f) ∧ Spec.a_spec a' (fl_Version f) = fl_Spec f) ∧
  (∀ i j f g, wrote name ops rs i f → wrote name ops rs j g → i < j →
     (fl_Version f < fl_Version g)%N).
Proof.
  intros Hn Ho Hf Hok a a' Hl Hlt Hr. eapply wp_run in Hr; [|by apply (wp_run_ops ops [])].
  destruct Hr as (_ & rs' & -> & Hsteps). exact (steps_history name Hn (abs (kvs s)) ops rs' (abs (kvs s')) Hf Hl Hlt Hsteps).
Qed.

(** C35: a rollback that reports success only moves the active pointer to
    the requested, existing version; the update that follows reuses the
    next number and replaces the spec stored there, so a version above the
    rollback target does not survive. *)
Theorem rollback_then_update_overwrites name v spec s f s1 g s2 :
  proper_seg name = true → in64 v → store_ok (kvs s) →
  run etcd_exec (RollbackFlow name v) s = (Ok f, s1) →
  run etcd_exec (UpdateFlow name (Some spec)) s1 = (Ok g, s2) →
  is_Some (Spec.a_spec (abs (kvs s) name) v) ∧
  abs (kvs s1) ≡ Spec.update name (Spec.activate v (abs (kvs s) name)) (abs (kvs s)) ∧
  fl_Version g = wrap64 (v + 1) ∧
  Spec.a_spec (abs (kvs s2) name) (wrap64 (v + 1)) =
    Some (set_fs_Version (wrap64 (v + 1)) (set_fs_Name name spec)).
Proof.
  intros Hn Hv Hok Hr Hu.
  eapply (wp_run etcd_exec _ s (λ r s', store_ok (kvs s') ∧
    spec_step (abs (kvs s)) (OpRollback name v) (RFlow r) (abs (kvs s')))) in Hr;
    [|by apply wp_RollbackFlow].
  destruct Hr as (Hok1 & Hsome & Habs & _).
  apply (run_createNewVersion name (set_fs_Name name spec)) in Hu as [_ [Habs2 ->]]; [|done..].
  pose proof (updated_here _ _ _ _ Hn Habs) as Hhere.
  assert (Spec.next (abs (kvs s1) name) = wrap64 (v + 1)) as Hnext.
  { unfold Spec.next. by destruct Hhere as (-> & _). }
  pose proof (updated_here _ _ _ _ Hn Habs2) as (_ & Hs & _).
  split_and!; [done|done|done|]. rewrite Hs. cbn. rewrite Hnext. by rewrite decide_True.
Qed.

(** C38: a delete that reports success removes the active pointer, every
    version and the status of the flow, and also of every flow whose name
    merely starts with that name; all other flows are unchanged. *)
Theorem delete_reaches_name_extensions name s s' :
  proper_seg name = true →
  run etcd_exec (DeleteFlow name) s = (Ok tt, s') →
  ∀ other, proper_seg other = true →
    abs (kvs s') other ≡
      if strings.HasPrefix other name then Spec.none else abs (kvs s) other.
Proof.
  intros Hn Hr other Ho.
  rewrite (run_DeleteFlow _ _ _ Hr). by apply delete_abs.
Qed.

(** An empty name deletes every flow. *)
Lemma delete_empty_name_deletes_all s s' :
  run etcd_exec (DeleteFlow "") s = (Ok tt, s') →
  ∀ name, proper_seg name = true → abs (kvs s') name ≡ Spec.none.
Proof.
  intros Hr name Hn.
  rewrite (run_DeleteFlow _ _ _ Hr). change (flowPrefix "") with (abs_path ["flowpipe"; "flows"]).
  assert (∀ key segs, key = abs_path (["flowpipe"; "flows"] ++ segs) →
    without_prefix (abs_path ["flowpipe"; "flows"]) (kvs s) !! key = None) as Hp.
  { intros key segs ->. by rewrite lookup_without_prefix, abs_path_app, HasPrefix_app. }
  split_and!; intros; unfold abs; cbn [Spec.a_active Spec.a_spec Spec.a_status Spec.none].
  - by rewrite (Hp _ [name; "active"] (activeKey_proper name Hn)).
  - by rewrite (Hp _ [name; "versions"; strconv.FormatUint v; "spec"]
      (versionSpecKey_proper name v Hn)).
  - by rewrite (Hp _ [name; "status"] (statusKey_proper name Hn)).
Qed.

(** For proper names the two key layouts of the package, etcd.go's
    through [path.Join] and keys.go's through [fmt.Sprintf], are the same,
    and the keys of distinct flows, versions and parts never collide. *)
Lemma key_layouts_agree name other v w :
  proper_seg name = true → proper_seg other = true →
  (activeKey name = FlowActiveKey name ∧ statusKey name = FlowStatusKey name ∧
   versionSpecKey name v = FlowVersionSpecKey name v) ∧
  (activeKey name = activeKey other ↔ name = other) ∧
  (versionSpecKey name v = versionSpecKey other w ↔ name = other ∧ v = w) ∧
  activeKey name ≠ versionSpecKey other v ∧ activeKey name ≠ statusKey other ∧
  statusKey name ≠ versionSpecKey other v.
Proof.
  intros Hn Ho. split_and!.
  - by rewrite activeKey_proper.
  - by rewrite statusKey_proper.
  - by rewrite versionSpecKey_proper.
  - split; [by apply activeKey_inj|by intros ->].
  - split; [by apply versionSpecKey_inj|by intros [-> ->]].
  - by apply active_ne_version.
  - by apply active_ne_status.
  - by apply status_ne_version.
Qed.
End Properties.

(** ** Witnesses *)
Section Witnesses.
Import MemEtcd TestCodec.

Definition runE {A} (p : prog etcdE A) (s : state) : A * state := run etcd_exec p s.

Definition fresh : state := MemEtcd.empty [].
Definition img : option string := Some "runtime:1".
(** Flow "a" at version 2, flow "ab" at version 1. *)
Definition two_flows : state :=
  (runE (CreateFlow (Some (simple_spec "ab" 0 img)))
    (runE (UpdateFlow "a" (Some (simple_spec "a" 0 img)))
      (runE (CreateFlow (Some (simple_spec "a" 0 img))) fresh).2).2).2.

Lemma fresh_ok : store_ok (kvs fresh).
Proof. apply store_ok_empty. Defined.

Lemma two_flows_ok : store_ok (kvs two_flows).
Proof.
  eapply (proj1 (run_CreateFlow _ _ _ _ _ _ (surjective_pairing _))). Unshelve.
  1: reflexivity.
  eapply (proj1 (run_createNewVersion "a" (simple_spec "a" 0 img) _ _ _ _ _ _
    (surjective_pairing _))). Unshelve. 1,2: reflexivity.
  eapply (proj1 (run_CreateFlow (simple_spec "a" 0 img) _ _ _ _ _ (surjective_pairing _))).
  Unshelve. 1: reflexivity. exact fresh_ok.
Defined.

Lemma flow_store_refines_witness :
  ∃ rs s', runE (run_ops [OpCreate (Some (simple_spec "a" 0 img)); OpGet "a";
      OpRollback "a" 1; OpDelete "a"; OpList]) (MemEtcd.empty [Succeed; Succeed; FailAfter])
      = (rs, s') ∧ length rs = 5 ∧ store_ok (kvs s').
Proof.
  eexists _, _. split; [vm_compute; reflexivity|]. split; [reflexivity|].
  eapply (flow_store_refines [OpCreate (Some (simple_spec "a" 0 img)); OpGet "a";
      OpRollback "a" 1; OpDelete "a"; OpList] (MemEtcd.empty [Succeed; Succeed; FailAfter])).
  - repeat constructor; reflexivity.
  - apply store_ok_empty.
  - vm_compute; reflexivity.
Defined.

Lemma create_then_get_witness :
  ∃ f s1 g s2,
    run etcd_exec (CreateFlow (Some (simple_spec "a" 0 img))) two_flows = (Ok f, s1) ∧
    run etcd_exec (GetFlow "a") s1 = (Ok g, s2) ∧ fl_Version g = 3%N.
Proof.
  destruct (create_then_get (λ s, MemEtcd.outcomes s = []) (simple_spec "a" 0 img) two_flows)
    as (f & s1 & g & s2 & H1 & H2 & _ & _ & H3 & _).
  - apply mem_available.
  - vm_compute. reflexivity.
  - reflexivity.
  - apply two_flows_ok.
  - intros v Hv. apply (simple_marshals "a" v img Hv); [reflexivity|].
    intros i [= <-]. reflexivity.
  - exists f, s1, g, s2. split; [exact H1|]. split; [exact H2|]. rewrite H3. reflexivity.
Defined.

(** Two writes of a new flow "a", with a lost answer in between. *)
Lemma versions_never_overwritten_witness :
  let ops := [OpCreate (Some (simple_spec "a" 0 img)); OpUpdate "a" (Some (simple_spec "" 0 None));
              OpDelete "b"; OpUpdate "a" (Some (simple_spec "" 0 img))] in
  let ran := runE (run_ops ops) (MemEtcd.empty [Succeed; Succeed; Succeed; FailAfter]) in
  Spec.a_spec (abs (kvs ran.2) "a") 1%N = Some (simple_spec "a" 1 img) ∧
  Spec.a_spec (abs (kvs ran.2) "a") 3%N = Some (simple_spec "a" 3 img).
Proof.
  intros ops ran.
  destruct (versions_never_overwritten "a" ops (MemEtcd.empty [Succeed; Succeed; Succeed; FailAfter])
    ran.1 ran.2 eq_refl) as (_ & _ & Hw & _).
  - repeat constructor; reflexivity.
  - repeat constructor; reflexivity.
  - apply store_ok_empty.
  - intros v [sp Hsp]. discriminate Hsp.
  - reflexivity.
  - apply surjective_pairing.
  - assert (wrote "a" ops ran.1 0 (Build_Flow "a" 1 (Some (simple_spec "a" 1 img)) None) ∧
      wrote "a" ops ran.1 3 (Build_Flow "a" 3 (Some (simple_spec "a" 3 img)) None)) as [H1 H3].
    { split; eexists; (split; [reflexivity|]); split; [reflexivity|vm_compute; reflexivity|
        reflexivity|vm_compute; reflexivity]. }
    split; [apply (proj2 (proj2 (Hw 0 _ H1)))|apply (proj2 (proj2 (Hw 3 _ H3)))].
Defined.

Lemma rollback_then_update_overwrites_witness :
  ∃ f s1 g s2, run etcd_exec (RollbackFlow "a" 1) two_flows = (Ok f, s1) ∧
    run etcd_exec (UpdateFlow "a" (Some (simple_spec "a" 0 (Some "other")))) s1 = (Ok g, s2) ∧
    fl_Version g = 2%N ∧ is_Some (Spec.a_spec (abs (kvs two_flows) "a") 2%N) ∧
    Spec.a_spec (abs (kvs s2) "a") 2%N = Some (simple_spec "a" 2 (Some "other")).
Proof.
  pose (s1 := (runE (RollbackFlow "a" 1) two_flows).2).
  pose (s2 := (runE (UpdateFlow "a" (Some (simple_spec "a" 0 (Some "other")))) s1).2).
  assert (run etcd_exec (RollbackFlow "a" 1) two_flows = (Ok _, s1)) as H1
    by (vm_compute; reflexivity).
  assert (run etcd_exec (UpdateFlow "a" (Some (simple_spec "a" 0 (Some "other")))) s1
    = (Ok _, s2)) as H2 by (vm_compute; reflexivity).
  eexists _, s1, _, s2. split; [exact H1|]. split; [exact H2|].
  destruct (rollback_then_update_overwrites "a" 1 (simple_spec "a" 0 (Some "other")) two_flows
    _ s1 _ s2 eq_refl eq_refl two_flows_ok H1 H2) as (_ & _ & Hv & Hsp).
  split; [reflexivity|]. split; [vm_compute; by eexists|]. exact Hsp.
Defined.

Lemma delete_reaches_name_extensions_witness :
  ∃ s', run etcd_exec (DeleteFlow "a") two_flows = (Ok tt, s') ∧
    is_Some (Spec.a_active (abs (kvs two_flows) "ab")) ∧
    abs (kvs s') "ab" ≡ Spec.none.
Proof.
  eexists. split; [vm_compute; reflexivity|]. split; [vm_compute; by eexists|].
  eapply (delete_reaches_name_extensions "a" two_flows); [reflexivity| |reflexivity].
  vm_compute. reflexivity.
Defined.

Lemma delete_empty_name_deletes_all_witness :
  ∃ s', run etcd_exec (DeleteFlow "") two_flows = (Ok tt, s') ∧
    abs (kvs s') "a" ≡ Spec.none.
Proof.
  eexists. split; [vm_compute; reflexivity|].
  eapply (delete_empty_name_deletes_all two_flows); [|reflexivity].
  vm_compute. reflexivity.
Defined.

Lemma key_layouts_agree_witness :
  activeKey "a" = FlowActiveKey "a" ∧ activeKey "a" ≠ versionSpecKey "ab" 1.
Proof.
  destruct (key_layouts_agree "a" "ab" 1 2) as ([Hk _] & _ & _ & Hne & _); [reflexivity..|].
  split; [exact Hk|exact Hne].
Defined.
End Witnesses.
