(* ===== verification/Concurrency.v ===== *)
(** * Concurrent writers of the flow store

    Any number of API replicas run [createNewVersion] at the same time; a
    schedule interleaves their etcd calls one by one.  The compare-and-swap
    on the active pointer keeps every committed version: no update is lost
    and no version number is given out twice. *)
From S2P Require Import Prelude GoStd GoStdFacts Prog Messages Etcd Codec ApiStore ApiStoreSpec.
From S2P Require Import ApiStoreProps.

(** ** One call of one program *)

Definition step1 {E S A} (h : handler E S) (p : prog E A) (s : S) : prog E A * S :=
  match p with
  | Ret a => (Ret a, s)
  | Vis e k => (k (h _ e s).1, (h _ e s).2)
  end.

Definition unfinished {E A} (p : prog E A) : Prop :=
  match p with Ret _ => False | Vis _ _ => True end.

#[export] Instance unfinished_dec {E A} (p : prog E A) : Decision (unfinished p) :=
  match p with Ret _ => right (λ f, f) | Vis _ _ => left I end.

Definition pending {E A} (ps : list (prog E A)) : nat := length (filter unfinished ps).

Lemma pool_step_step1 {E S A} (h : handler E S) i s (ps : list (prog E A)) p :
  ps !! i = Some p →
  pool_step h i (s, ps) = ((step1 h p s).2, <[i := (step1 h p s).1]> ps).
Proof.
  intros Hp. unfold pool_step. cbn [fst snd]. change (λ H : Type, E H) with E.
  rewrite Hp. destruct p; [|done].
  cbn. by rewrite list_insert_id.
Qed.

Lemma pending_insert {E A} i (ps : list (prog E A)) p q :
  ps !! i = Some p →
  pending (<[i := q]> ps) + pending [p] = pending ps + pending [q].
Proof.
  intros Hp. apply lookup_lt_Some in Hp as Hlt. unfold pending.
  rewrite insert_take_drop by done.
  replace (filter unfinished ps) with (filter unfinished (take i ps ++ p :: drop (S i) ps))
    by (by rewrite take_drop_middle).
  rewrite !filter_app, !length_app, !filter_cons.
  destruct (decide (unfinished p)), (decide (unfinished q)); cbn; lia.
Qed.

Lemma step1_try {E S A B} (h : handler E S) (e : E (result A)) (k : A → prog E (result B)) s
    (Φ : prog E (result B) → S → Prop) :
  wp h (call e) s (λ r s', Φ (match r with Ok a => k a | Err e => Ret (Err e) end) s') →
  Φ (step1 h (try_bind (call e) k) s).1 (step1 h (try_bind (call e) k) s).2.
Proof. intros Hw. exact Hw. Qed.

(** ** A writer between its calls *)
Section Writers.
Context `{Codec} {S : Type} `{EtcdService S}.

(** A write request: the flow's name and the spec, which carries the name. *)
Definition writer (c : string * FlowSpec) : prog etcdE (result Flow) :=
  createNewVersion c.1 c.2.

Definition writer_ok (c : string * FlowSpec) : Prop :=
  proper_seg c.1 = true ∧ fs_Name c.2 = c.1.

(** The rest of [createNewVersion] once the active key was read. *)
Definition after_read (c : string * FlowSpec) (resp : list KeyValue) :
    prog etcdE (result Flow) :=
  match next_version resp with
  | None => Ret (Err (Errorf "invalid active version" []))
  | Some nextVersion =>
      match spec_Marshal (set_fs_Version nextVersion c.2) with
      | Err e => Ret (Err e)
      | Ok specBytes =>
          succeeded ←? call (Txn (version_guard (activeKey c.1) resp)
            [OpPut (versionSpecKey c.1 nextVersion) specBytes;
             OpPut (activeKey c.1) (strconv.FormatUint nextVersion)]);
          if (succeeded : bool) then
            Ret (Ok (Build_Flow c.1 nextVersion (Some (set_fs_Version nextVersion c.2)) None))
          else Ret (Err (Errorf "flow %q modified concurrently" [AStr c.1]))
      end
  end.

Lemma writer_read c : writer c = try_bind (call (Get (activeKey c.1))) (after_read c).
Proof. done. Qed.

(** The highest version in use: the active one, 0 for a new flow. *)
Definition latest (m : gmap string string) (name : string) : N :=
  default 0%N (Spec.a_active (abs m name)).

Definition committed (m : gmap string string) (c : string * FlowSpec) (v : N) : Prop :=
  (v ≤ latest m c.1)%N ∧ Spec.a_spec (abs m c.1) v = Some (set_fs_Version v c.2).

Definition written (c : string * FlowSpec) (v : N) : Flow :=
  Build_Flow c.1 v (Some (set_fs_Version v c.2)) None.

Inductive stage (m : gmap string string) (c : string * FlowSpec) :
    prog etcdE (result Flow) → Prop :=
  | stage_start : stage m c (writer c)
  | stage_read l : stage m c (after_read c l)
  | stage_failed e : stage m c (Ret (Err e))
  | stage_done v : committed m c v → stage m c (Ret (Ok (written c v))).

Lemma stage_committed m c g :
  stage m c (Ret (Ok g)) → ∃ v, committed m c v ∧ g = written c v.
Proof.
  remember (Ret (Ok g)) as p eqn:Hp. destruct 1 as [|l| |v Hv]; [done| |done|].
  - unfold after_read in Hp. by repeat case_match.
  - injection Hp as <-. eauto.
Qed.

(** What one writer's call does to the store: nothing, or its version. *)
Definition writes (m m' : gmap string string) (c : string * FlowSpec) : Prop :=
  abs m' ≡ Spec.update c.1 (Spec.push c.2 (abs m c.1)) (abs m).

Lemma latest_next m name :
  (latest m name + 1 < two64)%N → Spec.next (abs m name) = (latest m name + 1)%N.
Proof.
  unfold latest, Spec.next. destruct (Spec.a_active _) as [n|]; cbn; [|done].
  apply wrap64_small.
Qed.

Lemma writes_latest m m' c name :
  writes m m' c → proper_seg name = true → (latest m c.1 + 1 < two64)%N →
  latest m' name = if decide (name = c.1) then (latest m c.1 + 1)%N else latest m name.
Proof.
  intros Hw Hn Hlt. destruct (Hw name Hn) as (Ha & _). unfold latest at 1. rewrite Ha.
  unfold Spec.update. case_decide; [|done]. cbn. by apply latest_next.
Qed.

Lemma writes_spec m m' c name v :
  writes m m' c → proper_seg name = true → (latest m c.1 + 1 < two64)%N →
  Spec.a_spec (abs m' name) v =
    if decide (name = c.1 ∧ v = (latest m c.1 + 1)%N) then Some (set_fs_Version v c.2)
    else Spec.a_spec (abs m name) v.
Proof.
  intros Hw Hn Hlt. destruct (Hw name Hn) as (_ & Hs & _). rewrite Hs.
  unfold Spec.update. case_decide; subst.
  - cbn. rewrite latest_next by done. case_decide; subst.
    + by rewrite decide_True.
    + rewrite decide_False by naive_solver. done.
  - by rewrite decide_False by naive_solver.
Qed.

(** What a writer's next call can do. *)
Definition step_post (s : S) (c : string * FlowSpec) (p : prog etcdE (result Flow)) (s' : S) :
    Prop :=
  store_ok (kvs s') ∧
  ((kvs s' = kvs s ∧ (p = writer c ∨ (∃ l, p = after_read c l) ∨ ∃ e, p = Ret (Err e))) ∨
   (writes (kvs s) (kvs s') c ∧
      ((∃ e, p = Ret (Err e)) ∨ p = Ret (Ok (written c (Spec.next (abs (kvs s) c.1))))))).

Lemma writer_step c s :
  store_ok (kvs s) →
  step_post s c (step1 etcd_exec (writer c) s).1 (step1 etcd_exec (writer c) s).2.
Proof.
  intros Hok. rewrite writer_read. apply (step1_try etcd_exec _ _ _ (step_post s c)).
  apply wp_call. intros r s' Hx. destruct (Get_spec _ _ _ _ Hx) as [Hk _].
  unfold step_post. rewrite Hk. split; [done|]. left. destruct r; eauto.
Qed.

Lemma after_read_step c l s :
  writer_ok c → store_ok (kvs s) →
  step_post s c (step1 etcd_exec (after_read c l) s).1 (step1 etcd_exec (after_read c l) s).2.
Proof.
  intros [Hn Hname] Hok. unfold after_read.
  destruct (next_version l) as [n|] eqn:Hnext; [|cbn; split; [done|]; left; eauto].
  destruct (spec_Marshal _) as [b|] eqn:Hb; [|cbn; split; [done|]; left; eauto].
  apply (step1_try etcd_exec _ _ _ (step_post s c)). rewrite guard_cas.
  assert (kvs s !! activeKey c.1 = kv_Value <$> head l →
    in64 n ∧ Spec.next (abs (kvs s) c.1) = n) as Hcur.
  { intros Hact. destruct l as [|kv l]; cbn in Hact, Hnext.
    - injection Hnext as <-. unfold Spec.next, abs. cbn. by rewrite Hact.
    - destruct (next_version_abs _ _ _ (proj1 (Hok c.1 Hn)) Hact) as (k & _ & _ & Hp & ->).
      rewrite Hp in Hnext. injection Hnext as <-. eauto with flow. }
  assert (∀ s', kvs s !! activeKey c.1 = kv_Value <$> head l →
      kvs s' = install (kvs s) c.1 n b → store_ok (kvs s') ∧ writes (kvs s) (kvs s') c ∧
      Spec.next (abs (kvs s) c.1) = n) as Hdone.
  { intros s' Hact ->. destruct (Hcur Hact) as [H64 Hv]. split_and!; [|by apply install_abs|done].
    by eapply install_ok. }
  apply wp_cas.
  - intros s' Hact Hm. destruct (Hdone s' Hact Hm) as (? & ? & Hv). split; [done|].
    right. split; [done|]. right. unfold written. by rewrite Hv.
  - intros s' _ Hm. unfold step_post. rewrite Hm. split; [done|]. left. eauto.
  - intros e s' [Hm|[Hact Hm]].
    + unfold step_post. rewrite Hm. split; [done|]. left. eauto.
    + destruct (Hdone s' Hact Hm) as (? & ? & Hv). split; [done|]. right. eauto.
Qed.

(** ** The pool *)

Definition pool_inv (clients : list (string * FlowSpec)) (s0 s : S)
    (ps : list (prog etcdE (result Flow))) : Prop :=
  store_ok (kvs s) ∧ length ps = length clients ∧
  (∀ name, proper_seg name = true →
    (latest (kvs s0) name ≤ latest (kvs s) name)%N ∧
    (latest (kvs s) name + N.of_nat (pending ps) ≤
      latest (kvs s0) name + N.of_nat (length clients))%N ∧
    ∀ v, (v ≤ latest (kvs s0) name)%N →
      Spec.a_spec (abs (kvs s) name) v = Spec.a_spec (abs (kvs s0) name) v) ∧
  (∀ i c p, clients !! i = Some c → ps !! i = Some p → stage (kvs s) c p ∧
    ∀ f, p = Ret (Ok f) → (latest (kvs s0) c.1 < fl_Version f)%N) ∧
  (∀ i j c d f g, i ≠ j → clients !! i = Some c → clients !! j = Some d → c.1 = d.1 →
    ps !! i = Some (Ret (Ok f)) → ps !! j = Some (Ret (Ok g)) → fl_Version f ≠ fl_Version g).

Lemma pool_inv_init clients s :
  store_ok (kvs s) → pool_inv clients s s (writer <$> clients).
Proof.
  intros Hok. split_and!; [done|by rewrite length_fmap|..].
  - intros name Hn. split_and!; [done| |done]. unfold pending.
    pose proof (length_filter unfinished (writer <$> clients)) as Hl.
    rewrite length_fmap in Hl. lia.
  - intros i c p Hc. rewrite list_lookup_fmap, Hc. intros [= <-]. split; [constructor|done].
  - intros i j c d f g _ Hc _ _. by rewrite list_lookup_fmap, Hc.
Qed.

(** A step that leaves the store alone and commits nothing. *)
Lemma pool_inv_quiet clients s0 s s' ps i c p q :
  pool_inv clients s0 s ps → clients !! i = Some c → ps !! i = Some p → unfinished p →
  kvs s' = kvs s → stage (kvs s) c q → (∀ f, q ≠ Ret (Ok f)) →
  pool_inv clients s0 s' (<[i := q]> ps).
Proof.
  intros (Hok & Hlen & Hb & Hst & Hd) Hc Hp Hun Hs Hq Hne.
  apply lookup_lt_Some in Hp as Hlt.
  assert (∀ j r, <[i := q]> ps !! j = Some r → (j = i ∧ r = q) ∨ ps !! j = Some r) as Hl.
  { intros j r. rewrite list_lookup_insert_Some. intros [(-> & -> & _)|[? ?]]; auto. }
  unfold pool_inv. rewrite Hs. split_and!; [done|by rewrite length_insert|..].
  - intros name Hn. destruct (Hb name Hn) as (? & ? & ?). split_and!; [done| |done].
    pose proof (pending_insert i ps p q Hp) as Hc'. unfold pending in *. cbn in Hc'.
    rewrite decide_True in Hc' by done. cbn in Hc'.
    destruct (decide (unfinished q)); cbn in Hc'; lia.
  - intros j d r Hdj Hr. apply Hl in Hr as [[-> ->]|Hr]; [|by apply (Hst j)].
    simplify_eq. split; [done|]. intros f ->. by destruct (Hne f).
  - intros j k d e f g Hjk Hj Hk Hde Hf Hg.
    apply Hl in Hf as [[-> <-]|Hf]; [by destruct (Hne f)|].
    apply Hl in Hg as [[-> <-]|Hg]; [by destruct (Hne g)|]. by eapply (Hd j k).
Qed.

Lemma committed_writes m m' c d v :
  writes m m' c → writer_ok d → (latest m c.1 + 1 < two64)%N →
  committed m d v → committed m' d v.
Proof.
  intros Hw [Hd _] Hlt [Hv Hs]. unfold committed.
  rewrite (writes_latest m m' c), (writes_spec m m' c) by done. split.
  - case_decide as E; [rewrite <-E|]; lia.
  - rewrite decide_False; [done|]. intros [E ->]. rewrite E in Hv. lia.
Qed.

Lemma pool_inv_commit clients s0 s s' ps i c p q :
  pool_inv clients s0 s ps → Forall writer_ok clients →
  Forall (λ c, (latest (kvs s0) c.1 + N.of_nat (length clients) < two64)%N) clients →
  clients !! i = Some c → ps !! i = Some p → unfinished p →
  store_ok (kvs s') → writes (kvs s) (kvs s') c →
  (∃ e, q = Ret (Err e)) ∨ q = Ret (Ok (written c (Spec.next (abs (kvs s) c.1)))) →
  pool_inv clients s0 s' (<[i := q]> ps).
Proof.
  intros (Hok & Hlen & Hb & Hst & Hd) Hcl Hbound Hc Hp Hun Hok' Hw Hq.
  apply lookup_lt_Some in Hp as Hlt.
  rewrite Forall_lookup in Hcl. rewrite Forall_lookup in Hbound.
  destruct (Hcl i c Hc) as [Hcn Hcs].
  assert (pending (<[i := q]> ps) + 1 = pending ps) as Hpend.
  { pose proof (pending_insert i ps p q Hp) as Hc'. unfold pending in *. cbn in Hc'.
    rewrite decide_True in Hc' by done. rewrite decide_False in Hc'; [cbn in Hc'; lia|].
    destruct Hq as [[e ->]| ->]; intros []. }
  assert (latest (kvs s) c.1 + 1 < two64)%N as Hnw.
  { destruct (Hb c.1 Hcn) as (_ & ? & _). specialize (Hbound i c Hc).
    cbn beta in Hbound. lia. }
  assert (∀ j r, <[i := q]> ps !! j = Some r → (j = i ∧ r = q) ∨ (j ≠ i ∧ ps !! j = Some r)) as Hl.
  { intros j r. rewrite list_lookup_insert_Some. intros [(-> & -> & _)|[? ?]]; auto. }
  assert (∀ f, q = Ret (Ok f) → f = written c (latest (kvs s) c.1 + 1)%N) as Hqf.
  { intros f ->. destruct Hq as [[e ?]|Hq]; [done|]. injection Hq as ->.
    by rewrite latest_next. }
  unfold pool_inv. split_and!; [done|by rewrite length_insert|..].
  - intros name Hn. destruct (Hb name Hn) as (Hle & Hsum & Hold).
    rewrite (writes_latest (kvs s) (kvs s') c) by done. split_and!.
    + case_decide as E; [rewrite <-E|]; lia.
    + case_decide as E; [rewrite <-E|]; lia.
    + intros v Hv. rewrite (writes_spec (kvs s) (kvs s') c) by done.
      rewrite decide_False; [by apply Hold|]. intros [-> ->]. lia.
  - intros j d r Hdj Hr. apply Hl in Hr as [[-> ->]|[Hne Hr]].
    + simplify_eq. split; [|intros f Hf; rewrite (Hqf f Hf); cbn [fl_Version written];
        destruct (Hb _ Hcn) as (? & _); lia].
      destruct Hq as [[e ->]| ->]; [constructor|]. apply stage_done.
      rewrite latest_next by done. unfold committed.
      rewrite (writes_latest (kvs s) (kvs s') c), (writes_spec (kvs s) (kvs s') c) by done.
      rewrite !decide_True by done. split; [lia|done].
    + destruct (Hst j d r Hdj Hr) as [Hstage Hgt]. split; [|done].
      destruct Hstage; [constructor..|]. apply stage_done. eapply committed_writes; eauto.
  - assert (∀ k e g, k ≠ i → clients !! k = Some e → e.1 = c.1 → ps !! k = Some (Ret (Ok g)) →
      (fl_Version g < latest (kvs s) c.1 + 1)%N) as Hsmall.
    { intros k e g _ Hk He Hg. destruct (Hst k e _ Hk Hg) as [Hstage _].
      destruct (stage_committed _ _ _ Hstage) as (v & [Hv _] & ->). cbn [fl_Version written].
      rewrite He in Hv. lia. }
    intros j k d e f g Hjk Hj Hk Hde Hf Hg.
    apply Hl in Hf as [[-> Hf]|[Hjne Hf]]; apply Hl in Hg as [[-> Hg]|[Hkne Hg]].
    + done.
    + assert (d = c) as -> by congruence. specialize (Hsmall k e g Hkne Hk (eq_sym Hde) Hg).
      rewrite (Hqf f (eq_sym Hf)). cbn [fl_Version written]. lia.
    + assert (e = c) as -> by congruence. specialize (Hsmall j d f Hjne Hj Hde Hf).
      rewrite (Hqf g (eq_sym Hg)). cbn [fl_Version written]. lia.
    + by eapply (Hd j k).
Qed.

Lemma pool_inv_step clients s0 s ps i :
  Forall writer_ok clients →
  Forall (λ c, (latest (kvs s0) c.1 + N.of_nat (length clients) < two64)%N) clients →
  pool_inv clients s0 s ps →
  pool_inv clients s0 (pool_step etcd_exec i (s, ps)).1 (pool_step etcd_exec i (s, ps)).2.
Proof.
  intros Hcl Hbound Hinv. destruct (ps !! i) as [p|] eqn:Hp.
  2: { unfold pool_step. cbn [fst snd]. change (λ H : Type, etcdE H) with etcdE. by rewrite Hp. }
  rewrite (pool_step_step1 _ _ _ _ _ Hp). cbn [fst snd].
  destruct (decide (unfinished p)) as [Hun|Hun].
  2: { destruct p; [|done]. cbn. by rewrite list_insert_id. }
  pose proof Hinv as (Hok & Hlen & _ & Hst & _).
  destruct (clients !! i) as [c|] eqn:Hc.
  2: { apply lookup_ge_None in Hc. apply lookup_lt_Some in Hp. lia. }
  assert (writer_ok c) as Hwc by (rewrite Forall_lookup in Hcl; eauto).
  destruct (Hst i c p Hc Hp) as [Hstage _].
  assert (step_post s c (step1 etcd_exec p s).1 (step1 etcd_exec p s).2) as [Hok' Hpost].
  { destruct Hstage; [by apply writer_step|by apply after_read_step|done..]. }
  destruct Hpost as [[Hs Hq]|[Hw Hq]].
  - eapply pool_inv_quiet; try done.
    + destruct Hq as [->|[[l ->]|[e ->]]]; constructor.
    + intros f Hf. destruct Hq as [Hq|[[l Hq]|[e Hq]]]; rewrite Hq in Hf; [done| |done].
      unfold after_read in Hf. by repeat case_match.
  - by eapply pool_inv_commit.
Qed.

Lemma pool_inv_schedule clients s0 sched s ps :
  Forall writer_ok clients →
  Forall (λ c, (latest (kvs s0) c.1 + N.of_nat (length clients) < two64)%N) clients →
  pool_inv clients s0 s ps →
  pool_inv clients s0 (run_schedule etcd_exec sched (s, ps)).1
    (run_schedule etcd_exec sched (s, ps)).2.
Proof.
  intros Hcl Hbound. revert s ps. induction sched as [|i sched IH]; intros s ps Hinv; [done|].
  unfold run_schedule. cbn [foldl]. apply (pool_inv_step clients s0 s ps i) in Hinv; [|done..].
  destruct (pool_step etcd_exec i (s, ps)) as [s' ps']. by apply IH.
Qed.

End Writers.

(** ** Properties *)
Section Properties.
Context `{Codec} {S : Type} `{EtcdService S}.

(** C5: however the etcd calls of any number of concurrent creates and
    updates interleave, and whichever of them etcd fails, the store stays well
    formed; each write that reported success has a version number above all
    earlier ones that no other successful write of the flow got, and its spec
    is still stored under it; versions that existed before are untouched. *)
Theorem concurrent_writes_serialise clients sched s s' ps' :
  Forall writer_ok clients → store_ok (kvs s) →
  Forall (λ c, (latest (kvs s) c.1 + N.of_nat (length clients) < two64)%N) clients →
  run_schedule etcd_exec sched (s, writer <$> clients) = (s', ps') →
  store_ok (kvs s') ∧
  (∀ i c f, clients !! i = Some c → ps' !! i = Some (Ret (Ok f)) →
    fl_Name f = c.1 ∧ (latest (kvs s) c.1 < fl_Version f ≤ latest (kvs s') c.1)%N ∧
    fl_Spec f = Some (set_fs_Version (fl_Version f) c.2) ∧
    Spec.a_spec (abs (kvs s') c.1) (fl_Version f) = fl_Spec f) ∧
  (∀ i j c d f g, i ≠ j → clients !! i = Some c → clients !! j = Some d → c.1 = d.1 →
    ps' !! i = Some (Ret (Ok f)) → ps' !! j = Some (Ret (Ok g)) →
    fl_Version f ≠ fl_Version g) ∧
  (∀ name v, proper_seg name = true → (v ≤ latest (kvs s) name)%N →
    Spec.a_spec (abs (kvs s') name) v = Spec.a_spec (abs (kvs s) name) v).
Proof.
  intros Hcl Hok Hbound Hr.
  pose proof (pool_inv_schedule clients s sched s (writer <$> clients) Hcl Hbound
    (pool_inv_init clients s Hok)) as Hinv.
  rewrite Hr in Hinv. destruct Hinv as (Hok' & _ & Hb & Hst & Hd).
  split_and!; [done| |done|intros name v Hn Hv; by apply Hb].
  intros i c f Hc Hf. destruct (Hst i c _ Hc Hf) as [Hstage Hgt].
  destruct (stage_committed _ _ _ Hstage) as (v & [Hv Hs] & ->).
  specialize (Hgt _ eq_refl). cbn [fl_Name fl_Version fl_Spec written] in *. done.
Qed.

(** C36: a rollback is not a compare-and-swap.  When a delete of the same flow
    runs between its check and its write, both report what they did as done:
    the active pointer is set again and points at a version that no longer
    exists. *)
Theorem rollback_races_delete P name v s :
  available P → P s → proper_seg name = true → in64 v →
  is_Some (kvs s !! versionSpecKey name v) →
  let '(s', ps') := run_schedule etcd_exec [0; 1; 0]
    (s, [run_op (OpRollback name v); run_op (OpDelete name)]) in
  ps' !! 1 = Some (Ret (RUnit (Ok tt))) ∧
  Spec.a_active (abs (kvs s') name) = Some v ∧
  (∀ w, Spec.a_spec (abs (kvs s') name) w = None) ∧ ¬ store_ok (kvs s').
Proof.
  intros HP Hs Hn Hv [b Hb]. unfold run_schedule. cbn [foldl].
  destruct (exec_Get P (versionSpecKey name v) s HP Hs) as (l & s1 & Hx1 & HP1 & Hk1 & Hl).
  destruct (exec_DeletePrefix P (flowPrefix name) s1 HP HP1) as (s2 & Hx2 & HP2 & Hk2).
  destruct (exec_Put P (activeKey name) (strconv.FormatUint v) s2 HP HP2)
    as (s3 & Hx3 & HP3 & Hk3).
  rewrite Hb in Hl. destruct l as [|kv l]; [done|].
  erewrite (pool_step_step1 _ 0) by reflexivity.
  cbn [run_op fmap prog_fmap mbind prog_bind RollbackFlow try_bind call step1 fst snd
    DeleteFlow list_insert insert].
  rewrite Hx1. cbn [fst snd mbind prog_bind].
  erewrite (pool_step_step1 _ 1) by reflexivity. cbn [step1 list_insert insert fst snd].
  rewrite Hx2. cbn [fst snd].
  erewrite (pool_step_step1 _ 0) by reflexivity. cbn [step1 list_insert insert fst snd].
  rewrite Hx3. cbn [fst snd]. split; [done|].
  assert (∀ w, kvs s3 !! versionSpecKey name w = None) as Hgone.
  { intros w. rewrite Hk3, lookup_insert_ne by by apply active_ne_version.
    rewrite Hk2, without_version by done. by rewrite HasPrefix_self. }
  assert (kvs s3 !! activeKey name = Some (strconv.FormatUint v)) as Hact
    by (rewrite Hk3; apply lookup_insert_eq).
  split_and!.
  - unfold abs. cbn. rewrite Hact. cbn. by apply ParseUint_FormatUint.
  - intros w. unfold abs. cbn. by rewrite Hgone.
  - intros Hok. destruct (Hok name Hn) as [Ha _]. destruct (Ha _ Hact) as (n & _ & _ & [b' Hn']).
    by rewrite Hgone in Hn'.
Qed.

End Properties.

(** ** Witnesses *)
Section Witnesses.
Import MemEtcd TestCodec.

Definition two_writers : list (string * FlowSpec) :=
  [("a", simple_spec "a" 0 (Some "one")); ("a", simple_spec "a" 0 (Some "two"))].

(** Both read version 2 before either commits: one commit wins. *)
Lemma concurrent_writes_serialise_witness :
  ∃ s' ps', run_schedule etcd_exec [0; 1; 1; 0] (two_flows, writer <$> two_writers) = (s', ps') ∧
    store_ok (kvs s') ∧
    ps' !! 0 = Some (Ret (Err (Errorf "flow %q modified concurrently" [AStr "a"]))) ∧
    Spec.a_spec (abs (kvs s') "a") 3 = Some (simple_spec "a" 3 (Some "two")) ∧
    Spec.a_spec (abs (kvs s') "a") 2 = Spec.a_spec (abs (kvs two_flows) "a") 2.
Proof.
  pose (c := run_schedule etcd_exec [0; 1; 1; 0] (two_flows, writer <$> two_writers)).
  destruct (concurrent_writes_serialise two_writers [0; 1; 1; 0] two_flows c.1 c.2)
    as (Hok & Hw & _ & Hold).
  - repeat constructor.
  - apply two_flows_ok.
  - repeat constructor.
  - vm_compute. reflexivity.
  - exists c.1, c.2. split; [vm_compute; reflexivity|]. split; [exact Hok|].
    split; [vm_compute; reflexivity|].
    edestruct (Hw 1) as (_ & _ & _ & Hs); [reflexivity|vm_compute; reflexivity|].
    split; [exact Hs|]. apply Hold; [reflexivity|]. vm_compute. discriminate.
Defined.

Lemma rollback_races_delete_witness :
  let '(s', _) := run_schedule etcd_exec [0; 1; 0]
    (two_flows, [run_op (OpRollback "a" 1); run_op (OpDelete "a")]) in
  Spec.a_active (abs (kvs s') "a") = Some 1%N ∧ Spec.a_spec (abs (kvs s') "a") 1 = None.
Proof.
  pose proof (rollback_races_delete (λ s, MemEtcd.outcomes s = []) "a" 1 two_flows
    mem_available eq_refl eq_refl eq_refl ltac:(vm_compute; by eexists)) as Hr.
  destruct (run_schedule _ _ _) as [s' ps']. destruct Hr as (_ & Ha & Hs & _).
  split; [exact Ha|apply Hs].
Defined.
End Witnesses.
