(* ===== verification/SchemaStore.v ===== *)
(** * api/internal/store/etcd_schema_registry.go: the schema registry

    Definitions follow the file function by function; every method is a
    program over etcd calls.  The active pointer is a uint64, the versions
    in keys and payloads are uint32. *)
From S2P Require Import Prelude GoStd GoStdFacts Prog Messages Etcd Codec ApiStore.

(** ** Key layout *)

Definition schemaRootPrefix : string := "/flowpipe/schemas".

Definition schemaPrefix (schemaID : string) : string := path.Join [schemaRootPrefix; schemaID].

Definition schemaActiveKey (schemaID : string) : string :=
  path.Join [schemaPrefix schemaID; "active"].

Definition schemaVersionKey (schemaID : string) (version : N) : string :=
  path.Join [schemaPrefix schemaID; "versions"; strconv.FormatUint version].

Definition schemaVersionsPrefix (schemaID : string) : string :=
  path.Join [schemaPrefix schemaID; "versions"] +:+ "/".

#[global] Arguments schemaPrefix : simpl never.
#[global] Arguments schemaActiveKey : simpl never.
#[global] Arguments schemaVersionKey : simpl never.
#[global] Arguments schemaVersionsPrefix : simpl never.

(** ** Methods *)
Section Methods.
Context `{Codec} `{GoRuntime}.

Definition createSchemaVersion (schemaID : string) (schema : SchemaDefinition) :
    prog etcdE (result SchemaDefinition) :=
  resp ←? call (Get (schemaActiveKey schemaID));
  match next_version resp with
  | None => Ret (Err (Errorf "invalid active schema version" []))
  | Some nextVersion =>
      let schema := set_sd_Version (wrap32 nextVersion) schema in
      match schema_Marshal schema with
      | Err e => Ret (Err e)
      | Ok payload =>
          succeeded ←? call (Txn (version_guard (schemaActiveKey schemaID) resp)
            [OpPut (schemaVersionKey schemaID (wrap32 nextVersion)) payload;
             OpPut (schemaActiveKey schemaID) (strconv.FormatUint nextVersion)]);
          if (succeeded : bool) then Ret (Ok schema)
          else Ret (Err (Errorf "schema %q modified concurrently" [AStr schemaID]))
      end
  end.

Definition CreateSchema (schema : option SchemaDefinition) :
    prog etcdE (result SchemaDefinition) :=
  match schema with
  | None => Ret (Err (Errorf "schema is nil" []))
  | Some schema =>
      if bool_decide (sd_SchemaID schema = "") then
        Ret (Err (Errorf "schema id is required" []))
      else if bool_decide (sd_Format schema = IN_MEMORY_SCHEMA_FORMAT_UNSPECIFIED) then
        Ret (Err (Errorf "schema format is required" []))
      else if bool_decide (length (sd_RawSchema schema) = 0) then
        Ret (Err (Errorf "schema payload is required" []))
      else createSchemaVersion (sd_SchemaID schema) schema
  end.

(** The second half of [GetSchema], at a version. *)
Definition getSchemaVersion (schemaID : string) (version : N) :
    prog etcdE (result SchemaDefinition) :=
  resp ←? call (Get (schemaVersionKey schemaID version));
  match resp with
  | [] => Ret (Err (Errorf "schema %q version %d not found" [AStr schemaID; AUint version]))
  | kv :: _ => Ret (schema_Unmarshal (kv_Value kv))
  end.

Definition GetSchema (schemaID : string) (version : N) : prog etcdE (result SchemaDefinition) :=
  if bool_decide (schemaID = "") then Ret (Err (Errorf "schema id is required" []))
  else if (version =? 0)%N then
    activeResp ←? call (Get (schemaActiveKey schemaID));
    match activeResp with
    | [] => Ret (Err (Errorf "schema %q not found" [AStr schemaID]))
    | kv :: _ =>
        match strconv.ParseUint (kv_Value kv) 64 with
        | None => Ret (Err (Errorf "invalid active schema version" []))
        | Some activeVersion => getSchemaVersion schemaID (wrap32 activeVersion)
        end
    end
  else getSchemaVersion schemaID version.

(** The decoding loop of [ListSchemaVersions]: the first error ends it. *)
Fixpoint decode_schemas (kvs : list KeyValue) : result (list SchemaDefinition) :=
  match kvs with
  | [] => Ok []
  | kv :: kvs =>
      match schema_Unmarshal (kv_Value kv) with
      | Err e => Err e
      | Ok schema => schemas ← decode_schemas kvs; Ok (schema :: schemas)
      end
  end.

Definition schema_less (a b : SchemaDefinition) : bool := (sd_Version a <? sd_Version b)%N.

Definition ListSchemaVersions (schemaID : string) : prog etcdE (result (list SchemaDefinition)) :=
  if bool_decide (schemaID = "") then Ret (Err (Errorf "schema id is required" []))
  else
    resp ←? call (GetPrefix (schemaVersionsPrefix schemaID));
    match decode_schemas resp with
    | Err e => Ret (Err e)
    | Ok schemas => Ret (Ok (sort_slice schema_less schemas))
    end.

Definition DeleteSchema (schemaID : string) : prog etcdE (result unit) :=
  if bool_decide (schemaID = "") then Ret (Err (Errorf "schema id is required" []))
  else call (DeletePrefix (schemaPrefix schemaID)).
End Methods.

(** ** The key layout on proper ids *)
Section Keys.
Lemma schema_key_proper id segs :
  proper_seg id = true → Forall (λ s, proper_seg s = true) segs →
  path.Join (schemaPrefix id :: segs) = abs_path (["flowpipe"; "schemas"; id] ++ segs).
Proof.
  intros Hn Hs. unfold schemaPrefix.
  change schemaRootPrefix with (abs_path ["flowpipe"; "schemas"]).
  rewrite (Join_abs_path ["flowpipe"; "schemas"] [id]) by (repeat constructor; done).
  apply Join_abs_path; [done|]. apply Forall_app. split; [by repeat constructor|done].
Qed.

Lemma schemaPrefix_proper id :
  proper_seg id = true → schemaPrefix id = abs_path ["flowpipe"; "schemas"; id].
Proof.
  intros Hn. unfold schemaPrefix.
  change schemaRootPrefix with (abs_path ["flowpipe"; "schemas"]).
  by rewrite Join_abs_path by (repeat constructor; done).
Qed.

Lemma schemaActiveKey_proper id :
  proper_seg id = true → schemaActiveKey id = abs_path ["flowpipe"; "schemas"; id; "active"].
Proof.
  intros Hn. unfold schemaActiveKey. by rewrite schema_key_proper by (repeat constructor; done).
Qed.

Lemma schemaVersionKey_proper id v :
  proper_seg id = true →
  schemaVersionKey id v =
    abs_path ["flowpipe"; "schemas"; id; "versions"; strconv.FormatUint v].
Proof.
  intros Hn. unfold schemaVersionKey. rewrite schema_key_proper; [done..|].
  repeat constructor; try done. apply proper_seg_FormatUint.
Qed.

Lemma schemaVersionsPrefix_proper id :
  proper_seg id = true →
  schemaVersionsPrefix id = abs_path ["flowpipe"; "schemas"; id; "versions"] +:+ "/".
Proof.
  intros Hn. unfold schemaVersionsPrefix.
  by rewrite schema_key_proper by (repeat constructor; done).
Qed.

Lemma schemaActiveKey_inj a b :
  proper_seg a = true → proper_seg b = true → schemaActiveKey a = schemaActiveKey b → a = b.
Proof.
  intros Ha Hb. rewrite !schemaActiveKey_proper by done. intros E%abs_path_inj; [|solve_segs..].
  by injection E.
Qed.

Lemma schemaVersionKey_inj a b v w :
  proper_seg a = true → proper_seg b = true →
  schemaVersionKey a v = schemaVersionKey b w → a = b ∧ v = w.
Proof.
  intros Ha Hb. rewrite !schemaVersionKey_proper by done.
  intros E%abs_path_inj; [|solve_segs..]. injection E as -> E. split; [done|].
  by apply FormatUint_inj.
Qed.

Lemma schema_active_ne_version a b v :
  proper_seg a = true → proper_seg b = true → schemaActiveKey a ≠ schemaVersionKey b v.
Proof.
  intros Ha Hb. rewrite schemaActiveKey_proper, schemaVersionKey_proper by done.
  intros E%abs_path_inj; [done|solve_segs..].
Qed.

(** The keys below [schemaVersionsPrefix] are the version keys of that id. *)
Lemma schemaVersionsPrefix_version a b v :
  proper_seg a = true → proper_seg b = true →
  strings.HasPrefix (schemaVersionKey b v) (schemaVersionsPrefix a) = true ↔ a = b.
Proof.
  intros Ha Hb. rewrite schemaVersionKey_proper, schemaVersionsPrefix_proper by done.
  rewrite HasPrefix_abs_path by (solve_segs). split.
  - intros (rest & _ & E). by injection E.
  - intros ->. by exists [strconv.FormatUint v].
Qed.

Lemma schemaVersionsPrefix_active a b :
  proper_seg a = true → proper_seg b = true →
  strings.HasPrefix (schemaActiveKey b) (schemaVersionsPrefix a) = false.
Proof.
  intros Ha Hb. rewrite schemaActiveKey_proper, schemaVersionsPrefix_proper by done.
  apply not_true_is_false. rewrite HasPrefix_abs_path by solve_segs.
  intros (rest & _ & E). by injection E.
Qed.

Lemma schema_key_prefix id other seg segs :
  proper_seg id = true → proper_seg other = true →
  strings.HasPrefix (abs_path (["flowpipe"; "schemas"; other] ++ seg :: segs)) (schemaPrefix id)
  = strings.HasPrefix other id.
Proof.
  intros Hn Ho. rewrite schemaPrefix_proper by done.
  assert (∀ x rest, abs_path (["flowpipe"; "schemas"; x] ++ rest) =
    "/flowpipe/schemas/" +:+ x +:+ abs_path rest) as Hp by done.
  rewrite Hp. change (abs_path ["flowpipe"; "schemas"; id])
    with (abs_path (["flowpipe"; "schemas"; id] ++ [])). rewrite Hp.
  rewrite HasPrefix_app_l. cbn [abs_path foldr]. rewrite append_nil_r.
  apply HasPrefix_before_slash. apply proper_seg_spec in Hn. naive_solver.
Qed.
End Keys.
