(* ===== verification/SchemaSpec.v ===== *)
(** * What the schema registry promises, and that it keeps it

    [Registry] is the abstract registry: per schema id an active number and
    the definitions by uint32 version.  Every method of [SchemaStore]
    refines its abstract counterpart, preserves [registry_ok] and touches no
    key outside the registry. *)
From S2P Require Import Prelude GoStd GoStdFacts Prog Messages Etcd Codec ApiStore ApiStoreSpec.
From S2P Require Import ApiStoreProps SchemaStore.
From Stdlib Require Import Sorted.

(** ** The abstract registry *)
Module Registry.

Record AReg := {
  r_active : option N;
  r_schema : N → option SchemaDefinition;
}.

Definition state : Type := string → AReg.

Definition none : AReg := Build_AReg None (λ _, None).

(** The number a create gets: a uint64, stored under its low 32 bits. *)
Definition next (a : AReg) : N :=
  match r_active a with None => 1%N | Some n => wrap64 (n + 1) end.

Definition push (schema : SchemaDefinition) (a : AReg) : AReg :=
  let v := wrap32 (next a) in
  Build_AReg (Some (next a))
    (λ w, if decide (w = v) then Some (set_sd_Version v schema) else r_schema a w).

Definition update (id : string) (a : AReg) (σ : state) : state :=
  λ x, if decide (x = id) then a else σ x.

(** Delete as the code does it: every schema whose id starts with [id]. *)
Definition delete (id : string) (σ : state) : state :=
  λ x, if strings.HasPrefix x id then none else σ x.

#[global] Instance AReg_equiv : Equiv AReg := λ a b,
  r_active a = r_active b ∧ ∀ v, in32 v → r_schema a v = r_schema b v.

#[global] Instance state_equiv : Equiv state := λ σ τ,
  ∀ id, proper_seg id = true → σ id ≡ τ id.

#[global] Instance AReg_equivalence : Equivalence (≡@{AReg}).
Proof.
  split.
  - done.
  - intros a b [H1 H2]. split; [done|]. intros v Hv. by rewrite H2.
  - intros a b c [H1 H2] [H3 H4]. split; [congruence|]. intros v Hv. by rewrite H2, H4.
Qed.

#[global] Instance state_equivalence : Equivalence (≡@{state}).
Proof.
  split.
  - done.
  - intros σ τ H id Hn. by rewrite (H id Hn).
  - intros σ τ ρ H1 H2 id Hn. by rewrite (H1 id Hn), (H2 id Hn).
Qed.

End Registry.

(** ** Abstraction and invariant *)
Section Abs.
Context `{Codec}.

Definition rabs (m : gmap string string) : Registry.state := λ id, {|
  Registry.r_active := m !! schemaActiveKey id ≫= λ v, strconv.ParseUint v 64;
  Registry.r_schema := λ v, m !! schemaVersionKey id v ≫= decode schema_Unmarshal
|}.

Record schema_ok (m : gmap string string) (id : string) : Prop := {
  schema_active : ∀ v, m !! schemaActiveKey id = Some v →
    ∃ n, in64 n ∧ v = strconv.FormatUint n ∧ is_Some (m !! schemaVersionKey id (wrap32 n));
  schema_versions : ∀ n b, in32 n → m !! schemaVersionKey id n = Some b →
    ∃ sch, schema_Unmarshal b = Ok sch ∧ sd_SchemaID sch = id ∧ sd_Version sch = n;
  schema_keys : ∀ k, strings.HasPrefix k (schemaVersionsPrefix id) = true → is_Some (m !! k) →
    ∃ n, in32 n ∧ k = schemaVersionKey id n;
}.

Definition registry_ok (m : gmap string string) : Prop :=
  ∀ id, proper_seg id = true → schema_ok m id.

Definition registry_prefix : string := "/flowpipe/schemas/".

(** Everything outside the registry is as it was. *)
Definition same_outside (m m' : gmap string string) : Prop :=
  ∀ k, strings.HasPrefix k registry_prefix = false → m' !! k = m !! k.

Lemma registry_ok_empty : registry_ok ∅.
Proof.
  intros id _. split; [intros v|intros n b _|intros k _ [v Hv]; revert Hv]; by rewrite lookup_empty.
Qed.

Definition sinstall (m : gmap string string) (id : string) (n : N) (b : string) :
    gmap string string :=
  apply_ops [OpPut (schemaVersionKey id (wrap32 n)) b;
             OpPut (schemaActiveKey id) (strconv.FormatUint n)] m.
#[local] Arguments sinstall : simpl never.

Lemma sinstall_active m id n b x :
  proper_seg id = true → proper_seg x = true →
  sinstall m id n b !! schemaActiveKey x =
    if decide (x = id) then Some (strconv.FormatUint n) else m !! schemaActiveKey x.
Proof.
  intros Hn Hx. unfold sinstall, apply_ops. cbn. case_decide as Hd.
  - subst. apply lookup_insert_eq.
  - rewrite lookup_insert_ne by (intros E; apply Hd; symmetry; by apply schemaActiveKey_inj).
    apply lookup_insert_ne. intros E. symmetry in E. by apply schema_active_ne_version in E.
Qed.

Lemma sinstall_version m id n b x v :
  proper_seg id = true → proper_seg x = true →
  sinstall m id n b !! schemaVersionKey x v =
    if decide (x = id ∧ v = wrap32 n) then Some b else m !! schemaVersionKey x v.
Proof.
  intros Hn Hx. unfold sinstall, apply_ops. cbn.
  rewrite lookup_insert_ne by by apply schema_active_ne_version.
  case_decide as Hd.
  - destruct Hd as [-> ->]. apply lookup_insert_eq.
  - apply lookup_insert_ne. intros E. apply Hd.
    apply schemaVersionKey_inj in E as [-> ->]; done.
Qed.

Lemma sinstall_keys m id n b k :
  is_Some (sinstall m id n b !! k) →
  k = schemaActiveKey id ∨ k = schemaVersionKey id (wrap32 n) ∨ is_Some (m !! k).
Proof.
  unfold sinstall, apply_ops. cbn. intros [v Hv].
  apply lookup_insert_Some in Hv as [[<- _]|[_ Hv]]; [by left|].
  apply lookup_insert_Some in Hv as [[<- _]|[_ Hv]]; eauto.
Qed.

Lemma registry_key_prefix id segs :
  proper_seg id = true → Forall (λ s, proper_seg s = true) segs →
  strings.HasPrefix (abs_path (["flowpipe"; "schemas"; id] ++ segs)) registry_prefix = true.
Proof.
  intros Hn Hs. change registry_prefix with (abs_path ["flowpipe"; "schemas"] +:+ "/").
  apply HasPrefix_abs_path.
  - repeat constructor; done.
  - solve_segs.
  - by exists (id :: segs).
Qed.

Lemma sinstall_outside m id n b :
  proper_seg id = true → same_outside m (sinstall m id n b).
Proof.
  intros Hn k Hk. unfold sinstall, apply_ops. cbn.
  rewrite !lookup_insert_ne; [done|..]; intros <-; rewrite <-not_true_iff_false in Hk; apply Hk.
  - rewrite schemaVersionKey_proper by done. apply (registry_key_prefix id ["versions"; _]); solve_segs.
  - rewrite schemaActiveKey_proper by done. apply (registry_key_prefix id ["active"]); solve_segs.
Qed.

Lemma sinstall_ok m id n sch b :
  proper_seg id = true → in64 n → sd_SchemaID sch = id → utf8.ValidString id = true →
  registry_ok m → schema_Marshal (set_sd_Version (wrap32 n) sch) = Ok b →
  registry_ok (sinstall m id n b).
Proof.
  intros Hn H64 Hs Hu Hm Hb x Hx. destruct (Hm x Hx) as [Ha Hv Hk]. split.
  - intros v. rewrite sinstall_active by done. case_decide as Hd.
    + intros [= <-]. exists n. split_and!; [done..|]. subst.
      rewrite sinstall_version by done. rewrite decide_True by done. eauto.
    + intros Hl. destruct (Ha v Hl) as (k & ? & -> & Hk'). exists k. split_and!; [done..|].
      rewrite sinstall_version by done. rewrite decide_False by naive_solver. done.
  - intros k b' Hk'. rewrite sinstall_version by done. case_decide as Hd.
    + destruct Hd as [-> ->]. intros [= <-]. eexists.
      split; [apply schema_roundtrip; [|done]; cbn; congruence|]. done.
    + intros Hl. by apply Hv.
  - intros k Hp Hsome. apply sinstall_keys in Hsome as [->|[->|Hsome]].
    + by rewrite schemaVersionsPrefix_active in Hp.
    + apply schemaVersionsPrefix_version in Hp as ->; [|done..]. eauto with flow.
    + by apply Hk.
Qed.

Lemma sinstall_abs m id n sch b :
  proper_seg id = true → in64 n → sd_SchemaID sch = id → utf8.ValidString id = true →
  Registry.next (rabs m id) = n →
  schema_Marshal (set_sd_Version (wrap32 n) sch) = Ok b →
  rabs (sinstall m id n b) ≡ Registry.update id (Registry.push sch (rabs m id)) (rabs m).
Proof.
  intros Hn H64 Hs Hu Hnext Hb x Hx. unfold Registry.update. case_decide as Hd.
  - subst x. unfold Registry.push. rewrite Hnext. split; cbn.
    + rewrite sinstall_active, decide_True by done. cbn. by rewrite ParseUint_FormatUint.
    + intros v _. rewrite sinstall_version by done. case_decide; case_decide; try naive_solver.
      cbn. unfold decode. rewrite schema_roundtrip with (m := set_sd_Version (wrap32 n) sch);
        [naive_solver|cbn; congruence|done].
  - split; cbn.
    + by rewrite sinstall_active, decide_False by done.
    + intros v _. by rewrite sinstall_version, decide_False by naive_solver.
Qed.

(** ** Deleting by prefix *)
Lemma without_schema_key m id other seg segs key :
  proper_seg id = true → proper_seg other = true →
  key = abs_path (["flowpipe"; "schemas"; other] ++ seg :: segs) →
  without_prefix (schemaPrefix id) m !! key =
    if strings.HasPrefix other id then None else m !! key.
Proof. intros Hn Ho ->. by rewrite lookup_without_prefix, schema_key_prefix. Qed.

Lemma without_schema_active m id other :
  proper_seg id = true → proper_seg other = true →
  without_prefix (schemaPrefix id) m !! schemaActiveKey other =
    if strings.HasPrefix other id then None else m !! schemaActiveKey other.
Proof. intros. eapply without_schema_key; [done..|]. by rewrite schemaActiveKey_proper. Qed.

Lemma without_schema_version m id other v :
  proper_seg id = true → proper_seg other = true →
  without_prefix (schemaPrefix id) m !! schemaVersionKey other v =
    if strings.HasPrefix other id then None else m !! schemaVersionKey other v.
Proof. intros. eapply without_schema_key; [done..|]. by rewrite schemaVersionKey_proper. Qed.

Lemma sdelete_ok m id :
  proper_seg id = true → registry_ok m → registry_ok (without_prefix (schemaPrefix id) m).
Proof.
  intros Hn Hm x Hx. destruct (Hm x Hx) as [Ha Hv Hk]. split.
  - intros v. rewrite without_schema_active by done.
    destruct (strings.HasPrefix x id) eqn:E; [done|].
    intros Hl. destruct (Ha v Hl) as (n & ? & ? & ?). exists n. split_and!; [done..|].
    by rewrite without_schema_version, E.
  - intros n b Hb. rewrite without_schema_version by done.
    destruct (strings.HasPrefix x id); [done|]. by apply Hv.
  - intros k Hp Hsome. apply Hk; [done|]. rewrite lookup_without_prefix in Hsome.
    destruct (strings.HasPrefix k (schemaPrefix id)); [by destruct Hsome|done].
Qed.

Lemma sdelete_abs m id :
  proper_seg id = true →
  rabs (without_prefix (schemaPrefix id) m) ≡ Registry.delete id (rabs m).
Proof.
  intros Hn x Hx. unfold Registry.delete. destruct (strings.HasPrefix x id) eqn:E;
    split; intros; cbn; rewrite ?without_schema_active, ?without_schema_version, ?E by done; done.
Qed.

Lemma sdelete_outside m id :
  proper_seg id = true → same_outside m (without_prefix (schemaPrefix id) m).
Proof.
  intros Hn k Hk. rewrite lookup_without_prefix.
  destruct (strings.HasPrefix k (schemaPrefix id)) eqn:E; [|done].
  rewrite schemaPrefix_proper in E by done. apply not_true_iff_false in Hk.
  destruct Hk. eapply HasPrefix_trans; [exact E|].
  change (abs_path ["flowpipe"; "schemas"; id])
    with (registry_prefix +:+ (id +:+ "")). apply HasPrefix_app.
Qed.
End Abs.

(** ** Operations and their abstract steps *)

Inductive sop :=
  | SCreate (schema : option SchemaDefinition)
  | SGet (id : string) (version : N)
  | SList (id : string)
  | SDelete (id : string).

Inductive sresponse :=
  | RSchema (r : result SchemaDefinition)
  | RSchemas (r : result (list SchemaDefinition))
  | RDone (r : result unit).

Definition run_sop `{Codec} `{GoRuntime} (o : sop) : prog etcdE sresponse :=
  match o with
  | SCreate schema => RSchema <$> CreateSchema schema
  | SGet id version => RSchema <$> GetSchema id version
  | SList id => RSchemas <$> ListSchemaVersions id
  | SDelete id => RDone <$> DeleteSchema id
  end.

(** Ids and versions within the registry's contract; a create the registry
    refuses is within it. *)
Definition sop_ok (o : sop) : Prop :=
  match o with
  | SCreate None => True
  | SCreate (Some sch) => sd_SchemaID sch = "" ∨
      (proper_seg (sd_SchemaID sch) = true ∧ utf8.ValidString (sd_SchemaID sch) = true)
  | SGet id v => (id = "" ∨ proper_seg id = true) ∧ in32 v
  | SList id | SDelete id => id = "" ∨ proper_seg id = true
  end.

(** The requests [CreateSchema] accepts. *)
Definition complete (sch : SchemaDefinition) : Prop :=
  sd_SchemaID sch ≠ "" ∧ sd_Format sch ≠ IN_MEMORY_SCHEMA_FORMAT_UNSPECIFIED ∧
  sd_RawSchema sch ≠ [].

(** The version a read asks for: 0 is the active one. *)
Definition asked (a : Registry.AReg) (v : N) : option N :=
  if decide (v = 0%N) then wrap32 <$> Registry.r_active a else Some v.

Definition version_lt (a b : SchemaDefinition) : Prop := (sd_Version a < sd_Version b)%N.

Definition screate_post (sch : SchemaDefinition) (σ : Registry.state)
    (r : result SchemaDefinition) (σ' : Registry.state) : Prop :=
  let id := sd_SchemaID sch in
  let done := Registry.update id (Registry.push sch (σ id)) σ in
  match r with
  | Ok f => complete sch ∧ σ' ≡ done ∧
      f = set_sd_Version (wrap32 (Registry.next (σ id))) sch
  | Err _ => σ' ≡ σ ∨ (complete sch ∧ σ' ≡ done)
  end.

Definition sspec_step (σ : Registry.state) (o : sop) (r : sresponse) (σ' : Registry.state) :
    Prop :=
  match o, r with
  | SCreate None, RSchema r => is_ok r = false ∧ σ' ≡ σ
  | SCreate (Some sch), RSchema r => screate_post sch σ r σ'
  | SGet id v, RSchema r => σ' ≡ σ ∧ ∀ sch, r = Ok sch →
      id ≠ "" ∧ asked (σ id) v = Some (sd_Version sch) ∧ sd_SchemaID sch = id ∧
      Registry.r_schema (σ id) (sd_Version sch) = Some sch
  | SList id, RSchemas r => σ' ≡ σ ∧ ∀ schs, r = Ok schs →
      id ≠ "" ∧ StronglySorted version_lt schs ∧
      ∀ sch, sch ∈ schs ↔ ∃ v, in32 v ∧ Registry.r_schema (σ id) v = Some sch
  | SDelete id, RDone r =>
      match r with
      | Ok _ => id ≠ "" ∧ σ' ≡ Registry.delete id σ
      | Err _ => σ' ≡ σ ∨ (id ≠ "" ∧ σ' ≡ Registry.delete id σ)
      end
  | _, _ => False
  end.

(** ** Each method against its abstract step *)
Section Methods.
Context `{Codec} `{GoRuntime} {S : Type} `{EtcdService S}.

Definition kept (s s' : S) : Prop :=
  registry_ok (kvs s') ∧ same_outside (kvs s) (kvs s').

Lemma kept_same s s' : registry_ok (kvs s) → kvs s' = kvs s → kept s s'.
Proof. intros Hok Hs. unfold kept. rewrite Hs. by split. Qed.

Lemma wp_fmap_sresponse {A} (f : A → sresponse) (p : prog etcdE A) s Φ :
  wp etcd_exec p s (λ a s', Φ (f a) s') → wp etcd_exec (f <$> p) s Φ.
Proof. intros Hw. by apply wp_bind. Qed.

Lemma next_version_rabs m id l n :
  schema_ok m id → kv_Value <$> head l = m !! schemaActiveKey id → next_version l = Some n →
  in64 n ∧ Registry.next (rabs m id) = n.
Proof.
  intros [Ha _ _] Hl Hn. destruct l as [|kv l]; cbn in Hl, Hn.
  - injection Hn as <-. unfold Registry.next, rabs. cbn. by rewrite <-Hl.
  - symmetry in Hl. destruct (Ha _ Hl) as (k & Hk & Hv & _).
    rewrite Hv, ParseUint_FormatUint in Hn by done. injection Hn as <-.
    unfold Registry.next, rabs. cbn. rewrite Hl. cbn. rewrite Hv, ParseUint_FormatUint by done.
    split; [auto with flow|done].
Qed.

Lemma wp_createSchemaVersion sch s Φ :
  proper_seg (sd_SchemaID sch) = true → utf8.ValidString (sd_SchemaID sch) = true →
  complete sch → registry_ok (kvs s) →
  (∀ r s', kept s s' → screate_post sch (rabs (kvs s)) r (rabs (kvs s')) → Φ r s') →
  wp etcd_exec (createSchemaVersion (sd_SchemaID sch) sch) s Φ.
Proof.
  intros Hn Hu Hc Hok HΦ. set (id := sd_SchemaID sch) in *. unfold createSchemaVersion.
  assert (∀ e s', kvs s' = kvs s → Φ (Err e) s') as Hquiet.
  { intros e s' Hs. apply HΦ; [by apply kept_same|]. rewrite Hs. by left. }
  assert (∀ l s1, kvs s1 = kvs s → kv_Value <$> head l = kvs s !! schemaActiveKey id →
    wp etcd_exec (match next_version l with
      | None => Ret (Err (Errorf "invalid active schema version" []))
      | Some nextVersion =>
          match schema_Marshal (set_sd_Version (wrap32 nextVersion) sch) with
          | Err e => Ret (Err e)
          | Ok payload =>
              succeeded ←? call (Txn (version_guard (schemaActiveKey id) l)
                [OpPut (schemaVersionKey id (wrap32 nextVersion)) payload;
                 OpPut (schemaActiveKey id) (strconv.FormatUint nextVersion)]);
              if (succeeded : bool) then Ret (Ok (set_sd_Version (wrap32 nextVersion) sch))
              else Ret (Err (Errorf "schema %q modified concurrently" [AStr id]))
          end
      end) s1 Φ) as Hrest.
  { intros l s1 Hs1 Hl. destruct (next_version l) as [n|] eqn:Hnext;
      [|by apply wp_ret, Hquiet].
    destruct (next_version_rabs _ _ _ _ (Hok id Hn) Hl Hnext) as [H64 Hv].
    destruct (schema_Marshal _) as [b|] eqn:Hb; [|by apply wp_ret, Hquiet].
    rewrite guard_cas. apply wp_try.
    assert (∀ s', kvs s' = sinstall (kvs s) id n b → kept s s' ∧
      rabs (kvs s') ≡ Registry.update id (Registry.push sch (rabs (kvs s) id)) (rabs (kvs s)))
      as Hdone.
    { intros s' Hs'. unfold kept. rewrite Hs'. split_and!.
      - by eapply sinstall_ok.
      - by apply sinstall_outside.
      - by apply sinstall_abs. }
    apply wp_cas; rewrite Hs1.
    - intros s' _ Hm. destruct (Hdone s' Hm). apply wp_ret, HΦ; [done|].
      unfold screate_post. fold id. by rewrite Hv.
    - intros s' _ Hm. by apply wp_ret, Hquiet.
    - intros e s' [Hm|[_ Hm]]; [by apply Hquiet|]. destruct (Hdone s' Hm).
      apply HΦ; [done|]. by right. }
  apply wp_try, wp_Get; [by auto|intros s1 Hs1 Hl|intros kv s1 Hs1 Hl]; apply Hrest; done.
Qed.

Lemma wp_CreateSchema sch s Φ :
  sop_ok (SCreate (Some sch)) → registry_ok (kvs s) →
  (∀ r s', kept s s' → screate_post sch (rabs (kvs s)) r (rabs (kvs s')) → Φ r s') →
  wp etcd_exec (CreateSchema (Some sch)) s Φ.
Proof.
  intros Ho Hok HΦ. unfold CreateSchema.
  assert (∀ e, wp etcd_exec (Ret (Err e)) s Φ) as Hquiet.
  { intros e. apply wp_ret, HΦ; [by apply kept_same|]. by left. }
  case_bool_decide as Hid; [done|]. case_bool_decide as Hf; [done|].
  case_bool_decide as Hr; [done|]. destruct Ho as [?|[Hn Hu]]; [done|].
  apply wp_createSchemaVersion; [done..| |done|done]. split_and!; [done..|].
  intros Hr'. apply Hr. by rewrite Hr'.
Qed.

Lemma wp_getSchemaVersion id v s Φ :
  (∀ r s', kvs s' = kvs s → (∀ sch, r = Ok sch →
    kvs s !! schemaVersionKey id v ≫= decode schema_Unmarshal = Some sch) → Φ r s') →
  wp etcd_exec (getSchemaVersion id v) s Φ.
Proof.
  intros HΦ. unfold getSchemaVersion. apply wp_try, wp_Get.
  - intros e s' Hs. by apply HΦ.
  - intros s' Hs _. apply wp_ret. by apply HΦ.
  - intros kv s' Hs Hv. apply wp_ret, HΦ; [done|]. intros sch Hr. rewrite Hv. cbn.
    unfold decode. by rewrite Hr.
Qed.

Lemma stored_schema m id v sch :
  schema_ok m id → in32 v →
  m !! schemaVersionKey id v ≫= decode schema_Unmarshal = Some sch →
  sd_SchemaID sch = id ∧ sd_Version sch = v ∧ Registry.r_schema (rabs m id) v = Some sch.
Proof.
  intros [_ Hv _] H32 Hm. unfold rabs. cbn. rewrite Hm.
  destruct (m !! schemaVersionKey id v) as [b|] eqn:Hb; [|done]. cbn in Hm.
  destruct (Hv v b H32 Hb) as (sch' & Hu & ? & ?). unfold decode in Hm. rewrite Hu in Hm.
  by injection Hm as <-.
Qed.

Lemma wp_GetSchema id v s Φ :
  (id = "" ∨ proper_seg id = true) → in32 v → registry_ok (kvs s) →
  (∀ r s', kvs s' = kvs s → (∀ sch, r = Ok sch →
      id ≠ "" ∧ asked (rabs (kvs s) id) v = Some (sd_Version sch) ∧ sd_SchemaID sch = id ∧
      Registry.r_schema (rabs (kvs s) id) (sd_Version sch) = Some sch) → Φ r s') →
  wp etcd_exec (GetSchema id v) s Φ.
Proof.
  intros Hid H32 Hok HΦ. unfold GetSchema. case_bool_decide as He; [by apply wp_ret, HΦ|].
  destruct Hid as [?|Hn]; [done|]. unfold asked in HΦ. destruct (N.eqb_spec v 0) as [->|Hv0].
  - apply wp_try, wp_Get.
    + intros e s' Hs. by apply HΦ.
    + intros s' Hs _. apply wp_ret. by apply HΦ.
    + intros kv s1 Hs1 Hl. destruct (strconv.ParseUint _ 64) as [n|] eqn:Hp;
        [|apply wp_ret; by apply HΦ].
      apply wp_getSchemaVersion. intros r s' Hs' Hr. apply HΦ; [congruence|].
      intros sch ->. specialize (Hr sch eq_refl). rewrite Hs1 in Hr.
      apply stored_schema in Hr as (Hi & Hv & Hst); [|by apply Hok|apply wrap32_in32].
      rewrite decide_True, Hv by done. split_and!; [done| |done..].
      unfold rabs. cbn. rewrite Hl. cbn. by rewrite Hp.
  - apply wp_getSchemaVersion. intros r s' Hs' Hr. apply HΦ; [done|].
    intros sch ->. specialize (Hr sch eq_refl).
    apply stored_schema in Hr as (Hi & Hv & Hst); [|by apply Hok|done].
    rewrite decide_False, Hv by done. done.
Qed.

(** The loop of [ListSchemaVersions] decodes all values or none. *)
Lemma decode_schemas_Forall2 l schs :
  decode_schemas l = Ok schs →
  Forall2 (λ kv sch, schema_Unmarshal (kv_Value kv) = Ok sch) l schs.
Proof.
  revert schs. induction l as [|kv l IH]; intros schs; cbn.
  - intros [= <-]. constructor.
  - destruct (schema_Unmarshal _) as [sch|] eqn:Hu; [|done].
    destruct (decode_schemas l) as [rest|]; cbn; [|done]. intros [= <-].
    constructor; [done|by apply IH].
Qed.

(** What a prefix read below [schemaVersionsPrefix] decodes to. *)
Lemma versions_read m id l schs :
  schema_ok m id →
  kv_pair <$> l ≡ₚ map_to_list (with_prefix (schemaVersionsPrefix id) m) →
  Forall2 (λ kv sch, schema_Unmarshal (kv_Value kv) = Ok sch) l schs →
  Forall2 (λ kv sch, kv_Key kv = schemaVersionKey id (sd_Version sch) ∧
    in32 (sd_Version sch) ∧ Registry.r_schema (rabs m id) (sd_Version sch) = Some sch) l schs.
Proof.
  intros [_ Hv Hk] Hl Hf. apply (Forall2_impl (λ kv sch, kv ∈ l ∧
    schema_Unmarshal (kv_Value kv) = Ok sch)).
  - apply Forall2_same_length_lookup_2; [by eapply Forall2_length|].
    intros i kv sch Hi Hj. split; [by eapply list_elem_of_lookup_2|].
    by eapply Forall2_lookup_lr in Hf.
  - intros kv sch [Hin Hu].
    assert (with_prefix (schemaVersionsPrefix id) m !! kv_Key kv = Some (kv_Value kv)) as Hm.
    { apply elem_of_map_to_list. rewrite <-Hl. by apply (list_elem_of_fmap_2 kv_pair). }
    rewrite lookup_with_prefix in Hm. destruct (strings.HasPrefix _ _) eqn:Hp; [|done].
    destruct (Hk _ Hp ltac:(by eexists)) as (n & Hn & Hkey).
    rewrite Hkey in Hm. destruct (Hv n _ Hn Hm) as (sch' & Hu' & _ & Hver).
    rewrite Hu in Hu'. injection Hu' as <-. rewrite Hver. split_and!; [done..|].
    unfold rabs. cbn. rewrite Hm. cbn. unfold decode. by rewrite Hu.
Qed.

Lemma schema_less_strict_weak : strict_weak schema_less.
Proof.
  unfold schema_less. split.
  - intros x y ?%N.ltb_lt. apply N.ltb_ge. lia.
  - intros x y z ?%N.ltb_ge ?%N.ltb_ge. apply N.ltb_ge. lia.
Qed.

Lemma sorted_versions_strict schs :
  NoDup (sd_Version <$> schs) → sorted_by schema_less schs → StronglySorted version_lt schs.
Proof.
  intros Hnd Hs. induction Hs as [|sch schs Hs IH Hall]; [constructor|].
  cbn in Hnd. apply NoDup_cons in Hnd as [Hnotin Hnd]. constructor; [by apply IH|].
  rewrite Forall_forall in Hall |- *. intros x Hx. specialize (Hall x Hx).
  apply N.ltb_ge in Hall. unfold version_lt. apply N.le_neq. split; [done|].
  intros E. apply Hnotin. rewrite E. by apply (list_elem_of_fmap_2 sd_Version).
Qed.

Lemma wp_ListSchemaVersions id s Φ :
  (id = "" ∨ proper_seg id = true) → registry_ok (kvs s) →
  (∀ r s', kvs s' = kvs s → (∀ schs, r = Ok schs →
      id ≠ "" ∧ StronglySorted version_lt schs ∧
      ∀ sch, sch ∈ schs ↔ ∃ v, in32 v ∧ Registry.r_schema (rabs (kvs s) id) v = Some sch) →
      Φ r s') →
  wp etcd_exec (ListSchemaVersions id) s Φ.
Proof.
  intros Hid Hok HΦ. unfold ListSchemaVersions. case_bool_decide as He; [by apply wp_ret, HΦ|].
  destruct Hid as [?|Hn]; [done|]. apply wp_try, wp_GetPrefix.
  { intros e s' Hs. by apply HΦ. }
  intros l s' Hs Hl _. destruct (decode_schemas l) as [schs|] eqn:Hd;
    [|apply wp_ret; by apply HΦ].
  apply wp_ret, HΦ; [done|]. intros ? [= <-]. split; [done|].
  pose proof (versions_read (kvs s) id l schs (Hok id Hn) Hl
    (decode_schemas_Forall2 l schs Hd)) as Hf.
  split.
  - apply sorted_versions_strict; [|apply sort_slice_sorted, schema_less_strict_weak].
    rewrite (sort_slice_perm schema_less schs).
    apply (NoDup_fmap_1 (schemaVersionKey id)). rewrite <-list_fmap_compose.
    assert (kv_Key <$> l = schemaVersionKey id ∘ sd_Version <$> schs) as <-.
    { clear -Hf. induction Hf as [|? ? ? ? [? _]]; cbn; [done|]. by f_equal. }
    change kv_Key with (fst ∘ kv_pair). rewrite list_fmap_compose, Hl.
    apply NoDup_fst_map_to_list.
  - intros sch. rewrite (sort_slice_perm schema_less schs). split.
    + intros (i & Hi)%list_elem_of_lookup.
      destruct (Forall2_lookup_r _ _ _ _ _ Hf Hi) as (kv & _ & _ & H32 & Hr). eauto.
    + intros (v & H32 & Hr). pose proof Hr as Hr'. unfold rabs in Hr'. cbn in Hr'.
      destruct (kvs s !! schemaVersionKey id v) as [b|] eqn:Hb; [|done].
      assert ((schemaVersionKey id v, b) ∈ kv_pair <$> l) as Hin.
      { rewrite Hl. apply elem_of_map_to_list. rewrite lookup_with_prefix.
        by rewrite (proj2 (schemaVersionsPrefix_version id id v Hn Hn) eq_refl). }
      apply list_elem_of_fmap in Hin as (kv & Hkv & Hin). injection Hkv as Hkey Hval.
      apply list_elem_of_lookup in Hin as (i & Hi).
      destruct (Forall2_lookup_l _ _ _ _ _ Hf Hi) as (sch' & Hi' & Hk & _ & Hr2).
      rewrite <-Hkey in Hk. apply schemaVersionKey_inj in Hk as [_ ->]; [|done..].
      assert (sch' = sch) as -> by congruence. by eapply list_elem_of_lookup_2.
Qed.

Lemma wp_run_sop o s Φ :
  sop_ok o → registry_ok (kvs s) →
  (∀ r s', kept s s' → sspec_step (rabs (kvs s)) o r (rabs (kvs s')) → Φ r s') →
  wp etcd_exec (run_sop o) s Φ.
Proof.
  intros Ho Hok HΦ. destruct o as [[sch|]|id v|id|id]; cbn [run_sop]; apply wp_fmap_sresponse.
  - apply wp_CreateSchema; [done..|]. intros r s' ? ?. by apply HΦ.
  - apply wp_ret, HΦ; [by apply kept_same|]. done.
  - destruct Ho. apply wp_GetSchema; [done..|]. intros r s' Hs Hr.
    apply HΦ; [by apply kept_same|]. cbn. by rewrite Hs.
  - apply wp_ListSchemaVersions; [done..|]. intros r s' Hs Hr.
    apply HΦ; [by apply kept_same|]. cbn. by rewrite Hs.
  - unfold DeleteSchema. case_bool_decide as He.
    { apply wp_ret, HΦ; [by apply kept_same|]. by left. }
    destruct Ho as [?|Hn]; [done|].
    assert (∀ s', kvs s' = without_prefix (schemaPrefix id) (kvs s) → kept s s' ∧
      rabs (kvs s') ≡ Registry.delete id (rabs (kvs s))) as Hdone.
    { intros s' Hs. unfold kept. rewrite Hs. split_and!;
        [by apply sdelete_ok|by apply sdelete_outside|by apply sdelete_abs]. }
    apply wp_DeletePrefix.
    + intros s' Hs. destruct (Hdone s' Hs). by apply HΦ.
    + intros e s' [Hs|Hs].
      * destruct (Hdone s' Hs). apply HΦ; [done|]. by right.
      * apply HΦ; [by apply kept_same|]. rewrite Hs. by left.
Qed.

(** ** Sequences of operations *)

Definition run_sops (ops : list sop) : prog etcdE (list sresponse) :=
  for_each ops (λ rs o, r ← run_sop o; Ret (rs ++ [r])) [].

Inductive sspec_steps : Registry.state → list sop → list sresponse → Registry.state → Prop :=
  | ssteps_nil σ σ' : σ' ≡ σ → sspec_steps σ [] [] σ'
  | ssteps_cons σ o r σ1 ops rs σ2 :
      sspec_step σ o r σ1 → sspec_steps σ1 ops rs σ2 →
      sspec_steps σ (o :: ops) (r :: rs) σ2.

Lemma kept_trans s1 s2 s3 : kept s1 s2 → kept s2 s3 → kept s1 s3.
Proof.
  intros [_ Hk1] [Hok Hk2]. split; [done|]. intros k Hk. by rewrite Hk2, Hk1.
Qed.

Lemma wp_run_sops ops rs0 s :
  Forall sop_ok ops → registry_ok (kvs s) →
  wp etcd_exec (for_each ops (λ rs o, r ← run_sop o; Ret (rs ++ [r])) rs0) s
    (λ rs s', kept s s' ∧
      ∃ rs', rs = rs0 ++ rs' ∧ sspec_steps (rabs (kvs s)) ops rs' (rabs (kvs s'))).
Proof.
  intros Ho. revert rs0 s. induction Ho as [|o ops Ho Hops IH]; intros rs0 s Hok.
  - apply wp_ret. split; [by apply kept_same|]. exists []. rewrite app_nil_r.
    split; [done|]. by constructor.
  - cbn [for_each]. apply wp_bind, wp_bind, wp_run_sop; [done..|].
    intros r s1 Hk1 Hstep. apply wp_ret. eapply wp_mono; [apply IH, Hk1|].
    intros rs s2 (Hk2 & rs' & -> & Hsteps). split; [by eapply kept_trans|].
    exists (r :: rs'). rewrite <-app_assoc. split; [done|]. by econstructor.
Qed.
End Methods.
