(* ===== verification/SchemaProps.v ===== *)
(** * Properties of the schema registry

    Refinement of sequences of operations, create-then-read, the uint32
    truncation of version numbers, and the reach of a delete of "..", with
    their witnesses on the in-memory etcd. *)
From S2P Require Import Prelude GoStd GoStdFacts Prog Messages Etcd Codec ApiStore ApiStoreSpec.
From S2P Require Import ApiStoreProps SchemaStore SchemaSpec.

Section Facts.
Context `{Codec} `{GoRuntime} {S : Type} `{EtcdService S}.

Lemma run_CreateSchema sch s r s' :
  sop_ok (SCreate (Some sch)) → registry_ok (kvs s) →
  run etcd_exec (CreateSchema (Some sch)) s = (r, s') →
  kept s s' ∧ screate_post sch (rabs (kvs s)) r (rabs (kvs s')).
Proof.
  intros Ho Hok.
  refine (wp_run etcd_exec _ s (λ r s', kept s s' ∧
    screate_post sch (rabs (kvs s)) r (rabs (kvs s'))) r s' _).
  by apply wp_CreateSchema.
Qed.

Lemma exec_cas P k old ops s :
  available P → P s → kvs s !! k = old →
  ∃ s', etcd_exec _ (Txn (cas_guard k old) ops) s = (Ok true, s') ∧ P s' ∧
    kvs s' = apply_ops ops (kvs s).
Proof.
  intros HP Hs Hold. pose proof (available_step P HP _ (Txn (cas_guard k old) ops) s Hs) as Hs'.
  pose proof (available_Txn P HP (cas_guard k old) ops s Hs) as Hok.
  destruct (etcd_exec _ (Txn (cas_guard k old) ops) s) as [r s'] eqn:Hx. exists s'.
  assert (wp etcd_exec (call (Txn (cas_guard k old) ops)) s
    (λ r s', is_ok r = true → r = Ok true ∧ kvs s' = apply_ops ops (kvs s))) as Hw.
  { apply wp_cas; [done| |done]. by intros ? []. }
  destruct (wp_run _ _ _ _ r s' Hw ltac:(cbn; by rewrite Hx)) as [-> ?]; [done|].
  done.
Qed.

(** On an etcd that answers, a complete schema is created. *)
Lemma create_schema_available P sch s :
  available P → P s → sop_ok (SCreate (Some sch)) → complete sch → registry_ok (kvs s) →
  (∀ v, in32 v → is_ok (schema_Marshal (set_sd_Version v sch)) = true) →
  ∃ f s', run etcd_exec (CreateSchema (Some sch)) s = (Ok f, s') ∧ P s'.
Proof.
  intros HP Hs Ho (Hid & Hf & Hraw) Hok Hm. destruct Ho as [?|[Hn _]]; [done|].
  unfold CreateSchema. rewrite !bool_decide_eq_false_2 by (try done; by destruct (sd_RawSchema sch)).
  destruct (exec_Get P (schemaActiveKey (sd_SchemaID sch)) s HP Hs)
    as (l & s1 & Hx1 & HP1 & Hk1 & Hl).
  destruct (next_version l) as [n|] eqn:Hnext.
  2: { destruct l as [|kv l]; [done|]. cbn in Hl, Hnext. symmetry in Hl.
       destruct (schema_active _ _ (Hok _ Hn) _ Hl) as (k & Hk & Hv & _).
       by rewrite Hv, ParseUint_FormatUint in Hnext. }
  specialize (Hm (wrap32 n) (wrap32_in32 n)).
  destruct (schema_Marshal (set_sd_Version (wrap32 n) sch)) as [b|] eqn:Hb; [|done].
  destruct (exec_cas P (schemaActiveKey (sd_SchemaID sch)) (kv_Value <$> head l)
    [OpPut (schemaVersionKey (sd_SchemaID sch) (wrap32 n)) b;
     OpPut (schemaActiveKey (sd_SchemaID sch)) (strconv.FormatUint n)] s1 HP HP1)
    as (s2 & Hx2 & HP2 & _); [by rewrite Hk1, Hl|].
  eexists _, s2. split; [|exact HP2]. unfold createSchemaVersion, try_bind, call.
  cbn [mbind prog_bind run]. rewrite Hx1. cbn [fst snd]. rewrite Hnext, Hb.
  cbn [mbind prog_bind run]. rewrite guard_cas, Hx2. reflexivity.
Qed.

(** A stored schema is read back at its version and, if active, at 0. *)
Lemma get_schema_available P id v sch s :
  available P → P s → proper_seg id = true → in32 v → registry_ok (kvs s) →
  asked (rabs (kvs s) id) v = Some (sd_Version sch) → in32 (sd_Version sch) →
  Registry.r_schema (rabs (kvs s) id) (sd_Version sch) = Some sch →
  ∃ s', run etcd_exec (GetSchema id v) s = (Ok sch, s') ∧ P s'.
Proof.
  intros HP Hs Hn Hv32 Hok Hasked H32 Hst.
  assert (∀ s1, P s1 → kvs s1 = kvs s → ∃ s',
    run etcd_exec (getSchemaVersion id (sd_Version sch)) s1 = (Ok sch, s') ∧ P s') as Hget.
  { intros s1 HP1 Hs1.
    destruct (exec_Get P (schemaVersionKey id (sd_Version sch)) s1 HP HP1)
      as (l & s2 & Hx & HP2 & _ & Hl).
    exists s2. split; [|done]. unfold getSchemaVersion, try_bind, call.
    cbn [mbind prog_bind run]. rewrite Hx. cbn [fst snd].
    unfold rabs in Hst. cbn in Hst. rewrite Hs1 in Hl.
    destruct (kvs s !! schemaVersionKey id (sd_Version sch)) as [b|]; [|done].
    destruct l as [|kv l]; [done|]. injection Hl as ->. cbn in Hst |- *.
    unfold decode in Hst. destruct (schema_Unmarshal b); [|done]. by injection Hst as ->. }
  unfold GetSchema. rewrite bool_decide_eq_false_2 by (apply proper_seg_spec in Hn; naive_solver).
  unfold asked in Hasked. destruct (N.eqb_spec v 0) as [->|Hv].
  - rewrite decide_True in Hasked by done.
    destruct (exec_Get P (schemaActiveKey id) s HP Hs) as (l & s1 & Hx & HP1 & Hs1 & Hl).
    unfold rabs in Hasked. cbn in Hasked.
    destruct (kvs s !! schemaActiveKey id) as [a|]; [|done]. destruct l as [|kv l]; [done|].
    injection Hl as <-. cbn in Hasked. destruct (strconv.ParseUint (kv_Value kv) 64) eqn:Hp; [|done].
    injection Hasked as Hw. destruct (Hget s1 HP1 Hs1) as (s2 & Hr & HP2). exists s2.
    unfold try_bind, call. cbn [mbind prog_bind run]. rewrite Hx. cbn [fst snd].
    by rewrite Hp, Hw.
  - rewrite decide_False in Hasked by done. injection Hasked as ->. by apply Hget.
Qed.
End Facts.

(** ** Properties *)
Section Properties.
Context `{Codec} `{GoRuntime} {S : Type} `{EtcdService S}.

(** C12: any sequence of registry calls, valid or refused, refines the
    abstract registry call by call, also when etcd fails calls: reads return
    the definition stored for the id and version asked for, lists are exactly
    the stored versions in strictly increasing order, and no key outside the
    registry changes. *)
Theorem schema_registry_refines ops s rs s' :
  Forall sop_ok ops → registry_ok (kvs s) →
  run etcd_exec (run_sops ops) s = (rs, s') →
  registry_ok (kvs s') ∧ same_outside (kvs s) (kvs s') ∧
  sspec_steps (rabs (kvs s)) ops rs (rabs (kvs s')).
Proof.
  intros Ho Hok Hr. eapply wp_run in Hr; [|by apply (wp_run_sops ops [])].
  destruct Hr as ([? ?] & rs' & -> & ?). done.
Qed.

(** C32: on an etcd that answers, a complete schema is created, and reading
    the id back, at the version returned or at 0 for the active one, gives
    exactly the definition the create returned. *)
Theorem create_then_get_schema P sch s :
  available P → P s → complete sch → proper_seg (sd_SchemaID sch) = true →
  utf8.ValidString (sd_SchemaID sch) = true → registry_ok (kvs s) →
  (∀ v, in32 v → is_ok (schema_Marshal (set_sd_Version v sch)) = true) →
  let id := sd_SchemaID sch in
  ∃ f s1 s2 s3,
    run etcd_exec (CreateSchema (Some sch)) s = (Ok f, s1) ∧
    f = set_sd_Version (wrap32 (Registry.next (rabs (kvs s) id))) sch ∧
    run etcd_exec (GetSchema id (sd_Version f)) s1 = (Ok f, s2) ∧
    run etcd_exec (GetSchema id 0) s1 = (Ok f, s3).
Proof.
  intros HP Hs Hc Hn Hu Hok Hm id.
  assert (sop_ok (SCreate (Some sch))) as Ho by (by right).
  destruct (create_schema_available P sch s HP Hs Ho Hc Hok Hm) as (f & s1 & Hr & HP1).
  destruct (run_CreateSchema sch s _ s1 Ho Hok Hr) as [[Hok1 _] (_ & Habs & Hf)].
  fold id in Habs, Hf. destruct (Habs id Hn) as [Ha Hst]. unfold Registry.update in Ha, Hst.
  rewrite decide_True in Ha, Hst by done. cbn in Ha.
  specialize (Hst (wrap32 (Registry.next (rabs (kvs s) id))) (wrap32_in32 _)).
  cbn in Hst. rewrite decide_True in Hst by done.
  set (v := wrap32 (Registry.next (rabs (kvs s) id))) in *.
  assert (sd_Version f = v) as Hv by (by rewrite Hf).
  assert (asked (rabs (kvs s1) id) 0 = Some v) as Hv0 by (unfold asked; cbn; by rewrite Ha).
  assert (asked (rabs (kvs s1) id) v = Some v) as Hvv.
  { destruct (decide (v = 0%N)) as [E|E]; [rewrite E at 1; exact Hv0|].
    unfold asked. by rewrite decide_False. }
  destruct (get_schema_available P id v f s1) as (s2 & Hr2 & _);
    rewrite ?Hv, ?Hf; try done; try apply wrap32_in32.
  destruct (get_schema_available P id 0 f s1) as (s3 & Hr3 & _);
    rewrite ?Hv, ?Hf; try done; try apply wrap32_in32.
  exists f, s1, s2, s3. rewrite Hv. done.
Qed.

(** C40: the active pointer counts in 64 bits but versions are kept in 32: a
    successful create after number [n] is stored as version [(n + 1) mod
    2^32], replacing the definition already there.  After 2^32 versions the
    first one is overwritten. *)
Theorem schema_versions_wrap sch n s f s' :
  sop_ok (SCreate (Some sch)) → registry_ok (kvs s) →
  let id := sd_SchemaID sch in
  Registry.r_active (rabs (kvs s) id) = Some n → (n + 1 < two64)%N →
  run etcd_exec (CreateSchema (Some sch)) s = (Ok f, s') →
  sd_Version f = ((n + 1) mod 2 ^ 32)%N ∧
  Registry.r_active (rabs (kvs s') id) = Some (n + 1)%N ∧
  Registry.r_schema (rabs (kvs s') id) (sd_Version f) = Some f ∧
  (∀ v, in32 v → v ≠ sd_Version f →
    Registry.r_schema (rabs (kvs s') id) v = Registry.r_schema (rabs (kvs s) id) v) ∧
  (n = 2 ^ 32 → sd_Version f = 1)%N.
Proof.
  intros Ho Hok id Hn Hlt Hr.
  destruct (run_CreateSchema sch s _ s' Ho Hok Hr) as [_ ((Hid & _) & Habs & Hf)].
  fold id in Habs, Hf. destruct Ho as [?|[Hp _]]; [done|].
  destruct (Habs id Hp) as [Ha Hst]. unfold Registry.update in Ha, Hst.
  rewrite decide_True in Ha, Hst by done.
  assert (Registry.next (rabs (kvs s) id) = (n + 1)%N) as Hnext.
  { unfold Registry.next. rewrite Hn. by apply wrap64_small. }
  unfold Registry.push in Ha, Hst. rewrite Hnext in Ha, Hst, Hf. cbn in Ha.
  assert (sd_Version f = wrap32 (n + 1)) as Hv by (by rewrite Hf).
  rewrite Hv. split_and!; [done|done| | |].
  - rewrite Hst by apply wrap32_in32. cbn. by rewrite decide_True, Hf by done.
  - intros v H32 Hne. rewrite Hst by done. cbn. by rewrite decide_False.
  - by intros ->.
Qed.

(** C39: names are cleaned as paths, not checked: deleting the schema or the
    flow called ".." deletes every key below /flowpipe, all flows and all
    schemas. *)
Theorem delete_dotdot_wipes_both_stores s s' :
  (run etcd_exec (DeleteSchema "..") s = (Ok tt, s') ∨
   run etcd_exec (DeleteFlow "..") s = (Ok tt, s')) →
  kvs s' = without_prefix "/flowpipe" (kvs s) ∧
  (∀ name, proper_seg name = true → abs (kvs s') name ≡ Spec.none) ∧
  (∀ id, proper_seg id = true → rabs (kvs s') id ≡ Registry.none).
Proof.
  intros Hr. assert (kvs s' = without_prefix "/flowpipe" (kvs s)) as Hk.
  { destruct Hr as [Hr|Hr]; [|by apply run_DeleteFlow in Hr].
    refine (wp_run etcd_exec (DeleteSchema "..") s (λ r s', r = Ok tt →
      kvs s' = without_prefix "/flowpipe" (kvs s)) _ s' _ Hr eq_refl).
    by apply wp_DeletePrefix. }
  assert (∀ key segs, key = abs_path ("flowpipe" :: segs) → kvs s' !! key = None) as Hp.
  { intros key segs ->. rewrite Hk, lookup_without_prefix.
    change ("flowpipe" :: segs) with (["flowpipe"] ++ segs). rewrite abs_path_app.
    change "/flowpipe" with (abs_path ["flowpipe"]). by rewrite HasPrefix_app. }
  split; [done|]. split.
  - intros name Hn. split_and!; intros; unfold abs; cbn [Spec.a_active Spec.a_spec Spec.a_status Spec.none].
    + by rewrite (Hp _ ["flows"; name; "active"] (activeKey_proper name Hn)).
    + by rewrite (Hp _ ["flows"; name; "versions"; strconv.FormatUint v; "spec"]
        (versionSpecKey_proper name v Hn)).
    + by rewrite (Hp _ ["flows"; name; "status"] (statusKey_proper name Hn)).
  - intros id Hn. split; intros; unfold rabs; cbn [Registry.r_active Registry.r_schema Registry.none].
    + by rewrite (Hp _ ["schemas"; id; "active"] (schemaActiveKey_proper id Hn)).
    + by rewrite (Hp _ ["schemas"; id; "versions"; strconv.FormatUint v]
        (schemaVersionKey_proper id v Hn)).
Qed.
End Properties.

(** ** Witnesses *)
Section Witnesses.
Import MemEtcd TestCodec.
#[local] Existing Instance std_runtime.

Definition orders (raw : string) : SchemaDefinition :=
  Build_SchemaDefinition "orders" 0 IN_MEMORY_SCHEMA_FORMAT_JSON (String.list_byte_of_string raw).

(** Two versions of "orders" next to two flows. *)
Definition schemas : state :=
  (runE (CreateSchema (Some (orders "two"))) (runE (CreateSchema (Some (orders "one"))) fresh).2).2.

(** "orders" at number 2^32, where versions start over. *)
Definition full_schemas : state :=
  (runE (call (Txn [] [OpPut (schemaVersionKey "orders" 1) "1|orders|one";
                       OpPut (schemaVersionKey "orders" 0) "0|orders|zero";
                       OpPut (schemaActiveKey "orders") "4294967296"])) fresh).2.

Lemma orders_ok raw : sop_ok (SCreate (Some (orders raw))).
Proof. right. split; reflexivity. Defined.

Lemma schemas_ok : registry_ok (kvs schemas).
Proof.
  eapply (proj1 (proj1 (run_CreateSchema _ _ _ _ (orders_ok _) _ (surjective_pairing _)))).
  Unshelve.
  eapply (proj1 (proj1 (run_CreateSchema _ _ _ _ (orders_ok _) _ (surjective_pairing _)))).
  Unshelve. apply registry_ok_empty.
Defined.

Lemma schema_registry_refines_witness :
  ∃ rs s', runE (run_sops [SCreate (Some (orders "one")); SCreate None; SGet "orders" 0;
      SList "orders"; SDelete "orders"; SGet "orders" 1])
      (MemEtcd.empty [Succeed; FailAfter]) = (rs, s') ∧ length rs = 6 ∧ registry_ok (kvs s').
Proof.
  eexists _, _. split; [vm_compute; reflexivity|]. split; [reflexivity|].
  eapply (schema_registry_refines [SCreate (Some (orders "one")); SCreate None; SGet "orders" 0;
      SList "orders"; SDelete "orders"; SGet "orders" 1] (MemEtcd.empty [Succeed; FailAfter])).
  - repeat constructor; by right.
  - apply registry_ok_empty.
  - vm_compute; reflexivity.
Defined.

Lemma create_then_get_schema_witness :
  ∃ f s1 s2, run etcd_exec (CreateSchema (Some (orders "three"))) schemas = (Ok f, s1) ∧
    sd_Version f = 3%N ∧ run etcd_exec (GetSchema "orders" 0) s1 = (Ok f, s2).
Proof.
  destruct (create_then_get_schema (λ s, MemEtcd.outcomes s = []) (orders "three") schemas)
    as (f & s1 & s2 & s3 & Hr & Hf & _ & Hg).
  - apply mem_available.
  - vm_compute. reflexivity.
  - split_and!; discriminate.
  - reflexivity.
  - reflexivity.
  - apply schemas_ok.
  - intros v Hv. cbn. unfold join_fields. apply in32_in64, N.ltb_lt in Hv. by rewrite Hv.
  - exists f, s1, s3. split; [exact Hr|]. split; [rewrite Hf; vm_compute; reflexivity|exact Hg].
Defined.

Lemma full_schemas_ok : registry_ok (kvs full_schemas).
Proof.
  assert (kvs full_schemas = sinstall
    (sinstall ∅ "orders" 1 "1|orders|one") "orders" 4294967296 "0|orders|zero") as ->
    by (vm_compute; reflexivity).
  eapply (sinstall_ok _ _ _ (orders "zero")); [reflexivity..| |reflexivity].
  eapply (sinstall_ok _ _ _ (orders "one")); [reflexivity..| |reflexivity].
  apply registry_ok_empty.
Defined.

Lemma schema_versions_wrap_witness :
  ∃ f s', run etcd_exec (CreateSchema (Some (orders "new"))) full_schemas = (Ok f, s') ∧
    sd_Version f = 1%N ∧ Registry.r_schema (rabs (kvs s') "orders") 1 = Some f ∧
    is_Some (Registry.r_schema (rabs (kvs full_schemas) "orders") 1).
Proof.
  pose (s' := (runE (CreateSchema (Some (orders "new"))) full_schemas).2).
  assert (run etcd_exec (CreateSchema (Some (orders "new"))) full_schemas = (Ok _, s')) as Hr
    by (vm_compute; reflexivity).
  destruct (schema_versions_wrap (orders "new") 4294967296 full_schemas _ s' (orders_ok "new")
    full_schemas_ok eq_refl eq_refl Hr) as (_ & _ & Hs & _ & Hv).
  eexists _, s'. split; [exact Hr|]. split; [apply Hv; reflexivity|]. split; [exact Hs|].
  vm_compute. by eexists.
Defined.

Lemma delete_dotdot_wipes_both_stores_witness :
  ∃ s', run etcd_exec (DeleteFlow "..") two_flows = (Ok tt, s') ∧
    is_Some (Spec.a_active (abs (kvs two_flows) "ab")) ∧ abs (kvs s') "ab" ≡ Spec.none.
Proof.
  pose (s' := (runE (DeleteFlow "..") two_flows).2). exists s'.
  assert (run etcd_exec (DeleteFlow "..") two_flows = (Ok tt, s')) as Hr
    by (vm_compute; reflexivity).
  split; [exact Hr|]. split; [vm_compute; by eexists|].
  apply (delete_dotdot_wipes_both_stores two_flows s' (or_intror Hr)). reflexivity.
Defined.
End Witnesses.
