(* ===== verification/Kube.v ===== *)
(** * The Kubernetes API, as the controller uses it

    Only the fields the controller sets or reads are kept; the metadata and
    status it passes through untouched are one opaque field.  A nil map and
    an empty map are the same [gmap].  [kubeE] are the calls of client-go's
    typed clients; [KubeService] states what the API server documents about
    them, with [admitted_as] standing for defaulting and admission; [MemKube] is a
    cluster that satisfies it. *)
From S2P Require Import Prelude Prog.

(** ** Objects *)

Record ObjectMeta := {
  om_Name : string;
  om_Namespace : string;
  om_Labels : gmap string string;
  (** resourceVersion, uid, ... : set by the server *)
  om_Other : string;
}.

Record EnvVar := { ev_Name : string; ev_Value : string }.
Record VolumeMount := { vm_Name : string; vm_MountPath : string }.
(** A volume from the ConfigMap of the given name. *)
Record Volume := { vol_Name : string; vol_ConfigMap : string }.

Record Container := {
  ct_Name : string;
  ct_Image : string;
  ct_ImagePullPolicy : string;
  ct_Args : list string;
  ct_Env : list EnvVar;
  ct_VolumeMounts : list VolumeMount;
  ct_Requests : gmap string Z;
}.

Record PodSpec := {
  ps_RestartPolicy : string;
  ps_Containers : list Container;
  ps_Volumes : list Volume;
  ps_ServiceAccountName : string;
  ps_ImagePullSecrets : list string;
  ps_RuntimeClassName : option string;
}.

Record PodTemplateSpec := {
  pt_Labels : gmap string string;
  pt_Annotations : gmap string string;
  pt_Spec : PodSpec;
}.

Record DeploymentSpec := {
  ds_Replicas : option Z;
  ds_Selector : gmap string string;
  ds_Template : PodTemplateSpec;
}.

Record DaemonSetSpec := {
  dss_Selector : gmap string string;
  dss_Template : PodTemplateSpec;
}.

Record JobSpec := { js_Template : PodTemplateSpec }.

Record CronJobSpec := {
  cjs_Schedule : string;
  cjs_TimeZone : option string;
  cjs_Suspend : option bool;
  cjs_StartingDeadlineSeconds : option Z;
  cjs_ConcurrencyPolicy : string;
  cjs_SuccessfulJobsHistoryLimit : option Z;
  cjs_FailedJobsHistoryLimit : option Z;
  cjs_JobTemplate : JobSpec;
}.

(** An object: metadata, the part the controller owns, and the rest. *)
Record Object (A : Type) := {
  o_Meta : ObjectMeta;
  o_Spec : A;
  o_Status : string;
}.
Arguments o_Meta {A}.
Arguments o_Spec {A}.
Arguments o_Status {A}.
Arguments Build_Object {A}.

Inductive kind := ConfigMaps | Deployments | DaemonSets | Jobs | CronJobs.

#[export] Instance kind_eq_dec : EqDecision kind.
Proof. solve_decision. Defined.

(** A ConfigMap's own part is its data. *)
Definition spec_of (k : kind) : Type :=
  match k with
  | ConfigMaps => gmap string string
  | Deployments => DeploymentSpec
  | DaemonSets => DaemonSetSpec
  | Jobs => JobSpec
  | CronJobs => CronJobSpec
  end.

Definition obj (k : kind) : Type := Object (spec_of k).

(** ** Calls *)

Inductive kubeE : Type → Type :=
  | KGet (k : kind) (namespace name : string) : kubeE (result (obj k))
  | KCreate (k : kind) (namespace : string) (o : obj k) : kubeE (result unit)
  | KUpdate (k : kind) (namespace : string) (o : obj k) : kubeE (result unit)
  | KDelete (k : kind) (namespace name : string) : kubeE (result unit).

(** [apierrors.IsNotFound]: the reason of the status error. *)
Definition IsNotFound (e : GoError) : bool :=
  match e with StatusErr code _ => bool_decide (code = "NotFound") | _ => false end.

Notation key := (string * string)%type (only parsing).

(** The objects of a cluster, by kind, namespace and name. *)
Definition cluster : Type := ∀ k, gmap (string * string) (obj k).

Definition cl_insert (k : kind) (i : string * string) (o : obj k) (c : cluster) : cluster := λ k',
  match decide (k = k') with
  | left E => eq_rect k (λ k', gmap (string * string) (obj k')) (<[i := o]> (c k)) k' E
  | right _ => c k'
  end.

Definition cl_delete (k : kind) (i : string * string) (c : cluster) : cluster := λ k',
  match decide (k = k') with
  | left E => eq_rect k (λ k', gmap (string * string) (obj k')) (delete i (c k)) k' E
  | right _ => c k'
  end.

Definition same_cluster (c d : cluster) : Prop := ∀ k, c k = d k.

Class KubeService (S : Type) := {
  kube_exec : handler kubeE S;
  objects : S → cluster;
  (** What the server stores for an object sent to it. *)
  admitted_as : ∀ k, obj k → obj k;

  KGet_spec : ∀ k ns n s r s', kube_exec _ (KGet k ns n) s = (r, s') →
    same_cluster (objects s') (objects s) ∧
    match r with
    | Ok o => objects s k !! (ns, n) = Some o
    | Err e => IsNotFound e = true → objects s k !! (ns, n) = None
    end;

  (** A call that fails may have taken effect, unless the object it is
      about was there (create) or was not there (update). *)
  KCreate_spec : ∀ k ns o s r s', kube_exec _ (KCreate k ns o) s = (r, s') →
    let i := (ns, om_Name (o_Meta o)) in
    (objects s k !! i = None ∧ same_cluster (objects s') (cl_insert k i (admitted_as k o) (objects s))) ∨
    (is_ok r = false ∧ same_cluster (objects s') (objects s));

  KUpdate_spec : ∀ k ns o s r s', kube_exec _ (KUpdate k ns o) s = (r, s') →
    let i := (ns, om_Name (o_Meta o)) in
    (is_Some (objects s k !! i) ∧
      same_cluster (objects s') (cl_insert k i (admitted_as k o) (objects s))) ∨
    (is_ok r = false ∧ same_cluster (objects s') (objects s));

  (** An object marked for deletion counts as deleted. *)
  KDelete_spec : ∀ k ns n s r s', kube_exec _ (KDelete k ns n) s = (r, s') →
    same_cluster (objects s') (cl_delete k (ns, n) (objects s)) ∨
    (is_ok r = false ∧ same_cluster (objects s') (objects s) ∧
      ∀ e, r = Err e → IsNotFound e = true → objects s k !! (ns, n) = None);

  (** The object read under a name has that name. *)
  stored_name : ∀ s k ns n o, objects s k !! (ns, n) = Some o → om_Name (o_Meta o) = n;
}.

Section Cluster.
Implicit Types c d : cluster.

Lemma cl_insert_lookup k i o c k' j :
  cl_insert k i o c k' !! j = match decide (k = k') with
    | left E => if decide (i = j) then Some (eq_rect k obj o k' E) else c k' !! j
    | right _ => c k' !! j
    end.
Proof.
  unfold cl_insert. destruct (decide (k = k')) as [E|]; [|done]. destruct E. cbn.
  case_decide as Hd; [subst; apply lookup_insert_eq|by apply lookup_insert_ne].
Qed.

Lemma cl_insert_eq k i o c : cl_insert k i o c k !! i = Some o.
Proof.
  rewrite cl_insert_lookup. destruct (decide (k = k)) as [E|]; [|done].
  rewrite decide_True by done. by rewrite (proof_irrel E eq_refl).
Qed.

Lemma cl_insert_ne k i o c k' j :
  (k, i) ≠ (k', j) → cl_insert k i o c k' !! j = c k' !! j.
Proof.
  intros Hne. rewrite cl_insert_lookup. destruct (decide (k = k')) as [->|]; [|done].
  rewrite decide_False; [done|]. by intros ->.
Qed.

Lemma cl_delete_eq k i c : cl_delete k i c k !! i = None.
Proof.
  unfold cl_delete. destruct (decide (k = k)) as [E|]; [|done].
  rewrite (proof_irrel E eq_refl). cbn. apply lookup_delete_eq.
Qed.

Lemma cl_delete_ne k i c k' j :
  (k, i) ≠ (k', j) → cl_delete k i c k' !! j = c k' !! j.
Proof.
  intros Hne. unfold cl_delete. destruct (decide (k = k')) as [E|]; [|done]. destruct E. cbn.
  apply lookup_delete_ne. by intros ->.
Qed.
End Cluster.

(** ** Rules for the calls *)
Section Rules.
Context {S : Type} `{KubeService S}.

Lemma wp_KGet k ns n s (Φ : result (obj k) → S → Prop) :
  (∀ o s', same_cluster (objects s') (objects s) → objects s k !! (ns, n) = Some o →
     Φ (Ok o) s') →
  (∀ e s', same_cluster (objects s') (objects s) →
     (IsNotFound e = true → objects s k !! (ns, n) = None) → Φ (Err e) s') →
  wp kube_exec (call (KGet k ns n)) s Φ.
Proof.
  intros Hok Herr. apply wp_call. intros r s' Hx.
  destruct (KGet_spec _ _ _ _ _ _ Hx) as [Hc Hr]. destruct r; auto.
Qed.

Lemma wp_KCreate k ns o s (Φ : result unit → S → Prop) :
  let i := (ns, om_Name (o_Meta o)) in
  (∀ s', objects s k !! i = None →
     same_cluster (objects s') (cl_insert k i (admitted_as k o) (objects s)) → Φ (Ok tt) s') →
  (∀ e s', same_cluster (objects s') (objects s) ∨
     same_cluster (objects s') (cl_insert k i (admitted_as k o) (objects s)) → Φ (Err e) s') →
  wp kube_exec (call (KCreate k ns o)) s Φ.
Proof.
  intros i Hok Herr. apply wp_call. intros r s' Hx.
  destruct (KCreate_spec _ _ _ _ _ _ Hx) as [[Hn Hc]|[Hr Hc]]; destruct r as [[]|]; auto; done.
Qed.

Lemma wp_KUpdate k ns o s (Φ : result unit → S → Prop) :
  let i := (ns, om_Name (o_Meta o)) in
  (∀ s', same_cluster (objects s') (cl_insert k i (admitted_as k o) (objects s)) → Φ (Ok tt) s') →
  (∀ e s', same_cluster (objects s') (objects s) ∨
     same_cluster (objects s') (cl_insert k i (admitted_as k o) (objects s)) → Φ (Err e) s') →
  wp kube_exec (call (KUpdate k ns o)) s Φ.
Proof.
  intros i Hok Herr. apply wp_call. intros r s' Hx.
  destruct (KUpdate_spec _ _ _ _ _ _ Hx) as [[Hn Hc]|[Hr Hc]]; destruct r as [[]|]; auto; done.
Qed.

Lemma wp_KDelete k ns n s (Φ : result unit → S → Prop) :
  (∀ s', same_cluster (objects s') (cl_delete k (ns, n) (objects s)) → Φ (Ok tt) s') →
  (∀ e s', same_cluster (objects s') (cl_delete k (ns, n) (objects s)) ∨
     (same_cluster (objects s') (objects s) ∧
       (IsNotFound e = true → objects s k !! (ns, n) = None)) → Φ (Err e) s') →
  wp kube_exec (call (KDelete k ns n)) s Φ.
Proof.
  intros Hok Herr. apply wp_call. intros r s' Hx.
  destruct (KDelete_spec _ _ _ _ _ _ Hx) as [Hc|(Hr & Hc & He)]; destruct r as [[]|];
    auto; try done. apply Herr. right. eauto.
Qed.
End Rules.

(** ** A cluster in memory

    Calls fail before taking effect as the scheduled outcomes say.  The
    server stamps an object's metadata. *)
Module MemKube.

Record state := {
  m_configmaps : gmap (string * string) (obj ConfigMaps);
  m_deployments : gmap (string * string) (obj Deployments);
  m_daemonsets : gmap (string * string) (obj DaemonSets);
  m_jobs : gmap (string * string) (obj Jobs);
  m_cronjobs : gmap (string * string) (obj CronJobs);
  m_failures : list bool;
}.

Definition empty (failures : list bool) : state := Build_state ∅ ∅ ∅ ∅ ∅ failures.

Definition stored (s : state) : cluster := λ k,
  match k with
  | ConfigMaps => m_configmaps s
  | Deployments => m_deployments s
  | DaemonSets => m_daemonsets s
  | Jobs => m_jobs s
  | CronJobs => m_cronjobs s
  end.

(** An object goes by the name it is stored under. *)
Definition named {k} (n : string) (o : obj k) : obj k :=
  Build_Object (Build_ObjectMeta n (om_Namespace (o_Meta o)) (om_Labels (o_Meta o))
    (om_Other (o_Meta o))) (o_Spec o) (o_Status o).

Definition content (s : state) : cluster := λ k,
  map_imap (λ i o, Some (named i.2 o)) (stored s k).

Definition put (s : state) (k : kind) : gmap (string * string) (obj k) → state :=
  match k with
  | ConfigMaps => λ m, Build_state m (m_deployments s) (m_daemonsets s) (m_jobs s)
                         (m_cronjobs s) (m_failures s)
  | Deployments => λ m, Build_state (m_configmaps s) m (m_daemonsets s) (m_jobs s)
                          (m_cronjobs s) (m_failures s)
  | DaemonSets => λ m, Build_state (m_configmaps s) (m_deployments s) m (m_jobs s)
                         (m_cronjobs s) (m_failures s)
  | Jobs => λ m, Build_state (m_configmaps s) (m_deployments s) (m_daemonsets s) m
                   (m_cronjobs s) (m_failures s)
  | CronJobs => λ m, Build_state (m_configmaps s) (m_deployments s) (m_daemonsets s)
                       (m_jobs s) m (m_failures s)
  end.

Definition pop (s : state) : bool * state :=
  (default false (head (m_failures s)),
   Build_state (m_configmaps s) (m_deployments s) (m_daemonsets s) (m_jobs s)
     (m_cronjobs s) (tail (m_failures s))).

Definition stamp (k : kind) (o : obj k) : obj k :=
  Build_Object (Build_ObjectMeta (om_Name (o_Meta o)) (om_Namespace (o_Meta o))
    (om_Labels (o_Meta o)) "stamped") (o_Spec o) (o_Status o).

Definition not_found : GoError := StatusErr "NotFound" "not found".
Definition conflict : GoError := StatusErr "AlreadyExists" "already exists".
Definition down : GoError := ExtErr "connection refused".

Definition exec : handler kubeE state := λ X e s0,
  let '(fails, s) := pop s0 in
  match e with
  | KGet k ns n =>
      if fails then (Err down, s)
      else match content s k !! (ns, n) with
           | Some o => (Ok o, s)
           | None => (Err not_found, s)
           end
  | KCreate k ns o =>
      if fails then (Err down, s)
      else match content s k !! (ns, om_Name (o_Meta o)) with
           | Some _ => (Err conflict, s)
           | None => (Ok tt, put s k (<[(ns, om_Name (o_Meta o)) := stamp k o]> (stored s k)))
           end
  | KUpdate k ns o =>
      if fails then (Err down, s)
      else match content s k !! (ns, om_Name (o_Meta o)) with
           | Some _ => (Ok tt, put s k (<[(ns, om_Name (o_Meta o)) := stamp k o]> (stored s k)))
           | None => (Err not_found, s)
           end
  | KDelete k ns n =>
      if fails then (Err down, s)
      else match content s k !! (ns, n) with
           | Some _ => (Ok tt, put s k (delete (ns, n) (stored s k)))
           | None => (Err not_found, s)
           end
  end.

End MemKube.

Section MemKubeFacts.
Import MemKube.

Lemma content_lookup s k i : content s k !! i = named i.2 <$> stored s k !! i.
Proof. unfold content. rewrite map_lookup_imap. by destruct (stored s k !! i). Qed.

Lemma content_put s k m k' :
  content (put s k m) k' =
    match decide (k = k') with
    | left E => eq_rect k (λ k, gmap (string * string) (obj k))
                  (map_imap (λ i o, Some (named i.2 o)) m) k' E
    | right _ => content s k'
    end.
Proof. by destruct k, k'. Qed.

Lemma content_insert s k i o :
  om_Name (o_Meta o) = i.2 →
  same_cluster (content (put s k (<[i := o]> (stored s k)))) (cl_insert k i o (content s)).
Proof.
  intros Hn k'. rewrite content_put. unfold cl_insert.
  destruct (decide (k = k')) as [E|]; [|done]. destruct E. cbn. apply map_eq. intros j.
  rewrite map_lookup_imap. destruct (decide (i = j)) as [<-|Hne].
  - rewrite !lookup_insert_eq. cbn. destruct o as [[]]. cbn in *. by subst.
  - rewrite !lookup_insert_ne by done. rewrite content_lookup. by destruct (stored s k !! j).
Qed.

Lemma content_remove s k i :
  same_cluster (content (put s k (delete i (stored s k)))) (cl_delete k i (content s)).
Proof.
  intros k'. rewrite content_put. unfold cl_delete.
  destruct (decide (k = k')) as [E|]; [|done]. destruct E. cbn. apply map_eq. intros j.
  rewrite map_lookup_imap. destruct (decide (i = j)) as [<-|Hne].
  - by rewrite !lookup_delete_eq.
  - rewrite !lookup_delete_ne by done. rewrite content_lookup. by destruct (stored s k !! j).
Qed.

#[export] Program Instance mem_kube : KubeService state := {|
  kube_exec := exec;
  objects := content;
  admitted_as := stamp;
|}.
Next Obligation.
  intros k ns n s r s' Hx. cbn in Hx. destruct (default false _); [by simplify_eq|].
  destruct (content _ k !! (ns, n)) as [o|] eqn:Ho; simplify_eq; by split.
Qed.
Next Obligation.
  intros k ns o s r s' Hx i. cbn in Hx. destruct (default false _).
  { simplify_eq. by right. }
  destruct (content _ k !! _) as [o'|] eqn:Ho; simplify_eq; [by right|].
  left. split; [done|]. by apply (content_insert (pop s).2 k i (stamp k o)).
Qed.
Next Obligation.
  intros k ns o s r s' Hx i. cbn in Hx. destruct (default false _).
  { simplify_eq. by right. }
  destruct (content _ k !! _) as [o'|] eqn:Ho; simplify_eq; [|by right].
  left. split; [by eexists|]. by apply (content_insert (pop s).2 k i (stamp k o)).
Qed.
Next Obligation.
  intros k ns n s r s' Hx. cbn in Hx. destruct (default false _).
  { simplify_eq. right. split_and!; [done..|]. by intros ? [= <-]. }
  destruct (content _ k !! _) as [o'|] eqn:Ho; simplify_eq.
  - left. apply (content_remove (pop s).2 k (ns, n)).
  - right. split_and!; [done..|]. by intros ? _ _.
Qed.
Next Obligation.
  intros s k ns n o Ho. pose proof (eq_trans (eq_sym Ho) (content_lookup s k (ns, n))) as Hl.
  destruct (stored s k !! _); [|done]. by injection Hl as ->.
Qed.
End MemKubeFacts.
