(* ===== verification/Runtime.v ===== *)
(** * controller/internal/controller/runtime.go: the runtime of a flow

    From a flow spec to the ConfigMap and the one workload that run it.
    Definitions follow the file function by function; [protojson], the YAML
    conversion and SHA-256 are the parameters [RuntimeEncoding]. *)
From S2P Require Import Prelude GoStd Prog Messages Kube.

Definition flowLabelKey : string := "flowpipe.io/flow-name".
Definition runtimeConfigKey : string := "flow.yaml".
Definition runtimeConfigMountDir : string := "/config".
Definition runtimeConfigPath : string := "/config/flow.yaml".
Definition runtimeConfigHashKey : string := "flowpipe.io/flow-config-checksum".
Definition resourceProfileKey : string := "flowpipe.io/resource-profile".

Definition PullAlways : string := "Always".
Definition PullNever : string := "Never".
Definition PullIfNotPresent : string := "IfNotPresent".
Definition RestartPolicyAlways : string := "Always".
Definition RestartPolicyOnFailure : string := "OnFailure".
Definition RestartPolicyNever : string := "Never".
Definition ForbidConcurrent : string := "Forbid".
Definition ReplaceConcurrent : string := "Replace".
Definition AllowConcurrent : string := "Allow".
Definition ResourceCPU : string := "cpu".
Definition ResourceMemory : string := "memory".

Class RuntimeEncoding := {
  spec_JSON : FlowSpec → result string;
  JSONToYAML : string → result string;
  sha256_hex : string → string;
}.

(** ** Policies *)

Definition pullPolicyFromSpec (spec : option FlowSpec) : string :=
  match spec with
  | None => PullIfNotPresent
  | Some spec =>
      match fs_Kubernetes spec with
      | None => PullIfNotPresent
      | Some k =>
          match ks_ImagePullPolicy k with
          | IMAGE_PULL_POLICY_ALWAYS => PullAlways
          | IMAGE_PULL_POLICY_NEVER => PullNever
          | _ => PullIfNotPresent
          end
      end
  end.

Definition restartPolicyFromSpec (spec : option FlowSpec) : string :=
  match spec with
  | None => RestartPolicyNever
  | Some spec =>
      match fs_Kubernetes spec with
      | None => RestartPolicyNever
      | Some k =>
          match ks_RestartPolicy k with
          | RESTART_POLICY_ALWAYS => RestartPolicyAlways
          | RESTART_POLICY_ON_FAILURE => RestartPolicyOnFailure
          | _ => RestartPolicyNever
          end
      end
  end.

Definition cronConcurrencyPolicyFromSpec (policy : CronConcurrencyPolicy) : string :=
  match policy with
  | CRON_CONCURRENCY_POLICY_FORBID => ForbidConcurrent
  | CRON_CONCURRENCY_POLICY_REPLACE => ReplaceConcurrent
  | _ => AllowConcurrent
  end.

(** ** The pod template *)
Section Template.
Context `{GoRuntime}.

(** [fmt.Sprintf("%t", b)] *)
Definition format_bool (b : bool) : string := if b then "true" else "false".

(** The entries [runtimeEnv] always sets. *)
Definition base_env (observabilityEnabled : bool) (otelEndpoint : string) : list EnvVar :=
  [Build_EnvVar "FLOWPIPE_OBSERVABILITY_ENABLED" (format_bool observabilityEnabled)] ++
  (if observabilityEnabled then
     [Build_EnvVar "FLOWPIPE_METRICS_ENABLED" "true";
      Build_EnvVar "FLOWPIPE_TRACING_ENABLED" "true";
      Build_EnvVar "FLOWPIPE_LOGS_ENABLED" "true";
      Build_EnvVar "OTEL_EXPORTER_OTLP_ENDPOINT" otelEndpoint]
   else []).

Definition runtimeEnv (observabilityEnabled : bool) (otelEndpoint : string)
    (extraEnv : gmap string string) : list EnvVar :=
  let env := base_env observabilityEnabled otelEndpoint in
  if decide (size extraEnv = 0) then env
  else
    let existing : gset string := list_to_set (ev_Name <$> env) in
    let keys := sort_Strings (fst <$> range_map extraEnv) in
    foldl (λ env key,
      if bool_decide (key ∈ existing) then env
      else env ++ [Build_EnvVar key (default "" (extraEnv !! key))]) env keys.

(** [for key, value := range user { if key == reserved { continue };
    target[key] = value }] *)
Definition copy_except (reserved : string) (user target : gmap string string) :
    gmap string string :=
  foldl (λ target kv, if bool_decide (kv.1 = reserved) then target
                      else <[kv.1 := kv.2]> target) target (range_map user).

(** The template is never nil here; only nil options are. *)
Definition applyKubernetesOptions (template : PodTemplateSpec)
    (options : option KubernetesOptions) : PodTemplateSpec :=
  match options with
  | None => template
  | Some options =>
      let labels :=
        if decide (0 < size (ko_PodLabels options))
        then copy_except flowLabelKey (ko_PodLabels options) (pt_Labels template)
        else pt_Labels template in
      let annotations :=
        if decide (0 < size (ko_PodAnnotations options))
        then copy_except runtimeConfigHashKey (ko_PodAnnotations options)
               (pt_Annotations template)
        else pt_Annotations template in
      let spec := pt_Spec template in
      Build_PodTemplateSpec labels annotations
        (Build_PodSpec (ps_RestartPolicy spec) (ps_Containers spec) (ps_Volumes spec)
          (match ko_ServiceAccountName options with
           | Some name => name
           | None => ps_ServiceAccountName spec
           end)
          (if decide (0 < length (ko_ImagePullSecrets options))
           then filter (λ name, name ≠ "") (ko_ImagePullSecrets options)
           else ps_ImagePullSecrets spec)
          (match ko_RuntimeClassName options with
           | Some name => Some name
           | None => ps_RuntimeClassName spec
           end))
  end.

(** The [requests] map: quantities are int64. *)
Definition intent_requests (intent : Resources) : gmap string Z :=
  let requests : gmap string Z := ∅ in
  let requests :=
    match re_CpuCores intent with
    | Some cores =>
        if (0 <? cores)%N then <[ResourceCPU := wrap_int64 (Z.of_N cores)]> requests
        else requests
    | None => requests
    end in
  match re_MemoryMb intent with
  | Some mb =>
      if (0 <? mb)%N then
        <[ResourceMemory := wrap_int64 (wrap_int64 (wrap_int64 (Z.of_N mb) * 1000) * 1000)]>
          requests
      else requests
  | None => requests
  end.

Definition set_requests (requests : gmap string Z) (c : Container) : Container :=
  Build_Container (ct_Name c) (ct_Image c) (ct_ImagePullPolicy c) (ct_Args c) (ct_Env c)
    (ct_VolumeMounts c)
    (foldl (λ m kv, <[kv.1 := kv.2]> m) (ct_Requests c) (range_map requests)).

Definition applyResourceIntent (template : PodTemplateSpec) (intent : option Resources) :
    PodTemplateSpec :=
  match intent with
  | None => template
  | Some intent =>
      let annotations :=
        match re_Profile intent with
        | Some profile =>
            if bool_decide (profile = "") then pt_Annotations template
            else <[resourceProfileKey := profile]> (pt_Annotations template)
        | None => pt_Annotations template
        end in
      let spec := pt_Spec template in
      let containers :=
        match ps_Containers spec with
        | [] => []
        | container :: rest =>
            let requests := intent_requests intent in
            if decide (size requests = 0) then container :: rest
            else set_requests requests container :: rest
        end in
      Build_PodTemplateSpec (pt_Labels template) annotations
        (Build_PodSpec (ps_RestartPolicy spec) containers (ps_Volumes spec)
          (ps_ServiceAccountName spec) (ps_ImagePullSecrets spec) (ps_RuntimeClassName spec))
  end.

(** The composite literal the three template builders share, with the restart
    policy it sets ("" in a Deployment's or DaemonSet's). *)
Definition template_literal (flowName configMapName image imagePullPolicy configChecksum : string)
    (observabilityEnabled : bool) (otelEndpoint restartPolicy : string)
    (env : gmap string string) : PodTemplateSpec :=
  Build_PodTemplateSpec
    {[flowLabelKey := flowName]}
    {[runtimeConfigHashKey := configChecksum]}
    (Build_PodSpec restartPolicy
      [Build_Container "runtime" image imagePullPolicy [runtimeConfigPath]
        (runtimeEnv observabilityEnabled otelEndpoint env)
        [Build_VolumeMount "flow-config" runtimeConfigMountDir] ∅]
      [Build_Volume "flow-config" configMapName]
      "" [] None).

Definition runtimePodTemplate
    (flowName configMapName image imagePullPolicy configChecksum : string)
    (observabilityEnabled : bool) (otelEndpoint restartPolicy : string)
    (resources : option Resources) (options : option KubernetesOptions)
    (env : gmap string string) : PodTemplateSpec :=
  let template := template_literal flowName configMapName image imagePullPolicy
    configChecksum observabilityEnabled otelEndpoint restartPolicy env in
  let template := applyResourceIntent template resources in
  applyKubernetesOptions template options.

(** ** The desired objects *)

Definition flow_meta (name namespace flowName : string) : ObjectMeta :=
  Build_ObjectMeta name namespace {[flowLabelKey := flowName]} "".

(** [desired] of [applyDeployment]. *)
Definition desired_deployment (namespace flowName name configMapName image imagePullPolicy
    configChecksum : string) (observabilityEnabled : bool) (otelEndpoint : string)
    (resources : option Resources) (options : option KubernetesOptions)
    (env : gmap string string) : obj Deployments :=
  Build_Object (flow_meta name namespace flowName)
    (Build_DeploymentSpec (Some 1%Z) {[flowLabelKey := flowName]}
      (applyKubernetesOptions
        (applyResourceIntent
          (template_literal flowName configMapName image imagePullPolicy configChecksum
            observabilityEnabled otelEndpoint "" env) resources) options)) "".

(** [desired] of [applyDaemonSet]. *)
Definition desired_daemonset (namespace flowName name configMapName image imagePullPolicy
    configChecksum : string) (observabilityEnabled : bool) (otelEndpoint : string)
    (resources : option Resources) (options : option KubernetesOptions)
    (env : gmap string string) : obj DaemonSets :=
  Build_Object (flow_meta name namespace flowName)
    (Build_DaemonSetSpec {[flowLabelKey := flowName]}
      (applyKubernetesOptions
        (applyResourceIntent
          (template_literal flowName configMapName image imagePullPolicy configChecksum
            observabilityEnabled otelEndpoint "" env) resources) options)) "".

Definition job_template (spec : FlowSpec) (configMapName image imagePullPolicy
    configChecksum : string) (observabilityEnabled : bool) (otelEndpoint : string)
    (resources : option Resources) : PodTemplateSpec :=
  runtimePodTemplate (fs_Name spec) configMapName image imagePullPolicy configChecksum
    observabilityEnabled otelEndpoint (restartPolicyFromSpec (Some spec)) resources
    (FlowSpec_GetKubernetesOptions (Some spec)) (FlowSpec_GetEnv (Some spec)).

(** [desired] of [applyJob]. *)
Definition desired_job (namespace : string) (spec : FlowSpec) (configMapName image
    imagePullPolicy configChecksum : string) (observabilityEnabled : bool)
    (otelEndpoint : string) (resources : option Resources) : obj Jobs :=
  Build_Object (flow_meta (fs_Name spec) namespace (fs_Name spec))
    (Build_JobSpec (job_template spec configMapName image imagePullPolicy configChecksum
      observabilityEnabled otelEndpoint resources)) "".

(** [desired] of [applyCronJob], its optional fields included. *)
Definition desired_cronjob (namespace : string) (spec : FlowSpec) (configMapName image
    imagePullPolicy configChecksum : string) (observabilityEnabled : bool)
    (otelEndpoint : string) (resources : option Resources) (cron : KubernetesCronOptions) :
    obj CronJobs :=
  Build_Object (flow_meta (fs_Name spec) namespace (fs_Name spec))
    (Build_CronJobSpec (KubernetesCronOptions_GetSchedule (Some cron)) (cr_TimeZone cron)
      (cr_Suspend cron) (cr_StartingDeadlineSeconds cron)
      (if bool_decide (cr_ConcurrencyPolicy cron = CRON_CONCURRENCY_POLICY_UNSPECIFIED) then ""
       else cronConcurrencyPolicyFromSpec (cr_ConcurrencyPolicy cron))
      (cr_SuccessfulJobsHistoryLimit cron) (cr_FailedJobsHistoryLimit cron)
      (Build_JobSpec (job_template spec configMapName image imagePullPolicy configChecksum
        observabilityEnabled otelEndpoint resources))) "".
End Template.

(** ** Applying objects *)

(** A Go pair [(value, err)]. *)
Notation go_pair := (string * option GoError)%type.

Definition err_of (r : result unit) : option GoError :=
  match r with Ok _ => None | Err e => Some e end.

(** [current.Spec = desired.Spec; current.Labels = desired.Labels] *)
Definition take_desired {k} (desired current : obj k) : obj k :=
  Build_Object
    (Build_ObjectMeta (om_Name (o_Meta current)) (om_Namespace (o_Meta current))
      (om_Labels (o_Meta desired)) (om_Other (o_Meta current)))
    (o_Spec desired) (o_Status current).

(** The read, create-or-update sequence of the apply functions. *)
Definition create_or_update (k : kind) (namespace name : string) (desired : obj k) :
    prog kubeE (option GoError) :=
  current ← call (KGet k namespace name);
  match current with
  | Err e =>
      if IsNotFound e then err_of <$> call (KCreate k namespace desired)
      else Ret (Some e)
  | Ok current => err_of <$> call (KUpdate k namespace (take_desired desired current))
  end.

Section Apply.
Context `{GoRuntime} `{RuntimeEncoding}.

Definition applyConfigMap (namespace name : string) (spec : FlowSpec) : prog kubeE go_pair :=
  match spec_JSON spec with
  | Err e => Ret ("", Some (Wrapf "marshal flow spec: %w" [] e))
  | Ok payload =>
      match JSONToYAML payload with
      | Err e => Ret ("", Some (Wrapf "marshal flow spec as yaml: %w" [] e))
      | Ok yamlPayload =>
          let desired : obj ConfigMaps :=
            Build_Object (flow_meta name namespace (fs_Name spec))
              ({[runtimeConfigKey := yamlPayload]} : gmap string string) "" in
          err ← create_or_update ConfigMaps namespace name desired;
          Ret (sha256_hex yamlPayload, err)
      end
  end.

Definition applyDeployment (namespace flowName name configMapName image imagePullPolicy
    configChecksum : string) (observabilityEnabled : bool) (otelEndpoint : string)
    (resources : option Resources) (options : option KubernetesOptions)
    (env : gmap string string) : prog kubeE go_pair :=
  err ← create_or_update Deployments namespace name
    (desired_deployment namespace flowName name configMapName image imagePullPolicy
      configChecksum observabilityEnabled otelEndpoint resources options env);
  Ret (name, err).

Definition applyDaemonSet (namespace flowName name configMapName image imagePullPolicy
    configChecksum : string) (observabilityEnabled : bool) (otelEndpoint : string)
    (resources : option Resources) (options : option KubernetesOptions)
    (env : gmap string string) : prog kubeE go_pair :=
  err ← create_or_update DaemonSets namespace name
    (desired_daemonset namespace flowName name configMapName image imagePullPolicy
      configChecksum observabilityEnabled otelEndpoint resources options env);
  Ret (name, err).

(** A Job that exists is left as it is. *)
Definition applyJob (namespace : string) (spec : FlowSpec) (configMapName image
    imagePullPolicy configChecksum : string) (observabilityEnabled : bool)
    (otelEndpoint : string) (resources : option Resources) : prog kubeE go_pair :=
  let name := fs_Name spec in
  let desired := desired_job namespace spec configMapName image imagePullPolicy configChecksum
    observabilityEnabled otelEndpoint resources in
  current ← call (KGet Jobs namespace name);
  match current with
  | Err e =>
      if IsNotFound e then
        r ← call (KCreate Jobs namespace desired);
        Ret (name, err_of r)
      else Ret (name, Some e)
  | Ok _ => Ret (name, None)
  end.

Definition applyCronJob (namespace : string) (spec : FlowSpec) (configMapName image
    imagePullPolicy configChecksum : string) (observabilityEnabled : bool)
    (otelEndpoint : string) (resources : option Resources) (cron : KubernetesCronOptions) :
    prog kubeE go_pair :=
  err ← create_or_update CronJobs namespace (fs_Name spec)
    (desired_cronjob namespace spec configMapName image imagePullPolicy configChecksum
      observabilityEnabled otelEndpoint resources cron);
  Ret (fs_Name spec, err).

(** The image the spec asks for, "" if none. *)
Definition runtime_image (spec : FlowSpec) : string :=
  match fs_Kubernetes spec with
  | Some k => default "" (ks_Image k)
  | None => ""
  end.

Definition runtime_mode (spec : FlowSpec) : ExecutionMode :=
  match fs_Execution spec with
  | Some execution => ex_Mode execution
  | None => EXECUTION_MODE_STREAMING
  end.

Definition resource_intent (spec : FlowSpec) : option Resources :=
  fs_Kubernetes spec ≫= ks_Resources.

(** [options != nil && options.Cron != nil && options.Cron.Schedule != ""] *)
Definition cron_of (options : option KubernetesOptions) : option KubernetesCronOptions :=
  match options ≫= ko_Cron with
  | Some cron => if bool_decide (cr_Schedule cron = "") then None else Some cron
  | None => None
  end.

Definition wants_daemonset (options : option KubernetesOptions) : bool :=
  match options with
  | Some o => bool_decide (ko_StreamingWorkloadKind o = STREAMING_WORKLOAD_KIND_DAEMONSET)
  | None => false
  end.

(** [client] is whether the client is not nil. *)
Definition ensureRuntime (client : bool) (namespace : string) (spec : option FlowSpec)
    (imagePullPolicy : string) (observabilityEnabled : bool) (otelEndpoint : string) :
    prog kubeE go_pair :=
  if negb client then
    Ret ("", Some (Errorf "kubernetes client is required for runtime reconciliation" []))
  else match spec with
  | None => Ret ("", Some (Errorf "flow spec is required" []))
  | Some spec =>
      if bool_decide (fs_Name spec = "") then
        Ret ("", Some (Errorf "flow name is required" []))
      else
      let image := runtime_image spec in
      if bool_decide (image = "") then
        Ret ("", Some (Errorf "runtime image is required for flow %q" [AStr (fs_Name spec)]))
      else
      let configMapName := fs_Name spec +:+ "-config" in
      '(configChecksum, err) ← applyConfigMap namespace configMapName spec;
      match err with
      | Some e => Ret ("", Some e)
      | None =>
          let resourceIntent := resource_intent spec in
          let workloadName := fs_Name spec +:+ "-runtime" in
          let options := FlowSpec_GetKubernetesOptions (Some spec) in
          match runtime_mode spec with
          | EXECUTION_MODE_JOB =>
              match cron_of options with
              | Some cron =>
                  applyCronJob namespace spec configMapName image imagePullPolicy
                    configChecksum observabilityEnabled otelEndpoint resourceIntent cron
              | None =>
                  applyJob namespace spec configMapName image imagePullPolicy
                    configChecksum observabilityEnabled otelEndpoint resourceIntent
              end
          | EXECUTION_MODE_STREAMING =>
              if wants_daemonset options then
                applyDaemonSet namespace (fs_Name spec) workloadName configMapName image
                  imagePullPolicy configChecksum observabilityEnabled otelEndpoint
                  resourceIntent options (FlowSpec_GetEnv (Some spec))
              else
                applyDeployment namespace (fs_Name spec) workloadName configMapName image
                  imagePullPolicy configChecksum observabilityEnabled otelEndpoint
                  resourceIntent options (FlowSpec_GetEnv (Some spec))
          | _ =>
              applyDeployment namespace (fs_Name spec) workloadName configMapName image
                imagePullPolicy configChecksum observabilityEnabled otelEndpoint
                resourceIntent options (FlowSpec_GetEnv (Some spec))
          end
      end
  end.

(** One delete of [deleteRuntimeResources]: a missing object is no error. *)
Definition delete_resource (errs : list GoError) (k : kind) (namespace name format : string) :
    prog kubeE (list GoError) :=
  r ← call (KDelete k namespace name);
  match r with
  | Err e => if IsNotFound e then Ret errs
             else Ret (errs ++ [Wrapf format [AStr name] e])
  | Ok _ => Ret errs
  end.

Definition deleteRuntimeResources (client : bool) (namespace flowName : string) :
    prog kubeE (result unit) :=
  if negb client then
    Ret (Err (Errorf "kubernetes client is required for runtime deletion" []))
  else if bool_decide (flowName = "") then
    Ret (Err (Errorf "flow name is required for runtime deletion" []))
  else
    let deploymentName := flowName +:+ "-runtime" in
    let configMapName := flowName +:+ "-config" in
    errs ← delete_resource [] Deployments namespace deploymentName "delete deployment %q: %w";
    errs ← delete_resource errs DaemonSets namespace deploymentName "delete daemonset %q: %w";
    errs ← delete_resource errs Jobs namespace flowName "delete job %q: %w";
    errs ← delete_resource errs CronJobs namespace flowName "delete cronjob %q: %w";
    errs ← delete_resource errs ConfigMaps namespace configMapName "delete configmap %q: %w";
    match errs with
    | [] => Ret (Ok tt)
    | _ => Ret (Err (JoinErr errs))
    end.
End Apply.
