(* ===== verification/RuntimeProps.v ===== *)
(** * Properties of the runtime reconciliation

    The pod template a flow gets, the objects [ensureRuntime] creates,
    updates and leaves alone, and what [deleteRuntimeResources] removes. *)
From S2P Require Import Prelude GoStd GoStdFacts Prog Messages Kube Runtime.

(** ** The environment *)
Section Env.
Context `{GoRuntime}.

Lemma range_map_to_map {A} (m : gmap string A) : list_to_map (range_map m) = m.
Proof.
  rewrite <-(list_to_map_to_list m) at 2. apply list_to_map_proper.
  - rewrite (range_map_perm m). apply NoDup_fst_map_to_list.
  - apply range_map_perm.
Qed.

Lemma range_map_keys {A} (m : gmap string A) : NoDup (range_map m).*1.
Proof. rewrite (range_map_perm m). apply NoDup_fst_map_to_list. Qed.

Lemma range_map_elem {A} (m : gmap string A) k v : (k, v) ∈ range_map m ↔ m !! k = Some v.
Proof. rewrite (range_map_perm m). apply elem_of_map_to_list. Qed.

Lemma foldl_env (existing : gset string) (extra : gmap string string) keys env :
  foldl (λ env key, if bool_decide (key ∈ existing) then env
                    else env ++ [Build_EnvVar key (default "" (extra !! key))]) env keys =
  env ++ ((λ key, Build_EnvVar key (default "" (extra !! key))) <$>
            filter (λ key, key ∉ existing) keys).
Proof.
  revert env. induction keys as [|k keys IH]; intros env; [by rewrite app_nil_r|].
  cbn [foldl]. rewrite filter_cons. case_bool_decide as Hk.
  - rewrite decide_False by (by intros []). apply IH.
  - rewrite decide_True by done. rewrite IH, fmap_cons, <-app_assoc. done.
Qed.

Lemma base_env_names obs ep : NoDup (ev_Name <$> base_env obs ep).
Proof. apply (bool_decide_unpack _). by destruct obs. Qed.

Lemma runtimeEnv_app obs ep extra :
  ∃ keys, runtimeEnv obs ep extra = base_env obs ep ++
      ((λ key, Build_EnvVar key (default "" (extra !! key))) <$> keys) ∧
    NoDup keys ∧ sorted_by string_less keys ∧
    ∀ key, key ∈ keys ↔ key ∉ ev_Name <$> base_env obs ep ∧ is_Some (extra !! key).
Proof.
  unfold runtimeEnv. case_decide as Hsize.
  - exists []. rewrite app_nil_r. split_and!; [done|constructor|constructor|].
    intros key. rewrite (map_size_empty_inv _ Hsize), lookup_empty.
    split; [by intros ?%elem_of_nil|intros [_ []]; done].
  - exists (filter (λ key, key ∉@{gset string} list_to_set (ev_Name <$> base_env obs ep))
      (sort_Strings (range_map extra).*1)).
    split_and!.
    + apply foldl_env.
    + apply NoDup_filter. unfold sort_Strings. rewrite sort_slice_perm. apply range_map_keys.
    + pose proof (sort_slice_sorted string_less (range_map extra).*1 string_less_strict_weak) as Hs.
      fold (sort_Strings (range_map extra).*1) in Hs.
      induction Hs as [|k l Hs IH Hall]; [constructor|]. rewrite filter_cons.
      case_decide; [|done]. constructor; [done|].
      rewrite Forall_forall in Hall |- *. intros x [_ Hx]%list_elem_of_filter. by apply Hall.
    + intros key. rewrite list_elem_of_filter, elem_of_list_to_set. unfold sort_Strings.
      rewrite (sort_slice_perm string_less). apply and_iff_compat_l. split.
      * intros ([k v] & -> & Hin)%list_elem_of_fmap. exists v. by apply range_map_elem.
      * intros [v Hv]. apply list_elem_of_fmap. exists (key, v). split; [done|].
        by apply range_map_elem.
Qed.

(** ** Labels and annotations *)

Lemma copy_except_lookup reserved user target k :
  copy_except reserved user target !! k =
    if decide (k = reserved) then target !! k
    else match user !! k with Some v => Some v | None => target !! k end.
Proof.
  unfold copy_except.
  replace (user !! k) with ((list_to_map (range_map user) : gmap string string) !! k)
    by (by rewrite range_map_to_map).
  pose proof (range_map_keys user) as Hnd. revert target Hnd.
  induction (range_map user) as [|[x v] l IH]; intros target Hnd; cbn.
  - rewrite lookup_empty. by case_decide.
  - cbn in Hnd. apply NoDup_cons in Hnd as [Hx Hnd]. rewrite IH by done.
    case_bool_decide as Hr; subst.
    + case_decide; [done|]. by rewrite lookup_insert_ne.
    + case_decide as Hk; [by rewrite lookup_insert_ne by naive_solver|].
      destruct (decide (x = k)) as [<-|Hne].
      * rewrite !lookup_insert_eq. by rewrite not_elem_of_list_to_map_1.
      * by rewrite !lookup_insert_ne.
Qed.

Lemma options_labels t o k :
  pt_Labels (applyKubernetesOptions t (Some o)) !! k =
    if decide (k = flowLabelKey) then pt_Labels t !! k
    else match ko_PodLabels o !! k with Some v => Some v | None => pt_Labels t !! k end.
Proof.
  cbn. case_decide as Hs; [apply copy_except_lookup|].
  assert (ko_PodLabels o = ∅) as -> by (apply map_size_empty_inv; lia).
  rewrite lookup_empty. by case_decide.
Qed.

Lemma options_annotations t o k :
  pt_Annotations (applyKubernetesOptions t (Some o)) !! k =
    if decide (k = runtimeConfigHashKey) then pt_Annotations t !! k
    else match ko_PodAnnotations o !! k with
         | Some v => Some v | None => pt_Annotations t !! k end.
Proof.
  cbn. case_decide as Hs; [apply copy_except_lookup|].
  assert (ko_PodAnnotations o = ∅) as -> by (apply map_size_empty_inv; lia).
  rewrite lookup_empty. by case_decide.
Qed.

Lemma intent_labels t r : pt_Labels (applyResourceIntent t r) = pt_Labels t.
Proof. by destruct r. Qed.

Lemma intent_annotations t r k :
  pt_Annotations (applyResourceIntent t r) !! k =
    match r ≫= re_Profile with
    | Some p => if decide (p = "") then pt_Annotations t !! k
                else if decide (k = resourceProfileKey) then Some p else pt_Annotations t !! k
    | None => pt_Annotations t !! k
    end.
Proof.
  destruct r as [r|]; [|done]. cbn. destruct (re_Profile r) as [p|]; [|done].
  case_bool_decide; case_decide; try done. case_decide as Hk.
  - subst. apply lookup_insert_eq.
  - by apply lookup_insert_ne.
Qed.

Lemma set_requests_empty m c :
  ct_Requests c = ∅ → ct_Requests (set_requests m c) = m.
Proof.
  intros Hc. unfold set_requests. cbn. rewrite Hc.
  transitivity (list_to_map (range_map m) : gmap string Z); [|apply range_map_to_map].
  pose proof (range_map_keys m) as Hnd. revert Hnd. generalize (range_map m). intros l.
  enough (∀ acc, NoDup l.*1 → foldl (λ m kv, <[kv.1:=kv.2]> m) acc l = (list_to_map l : gmap string Z) ∪ acc) as He.
  { intros Hnd. rewrite He by done. apply map_union_empty. }
  induction l as [|[k v] l IH]; intros acc Hnd; cbn.
  - by rewrite map_empty_union.
  - cbn in Hnd. apply NoDup_cons in Hnd as [Hk Hnd]. rewrite IH by done.
    rewrite <-insert_union_r by by apply not_elem_of_list_to_map_1.
    by rewrite insert_union_l.
Qed.
End Env.

(** ** The objects of a flow *)

Definition kkey : Type := (kind * (string * string))%type.

Definition config_key (ns name : string) : kkey := (ConfigMaps, (ns, name +:+ "-config")).

(** The kind and name of the workload a spec is run by. *)
Definition workload_kind (spec : FlowSpec) : kind :=
  match runtime_mode spec with
  | EXECUTION_MODE_JOB =>
      match cron_of (fs_KubernetesOptions spec) with Some _ => CronJobs | None => Jobs end
  | EXECUTION_MODE_STREAMING =>
      if wants_daemonset (fs_KubernetesOptions spec) then DaemonSets else Deployments
  | _ => Deployments
  end.

Definition workload_name (k : kind) (name : string) : string :=
  match k with
  | Jobs | CronJobs => name
  | ConfigMaps => name +:+ "-config"
  | _ => name +:+ "-runtime"
  end.

Definition object_key (ns name : string) (k : kind) : kkey := (k, (ns, workload_name k name)).

Definition all_kinds : list kind := [Deployments; DaemonSets; Jobs; CronJobs; ConfigMaps].

(** Every object that can belong to a flow. *)
Definition flow_objects (ns name : string) : list kkey := object_key ns name <$> all_kinds.

Definition unchanged_but (keys : list kkey) (c d : cluster) : Prop :=
  ∀ k i, (k, i) ∉ keys → d k !! i = c k !! i.

#[export] Instance same_cluster_equivalence : Equivalence same_cluster.
Proof. split; [by intros ? ?|intros ? ? E k; by rewrite E|intros ? ? ? E F k; by rewrite E, F]. Qed.

#[export] Instance cl_insert_proper k i o :
  Proper (same_cluster ==> same_cluster) (cl_insert k i o).
Proof.
  intros c d E k'. unfold cl_insert. destruct (decide (k = k')); [by rewrite E|apply E].
Qed.

#[export] Instance cl_delete_proper k i :
  Proper (same_cluster ==> same_cluster) (cl_delete k i).
Proof.
  intros c d E k'. unfold cl_delete. destruct (decide (k = k')); [by rewrite E|apply E].
Qed.

#[export] Instance unchanged_but_proper keys :
  Proper (same_cluster ==> same_cluster ==> iff) (unchanged_but keys).
Proof.
  intros c d E c' d' E'. unfold unchanged_but. split; intros Hu k i Hi.
  - rewrite <-E, <-E'. by apply Hu.
  - rewrite E, E'. by apply Hu.
Qed.

Lemma unchanged_but_refl keys c : unchanged_but keys c c.
Proof. done. Qed.

Lemma unchanged_but_trans keys c d e :
  unchanged_but keys c d → unchanged_but keys d e → unchanged_but keys c e.
Proof. intros Hcd Hde k i Hi. by rewrite Hde, Hcd. Qed.

Lemma unchanged_but_weaken keys keys' c d :
  keys ⊆ keys' → unchanged_but keys c d → unchanged_but keys' c d.
Proof. intros Hs Hu k i Hi. apply Hu. set_solver. Qed.

Lemma insert_unchanged k i o c : unchanged_but [(k, i)] c (cl_insert k i o c).
Proof.
  intros k' j Hj. apply cl_insert_ne. intros E. apply Hj. rewrite E. by left.
Qed.

Lemma delete_unchanged k i c : unchanged_but [(k, i)] c (cl_delete k i c).
Proof.
  intros k' j Hj. apply cl_delete_ne. intros E. apply Hj. rewrite E. by left.
Qed.

Lemma object_key_inj ns a b k k' :
  object_key ns a k = object_key ns b k' → k = k' ∧ a = b.
Proof.
  unfold object_key. intros E. injection E as -> E. split; [done|].
  destruct k'; cbn in E; by first [done|apply append_inj_r in E].
Qed.

(** ** Applying one object *)
Section Apply.
Context {S : Type} `{KubeService S}.

(** The object is stored as the server admits it, with the labels and the
    spec asked for. *)
Definition applied (k : kind) (i : string * string) (d : obj k) (c : cluster) : Prop :=
  ∃ o, c k !! i = Some (admitted_as k o) ∧ o_Spec o = o_Spec d ∧
    om_Labels (o_Meta o) = om_Labels (o_Meta d).

#[export] Instance applied_proper k i d : Proper (same_cluster ==> iff) (applied k i d).
Proof. intros c c' E. unfold applied. split; intros (o & Ho); exists o; [rewrite <-E|rewrite E]; done. Qed.

Lemma applied_insert k i (d o : obj k) c :
  o_Spec o = o_Spec d → om_Labels (o_Meta o) = om_Labels (o_Meta d) →
  applied k i d (cl_insert k i (admitted_as k o) c).
Proof. intros Hs Hl. exists o. split; [apply cl_insert_eq|done]. Qed.

Lemma applied_unchanged k i d keys c c' :
  unchanged_but keys c c' → (k, i) ∉ keys → applied k i d c → applied k i d c'.
Proof. intros Hu Hi (o & Ho & ?). exists o. by rewrite Hu. Qed.

Lemma wp_err_of (p : prog kubeE (result unit)) s Φ :
  wp kube_exec p s (λ r s', Φ (err_of r) s') → wp kube_exec (err_of <$> p) s Φ.
Proof. intros Hw. by apply wp_bind. Qed.

Lemma wp_create_or_update k ns name d s (Φ : option GoError → S → Prop) :
  om_Name (o_Meta d) = name →
  (∀ err s', unchanged_but [(k, (ns, name))] (objects s) (objects s') →
     (err = None → applied k (ns, name) d (objects s')) → Φ err s') →
  wp kube_exec (create_or_update k ns name d) s Φ.
Proof.
  intros Hname HΦ. unfold create_or_update. apply wp_bind, wp_KGet.
  - intros cur s1 Hs1 Hcur. pose proof (stored_name _ _ _ _ _ Hcur) as Hn.
    apply wp_err_of, wp_KUpdate; cbn [take_desired o_Meta om_Name]; rewrite Hn.
    + intros s' Hs'. rewrite Hs1 in Hs'. apply HΦ.
      * rewrite Hs'. apply insert_unchanged.
      * intros _. rewrite Hs'. by apply applied_insert.
    + intros e s' Hs'. rewrite Hs1 in Hs'. apply HΦ; [|done]. destruct Hs' as [->| ->];
        [apply unchanged_but_refl|apply insert_unchanged].
  - intros e s1 Hs1 _. destruct (IsNotFound e).
    + apply wp_err_of, wp_KCreate; rewrite Hname.
      * intros s' _ Hs'. rewrite Hs1 in Hs'. apply HΦ.
        { rewrite Hs'. apply insert_unchanged. }
        intros _. rewrite Hs'. by apply applied_insert.
      * intros e' s' Hs'. rewrite Hs1 in Hs'. apply HΦ; [|done]. destruct Hs' as [->| ->];
          [apply unchanged_but_refl|apply insert_unchanged].
    + apply wp_ret, HΦ; [|done]. rewrite Hs1. apply unchanged_but_refl.
Qed.
End Apply.

(** ** Applying a flow *)
Section Ensure.
Context `{GoRuntime} `{RuntimeEncoding} {S : Type} `{KubeService S}.

Definition desired_config (ns : string) (spec : FlowSpec) (yaml : string) : obj ConfigMaps :=
  Build_Object (flow_meta (fs_Name spec +:+ "-config") ns (fs_Name spec))
    ({[runtimeConfigKey := yaml]} : gmap string string) "".

(** The workload that runs the spec is stored, as asked for. *)
Definition workload_runs (ns : string) (spec : FlowSpec) (pull checksum : string)
    (obs : bool) (ep : string) (c' : cluster) : Prop :=
  let name := fs_Name spec in
  let cm := name +:+ "-config" in
  let image := runtime_image spec in
  let options := fs_KubernetesOptions spec in
  match workload_kind spec with
  | Deployments =>
      applied Deployments (ns, name +:+ "-runtime")
        (desired_deployment ns name (name +:+ "-runtime") cm image pull checksum obs ep
          (resource_intent spec) options (fs_Env spec)) c'
  | DaemonSets =>
      applied DaemonSets (ns, name +:+ "-runtime")
        (desired_daemonset ns name (name +:+ "-runtime") cm image pull checksum obs ep
          (resource_intent spec) options (fs_Env spec)) c'
  | Jobs =>
      applied Jobs (ns, name)
        (desired_job ns spec cm image pull checksum obs ep (resource_intent spec)) c'
  | CronJobs =>
      ∃ cron, cron_of options = Some cron ∧
        applied CronJobs (ns, name)
          (desired_cronjob ns spec cm image pull checksum obs ep (resource_intent spec) cron) c'
  | ConfigMaps => False
  end.

(** The exception: a job flow whose Job exists already.  Nothing replaces or
    updates that Job. *)
Definition job_kept (ns : string) (spec : FlowSpec) (c : cluster) : Prop :=
  workload_kind spec = Jobs ∧ is_Some (c Jobs !! (ns, fs_Name spec)).

#[export] Instance job_kept_dec ns spec c : Decision (job_kept ns spec c).
Proof. unfold job_kept. apply _. Defined.

(** What became of the workload: it is the one asked for, or the Job that
    was there is there unchanged. *)
Definition workload_applied (ns : string) (spec : FlowSpec) (pull checksum : string)
    (obs : bool) (ep : string) (c c' : cluster) : Prop :=
  (¬ job_kept ns spec c → workload_runs ns spec pull checksum obs ep c') ∧
  (job_kept ns spec c → c' Jobs !! (ns, fs_Name spec) = c Jobs !! (ns, fs_Name spec)).

Definition ensured (ns : string) (spec : FlowSpec) (pull : string) (obs : bool) (ep : string)
    (c c' : cluster) : Prop :=
  ∃ json yaml, spec_JSON spec = Ok json ∧ JSONToYAML json = Ok yaml ∧
    applied ConfigMaps (ns, fs_Name spec +:+ "-config") (desired_config ns spec yaml) c' ∧
    workload_applied ns spec pull (sha256_hex yaml) obs ep c c'.

Definition touched (ns : string) (spec : FlowSpec) : list kkey :=
  [config_key ns (fs_Name spec); object_key ns (fs_Name spec) (workload_kind spec)].

Lemma wp_applyConfigMap ns spec s Φ :
  (∀ r s', unchanged_but [config_key ns (fs_Name spec)] (objects s) (objects s') →
    (r.2 = None → ∃ json yaml, spec_JSON spec = Ok json ∧ JSONToYAML json = Ok yaml ∧
      r.1 = sha256_hex yaml ∧
      applied ConfigMaps (ns, fs_Name spec +:+ "-config") (desired_config ns spec yaml)
        (objects s')) → Φ r s') →
  wp kube_exec (applyConfigMap ns (fs_Name spec +:+ "-config") spec) s Φ.
Proof.
  intros HΦ. unfold applyConfigMap.
  destruct (spec_JSON spec) as [json|e] eqn:Hj; [|by apply wp_ret, HΦ].
  destruct (JSONToYAML json) as [yaml|e] eqn:Hy; [|by apply wp_ret, HΦ].
  apply wp_bind, wp_create_or_update; [done|]. intros err s' Hu Ha.
  apply wp_ret, HΦ; [done|]. cbn. intros ->. eauto 10.
Qed.

Lemma wp_applyJob ns spec cm image pull checksum obs ep res s (Φ : go_pair → S → Prop) :
  let d := desired_job ns spec cm image pull checksum obs ep res in
  let i := (ns, fs_Name spec) in
  (∀ err s', unchanged_but [(Jobs, i)] (objects s) (objects s') →
    (err = None → match objects s Jobs !! i with
                  | Some o => objects s' Jobs !! i = Some o
                  | None => applied Jobs i d (objects s')
                  end) → Φ (fs_Name spec, err) s') →
  wp kube_exec (applyJob ns spec cm image pull checksum obs ep res) s Φ.
Proof.
  intros d i HΦ. unfold applyJob. apply wp_bind, wp_KGet.
  - intros o s1 Hs1 Ho. apply wp_ret, HΦ; [rewrite Hs1; apply unchanged_but_refl|].
    intros _. fold i in Ho. rewrite Ho. by rewrite (Hs1 Jobs).
  - intros e s1 Hs1 Hnf. destruct (IsNotFound e).
    + fold i in Hnf. specialize (Hnf eq_refl).
      apply wp_bind, wp_KCreate; fold d; cbn [o_Meta om_Name d desired_job flow_meta]; fold i.
      * intros s' _ Hs'. rewrite Hs1 in Hs'. apply wp_ret, HΦ.
        { rewrite Hs'. apply insert_unchanged. }
        intros _. rewrite Hnf, Hs'. by apply applied_insert.
      * intros e' s' Hs'. rewrite Hs1 in Hs'. apply wp_ret, HΦ; [|done]. destruct Hs' as [->| ->];
          [apply unchanged_but_refl|apply insert_unchanged].
    + apply wp_ret, HΦ; [|done]. rewrite Hs1. apply unchanged_but_refl.
Qed.

(** The three workloads that are created or updated. *)
Lemma wp_apply_workload k ns name (d : obj k) s (Φ : go_pair → S → Prop) :
  om_Name (o_Meta d) = name →
  (∀ err s', unchanged_but [(k, (ns, name))] (objects s) (objects s') →
     (err = None → applied k (ns, name) d (objects s')) → Φ (name, err) s') →
  wp kube_exec (err ← create_or_update k ns name d; Ret (name, err)) s Φ.
Proof.
  intros Hn HΦ. apply wp_bind, wp_create_or_update; [done|]. intros err s' Hu Ha.
  by apply wp_ret, HΦ.
Qed.

Lemma wp_ensureRuntime ns spec pull obs ep s (Φ : go_pair → S → Prop) :
  (∀ r s', unchanged_but (touched ns spec) (objects s) (objects s') →
    (r.2 = None → r.1 = workload_name (workload_kind spec) (fs_Name spec) ∧
      fs_Name spec ≠ "" ∧ runtime_image spec ≠ "" ∧
      ensured ns spec pull obs ep (objects s) (objects s')) → Φ r s') →
  wp kube_exec (ensureRuntime true ns (Some spec) pull obs ep) s Φ.
Proof.
  intros HΦ. unfold ensureRuntime. cbn [negb].
  case_bool_decide as Hname; [by apply wp_ret, HΦ|].
  case_bool_decide as Himage; [by apply wp_ret, HΦ|].
  apply wp_bind, wp_applyConfigMap. intros [checksum err] s1 Hu1 Hcm.
  pose proof Hu1 as Hu0. apply (unchanged_but_weaken _ (touched ns spec)) in Hu1; [|set_solver].
  destruct err as [e|]; [by apply wp_ret, HΦ|].
  destruct (Hcm eq_refl) as (json & yaml & Hj & Hy & Hsum & Ha1). cbn in Hsum. subst checksum.
  assert (∀ err s', unchanged_but [object_key ns (fs_Name spec) (workload_kind spec)]
      (objects s1) (objects s') →
    (err = None → workload_applied ns spec pull (sha256_hex yaml) obs ep (objects s) (objects s')) →
    Φ (workload_name (workload_kind spec) (fs_Name spec), err) s') as Hdone.
  { intros err s' Hu2 Hw. apply HΦ.
    - eapply unchanged_but_trans; [exact Hu1|].
      eapply unchanged_but_weaken; [|exact Hu2]. set_solver.
    - cbn. intros He. split_and!; [done..|]. exists json, yaml. split_and!; [done..| |by apply Hw].
      eapply applied_unchanged; [exact Hu2| |exact Ha1].
      intros E%list_elem_of_singleton. unfold object_key, workload_kind in E.
      repeat case_match; done. }
  cbn [FlowSpec_GetKubernetesOptions FlowSpec_GetEnv].
  unfold workload_applied, job_kept, workload_runs, object_key, workload_kind in Hdone.
  destruct (runtime_mode spec) eqn:Hmode; cbn [workload_name] in Hdone.
  - apply wp_apply_workload; [done|]. intros. apply Hdone; [done|]. intros; split; [auto|by intros []].
  - destruct (wants_daemonset _); (apply wp_apply_workload; [done|]; intros; apply Hdone; [done|];
      intros; split; [auto|by intros []]).
  - destruct (cron_of _) as [cron|] eqn:Hcron; cbn [workload_name] in Hdone.
    + apply wp_apply_workload; [done|]. intros err s' Hu2 Ha. apply Hdone; [done|].
      intros He. split; [eauto|by intros []].
    + apply wp_applyJob. intros err s' Hu2 Ha. apply Hdone; [done|]. intros He.
      specialize (Ha He). assert (objects s1 Jobs !! (ns, fs_Name spec) =
        objects s Jobs !! (ns, fs_Name spec)) as Hjob.
      { apply Hu0. intros E%list_elem_of_singleton. done. }
      rewrite Hjob in Ha. destruct (objects s Jobs !! (ns, fs_Name spec)) as [o|]; split;
        [by intros []|done|done|by intros [_ []]].
  - apply wp_apply_workload; [done|]. intros. apply Hdone; [done|]. intros; split; [auto|by intros []].
Qed.

(** ** Deleting a flow's objects *)

Lemma wp_delete_resource errs k ns name format s (Φ : list GoError → S → Prop) :
  (∀ s', unchanged_but [(k, (ns, name))] (objects s) (objects s') →
     objects s' k !! (ns, name) = None → Φ errs s') →
  (∀ e s', unchanged_but [(k, (ns, name))] (objects s) (objects s') →
     IsNotFound e = false → Φ (errs ++ [Wrapf format [AStr name] e]) s') →
  wp kube_exec (delete_resource errs k ns name format) s Φ.
Proof.
  intros Hgone Herr. unfold delete_resource. apply wp_bind, wp_KDelete.
  - intros s' Hs'. apply wp_ret, Hgone; [rewrite Hs'; apply delete_unchanged|].
    rewrite (Hs' k). apply cl_delete_eq.
  - intros e s' Hs'. destruct (IsNotFound e) eqn:He; apply wp_ret.
    + destruct Hs' as [Hs'|[Hs' Hn]]; apply Hgone.
      * rewrite Hs'. apply delete_unchanged.
      * rewrite (Hs' k). apply cl_delete_eq.
      * rewrite Hs'. apply unchanged_but_refl.
      * rewrite (Hs' k). by apply Hn.
    + apply Herr; [|done]. destruct Hs' as [->|[-> _]];
        [apply delete_unchanged|apply unchanged_but_refl].
Qed.

Definition real_failure (e : GoError) : Prop :=
  ∃ format name cause, e = Wrapf format [AStr name] cause ∧ IsNotFound cause = false.

(** After deleting the objects of the kinds [ks]. *)
Definition swept (ns name : string) (ks : list kind) (errs : list GoError)
    (c c' : cluster) : Prop :=
  unchanged_but (object_key ns name <$> ks) c c' ∧
  (errs = [] → Forall (λ k, c' k !! (ns, workload_name k name) = None) ks) ∧
  Forall real_failure errs.

Lemma wp_sweep ns name ks errs k format s0 s (Φ : list GoError → S → Prop) :
  swept ns name ks errs (objects s0) (objects s) → k ∉ ks →
  (∀ errs s', swept ns name (ks ++ [k]) errs (objects s0) (objects s') → Φ errs s') →
  wp kube_exec (delete_resource errs k ns (workload_name k name) format) s Φ.
Proof.
  intros (Hu & Hg & Hf) Hk HΦ.
  assert (∀ s', unchanged_but [(k, (ns, workload_name k name))] (objects s) (objects s') →
    unchanged_but (object_key ns name <$> ks ++ [k]) (objects s0) (objects s')) as Hchain.
  { intros s' Hu'. rewrite fmap_app. eapply unchanged_but_trans;
      (eapply unchanged_but_weaken; [|eassumption]); set_solver. }
  apply wp_delete_resource.
  - intros s' Hu' Hgone. apply HΦ. split_and!; [by apply Hchain| |done].
    intros He. apply Forall_app. split; [|by constructor].
    eapply Forall_impl; [by apply Hg|]. cbn. intros k' Hk'.
    destruct (decide (k' = k)) as [->|Hne]; [done|]. rewrite Hu'; [done|].
    intros E%list_elem_of_singleton. by injection E as ->.
  - intros e s' Hu' He. apply HΦ. split_and!; [by apply Hchain|by destruct errs|].
    apply Forall_app. split; [done|]. constructor; [|done]. red. eauto.
Qed.

Lemma wp_deleteRuntimeResources ns name s (Φ : result unit → S → Prop) :
  name ≠ "" →
  (∀ r s', unchanged_but (flow_objects ns name) (objects s) (objects s') →
     (match r with
      | Ok _ => Forall (λ k, objects s' k !! (ns, workload_name k name) = None) all_kinds
      | Err e => ∃ errs, e = JoinErr errs ∧ errs ≠ [] ∧ Forall real_failure errs
      end) → Φ r s') →
  wp kube_exec (deleteRuntimeResources true ns name) s Φ.
Proof.
  intros Hname HΦ. unfold deleteRuntimeResources. cbn [negb].
  rewrite bool_decide_eq_false_2 by done.
  assert (swept ns name [] [] (objects s) (objects s)) as Hs0 by (by split_and!).
  apply wp_bind. change (name +:+ "-runtime") with (workload_name Deployments name) at 1.
  apply (wp_sweep _ _ _ _ _ _ _ _ _ Hs0); [set_solver|]. intros e1 s1 Hs1.
  apply wp_bind. change (name +:+ "-runtime") with (workload_name DaemonSets name).
  apply (wp_sweep _ _ _ _ _ _ _ _ _ Hs1); [set_solver|]. intros e2 s2 Hs2.
  apply wp_bind. change name with (workload_name Jobs name) at 1.
  apply (wp_sweep _ _ _ _ _ _ _ _ _ Hs2); [set_solver|]. intros e3 s3 Hs3.
  apply wp_bind. change name with (workload_name CronJobs name) at 1.
  apply (wp_sweep _ _ _ _ _ _ _ _ _ Hs3); [set_solver|]. intros e4 s4 Hs4.
  apply wp_bind. change (name +:+ "-config") with (workload_name ConfigMaps name).
  apply (wp_sweep _ _ _ _ _ _ _ _ _ Hs4); [set_solver|]. intros e5 s5 (Hu & Hg & Hf).
  destruct e5 as [|e errs]; apply wp_ret, HΦ; [done|by apply Hg|done|by exists (e :: errs)].
Qed.

Lemma trace_delete_resource errs k ns name format s :
  trace kube_exec (delete_resource errs k ns name format) s =
    [existT _ (KDelete k ns name)].
Proof.
  unfold delete_resource, call. cbn. f_equal. destruct (kube_exec _ _ _) as [[]]; cbn; [done|].
  by destruct (IsNotFound e).
Qed.

(** The error a delete is reported with. *)
Definition delete_format (k : kind) : string :=
  match k with
  | Deployments => "delete deployment %q: %w"
  | DaemonSets => "delete daemonset %q: %w"
  | Jobs => "delete job %q: %w"
  | CronJobs => "delete cronjob %q: %w"
  | ConfigMaps => "delete configmap %q: %w"
  end.

(** The failure of a call with its answer: a delete that was not done, for
    another reason than that the object is not there. *)
Definition delete_failure (x : {X & (kubeE X * X)%type}) : option GoError :=
  match x with
  | existT X (e, r) =>
      match e in kubeE Y return Y → option GoError with
      | KDelete k ns name => λ r,
          match r with
          | Err err => if IsNotFound err then None
                       else Some (Wrapf (delete_format k) [AStr name] err)
          | Ok _ => None
          end
      | _ => λ _, None
      end r
  end.

Definition delete_failures (l : list {X & (kubeE X * X)%type}) : list GoError :=
  omap delete_failure l.

Lemma delete_resource_failures errs k ns name s :
  (run kube_exec (delete_resource errs k ns name (delete_format k)) s).1 =
    errs ++ delete_failures (history kube_exec
      (delete_resource errs k ns name (delete_format k)) s).
Proof.
  unfold delete_resource, delete_failures, call. cbn.
  destruct (kube_exec _ _ _) as [[u|e] s']; cbn; [by rewrite app_nil_r|].
  destruct (IsNotFound e); cbn; [by rewrite app_nil_r|done].
Qed.

Lemma delete_failures_app l l' : delete_failures (l ++ l') = delete_failures l ++ delete_failures l'.
Proof. apply omap_app. Qed.

(** A program that collects failures into [errs] and answers [f] of them. *)
Definition answers_failures {B} (f : list GoError → B) (p : prog kubeE B) (errs : list GoError)
    (s : S) : Prop :=
  (run kube_exec p s).1 = f (errs ++ delete_failures (history kube_exec p s)).

Lemma delete_then {B} (f : list GoError → B) errs k ns name s (rest : list GoError → prog kubeE B) :
  (∀ errs' s', answers_failures f (rest errs') errs' s') →
  answers_failures f (delete_resource errs k ns name (delete_format k) ≫= rest) errs s.
Proof.
  intros Hrest. unfold answers_failures. rewrite run_bind, history_bind, delete_failures_app.
  by rewrite Hrest, delete_resource_failures, app_assoc.
Qed.

(** What [deleteRuntimeResources] reports is all the failures, in order. *)
Lemma deleteRuntimeResources_failures ns name s :
  name ≠ "" →
  answers_failures (λ errs, match errs with [] => Ok tt | _ => Err (JoinErr errs) end)
    (deleteRuntimeResources true ns name) [] s.
Proof.
  intros Hname. unfold deleteRuntimeResources. cbn [negb]. rewrite bool_decide_eq_false_2 by done.
  apply (delete_then _ _ Deployments). intros errs1 s1.
  apply (delete_then _ _ DaemonSets). intros errs2 s2.
  apply (delete_then _ _ Jobs). intros errs3 s3.
  apply (delete_then _ _ CronJobs). intros errs4 s4.
  apply (delete_then _ _ ConfigMaps). intros errs5 s5.
  unfold answers_failures. destruct errs5; cbn; [done|]. by rewrite app_nil_r.
Qed.
End Ensure.

(** ** A cluster that answers *)

Record kube_available {S} `{KubeService S} (P : S → Prop) : Prop := {
  kube_step : ∀ X (e : kubeE X) s, P s → P (kube_exec X e s).2;
  kube_KGet : ∀ k ns n s, P s →
    match (kube_exec _ (KGet k ns n) s).1 with Ok _ => True | Err e => IsNotFound e = true end;
  kube_KCreate : ∀ k ns o s, P s → objects s k !! (ns, om_Name (o_Meta o)) = None →
    is_ok (kube_exec _ (KCreate k ns o) s).1 = true;
  kube_KUpdate : ∀ k ns o s, P s → is_Some (objects s k !! (ns, om_Name (o_Meta o))) →
    is_ok (kube_exec _ (KUpdate k ns o) s).1 = true;
  kube_KDelete : ∀ k ns n s, P s →
    match (kube_exec _ (KDelete k ns n) s).1 with Ok _ => True | Err e => IsNotFound e = true end;
}.

Lemma mem_kube_available : kube_available (λ s, MemKube.m_failures s = []).
Proof.
  split.
  - intros X e s Hs. destruct s as [a b c d f l]. cbn in Hs. subst.
    destruct e as [k ? ?|k ? ?|k ? ?|k ? ?]; destruct k; cbn; repeat case_match; done.
  - intros k ns n s Hs. destruct s. cbn in Hs. subst. cbn. by destruct (MemKube.content _ k !! (ns, n)).
  - intros k ns o s Hs Hn. destruct s. cbn in Hs. subst. cbn in Hn |- *.
    match goal with |- context [match ?x with _ => _ end] =>
      replace x with (@None (obj k)) by (symmetry; exact Hn) end. done.
  - intros k ns o s Hs [o' Hn]. destruct s. cbn in Hs. subst. cbn in Hn |- *.
    match goal with |- context [match ?x with _ => _ end] =>
      replace x with (Some o') by (symmetry; exact Hn) end. done.
  - intros k ns n s Hs. destruct s. cbn in Hs. subst. cbn.
    by destruct (MemKube.content _ k !! (ns, n)).
Qed.

Section Available.
Context {S : Type} `{KubeService S} (P : S → Prop) (HP : kube_available P).

(** A read on an available cluster tells whether the object is there. *)
Lemma wp_KGet_available k ns n s (Φ : result (obj k) → S → Prop) :
  P s →
  (∀ o s', P s' → same_cluster (objects s') (objects s) → objects s k !! (ns, n) = Some o →
     Φ (Ok o) s') →
  (∀ e s', P s' → same_cluster (objects s') (objects s) → IsNotFound e = true →
     objects s k !! (ns, n) = None → Φ (Err e) s') →
  wp kube_exec (call (KGet k ns n)) s Φ.
Proof using All.
  intros Hs Hok Herr. apply wp_call. intros r s' Hx.
  pose proof (kube_step P HP _ (KGet k ns n) s Hs) as Hs'.
  pose proof (kube_KGet P HP k ns n s Hs) as Hr. rewrite Hx in Hs', Hr. cbn in Hs', Hr.
  destruct (KGet_spec _ _ _ _ _ _ Hx) as [Hc Hl]. destruct r as [o|e]; [by apply Hok|].
  apply Herr; auto.
Qed.

Lemma wp_create_or_update_available k ns name d s :
  P s → om_Name (o_Meta d) = name →
  wp kube_exec (create_or_update k ns name d) s (λ err s', err = None ∧ P s').
Proof using All.
  intros Hs Hn. unfold create_or_update. apply wp_bind, wp_KGet_available; [done|..].
  - intros cur s1 HP1 Hs1 Hcur. apply wp_err_of, wp_call. intros r s' Hx.
    set (o := take_desired d cur) in *.
    assert (is_Some (objects s1 k !! (ns, om_Name (o_Meta o)))) as Hsome.
    { rewrite (Hs1 k). cbn. rewrite (stored_name _ _ _ _ _ Hcur). by eexists. }
    pose proof (kube_step P HP _ (KUpdate k ns o) s1 HP1) as HP'.
    pose proof (kube_KUpdate P HP k ns o s1 HP1 Hsome) as Hr. rewrite Hx in HP', Hr.
    by destruct r.
  - intros e s1 HP1 Hs1 -> Hnone. apply wp_err_of, wp_call. intros r s' Hx.
    assert (objects s1 k !! (ns, om_Name (o_Meta d)) = None) as Hn1
      by (rewrite (Hs1 k), Hn; done).
    pose proof (kube_step P HP _ (KCreate k ns d) s1 HP1) as HP'.
    pose proof (kube_KCreate P HP k ns d s1 HP1 Hn1) as Hr. rewrite Hx in HP', Hr.
    by destruct r.
Qed.

Lemma wp_apply_workload_available k ns name (d : obj k) s :
  P s → om_Name (o_Meta d) = name →
  wp kube_exec (err ← create_or_update k ns name d; Ret (name, err)) s
    (λ r s', r.2 = None ∧ P s').
Proof using All.
  intros Hs Hn. apply wp_bind. eapply wp_mono; [by apply wp_create_or_update_available|].
  by intros err s' [-> ?].
Qed.

Lemma wp_applyJob_available `{GoRuntime} ns spec cm image pull checksum obs ep res s :
  P s → wp kube_exec (applyJob ns spec cm image pull checksum obs ep res) s
    (λ r s', r.2 = None ∧ P s').
Proof using All.
  intros Hs. unfold applyJob. apply wp_bind, wp_KGet_available; [done|by intros; apply wp_ret|].
  intros e s1 HP1 Hs1 -> Hnone. apply wp_bind, wp_call. intros r s' Hx. apply wp_ret.
  set (d := desired_job _ _ _ _ _ _ _ _ _) in *.
  assert (objects s1 Jobs !! (ns, om_Name (o_Meta d)) = None) as Hn1 by (rewrite (Hs1 Jobs); done).
  pose proof (kube_step P HP _ (KCreate Jobs ns d) s1 HP1) as HP'.
  pose proof (kube_KCreate P HP Jobs ns d s1 HP1 Hn1) as Hr. rewrite Hx in HP', Hr.
  by destruct r.
Qed.

Lemma wp_ensureRuntime_available `{GoRuntime} `{RuntimeEncoding} ns spec pull obs ep s json yaml :
  P s → fs_Name spec ≠ "" → runtime_image spec ≠ "" → spec_JSON spec = Ok json →
  JSONToYAML json = Ok yaml →
  wp kube_exec (ensureRuntime true ns (Some spec) pull obs ep) s (λ r s', r.2 = None ∧ P s').
Proof using All.
  intros Hs Hn Hi Hj Hy. unfold ensureRuntime. cbn [negb].
  rewrite !bool_decide_eq_false_2 by done. apply wp_bind. unfold applyConfigMap.
  rewrite Hj, Hy. apply wp_bind. eapply wp_mono; [by apply wp_create_or_update_available|].
  intros err s1 [-> HP1]. apply wp_ret. cbn [FlowSpec_GetKubernetesOptions FlowSpec_GetEnv].
  repeat case_match; first [by apply wp_apply_workload_available|by apply wp_applyJob_available].
Qed.

Lemma wp_delete_resource_available k ns name format s :
  P s → wp kube_exec (delete_resource [] k ns name format) s (λ errs s', errs = [] ∧ P s').
Proof using All.
  intros Hs. unfold delete_resource. apply wp_bind, wp_call. intros r s' Hx.
  pose proof (kube_step P HP _ (KDelete k ns name) s Hs) as HP'.
  pose proof (kube_KDelete P HP k ns name s Hs) as Hr. rewrite Hx in HP', Hr. cbn in HP', Hr.
  destruct r as [u|e]; [by apply wp_ret|]. rewrite Hr. by apply wp_ret.
Qed.

Lemma wp_delete_available ns name s :
  P s → name ≠ "" →
  wp kube_exec (deleteRuntimeResources true ns name) s (λ r s', is_ok r = true ∧ P s').
Proof using All.
  intros Hs Hn. unfold deleteRuntimeResources. cbn [negb]. rewrite bool_decide_eq_false_2 by done.
  do 5 (apply wp_bind; eapply wp_mono; [by apply wp_delete_resource_available|];
    clear s Hs; intros errs s [-> Hs]).
  by apply wp_ret.
Qed.
End Available.

(** ** Properties *)
Section Properties.
Context `{GoRuntime}.

(** C25: the container's environment is the fixed observability variables
    followed by the user's other variables in name order: no name occurs
    twice, and a user cannot override the fixed ones. *)
Theorem runtime_env_exact obs ep extra :
  let env := runtimeEnv obs ep extra in
  NoDup (ev_Name <$> env) ∧
  (∀ e, e ∈ env ↔ e ∈ base_env obs ep ∨
     (ev_Name e ∉ ev_Name <$> base_env obs ep ∧ extra !! ev_Name e = Some (ev_Value e))) ∧
  ∃ user, env = base_env obs ep ++ user ∧ sorted_by string_less (ev_Name <$> user).
Proof.
  intros env. destruct (runtimeEnv_app obs ep extra) as (keys & He & Hnd & Hsorted & Hkeys).
  subst env. rewrite He.
  set (f := λ key, Build_EnvVar key (default "" (extra !! key))).
  assert (ev_Name <$> (f <$> keys) = keys) as Hnames.
  { rewrite <-list_fmap_compose. apply list_fmap_id. }
  split_and!.
  - rewrite fmap_app, Hnames. apply NoDup_app. split_and!; [apply base_env_names| |done].
    intros x Hx Hk. by apply Hkeys in Hk as [? _].
  - intros e. rewrite elem_of_app. apply or_iff_compat_l. split.
    + intros (k & -> & Hk)%list_elem_of_fmap. apply Hkeys in Hk as [Hk [v Hv]]. cbn.
      by rewrite Hv.
    + intros [Hk Hv]. apply list_elem_of_fmap. exists (ev_Name e). unfold f. rewrite Hv.
      split; [by destruct e|]. apply Hkeys. eauto.
  - exists (f <$> keys). split; [done|]. by rewrite Hnames.
Qed.

(** The labels and annotations the user asks for. *)
Definition user_labels (o : option KubernetesOptions) : gmap string string :=
  match o with Some o => ko_PodLabels o | None => ∅ end.
Definition user_annotations (o : option KubernetesOptions) : gmap string string :=
  match o with Some o => ko_PodAnnotations o | None => ∅ end.
Definition profile_annotation (res : option Resources) : gmap string string :=
  match res ≫= re_Profile with
  | Some p => if decide (p = "") then ∅ else {[resourceProfileKey := p]}
  | None => ∅
  end.

(** Exactly what a pod template is marked with. *)
Definition marked (flow sum : string) (res : option Resources) (o : option KubernetesOptions)
    (t : PodTemplateSpec) : Prop :=
  (∀ k, pt_Labels t !! k =
     if decide (k = flowLabelKey) then Some flow else user_labels o !! k) ∧
  (∀ k, pt_Annotations t !! k =
     if decide (k = runtimeConfigHashKey) then Some sum
     else match user_annotations o !! k with
          | Some v => Some v
          | None => profile_annotation res !! k
          end).

Lemma template_marked flow cm image pull sum obs ep policy res o env :
  marked flow sum res o (runtimePodTemplate flow cm image pull sum obs ep policy res o env).
Proof.
  unfold runtimePodTemplate. set (t0 := template_literal _ _ _ _ _ _ _ _ _).
  assert (∀ k, pt_Labels (applyResourceIntent t0 res) !! k =
    if decide (k = flowLabelKey) then Some flow else None) as Hl.
  { intros k. rewrite intent_labels. case_decide as Hk; [subst; apply lookup_singleton_eq|].
    by apply lookup_singleton_ne. }
  assert (∀ k, pt_Annotations (applyResourceIntent t0 res) !! k =
    if decide (k = runtimeConfigHashKey) then Some sum else profile_annotation res !! k) as Ha.
  { intros k. rewrite intent_annotations. unfold profile_annotation.
    assert (pt_Annotations t0 !! k = if decide (k = runtimeConfigHashKey) then Some sum else None)
      as ->.
    { case_decide as Hk; [subst; apply lookup_singleton_eq|]. by apply lookup_singleton_ne. }
    destruct (res ≫= re_Profile) as [p|]; [|done]. destruct (decide (p = "")); [done|].
    case_decide as Hk; subst; [by rewrite lookup_singleton_eq|].
    by rewrite lookup_singleton_ne. }
  destruct o as [o|]; split; intros k.
  - rewrite options_labels, Hl. repeat case_decide; try done. cbn.
    by destruct (ko_PodLabels o !! k).
  - rewrite options_annotations, Ha. repeat case_decide; done.
  - exact (Hl k).
  - exact (Ha k).
Qed.

(** C24: whatever labels and annotations the user asks for, the pods of all
    four kinds of workload carry the flow label and the checksum of their
    configuration; all the other labels and annotations asked for are set,
    beside them only the resource profile; and the selector of the
    Deployment and that of the DaemonSet match the labels of their own
    pods. *)
Theorem pods_match_selector ns flow name cm image pull sum obs ep res o env spec cron :
  let dep := desired_deployment ns flow name cm image pull sum obs ep res o env in
  let ds := desired_daemonset ns flow name cm image pull sum obs ep res o env in
  let job := desired_job ns spec cm image pull sum obs ep res in
  let cj := desired_cronjob ns spec cm image pull sum obs ep res cron in
  ds_Selector (o_Spec dep) = {[flowLabelKey := flow]} ∧
  ds_Selector (o_Spec dep) ⊆ pt_Labels (ds_Template (o_Spec dep)) ∧
  dss_Selector (o_Spec ds) = {[flowLabelKey := flow]} ∧
  dss_Selector (o_Spec ds) ⊆ pt_Labels (dss_Template (o_Spec ds)) ∧
  marked flow sum res o (ds_Template (o_Spec dep)) ∧
  marked flow sum res o (dss_Template (o_Spec ds)) ∧
  marked (fs_Name spec) sum res (fs_KubernetesOptions spec) (js_Template (o_Spec job)) ∧
  marked (fs_Name spec) sum res (fs_KubernetesOptions spec)
    (js_Template (cjs_JobTemplate (o_Spec cj))).
Proof.
  intros dep ds job cj.
  pose proof (template_marked flow cm image pull sum obs ep "" res o env) as Hm.
  assert ({[flowLabelKey := flow]} ⊆ pt_Labels (runtimePodTemplate flow cm image pull sum obs ep ""
    res o env)) as Hsel.
  { apply map_singleton_subseteq_l. by rewrite (proj1 Hm), decide_True. }
  split_and!; [reflexivity|exact Hsel|reflexivity|exact Hsel|exact Hm|exact Hm|
    apply template_marked|apply template_marked].
Qed.

Lemma intent_cpu intent :
  (∀ n, re_CpuCores intent = Some n → in32 n) →
  intent_requests intent !! ResourceCPU =
    (n ← re_CpuCores intent; if decide (n = 0)%N then None else Some (Z.of_N n)).
Proof.
  intros Hc.
  assert (∀ v, ResourceMemory ≠ ResourceCPU → <[ResourceMemory := v]>
    (∅ : gmap string Z) !! ResourceCPU = None) as Hne.
  { intros v ?. by rewrite lookup_insert_ne. }
  unfold intent_requests. destruct (re_CpuCores intent) as [n|]; cbn.
  - specialize (Hc n eq_refl). assert (wrap_int64 (Z.of_N n) = Z.of_N n) as ->.
    { apply wrap_int64_small. unfold in32, two32 in Hc. lia. }
    assert ((if (0 <? n)%N then <[ResourceCPU := Z.of_N n]> ∅ else ∅ : gmap string Z)
      !! ResourceCPU = if decide (n = 0)%N then None else Some (Z.of_N n)) as <-.
    { destruct (N.ltb_spec 0 n); case_decide; try lia; [|done]. apply lookup_insert_eq. }
    destruct (re_MemoryMb intent) as [m|]; [|done]. destruct (0 <? m)%N; [|done].
    by rewrite lookup_insert_ne.
  - destruct (re_MemoryMb intent) as [m|]; [|done]. destruct (0 <? m)%N; [|done].
    by apply Hne.
Qed.

Lemma mb_bytes n : in32 n →
  wrap_int64 (wrap_int64 (wrap_int64 (Z.of_N n) * 1000) * 1000) = (Z.of_N n * 1000000)%Z ∧
  (0 <= Z.of_N n * 1000000 < 2 ^ 63)%Z.
Proof.
  unfold in32, two32. intros Hn. rewrite !(wrap_int64_small (Z.of_N n)) by lia.
  rewrite (wrap_int64_small (Z.of_N n * 1000)) by lia.
  rewrite wrap_int64_small by lia. lia.
Qed.

Lemma intent_memory intent :
  (∀ n, re_MemoryMb intent = Some n → in32 n) →
  intent_requests intent !! ResourceMemory =
    (n ← re_MemoryMb intent; if decide (n = 0)%N then None
                             else Some (Z.of_N n * 1000000)%Z).
Proof.
  intros Hm. unfold intent_requests.
  set (r0 := match re_CpuCores intent with Some _ => _ | None => _ end).
  assert (r0 !! ResourceMemory = None) as Hr0.
  { subst r0. destruct (re_CpuCores intent) as [n|]; [|done]. destruct (0 <? n)%N; [|done].
    by rewrite lookup_insert_ne. }
  destruct (re_MemoryMb intent) as [m|]; [|done]. cbn.
  destruct (mb_bytes m (Hm m eq_refl)) as [-> _].
  destruct (N.ltb_spec 0 m); case_decide; try lia; [|done]. apply lookup_insert_eq.
Qed.

Lemma intent_bounds intent k v :
  (∀ n, re_CpuCores intent = Some n → in32 n) →
  (∀ n, re_MemoryMb intent = Some n → in32 n) →
  intent_requests intent !! k = Some v → (0 < v < 2 ^ 63)%Z.
Proof.
  intros Hc Hm Hk.
  destruct (decide (k = ResourceCPU)) as [->|Hk1].
  { rewrite intent_cpu in Hk by done. destruct (re_CpuCores intent) as [n|]; [|done].
    specialize (Hc n eq_refl). unfold in32, two32 in Hc. cbn in Hk.
    case_decide; [done|]. injection Hk as <-. lia. }
  destruct (decide (k = ResourceMemory)) as [->|Hk2].
  { rewrite intent_memory in Hk by done. destruct (re_MemoryMb intent) as [n|]; [|done].
    specialize (Hm n eq_refl). unfold in32, two32 in Hm. cbn in Hk.
    case_decide; [done|]. injection Hk as <-. lia. }
  exfalso. unfold intent_requests in Hk.
  repeat (case_match; try (rewrite lookup_insert_ne in Hk by done)); done.
Qed.

(** C26: the container asks for exactly the cores and the memory the spec
    names, a zero counting as none; megabytes are converted to bytes without
    overflowing int64 for every uint32. *)
Theorem resource_requests_exact flow cm image pull sum obs ep policy intent options env :
  (∀ n, re_CpuCores intent = Some n → in32 n) →
  (∀ n, re_MemoryMb intent = Some n → in32 n) →
  ∃ c, ps_Containers (pt_Spec (runtimePodTemplate flow cm image pull sum obs ep policy
         (Some intent) options env)) = [c] ∧
    ct_Image c = image ∧ ct_Env c = runtimeEnv obs ep env ∧
    ct_Requests c !! ResourceCPU =
      (n ← re_CpuCores intent; if decide (n = 0)%N then None else Some (Z.of_N n)) ∧
    ct_Requests c !! ResourceMemory =
      (n ← re_MemoryMb intent; if decide (n = 0)%N then None
                               else Some (Z.of_N n * 1000000)%Z) ∧
    ∀ k v, ct_Requests c !! k = Some v → (0 < v < 2 ^ 63)%Z.
Proof.
  intros Hc Hm.
  assert (∃ c, ps_Containers (pt_Spec (runtimePodTemplate flow cm image pull sum obs ep policy
      (Some intent) options env)) = [c] ∧ ct_Image c = image ∧
      ct_Env c = runtimeEnv obs ep env ∧ ct_Requests c = intent_requests intent)
    as (c & Hcs & Hi & He & Hr).
  { unfold runtimePodTemplate. destruct options as [o|];
      cbn [applyKubernetesOptions applyResourceIntent pt_Spec ps_Containers template_literal];
      (case_decide as Hs;
        [eexists; split_and!; [reflexivity..|];
         symmetry; exact (map_size_empty_inv _ Hs)
        |eexists; split_and!; [reflexivity..|]; by apply set_requests_empty]). }
  exists c. rewrite Hr. split_and!; [done..|apply intent_cpu, Hc|by apply intent_memory|].
  intros k v Hk. by apply (intent_bounds intent k v).
Qed.

End Properties.

Section EnsureProperties.
Context `{GoRuntime} `{RuntimeEncoding} {S : Type} `{KubeService S}.

Lemma run_ensureRuntime ns spec pull obs ep s w s' :
  run kube_exec (ensureRuntime true ns (Some spec) pull obs ep) s = ((w, None), s') →
  unchanged_but (touched ns spec) (objects s) (objects s') ∧
  w = workload_name (workload_kind spec) (fs_Name spec) ∧
  fs_Name spec ≠ "" ∧ runtime_image spec ≠ "" ∧
  ensured ns spec pull obs ep (objects s) (objects s').
Proof.
  intros Hr.
  refine (wp_run kube_exec _ s (λ r s', r.2 = None →
    unchanged_but (touched ns spec) (objects s) (objects s') ∧
    r.1 = workload_name (workload_kind spec) (fs_Name spec) ∧
    fs_Name spec ≠ "" ∧ runtime_image spec ≠ "" ∧
    ensured ns spec pull obs ep (objects s) (objects s')) _ s' _ Hr eq_refl).
  apply wp_ensureRuntime. intros r s1 Hu Hok He. split; [done|by apply Hok].
Qed.

Lemma ensureRuntime_ok P ns spec pull obs ep s json yaml :
  kube_available P → P s → fs_Name spec ≠ "" → runtime_image spec ≠ "" →
  spec_JSON spec = Ok json → JSONToYAML json = Ok yaml →
  ∃ s', run kube_exec (ensureRuntime true ns (Some spec) pull obs ep) s =
    ((workload_name (workload_kind spec) (fs_Name spec), None), s') ∧ P s'.
Proof.
  intros HP Hs Hn Hi Hj Hy.
  pose proof (wp_ensureRuntime_available P HP ns spec pull obs ep s json yaml Hs Hn Hi Hj Hy) as Hw.
  destruct (run _ _ _) as [[w err] s'] eqn:Hr. unfold wp in Hw. rewrite Hr in Hw.
  destruct Hw as [He HP']. cbn in He. subst err. exists s'. split; [|done].
  by destruct (run_ensureRuntime _ _ _ _ _ _ _ _ Hr) as (_ & -> & _).
Qed.

(** C11: an [ensureRuntime] that reports success answers the name of the one
    workload the spec's mode, cron schedule and workload kind select.  The
    ConfigMap holds the spec, and the workload is stored with the labels and
    the spec asked for, the image, the environment and the checksum of that
    configuration among them; with one exception: a Job that was there before
    is left exactly as it was. *)
Theorem ensureRuntime_applies ns spec pull obs ep s w s' :
  run kube_exec (ensureRuntime true ns (Some spec) pull obs ep) s = ((w, None), s') →
  w = workload_name (workload_kind spec) (fs_Name spec) ∧
  fs_Name spec ≠ "" ∧ runtime_image spec ≠ "" ∧
  ∃ json yaml, spec_JSON spec = Ok json ∧ JSONToYAML json = Ok yaml ∧
    applied ConfigMaps (ns, fs_Name spec +:+ "-config") (desired_config ns spec yaml) (objects s') ∧
    (¬ job_kept ns spec (objects s) →
       workload_runs ns spec pull (sha256_hex yaml) obs ep (objects s')) ∧
    (job_kept ns spec (objects s) →
       objects s' Jobs !! (ns, fs_Name spec) = objects s Jobs !! (ns, fs_Name spec)).
Proof.
  intros Hr. by destruct (run_ensureRuntime _ _ _ _ _ _ _ _ Hr) as (_ & ? & ? & ? & ?).
Qed.

(** C15: whatever happens, success or an error at any call, the objects of
    other flows and everything but the flow's ConfigMap and its selected
    workload are unchanged; a workload of another kind the flow had before is
    not removed; without a client, a spec, a name or an image nothing is
    called at all. *)
Theorem ensureRuntime_frame client ns spec pull obs ep s r s' :
  run kube_exec (ensureRuntime client ns spec pull obs ep) s = (r, s') →
  (∀ sp, spec = Some sp →
     unchanged_but (touched ns sp) (objects s) (objects s') ∧
     (∀ k, k ≠ ConfigMaps → k ≠ workload_kind sp → objects s' k = objects s k) ∧
     ∀ other key, other ≠ fs_Name sp → key ∈ flow_objects ns other →
       objects s' key.1 !! key.2 = objects s key.1 !! key.2) ∧
  (client = false ∨ spec = None ∨
     (∃ sp, spec = Some sp ∧ (fs_Name sp = "" ∨ runtime_image sp = "")) →
   r.1 = "" ∧ r.2 ≠ None ∧ s' = s ∧
   trace kube_exec (ensureRuntime client ns spec pull obs ep) s = []).
Proof.
  intros Hr. split.
  - intros sp ->.
    assert (unchanged_but (touched ns sp) (objects s) (objects s')) as Hu.
    { destruct client; [|by injection Hr as <- <-].
      refine (wp_run kube_exec _ s (λ r s', unchanged_but (touched ns sp) (objects s) (objects s'))
        r s' _ Hr). apply wp_ensureRuntime. intros r0 s0 Hu _. exact Hu. }
    split_and!; [done|..].
    + intros k Hcm Hk. apply map_eq. intros i. apply Hu. unfold touched.
      rewrite !not_elem_of_cons. split_and!; [|intros E; by injection E|by apply not_elem_of_nil].
      intros E. by injection E.
    + intros other key Hne (k & -> & _)%list_elem_of_fmap.
      destruct (object_key ns other k) as [k' i] eqn:Hkey. apply Hu. cbn. rewrite <-Hkey.
      unfold touched. rewrite !not_elem_of_cons. split_and!; [| |by apply not_elem_of_nil].
      * change (config_key ns (fs_Name sp)) with (object_key ns (fs_Name sp) ConfigMaps).
        by intros [_ ?]%object_key_inj.
      * by intros [_ ?]%object_key_inj.
  - intros Hbad.
    enough (∃ e, ensureRuntime client ns spec pull obs ep = Ret ("", Some e)) as [e He].
    { rewrite He in Hr |- *. by injection Hr as <- <-. }
    unfold ensureRuntime. destruct client; cbn; [|eauto].
    destruct spec as [sp|]; [|eauto]. case_bool_decide; [eauto|]. case_bool_decide; [eauto|].
    naive_solver.
Qed.

(** C34: on a cluster that answers, a named flow with an image whose spec can
    be encoded is brought up without error. *)
Theorem ensureRuntime_succeeds P ns spec pull obs ep s json yaml :
  kube_available P → P s → fs_Name spec ≠ "" → runtime_image spec ≠ "" →
  spec_JSON spec = Ok json → JSONToYAML json = Ok yaml →
  ∃ s', run kube_exec (ensureRuntime true ns (Some spec) pull obs ep) s =
    ((workload_name (workload_kind spec) (fs_Name spec), None), s') ∧ P s'.
Proof. apply ensureRuntime_ok. Qed.

(** A Job that already exists is never updated: a new version of a job
    flow replaces its ConfigMap and reports success, and the Job keeps the
    image, the environment and the configuration checksum it had. *)
Lemma existing_job_not_updated ns spec pull obs ep s w s' :
  run kube_exec (ensureRuntime true ns (Some spec) pull obs ep) s = ((w, None), s') →
  workload_kind spec = Jobs → is_Some (objects s Jobs !! (ns, fs_Name spec)) →
  objects s' Jobs = objects s Jobs ∧
  ∃ json yaml, spec_JSON spec = Ok json ∧ JSONToYAML json = Ok yaml ∧
    applied ConfigMaps (ns, fs_Name spec +:+ "-config") (desired_config ns spec yaml) (objects s').
Proof.
  intros Hr Hk [o Ho].
  destruct (run_ensureRuntime _ _ _ _ _ _ _ _ Hr)
    as (Hu & _ & _ & _ & json & yaml & ? & ? & ? & Hw).
  split; [|by exists json, yaml].
  apply map_eq. intros i. destruct (decide (i = (ns, fs_Name spec))) as [->|Hne].
  { apply Hw. split; [done|]. by exists o. }
  apply Hu. unfold touched. rewrite Hk, !not_elem_of_cons.
  split_and!; [intros E; by injection E|intros E; by injection E|by apply not_elem_of_nil].
Qed.

(** C16: deleting a flow's runtime asks for the deletion of all five objects
    the flow may have, also after one of them fails.  It reports exactly the
    failures other than "not found", each with the object it is about, joined
    in the order of the calls, and success if there are none; then all five
    objects are gone.  No object of another flow changes. *)
Theorem delete_runtime_complete ns name s r s' :
  name ≠ "" → run kube_exec (deleteRuntimeResources true ns name) s = (r, s') →
  trace kube_exec (deleteRuntimeResources true ns name) s =
    (λ k, existT _ (KDelete k ns (workload_name k name))) <$> all_kinds ∧
  r = match delete_failures (history kube_exec (deleteRuntimeResources true ns name) s) with
      | [] => Ok tt
      | errs => Err (JoinErr errs)
      end ∧
  (r = Ok tt → ∀ key, key ∈ flow_objects ns name → objects s' key.1 !! key.2 = None) ∧
  unchanged_but (flow_objects ns name) (objects s) (objects s') ∧
  ∀ other key, other ≠ name → key ∈ flow_objects ns other →
    objects s' key.1 !! key.2 = objects s key.1 !! key.2.
Proof.
  intros Hname Hr.
  assert (unchanged_but (flow_objects ns name) (objects s) (objects s') ∧
    match r with
    | Ok _ => Forall (λ k, objects s' k !! (ns, workload_name k name) = None) all_kinds
    | Err e => ∃ errs, e = JoinErr errs ∧ errs ≠ [] ∧ Forall real_failure errs
    end) as [Hu Hpost].
  { refine (wp_run kube_exec _ s (λ r s',
      unchanged_but (flow_objects ns name) (objects s) (objects s') ∧
      match r with
      | Ok _ => Forall (λ k, objects s' k !! (ns, workload_name k name) = None) all_kinds
      | Err e => ∃ errs, e = JoinErr errs ∧ errs ≠ [] ∧ Forall real_failure errs
      end) r s' _ Hr). apply wp_deleteRuntimeResources; [done|]. intros r0 s0 ? ?. by split. }
  split_and!; [| | |done|].
  - unfold deleteRuntimeResources. cbn [negb]. rewrite bool_decide_eq_false_2 by done.
    do 5 (rewrite trace_bind, trace_delete_resource). cbn [app fmap list_fmap all_kinds].
    by destruct (run kube_exec _ _).1.
  - pose proof (deleteRuntimeResources_failures ns name s Hname) as Hf.
    unfold answers_failures in Hf. rewrite Hr in Hf. cbn [fst app] in Hf. rewrite Hf.
    by destruct (delete_failures _).
  - intros -> key (k & -> & Hk)%list_elem_of_fmap.
    by rewrite Forall_forall in Hpost; apply Hpost.
  - intros other key Hne (k & -> & _)%list_elem_of_fmap.
    destruct (object_key ns other k) as [k' i] eqn:Hkey. apply (Hu k' i). rewrite <-Hkey.
    intros (k2 & E & _)%list_elem_of_fmap. by apply object_key_inj in E as [_ ?].
Qed.
End EnsureProperties.

(** ** Witnesses *)
Section Witnesses.
#[local] Existing Instance std_runtime.

(** An encoding good enough to run: the JSON is the name and the version. *)
Definition test_encoding : RuntimeEncoding := {|
  spec_JSON := λ spec, Ok (fs_Name spec +:+ "@" +:+ strconv.FormatUint (fs_Version spec));
  JSONToYAML := λ json, Ok json;
  sha256_hex := λ yaml, "sum:" +:+ yaml;
|}.

#[local] Existing Instance test_encoding.

Definition flow_of (mode : ExecutionMode) (version : N) : FlowSpec :=
  Build_FlowSpec "a" version (Some (Build_Execution mode)) [] [] ∅ None
    (Some (Build_KubernetesSettings (Some "runtime:1") IMAGE_PULL_POLICY_UNSPECIFIED
      RESTART_POLICY_UNSPECIFIED ∅ (Some (Build_Resources (Some 2%N) (Some 512%N) None))))
    None {["B" := "1"; "A" := "2"]}.

Definition no_cluster : MemKube.state := MemKube.empty [].
Definition ensure_flow (spec : FlowSpec) (s : MemKube.state) : go_pair * MemKube.state :=
  run kube_exec (ensureRuntime true "ns" (Some spec) PullIfNotPresent true "otel") s.
Definition with_stream : MemKube.state := (ensure_flow (flow_of EXECUTION_MODE_STREAMING 1) no_cluster).2.
Definition with_job : MemKube.state := (ensure_flow (flow_of EXECUTION_MODE_JOB 1) no_cluster).2.

Lemma resource_requests_exact_witness :
  ∃ c, ps_Containers (pt_Spec (runtimePodTemplate "a" "a-config" "img" "Always" "sum" true "ep"
         "Never" (Some (Build_Resources (Some 4294967295%N) (Some 4294967295%N) None)) None ∅)) = [c] ∧
    ct_Requests c !! ResourceMemory = Some 4294967295000000%Z.
Proof.
  destruct (resource_requests_exact "a" "a-config" "img" "Always" "sum" true "ep" "Never"
    (Build_Resources (Some 4294967295%N) (Some 4294967295%N) None) None ∅)
    as (c & Hc & _ & _ & _ & Hm & _).
  - intros n [= <-]. reflexivity.
  - intros n [= <-]. reflexivity.
  - exists c. split; [exact Hc|exact Hm].
Defined.

Lemma ensureRuntime_applies_witness :
  ∃ s', ensure_flow (flow_of EXECUTION_MODE_STREAMING 1) no_cluster = (("a-runtime", None), s') ∧
    workload_runs "ns" (flow_of EXECUTION_MODE_STREAMING 1) PullIfNotPresent "sum:a@1" true "otel"
      (objects s').
Proof.
  assert (ensure_flow (flow_of EXECUTION_MODE_STREAMING 1) no_cluster =
    (("a-runtime", None), with_stream)) as Hr by (vm_compute; reflexivity).
  exists with_stream. split; [exact Hr|].
  destruct (ensureRuntime_applies _ _ _ _ _ _ _ _ Hr)
    as (_ & _ & _ & json & yaml & [= <-] & [= <-] & _ & Hrun & _).
  apply Hrun. intros [Hk _]. discriminate Hk.
Defined.

Lemma ensureRuntime_frame_witness :
  ∃ r s', ensure_flow (flow_of EXECUTION_MODE_JOB 2) with_stream = (r, s') ∧
    is_Some (objects s' Deployments !! ("ns", "a-runtime")).
Proof.
  destruct (ensure_flow (flow_of EXECUTION_MODE_JOB 2) with_stream) as [r s'] eqn:Hr.
  exists r, s'. split; [reflexivity|].
  destruct (proj1 (ensureRuntime_frame true "ns" (Some (flow_of EXECUTION_MODE_JOB 2))
    PullIfNotPresent true "otel" with_stream r s' Hr) _ eq_refl) as (_ & Hk & _).
  rewrite (Hk Deployments); [vm_compute; by eexists|discriminate|discriminate].
Defined.

Lemma ensureRuntime_succeeds_witness :
  ∃ s', ensure_flow (flow_of EXECUTION_MODE_JOB 1) with_stream = (("a", None), s').
Proof.
  destruct (ensureRuntime_succeeds (λ s, MemKube.m_failures s = []) "ns"
    (flow_of EXECUTION_MODE_JOB 1) PullIfNotPresent true "otel" with_stream "a@1" "a@1"
    mem_kube_available) as (s' & Hr & _);
    [reflexivity|discriminate|discriminate|reflexivity|reflexivity|].
  exists s'. exact Hr.
Defined.

Lemma existing_job_not_updated_witness :
  ∃ s', ensure_flow (flow_of EXECUTION_MODE_JOB 2) with_job = (("a", None), s') ∧
    objects s' Jobs = objects with_job Jobs.
Proof.
  pose (s' := (ensure_flow (flow_of EXECUTION_MODE_JOB 2) with_job).2). exists s'.
  assert (ensure_flow (flow_of EXECUTION_MODE_JOB 2) with_job = (("a", None), s')) as Hr
    by (vm_compute; reflexivity).
  split; [exact Hr|].
  apply (existing_job_not_updated _ _ _ _ _ _ _ _ Hr); [reflexivity|vm_compute; by eexists].
Defined.

(** The second and the fourth delete fail; the other three still happen. *)
Lemma delete_runtime_complete_witness :
  let s := with_stream in
  let s := MemKube.Build_state (MemKube.m_configmaps s) (MemKube.m_deployments s)
    (MemKube.m_daemonsets s) (MemKube.m_jobs s) (MemKube.m_cronjobs s) [false; true; false; true] in
  let p := run kube_exec (deleteRuntimeResources true "ns" "a") s in
  p.1 = Err (JoinErr [Wrapf "delete daemonset %q: %w" [AStr "a-runtime"] MemKube.down;
                      Wrapf "delete cronjob %q: %w" [AStr "a"] MemKube.down]) ∧
  length (trace kube_exec (deleteRuntimeResources true "ns" "a") s) = 5.
Proof.
  intros s0 s p.
  destruct (delete_runtime_complete "ns" "a" s p.1 p.2 ltac:(discriminate) (surjective_pairing p))
    as (Ht & Hr & _).
  split; [|rewrite Ht; reflexivity].
  rewrite Hr. vm_compute. reflexivity.
Defined.
End Witnesses.
