(* ===== verification/ControllerStore.v ===== *)
(** * controller/internal/store: the controller's view of the flow store

    store.go's event types and etcd.go function by function.  The package
    repeats the API store's key layout; its definitions are in the module
    [Ctl].  Watching is modelled as a function of the list of etcd events the
    client library delivers. *)
From S2P Require Import Prelude GoStd GoStdFacts Prog Messages Etcd Codec.

Module Ctl.

(** ** store.go *)

Inductive WatchEventType := WatchAdded | WatchUpdated | WatchDeleted.

#[export] Instance WatchEventType_eq_dec : EqDecision WatchEventType.
Proof. solve_decision. Defined.

Record WatchEvent := {
  we_Type : WatchEventType;
  we_Flow : option Flow;
}.

(** ** Key layout *)

Definition rootPrefix : string := "/flowpipe/flows".

Definition flowPrefix (name : string) : string := path.Join [rootPrefix; name].

Definition activeKey (name : string) : string := path.Join [flowPrefix name; "active"].

Definition versionSpecKey (name : string) (version : N) : string :=
  path.Join [flowPrefix name; "versions"; strconv.FormatUint version; "spec"].

Definition statusKey (name : string) : string := path.Join [flowPrefix name; "status"].

#[global] Arguments flowPrefix : simpl never.
#[global] Arguments activeKey : simpl never.
#[global] Arguments versionSpecKey : simpl never.
#[global] Arguments statusKey : simpl never.

(** The name both ListFlows and the watch read off a key. *)
Definition key_name (key : string) : string := path.Base (path.Dir key).

(** ** Events of the etcd client *)

Inductive EventType := EventTypePut | EventTypeDelete | EventType_other (n : Z).

(** [ev_IsCreate] is what [ev.IsCreate()] answers. *)
Record Event := {
  ev_Type : EventType;
  ev_Kv : option KeyValue;
  ev_IsCreate : bool;
}.

Section Store.
Context `{Codec} `{GoRuntime}.

(** [None] for the spec is a nil pointer: no active version, or no spec
    stored under it. *)
Definition GetActiveFlow (name : string) : prog etcdE (result (option FlowSpec * N)) :=
  activeResp ←? call (Get (activeKey name));
  match activeResp with
  | [] => Ret (Ok (None, 0%N))
  | kv :: _ =>
      match strconv.ParseUint (kv_Value kv) 64 with
      | None => Ret (Err (Errorf "invalid active version" []))
      | Some version =>
          specResp ←? call (Get (versionSpecKey name version));
          match specResp with
          | [] => Ret (Ok (None, version))
          | kv :: _ =>
              match spec_Unmarshal (kv_Value kv) with
              | Err e => Ret (Err e)
              | Ok spec => Ret (Ok (Some spec, version))
              end
          end
      end
  end.

Definition event_type (ev : Event) : option WatchEventType :=
  match ev_Type ev with
  | EventTypePut => Some (if ev_IsCreate ev then WatchAdded else WatchUpdated)
  | EventTypeDelete => Some WatchDeleted
  | EventType_other _ => None
  end.

(** [None] is the answer [(zero, false)]. *)
Definition buildWatchEvent (ev : option Event)
    (fetchActive : string → prog etcdE (result (option FlowSpec * N))) :
    prog etcdE (option WatchEvent) :=
  match ev with
  | None => Ret None
  | Some ev =>
      match ev_Kv ev with
      | None => Ret None
      | Some kv =>
          let key := kv_Key kv in
          if negb (strings.HasSuffix key "/active") then Ret None
          else
          let name := key_name key in
          match event_type ev with
          | None => Ret None
          | Some eventType =>
              if bool_decide (eventType ≠ WatchDeleted) then
                r ← fetchActive name;
                match r with
                | Err _ => Ret None
                | Ok (spec, _) =>
                    Ret (Some (Build_WatchEvent eventType
                      (Some (Build_Flow name 0 spec None))))
                end
              else
                Ret (Some (Build_WatchEvent eventType (Some (Build_Flow name 0 None None))))
          end
      end
  end.

(** The goroutine of [WatchFlows]: what it sends for the events it gets. *)
Definition WatchFlows (events : list (option Event)) : prog etcdE (list WatchEvent) :=
  for_each events (λ out ev,
    event ← buildWatchEvent ev GetActiveFlow;
    Ret (out ++ option_list event)) [].

(** One round of the loop of [ListFlows]; the accumulator is [flows]. *)
Definition list_step (flows : gmap string Flow) (kv : KeyValue) :
    prog etcdE (gmap string Flow) :=
  let key := kv_Key kv in
  if negb (strings.HasSuffix key "/active") then Ret flows
  else
    let name := key_name key in
    match strconv.ParseUint (kv_Value kv) 64 with
    | None => Ret flows
    | Some version =>
        specResp ← call (Get (versionSpecKey name version));
        match specResp with
        | Err _ | Ok [] => Ret flows
        | Ok (kv :: _) =>
            match spec_Unmarshal (kv_Value kv) with
            | Err _ => Ret flows
            | Ok spec => Ret (<[name := Build_Flow name 0 (Some spec) None]> flows)
            end
        end
    end.

Definition ListFlows : prog etcdE (result (list Flow)) :=
  resp ←? call (GetPrefix (rootPrefix +:+ "/"));
  flows ← for_each resp list_step ∅;
  Ret (Ok (range_map flows).*2).

Definition UpdateStatus (name : string) (status : option FlowStatus) :
    prog etcdE (result unit) :=
  match status with
  | None => Ret (Err (Errorf "status is nil" []))
  | Some status =>
      match status_Marshal status with
      | Err e => Ret (Err e)
      | Ok data => call (Put (statusKey name) data)
      end
  end.
End Store.

End Ctl.
