(* ===== verification/WorkQueue.v ===== *)
(** * The controller's work queue (workqueue.go, workqueue_memory.go)

    [RateLimitingQueue] is what client-go documents about its rate-limited
    work queue, which [MemoryQueue] wraps; [MapQueue] is a queue that
    satisfies it.  A method of [MemoryQueue] is a program of several calls:
    the mutex is held only around an access to the map of enqueue times
    ([markEnqueued], [clearEnqueued], [dequeueLag]), and the calls of the
    wrapped queue, which is itself safe for concurrent use, are made outside
    it.  Each access and each call is one step of [mem_step], so that the
    methods of several goroutines interleave between them.  [Get] has no step
    while it blocks; times are in nanoseconds. *)
From S2P Require Import Prelude Prog.

(** ** client-go's queue *)

(** [q_Get] is [None] when the call blocks, [Some None] when the queue is
    shut down and drained.  [q_elapse] is time going by: the rate limiter's
    delays end, or the delayed keys of a queue that was shut down are
    dropped. *)
Class RateLimitingQueue (Q : Type) := {
  q_Add : string → Q → Q;
  q_Get : Q → option (option (string * Q));
  q_Done : string → Q → Q;
  q_Forget : string → Q → Q;
  q_AddRateLimited : string → Q → Q;
  q_Len : Q → Z;
  q_ShutDown : Q → Q;
  q_elapse : Q → Q → Prop;

  (** keys queued, or delayed by the rate limiter *)
  waiting : Q → gset string;
  (** keys handed out and not yet done *)
  processing : Q → gset string;
  shutting : Q → bool;

  q_Add_waiting : ∀ k q,
    waiting (q_Add k q) = if shutting q then waiting q else {[k]} ∪ waiting q;
  q_Add_rest : ∀ k q, processing (q_Add k q) = processing q ∧ shutting (q_Add k q) = shutting q;
  (** A key is handed out to one worker at a time.  It may still be waiting
      afterwards, when the rate limiter holds it as well. *)
  q_Get_some : ∀ q k q', q_Get q = Some (Some (k, q')) →
    k ∈ waiting q ∧ k ∉ processing q ∧ waiting q ∖ {[k]} ⊆ waiting q' ⊆ waiting q ∧
    processing q' = {[k]} ∪ processing q ∧ shutting q' = shutting q;
  q_Get_shut : ∀ q, q_Get q = Some None → shutting q = true;
  (** A queue that was shut down does not block. *)
  q_Get_answers : ∀ q, shutting q = true → q_Get q ≠ None;
  q_Done_spec : ∀ k q, waiting (q_Done k q) = waiting q ∧
    processing (q_Done k q) = processing q ∖ {[k]} ∧ shutting (q_Done k q) = shutting q;
  q_Forget_spec : ∀ k q, waiting (q_Forget k q) = waiting q ∧
    processing (q_Forget k q) = processing q ∧ shutting (q_Forget k q) = shutting q;
  q_AddRateLimited_waiting : ∀ k q,
    waiting (q_AddRateLimited k q) = if shutting q then waiting q else {[k]} ∪ waiting q;
  q_AddRateLimited_rest : ∀ k q, processing (q_AddRateLimited k q) = processing q ∧
    shutting (q_AddRateLimited k q) = shutting q;
  (** Keys the rate limiter holds are lost. *)
  q_ShutDown_spec : ∀ q, waiting (q_ShutDown q) ⊆ waiting q ∧
    processing (q_ShutDown q) = processing q ∧ shutting (q_ShutDown q) = true;
  q_elapse_refl : ∀ q, q_elapse q q;
  q_elapse_spec : ∀ q q', q_elapse q q' → waiting q' ⊆ waiting q ∧
    (shutting q = false → waiting q' = waiting q) ∧
    processing q' = processing q ∧ shutting q' = shutting q;
}.

(** A queue without delays: keys waiting in order, and keys handed out. *)
Module MapQueue.

Record state := { items : list string; out : gset string; closed : bool }.

Definition empty : state := Build_state [] ∅ false.

Definition add (k : string) (q : state) : state :=
  if closed q then q
  else if bool_decide (k ∈ items q) then q
  else Build_state (items q ++ [k]) (out q) (closed q).

(** The first waiting key that is not being processed. *)
Definition get (q : state) : option (option (string * state)) :=
  match list_find (λ k, k ∉ out q) (items q) with
  | Some (i, k) => Some (Some (k, Build_state (delete i (items q)) ({[k]} ∪ out q) (closed q)))
  | None => if closed q then Some None else None
  end.

Definition done_with (k : string) (q : state) : state :=
  Build_state (items q) (out q ∖ {[k]}) (closed q).

Definition close (q : state) : state := Build_state (items q) (out q) true.

End MapQueue.

Section MapQueueFacts.
Import MapQueue.

Lemma map_add_waiting k q :
  list_to_set (items (add k q)) =
    (if closed q then list_to_set (items q) else {[k]} ∪ list_to_set (items q) :> gset string).
Proof.
  unfold add. destruct (closed q); [done|]. case_bool_decide as Hk; cbn; set_solver.
Qed.

Lemma delete_set (l : list string) i k :
  l !! i = Some k →
  list_to_set l ∖ {[k]} ⊆ (list_to_set (delete i l) : gset string) ⊆ list_to_set l.
Proof.
  intros Hi. pose proof (take_drop_middle l i k Hi) as Hl. rewrite delete_take_drop.
  assert (list_to_set l =
    list_to_set (take i l) ∪ ({[k]} ∪ list_to_set (drop (S i) l)) :> gset string) as ->.
  { by rewrite <-Hl at 1; rewrite list_to_set_app_L. }
  rewrite list_to_set_app_L. set_solver.
Qed.

#[export] Program Instance map_queue : RateLimitingQueue state := {|
  q_Add := add;
  q_Get := get;
  q_Done := done_with;
  q_Forget := λ _ q, q;
  q_AddRateLimited := add;
  q_Len := λ q, Z.of_nat (length (items q));
  q_ShutDown := close;
  q_elapse := eq;
  waiting := λ q, list_to_set (items q);
  processing := out;
  shutting := closed;
|}.
Next Obligation. apply map_add_waiting. Qed.
Next Obligation.
  intros k q. unfold add. destruct (closed q) eqn:E; [done|]. by case_bool_decide.
Qed.
Next Obligation.
  intros q k q'. unfold get. destruct (list_find _ _) as [[i x]|] eqn:Hf;
    [|by destruct (closed q)].
  intros [= <- <-]. apply list_find_Some in Hf as (Hi & Hx & _). cbn.
  split_and!; [|done|by apply (delete_set _ _ _ Hi)|by apply (delete_set _ _ _ Hi)|done|done].
  apply elem_of_list_to_set. by eapply list_elem_of_lookup_2.
Qed.
Next Obligation.
  intros q. unfold get. destruct (list_find _ _) as [[i x]|]; [done|]. by destruct (closed q).
Qed.
Next Obligation.
  intros q Hq. unfold get. destruct (list_find _ _) as [[i x]|]; [done|]. cbn in Hq. by rewrite Hq.
Qed.
Next Obligation. done. Qed.
Next Obligation. done. Qed.
Next Obligation. apply map_add_waiting. Qed.
Next Obligation.
  intros k q. unfold add. destruct (closed q) eqn:E; [done|]. by case_bool_decide.
Qed.
Next Obligation. done. Qed.
Next Obligation. done. Qed.
Next Obligation. by intros q q' <-. Qed.
End MapQueueFacts.

(** ** MemoryQueue *)
Section MemoryQueue.
Context {Q : Type} `{RateLimitingQueue Q}.

Record MemoryQueue := {
  mq_q : Q;
  mq_enqueued : gmap string Z;
}.

Definition NewMemoryQueue (q : Q) : MemoryQueue := Build_MemoryQueue q ∅.

(** The accesses to the map of enqueue times, each under the mutex. *)
Definition markEnqueued (now : Z) (key : string) (m : MemoryQueue) : MemoryQueue :=
  Build_MemoryQueue (mq_q m) (<[key := now]> (mq_enqueued m)).

Definition clearEnqueued (key : string) (m : MemoryQueue) : MemoryQueue :=
  Build_MemoryQueue (mq_q m) (delete key (mq_enqueued m)).

Definition dequeueLag (now : Z) (key : string) (m : MemoryQueue) : Z * MemoryQueue :=
  match mq_enqueued m !! key with
  | None => (0%Z, m)
  | Some enqueuedAt =>
      ((now - enqueuedAt)%Z, Build_MemoryQueue (mq_q m) (delete key (mq_enqueued m)))
  end.

Definition on_q (f : Q → Q) (m : MemoryQueue) : MemoryQueue :=
  Build_MemoryQueue (f (mq_q m)) (mq_enqueued m).
End MemoryQueue.
Arguments MemoryQueue Q : clear implicits.

(** *** Methods

    The atomic steps the methods are made of: the three accesses to the map
    and the calls of the wrapped queue, whose [Get] answers [None] for
    shutdown. *)
Inductive memE : Type → Type :=
  | MarkEnqueued (key : string) : memE unit
  | ClearEnqueued (key : string) : memE unit
  | DequeueLag (key : string) : memE Z
  | QueueAdd (key : string) : memE unit
  | QueueGet : memE (option string)
  | QueueForget (key : string) : memE unit
  | QueueAddRateLimited (key : string) : memE unit
  | QueueDone (key : string) : memE unit
  | QueueLen : memE Z
  | QueueShutDown : memE unit.

Definition Add (key : string) : prog memE unit :=
  _ ← call (MarkEnqueued key);
  call (QueueAdd key).

Definition GetItem : prog memE (string * Z * bool) :=
  item ← call QueueGet;
  match item with
  | None => Ret ("", 0%Z, false)
  | Some key =>
      lag ← call (DequeueLag key);
      Ret (key, lag, true)
  end.

Definition Forget (key : string) : prog memE unit :=
  _ ← call (ClearEnqueued key);
  _ ← call (QueueForget key);
  call (QueueDone key).

Definition Retry (key : string) : prog memE unit :=
  _ ← call (MarkEnqueued key);
  _ ← call (QueueAddRateLimited key);
  call (QueueDone key).

Definition Len : prog memE Z := call QueueLen.

Definition Shutdown : prog memE unit := call QueueShutDown.

(** ** Steps of a shared queue *)
Section Steps.
Context {Q : Type} `{RateLimitingQueue Q}.
Implicit Types m : MemoryQueue Q.

(** One atomic step, when it can be made: its answer and the queue after
    it. *)
Definition mem_atomic {X} (e : memE X) m (x : X) m' : Prop :=
  match e in memE X return X → Prop with
  | MarkEnqueued key => λ _, ∃ now, m' = markEnqueued now key m
  | ClearEnqueued key => λ _, m' = clearEnqueued key m
  | DequeueLag key => λ lag, ∃ now, (lag, m') = dequeueLag now key m
  | QueueAdd key => λ _, m' = on_q (q_Add key) m
  | QueueGet => λ item,
      match q_Get (mq_q m) with
      | None => False
      | Some None => item = None ∧ m' = m
      | Some (Some (key, q')) => item = Some key ∧ m' = on_q (λ _, q') m
      end
  | QueueForget key => λ _, m' = on_q (q_Forget key) m
  | QueueAddRateLimited key => λ _, m' = on_q (q_AddRateLimited key) m
  | QueueDone key => λ _, m' = on_q (q_Done key) m
  | QueueLen => λ n, n = q_Len (mq_q m) ∧ m' = m
  | QueueShutDown => λ _, m' = on_q q_ShutDown m
  end x.

(** Time may go by before a step. *)
Definition mem_step {X} (e : memE X) m (x : X) m' : Prop :=
  ∃ q, q_elapse (mq_q m) q ∧ mem_atomic e (on_q (λ _, q) m) x m'.

(** What a step does to the keys waiting and processed. *)
Definition mem_effect {X} (e : memE X) (x : X) (q q' : Q) : Prop :=
  match e in memE X return X → Prop with
  | QueueAdd key | QueueAddRateLimited key => λ _,
      waiting q' = {[key]} ∪ waiting q ∧ processing q' = processing q
  | QueueGet => λ item,
      match item with
      | None => False
      | Some key => key ∈ waiting q ∧ key ∉ processing q ∧ waiting q ∖ {[key]} ⊆ waiting q' ∧
          processing q' = {[key]} ∪ processing q
      end
  | QueueDone key => λ _, waiting q' = waiting q ∧ processing q' = processing q ∖ {[key]}
  | QueueShutDown => λ _, False
  | _ => λ _, waiting q' = waiting q ∧ processing q' = processing q
  end x.

(** The keys handed out are the ones not done, shut down or not. *)
Definition mem_processing {X} (e : memE X) (x : X) (q q' : Q) : Prop :=
  match e in memE X return X → Prop with
  | QueueGet => λ item,
      match item with
      | None => processing q' = processing q
      | Some key => key ∉ processing q ∧ processing q' = {[key]} ∪ processing q
      end
  | QueueDone key => λ _, processing q' = processing q ∖ {[key]}
  | _ => λ _, processing q' = processing q
  end x.

Definition shuts {X} (e : memE X) : bool := match e with QueueShutDown => true | _ => false end.

Lemma dequeueLag_q now key m lag m' : (lag, m') = dequeueLag now key m → mq_q m' = mq_q m.
Proof. unfold dequeueLag. destruct (mq_enqueued m !! key); by intros [= -> ->]. Qed.

Ltac solve_queue :=
  split_and!; try done; intros; split_and!; try done; set_solver.

(** Every atomic step, by what the wrapped queue promises. *)
Lemma mem_atomic_spec {X} (e : memE X) m x m' :
  mem_atomic e m x m' →
  mem_processing e x (mq_q m) (mq_q m') ∧
  shutting (mq_q m') = shuts e || shutting (mq_q m) ∧
  (shutting (mq_q m') = false → mem_effect e x (mq_q m) (mq_q m')) ∧
  (shutting (mq_q m) = true → waiting (mq_q m') ⊆ waiting (mq_q m) ∧
     processing (mq_q m') ⊆ processing (mq_q m) ∪ waiting (mq_q m)).
Proof.
  destruct e; cbn.
  - intros [now ->]. solve_queue.
  - intros ->. solve_queue.
  - intros [now Hd]. rewrite (dequeueLag_q _ _ _ _ _ Hd). solve_queue.
  - intros ->. cbn. destruct (q_Add_rest key (mq_q m)) as [-> ->]. rewrite q_Add_waiting.
    destruct (shutting (mq_q m)); solve_queue.
  - destruct (q_Get (mq_q m)) as [[[key q']|]|] eqn:Hg; [| |done].
    + intros [-> ->]. cbn. destruct (q_Get_some _ _ _ Hg) as (? & ? & [? ?] & -> & ->). solve_queue.
    + intros [-> ->]. cbn. rewrite (q_Get_shut _ Hg). solve_queue.
  - intros ->. cbn. destruct (q_Forget_spec key (mq_q m)) as (-> & -> & ->). solve_queue.
  - intros ->. cbn. destruct (q_AddRateLimited_rest key (mq_q m)) as [-> ->].
    rewrite q_AddRateLimited_waiting. destruct (shutting (mq_q m)); solve_queue.
  - intros ->. cbn. destruct (q_Done_spec key (mq_q m)) as (-> & -> & ->). solve_queue.
  - intros [-> ->]. solve_queue.
  - intros ->. cbn. destruct (q_ShutDown_spec (mq_q m)) as (? & -> & ->). solve_queue.
Qed.

Lemma mem_step_spec {X} (e : memE X) m x m' :
  mem_step e m x m' →
  mem_processing e x (mq_q m) (mq_q m') ∧
  shutting (mq_q m') = shuts e || shutting (mq_q m) ∧
  (shutting (mq_q m') = false → mem_effect e x (mq_q m) (mq_q m')) ∧
  (shutting (mq_q m) = true → waiting (mq_q m') ⊆ waiting (mq_q m) ∧
     processing (mq_q m') ⊆ processing (mq_q m) ∪ waiting (mq_q m)).
Proof.
  intros (q & Hq & Hs). destruct (mem_atomic_spec _ _ _ _ Hs) as (H1 & H2 & H3 & H4). cbn in *.
  destruct (q_elapse_spec _ _ Hq) as (Hw & Hw' & Hp & Hsh). rewrite Hsh in *. split_and!; [|done| |].
  - destruct e; cbn in *; by rewrite <-?Hp.
  - intros Hf. specialize (H3 Hf). rewrite H2 in Hf. apply orb_false_iff in Hf as [_ Hf].
    destruct e; cbn in *; by rewrite <-?Hp, <-?(Hw' Hf).
  - intros Hf. destruct (H4 Hf) as [H5 H6]. rewrite Hp in H6. split; set_solver.
Qed.

Definition gets {X} (e : memE X) : bool := match e with QueueGet => true | _ => false end.

(** A step that cannot be made is [Get] on a queue that is not shut down. *)
Lemma mem_step_progress {X} (e : memE X) m :
  shutting (mq_q m) = true ∨ gets e = false → ∃ x m', mem_step e m x m'.
Proof.
  intros He. assert (∃ x m', mem_atomic e m x m') as (x & m' & Hs).
  { destruct e; cbn; try (by exists tt; eexists); try (by do 2 eexists).
    - exists tt. by exists (markEnqueued 0 key m), 0%Z.
    - destruct (dequeueLag 0 key m) as [lag m'] eqn:Hd. exists lag, m', 0%Z. by rewrite Hd.
    - destruct He as [He|]; [|done]. pose proof (q_Get_answers _ He).
      destruct (q_Get (mq_q m)) as [[[key q']|]|]; [by do 2 eexists|by do 2 eexists|done]. }
  exists x, m', (mq_q m). split; [apply q_elapse_refl|]. by destruct m.
Qed.
End Steps.
