(* ===== verification/Controller.v ===== *)
(** * controller/internal/controller: reconcile, worker, watch and Run

    [reconcile] is a program over etcd, Kubernetes and the clock; the loops
    are programs over these, over the interface of the work queue ([loopE])
    and over the context, the watch stream and the wait group ([hostE]).
    Logging, tracing and metrics are left out.  The Go loops have no bound:
    [worker] and [runWatch] are endless routines, and [worker_rounds] the
    first rounds of a worker. *)
From S2P Require Import Prelude GoStd Prog Goroutines Messages Etcd Codec Kube Runtime ControllerStore.

(** ** Effects *)

Inductive clockE : Type → Type := Now : clockE Timestamp.

Definition ctlE : Type → Type := sumE (sumE etcdE kubeE) clockE.

Definition on_etcd {A} (p : prog etcdE A) : prog ctlE A := liftL (liftL p).
Definition on_kube {A} (p : prog kubeE A) : prog ctlE A := liftL (liftR p).
Definition on_clock {A} (p : prog clockE A) : prog ctlE A := liftR p.

(** What [select] picks in the watch loop. *)
Inductive select := SelDone | SelClosed | SelEvent (ev : Ctl.WatchEvent).

(** The context, the watch stream and the wait group of [Run].  [CtxWait]
    is [<-ctx.Done()]: it blocks until the context is done, as [WgWait] does
    until every worker has called [WgDone]. *)
Inductive hostE : Type → Type :=
  | CtxDone : hostE bool
  | CtxWait : hostE unit
  | Sleep (ms : N) : hostE unit
  | WatchSelect : hostE select
  | WatchStop : hostE unit
  | WgDone : hostE unit
  | WgWait : hostE unit.

(** The interface [WorkQueue], and the rest. *)
Inductive loopE : Type → Type :=
  | QAdd (key : string) : loopE unit
  | QGet : loopE (string * Z * bool)
  | QForget (key : string) : loopE unit
  | QRetry (key : string) : loopE unit
  | QLen : loopE Z
  | QShutdown : loopE unit
  | Host {X} (e : hostE X) : loopE X.

Definition fullE : Type → Type := sumE ctlE loopE.

Definition ctl {A} (p : prog ctlE A) : prog fullE A := liftL p.
Definition loop {A} (e : loopE A) : prog fullE A := liftR (call e).
Definition host {A} (e : hostE A) : prog fullE A := loop (Host e).

(** ** The controller *)

Record Controller := {
  c_kube : bool;
  c_runtimeNamespace : string;
  c_observabilityEnabled : bool;
  c_otelEndpoint : string;
  c_workerCount : Z;
}.

Section Controller.
Context `{Codec} `{GoRuntime} `{RuntimeEncoding} (c : Controller).

Definition deploying_status (version : N) (workload : string) (now : Timestamp) : FlowStatus :=
  Build_FlowStatus FLOW_STATE_DEPLOYING "flow runtime created" version workload (Some now).

Definition reconcile (name : string) : prog ctlE (result unit) :=
  '(spec, version) ←? on_etcd (Ctl.GetActiveFlow name);
  match spec with
  | None =>
      on_kube (deleteRuntimeResources (c_kube c) (c_runtimeNamespace c) name)
  | Some spec =>
      '(workload, err) ← on_kube (ensureRuntime (c_kube c) (c_runtimeNamespace c) (Some spec)
        (pullPolicyFromSpec (Some spec)) (c_observabilityEnabled c) (c_otelEndpoint c));
      match err with
      | Some e => Ret (Err e)
      | None =>
          now ← on_clock (call Now);
          on_etcd (Ctl.UpdateStatus name (Some (deploying_status version workload now)))
      end
  end.

(** One round of the worker's loop, the context not done. *)
Definition worker_round : prog fullE unit :=
  '(name, lag, ok) ← loop QGet;
  if negb ok then host (Sleep 50)
  else
    _ ← loop QLen;
    err ← ctl (reconcile name);
    match err with
    | Err _ => loop (QRetry name)
    | Ok _ => loop (QForget name)
    end.

(** One round of the loop; the answer is whether there is another. *)
Definition worker_body : prog fullE bool :=
  done ← host CtxDone;
  if (done : bool) then Ret false
  else _ ← worker_round; Ret true.

Definition worker_rounds (n : nat) : prog fullE unit := loop_rounds worker_body n.

(** The goroutine: the loop, and the deferred [wg.Done()]. *)
Definition worker : routine fullE := Loop worker_body worker_body (host WgDone).

(** ** watch.go *)

Definition enqueueExisting : prog fullE (result unit) :=
  flows ←? ctl (on_etcd Ctl.ListFlows);
  _ ← for_each flows (λ _ f, loop (QAdd (fl_Name f))) tt;
  Ret (Ok tt).

(** What the loop does with one event. *)
Definition handle_event (ev : Ctl.WatchEvent) : prog fullE unit :=
  match Ctl.we_Flow ev with
  | None => Ret tt
  | Some flow =>
      match Ctl.we_Type ev with
      | Ctl.WatchAdded => loop (QAdd (fl_Name flow))
      | Ctl.WatchUpdated => loop (QAdd (fl_Name flow))
      | Ctl.WatchDeleted => loop (QAdd (fl_Name flow))
      end
  end.

Definition watch_body : prog fullE bool :=
  sel ← host WatchSelect;
  match sel with
  | SelDone => Ret false
  | SelClosed => Ret false
  | SelEvent ev => _ ← handle_event ev; Ret true
  end.

(** The goroutine: the loop, and the deferred [watch.Stop()].  The stream is
    opened when the goroutine starts; [WatchSelect] receives its events. *)
Definition runWatch : routine fullE := Loop watch_body watch_body (host WatchStop).

(** ** Run *)

Definition workers : Z := if (c_workerCount c <? 1)%Z then 1%Z else c_workerCount c.

Definition goroutines : list (routine fullE) :=
  runWatch :: replicate (Z.to_nat workers) worker.

(** [Run] up to [<-ctx.Done()]: the goroutines it starts, or the error that
    ends it. *)
Definition Run_start : prog fullE (result (list (routine fullE))) :=
  _ ←? enqueueExisting;
  Ret (Ok goroutines).

(** [Run] from [<-ctx.Done()] on. *)
Definition Run_stop : prog fullE unit := loop QShutdown.

Definition Run_end : prog fullE unit :=
  _ ← host CtxWait;
  _ ← Run_stop;
  host WgWait.

End Controller.
