(* ===== verification/ControllerProps.v ===== *)
(** * Properties of the controller

    Names and events read off etcd keys, the seeding of the queue, what a
    reconcile establishes, and what a worker does with the keys it takes. *)
From S2P Require Import Prelude GoStd GoStdFacts Prog Goroutines Messages Etcd Codec ApiStore ApiStoreSpec.
From S2P Require Import ApiStoreProps Kube Runtime RuntimeProps ControllerStore WorkQueue Controller.

(** ** Keys shared with the API *)
Lemma ctl_keys name v :
  Ctl.activeKey name = activeKey name ∧ Ctl.versionSpecKey name v = versionSpecKey name v ∧
  Ctl.statusKey name = statusKey name.
Proof. done. Qed.

Lemma key_name_path segs name last :
  segs ≠ [] → Forall (λ s, proper_seg s = true) (segs ++ [name; last]) →
  Ctl.key_name (abs_path (segs ++ [name; last])) = name.
Proof.
  intros Hne Hs. unfold Ctl.key_name.
  change [name; last] with ([name] ++ [last]) in *. rewrite app_assoc in *.
  rewrite Dir_abs_path by (try done; by destruct segs).
  apply Base_abs_path. by apply Forall_app in Hs as [? _].
Qed.

Lemma key_name_active name : proper_seg name = true → Ctl.key_name (activeKey name) = name.
Proof.
  intros Hn. rewrite activeKey_proper by done.
  apply (key_name_path ["flowpipe"; "flows"]); [done|]. solve_segs.
Qed.

Lemma active_suffix name :
  proper_seg name = true → strings.HasSuffix (activeKey name) "/active" = true.
Proof.
  intros Hn. rewrite activeKey_proper by done. apply HasSuffix_spec.
  exists (abs_path ["flowpipe"; "flows"; name]). change "/active" with (abs_path ["active"]).
  by rewrite <-abs_path_app.
Qed.

Lemma not_active_suffix segs last :
  Forall (λ s, proper_seg s = true) (segs ++ [last]) → last ≠ "active" →
  strings.HasSuffix (abs_path (segs ++ [last])) "/active" = false.
Proof.
  intros Hs Hne. apply not_true_iff_false. intros [t Ht]%HasSuffix_spec.
  change "/active" with (String "/" "active") in Ht.
  apply (f_equal (λ s, strings.Split s "/")) in Ht.
  rewrite Split_abs_path, Split_concat in Ht by done. cbn in Ht.
  rewrite app_comm_cons in Ht. by apply app_inj_tail in Ht as [_ ?].
Qed.

Section Store.
Context `{Codec} {S : Type} `{EtcdService S}.

Lemma wp_GetActiveFlow name s Φ :
  (∀ r s', kvs s' = kvs s → (∀ spec v, r = Ok (spec, v) →
     match spec with
     | Some sp => Spec.a_active (abs (kvs s) name) = Some v ∧
         Spec.a_spec (abs (kvs s) name) v = Some sp
     | None => kvs s !! activeKey name = None ∨
         (Spec.a_active (abs (kvs s) name) = Some v ∧ kvs s !! versionSpecKey name v = None)
     end) → Φ r s') →
  wp etcd_exec (Ctl.GetActiveFlow name) s Φ.
Proof.
  intros HΦ. unfold Ctl.GetActiveFlow. apply wp_try, wp_Get; [by intros; apply HΦ|..].
  - intros s1 Hs1 Hnone. apply wp_ret, HΦ; [done|]. intros spec v [= <- <-]. by left.
  - intros kv s1 Hs1 Hkv. destruct (strconv.ParseUint _ 64) as [v|] eqn:Hp;
      [|by apply wp_ret, HΦ].
    assert (Spec.a_active (abs (kvs s) name) = Some v) as Ha.
    { unfold abs. cbn. change (Ctl.activeKey name) with (activeKey name) in Hkv.
      rewrite Hkv. done. }
    apply wp_try, wp_Get; rewrite Hs1.
    + intros e s2 Hs2. by apply HΦ.
    + intros s2 Hs2 Hnone. apply wp_ret, HΦ; [done|]. intros ? ? [= <- <-]. by right.
    + intros kv2 s2 Hs2 Hkv2. destruct (spec_Unmarshal _) as [sp|] eqn:Hu; apply wp_ret, HΦ;
        try done.
      intros ? ? [= <- <-]. split; [done|]. unfold abs. cbn.
      change (Ctl.versionSpecKey name v) with (versionSpecKey name v) in Hkv2.
      rewrite Hkv2. cbn. unfold decode. by rewrite Hu.
Qed.

Lemma wp_GetActiveFlow_available P name s :
  available P → P s → proper_seg name = true → store_ok (kvs s) →
  wp etcd_exec (Ctl.GetActiveFlow name) s (λ r s', is_ok r = true ∧ P s').
Proof.
  intros HP Hs Hn Hok. unfold Ctl.GetActiveFlow.
  apply wp_try, (wp_Get_available P); [done..|]. intros l s1 HP1 Hs1 Hl.
  destruct l as [|kv l]; [by apply wp_ret|]. symmetry in Hl. cbn in Hl.
  destruct (Hok name Hn) as [Ha Hvs]. destruct (Ha _ Hl) as (n & H64 & -> & [b Hb]).
  rewrite ParseUint_FormatUint by done.
  apply wp_try, (wp_Get_available P); [done..|]. intros l2 s2 HP2 Hs2 Hl2.
  change (Ctl.versionSpecKey name n) with (versionSpecKey name n) in Hl2.
  rewrite Hs1, Hb in Hl2. destruct l2 as [|kv2 l2]; [done|]. injection Hl2 as ->.
  destruct (Hvs n b H64 Hb) as (spec & -> & _). by apply wp_ret.
Qed.

(** The controller's write touches the status and nothing else. *)
Lemma status_abs m name st data :
  proper_seg name = true → status_Marshal st = Ok data →
  abs (<[statusKey name := data]> m) ≡
    Spec.update name (Spec.Build_AFlow (Spec.a_active (abs m name)) (Spec.a_spec (abs m name))
      (Some st)) (abs m).
Proof.
  intros Hn Hd x Hx. unfold Spec.update. case_decide as E.
  - subst. split_and!; intros; cbn.
    + rewrite lookup_insert_ne; [done|]. intros E. symmetry in E. by apply active_ne_status in E.
    + by rewrite lookup_insert_ne by by apply status_ne_version.
    + rewrite lookup_insert_eq. cbn. unfold decode. by rewrite (status_roundtrip _ _ Hd).
  - split_and!; intros; cbn.
    + rewrite lookup_insert_ne; [done|]. intros E'. symmetry in E'. by apply active_ne_status in E'.
    + by rewrite lookup_insert_ne by by apply status_ne_version.
    + rewrite lookup_insert_ne; [done|]. intros E'. apply E. symmetry. by apply statusKey_inj.
Qed.

Lemma status_stored m name data :
  proper_seg name = true → store_ok m → store_ok (<[statusKey name := data]> m).
Proof.
  intros Hn Hm x Hx. destruct (Hm x Hx) as [Ha Hv]. split.
  - intros v. rewrite lookup_insert_ne
      by (intros E; symmetry in E; by apply active_ne_status in E).
    intros Hl. destruct (Ha v Hl) as (n & ? & ? & ?). exists n. split_and!; [done..|].
    by rewrite lookup_insert_ne by by apply status_ne_version.
  - intros n b Hb. rewrite lookup_insert_ne by by apply status_ne_version. by apply Hv.
Qed.
End Store.

(** ** Listing flows *)

(** Active pointers belong to flows with proper names. *)
Definition proper_store (m : gmap string string) : Prop :=
  ∀ k, strings.HasPrefix k "/flowpipe/flows/" = true → is_Some (m !! k) →
    strings.HasSuffix k "/active" = true → ∃ name, proper_seg name = true ∧ k = activeKey name.

Definition listed `{Codec} (m : gmap string string) (name : string) (f : Flow) : Prop :=
  proper_seg name = true ∧ ∃ v spec, Spec.a_active (abs m name) = Some v ∧
    Spec.a_spec (abs m name) v = Some spec ∧ f = Build_Flow name 0 (Some spec) None.

Section List.
Context `{Codec} `{GoRuntime} {S : Type} `{EtcdService S}.

(** One round of the loop, at the active pointer of a proper name. *)
Lemma wp_list_step P s0 name kv flows s (Φ : gmap string Flow → S → Prop) :
  available P → P s → proper_seg name = true → store_ok (kvs s0) → kvs s = kvs s0 →
  kv_Key kv = activeKey name → kvs s0 !! activeKey name = Some (kv_Value kv) →
  (∀ f s', P s' → kvs s' = kvs s0 → listed (kvs s0) name f → Φ (<[name := f]> flows) s') →
  wp etcd_exec (Ctl.list_step flows kv) s Φ.
Proof.
  intros HP Hs Hn Hok Hs0 Hkey Hval HΦ. unfold Ctl.list_step.
  rewrite Hkey, active_suffix, key_name_active by done. cbn [negb].
  destruct (Hok name Hn) as [Ha Hvs]. destruct (Ha _ Hval) as (n & H64 & Hv & [b Hb]).
  rewrite Hv, ParseUint_FormatUint by done.
  apply wp_bind, (wp_Get_available P); [done..|]. intros l2 s2 HP2 Hs2 Hl2.
  change (Ctl.versionSpecKey name n) with (versionSpecKey name n) in Hl2.
  rewrite Hs0, Hb in Hl2. destruct l2 as [|kv2 l2]; [done|]. injection Hl2 as ->.
  destruct (Hvs n b H64 Hb) as (spec & Hu & _). rewrite Hu. apply wp_ret, HΦ; [done|congruence|].
  split; [done|]. exists n, spec. unfold abs. cbn. rewrite Hval, Hb. cbn.
  rewrite Hv, ParseUint_FormatUint by done. unfold decode. by rewrite Hu.
Qed.

(** The flows found while reading the keys [l']: those whose pointer was
    among the keys already read. *)
Definition list_inv (P : S → Prop) (m : gmap string string) (l' : list KeyValue)
    (flows : gmap string Flow) (s : S) : Prop :=
  P s ∧ kvs s = m ∧
  (∀ kv, kv ∈ l' → strings.HasPrefix (kv_Key kv) "/flowpipe/flows/" = true ∧
     m !! kv_Key kv = Some (kv_Value kv)) ∧
  (∀ name f, flows !! name = Some f → listed m name f) ∧
  (∀ name, proper_seg name = true → is_Some (m !! activeKey name) →
     (∃ kv, kv ∈ l' ∧ kv_Key kv = activeKey name) ∨ is_Some (flows !! name)).

Lemma list_inv_step P m kv l' flows s :
  available P → store_ok m → proper_store m → list_inv P m (kv :: l') flows s →
  wp etcd_exec (Ctl.list_step flows kv) s (λ flows' s', list_inv P m l' flows' s').
Proof.
  intros HP Hok Hprop (Hs & Hm & Hl & Hf & Hall). subst m.
  destruct (Hl kv ltac:(by left)) as [Hpre Hval].
  assert (∀ x, x ∈ l' → strings.HasPrefix (kv_Key x) "/flowpipe/flows/" = true ∧
    kvs s !! kv_Key x = Some (kv_Value x)) as Hl' by (intros x Hx; apply Hl; by right).
  destruct (strings.HasSuffix (kv_Key kv) "/active") eqn:Hsuf.
  - destruct (Hprop _ Hpre ltac:(by eexists) Hsuf) as (name & Hn & Hkey).
    rewrite Hkey in Hval. eapply (wp_list_step P s name); [done..|].
    intros f s' HP' Hs' Hlisted. split_and!; [done|done|done|..].
    + intros x g. rewrite lookup_insert_Some. intros [[<- <-]|[_ Hg]]; [done|by apply Hf].
    + intros x Hx Hact. destruct (decide (name = x)) as [<-|Hne].
      { right. rewrite lookup_insert_eq. by eexists. }
      rewrite lookup_insert_ne by done. destruct (Hall x Hx Hact) as [(kv' & Hin & Hk')|]; [|by right].
      apply elem_of_cons in Hin as [->|Hin]; [|left; eauto].
      rewrite Hkey in Hk'. by apply activeKey_inj in Hk'.
  - unfold Ctl.list_step. rewrite Hsuf. apply wp_ret. split_and!; [done..|].
    intros x Hx Hact. destruct (Hall x Hx Hact) as [(kv' & Hin & Hk')|]; [|by right].
    apply elem_of_cons in Hin as [->|Hin]; [|left; eauto].
    by rewrite Hk', active_suffix in Hsuf.
Qed.

Lemma active_prefix name :
  proper_seg name = true → strings.HasPrefix (activeKey name) "/flowpipe/flows/" = true.
Proof.
  intros Hn. rewrite activeKey_proper by done.
  change "/flowpipe/flows/" with (abs_path ["flowpipe"; "flows"] +:+ "/").
  apply HasPrefix_abs_path; [solve_segs..|]. by exists [name; "active"].
Qed.

Lemma wp_Ctl_ListFlows P s :
  available P → P s → store_ok (kvs s) → proper_store (kvs s) →
  wp etcd_exec Ctl.ListFlows s (λ r s', P s' ∧ kvs s' = kvs s ∧ ∃ flows, r = Ok flows ∧
    NoDup (fl_Name <$> flows) ∧ Forall (λ f, listed (kvs s) (fl_Name f) f) flows ∧
    ∀ name, proper_seg name = true → is_Some (kvs s !! activeKey name) → name ∈ fl_Name <$> flows).
Proof.
  intros HP Hs Hok Hprop. unfold Ctl.ListFlows. apply wp_try, wp_call. intros r s1 Hx.
  pose proof (available_step P HP _ (GetPrefix (Ctl.rootPrefix +:+ "/")) s Hs) as HP1.
  pose proof (available_GetPrefix P HP (Ctl.rootPrefix +:+ "/") s Hs) as Hget.
  rewrite Hx in HP1, Hget.
  destruct (GetPrefix_spec _ _ _ _ Hx) as [Hs1 Hl]. destruct r as [l|]; [|done].
  destruct (Hl l eq_refl) as [Hperm _].
  assert (∀ k v, (k, v) ∈ kv_pair <$> l ↔
    strings.HasPrefix k "/flowpipe/flows/" = true ∧ kvs s !! k = Some v) as Hmem.
  { intros k v. rewrite Hperm, elem_of_map_to_list, lookup_with_prefix.
    change (Ctl.rootPrefix +:+ "/") with "/flowpipe/flows/".
    destruct (strings.HasPrefix k _); naive_solver. }
  apply wp_bind. eapply wp_mono; [apply (wp_for_each _ (list_inv P (kvs s)))|].
  - split_and!; [done|done| |done|].
    + intros kv Hkv. apply Hmem. by apply (list_elem_of_fmap_2 kv_pair).
    + intros name Hn [v Hv]. left.
      assert ((activeKey name, v) ∈ kv_pair <$> l) as (kv & Hkv & Hin)%list_elem_of_fmap
        by (apply Hmem; split; [by apply active_prefix|done]).
      exists kv. split; [done|]. by injection Hkv.
  - intros kv l' flows s'. by apply list_inv_step.
  - intros flows s' (HP' & Hs' & _ & Hf & Hall). apply wp_ret. split_and!; [done..|].
    eexists. split; [done|].
    assert (∀ n f, (n, f) ∈ range_map flows → fl_Name f = n ∧ listed (kvs s) n f) as Hin.
    { intros n f Hnf. apply range_map_elem, Hf in Hnf. split; [|done].
      by destruct Hnf as (_ & v & spec & _ & _ & ->). }
    assert (fl_Name <$> (range_map flows).*2 = (range_map flows).*1) as Hnames.
    { rewrite <-list_fmap_compose. apply list_fmap_ext. intros i [n f] Hi. cbn.
      by destruct (Hin n f (list_elem_of_lookup_2 _ _ _ Hi)). }
    rewrite Hnames. split_and!.
    + apply range_map_keys.
    + apply Forall_fmap, Forall_forall. intros [n f] Hnf. cbn. by destruct (Hin n f Hnf) as [-> ?].
    + intros name Hn Hact. destruct (Hall name Hn Hact) as [(kv & Hkv & _)|[f Hfl]].
      * by apply elem_of_nil in Hkv.
      * apply list_elem_of_fmap. exists (name, f). split; [done|]. by apply range_map_elem.
Qed.
End List.

(** ** Reconcile *)
Section Reconcile.
Context `{Codec} `{GoRuntime} `{RuntimeEncoding}.
Context {S : Type} `{EtcdService S} {K : Type} `{KubeService K}.
Context {T : Type} (clock : handler clockE T) (c : Controller).

Definition ctl_exec : handler ctlE (S * K * T) :=
  sum_handler (sum_handler etcd_exec kube_exec) clock.

Lemma wp_on_etcd {A} (p : prog etcdE A) s k t (Φ : A → S * K * T → Prop) :
  wp etcd_exec p s (λ a s', Φ a (s', k, t)) → wp ctl_exec (on_etcd p) (s, k, t) Φ.
Proof. intros Hw. by apply wp_liftL, wp_liftL. Qed.

Lemma run_on_etcd {A} (p : prog etcdE A) s k t :
  run ctl_exec (on_etcd p) (s, k, t) = ((run etcd_exec p s).1, ((run etcd_exec p s).2, k, t)).
Proof. unfold ctl_exec, on_etcd, ctlE. by rewrite !run_liftL. Qed.

Lemma wp_on_kube {A} (p : prog kubeE A) s k t (Φ : A → S * K * T → Prop) :
  wp kube_exec p k (λ a k', Φ a (s, k', t)) → wp ctl_exec (on_kube p) (s, k, t) Φ.
Proof. intros Hw. by apply wp_liftL, wp_liftR. Qed.

Lemma wp_Now s k t (Φ : Timestamp → S * K * T → Prop) :
  (∀ now t', Φ now (s, k, t')) → wp ctl_exec (on_clock (call Now)) (s, k, t) Φ.
Proof. intros HΦ. apply wp_liftR, wp_call. intros now t' _. apply HΦ. Qed.

(** The spec's configuration is stored, and its workload is as asked for,
    with the namespace, the pull policy and the like a reconcile uses; only a
    Job that was there before stays the one it was ([workload_applied]). *)
Definition deployed (spec : FlowSpec) (k k' : cluster) : Prop :=
  ensured (c_runtimeNamespace c) spec (pullPolicyFromSpec (Some spec))
    (c_observabilityEnabled c) (c_otelEndpoint c) k k'.

(** The status a successful reconcile leaves. *)
Definition reports (spec : FlowSpec) (v : N) (st : FlowStatus) : Prop :=
  ∃ now, st = deploying_status v (workload_name (workload_kind spec) (fs_Name spec)) now.

Definition reconciled (name : string) (s : S) (k : K) (r : result unit) (s' : S) (k' : K) :
    Prop :=
  let a := abs (kvs s) name in
  store_ok (kvs s') ∧
  (∀ key, key ≠ statusKey name → kvs s' !! key = kvs s !! key) ∧
  unchanged_but (flow_objects (c_runtimeNamespace c) name) (objects k) (objects k') ∧
  match Spec.a_active a with
  | None => kvs s' = kvs s ∧ (is_ok r = true →
      ∀ key, key ∈ flow_objects (c_runtimeNamespace c) name → objects k' key.1 !! key.2 = None)
  | Some v => is_ok r = true → ∃ spec st,
      Spec.a_spec a v = Some spec ∧ fs_Name spec = name ∧ fs_Version spec = v ∧
      deployed spec (objects k) (objects k') ∧ reports spec v st ∧
      Spec.a_status (abs (kvs s') name) = Some st
  end.

Lemma touched_flow_objects spec ns : touched ns spec ⊆ flow_objects ns (fs_Name spec).
Proof.
  intros x [->|[->|[]%elem_of_nil]%elem_of_cons]%elem_of_cons; apply list_elem_of_fmap.
  - exists ConfigMaps. split; [done|]. apply (bool_decide_unpack _). done.
  - exists (workload_kind spec). split; [done|]. destruct (workload_kind spec);
      by apply (bool_decide_unpack _).
Qed.

Lemma active_stored m name v :
  store_ok m → proper_seg name = true → Spec.a_active (abs m name) = Some v →
  ∃ b spec, in64 v ∧ m !! versionSpecKey name v = Some b ∧ spec_Unmarshal b = Ok spec ∧
    Spec.a_spec (abs m name) v = Some spec ∧ fs_Name spec = name ∧ fs_Version spec = v.
Proof.
  intros Hok Hn Hv. destruct (Hok name Hn) as [Ha Hvs]. unfold abs in Hv. cbn in Hv.
  destruct (m !! activeKey name) as [a|] eqn:Hact; [|done]. cbn in Hv.
  destruct (Ha a Hact) as (n & H64 & -> & [b Hb]). rewrite ParseUint_FormatUint in Hv by done.
  injection Hv as ->. destruct (Hvs v b H64 Hb) as (spec & Hu & ? & ?).
  exists b, spec. split_and!; try done. unfold abs. cbn. rewrite Hb. cbn. unfold decode.
  by rewrite Hu.
Qed.

Lemma wp_reconcile name s k t :
  proper_seg name = true → store_ok (kvs s) → c_kube c = true →
  wp ctl_exec (reconcile c name) (s, k, t)
    (λ r st, reconciled name s k r st.1.1 st.1.2).
Proof.
  intros Hn Hok Hkube. unfold reconcile.
  assert (name ≠ "") as Hne by (apply proper_seg_spec in Hn; naive_solver).
  apply wp_try, wp_on_etcd, wp_GetActiveFlow. intros r s1 Hs1 Hr.
  destruct r as [[spec v]|e].
  2: { unfold reconciled; cbn [fst snd is_ok]; cbv zeta; split_and!; rewrite ?Hs1; [done|done|apply unchanged_but_refl|].
       destruct (Spec.a_active (abs (kvs s) name)); [done|by split]. }
  specialize (Hr spec v eq_refl). destruct spec as [spec|].
  - destruct Hr as [Ha Hsp].
    destruct (active_stored _ _ _ Hok Hn Ha) as (b & sp & _ & _ & _ & Hsp' & Hname & Hver).
    assert (sp = spec) as -> by congruence.
    rewrite Hkube. apply wp_bind, wp_on_kube, wp_ensureRuntime. intros [w err] k1 Hu Hens.
    apply (unchanged_but_weaken _ (flow_objects (c_runtimeNamespace c) name)) in Hu;
      [|rewrite <-Hname; apply touched_flow_objects].
    destruct err as [e|]; [|destruct (Hens eq_refl) as (Hw & _ & _ & Hens')]; cbn [fst snd] in *.
    { apply wp_ret. unfold reconciled; cbn [fst snd is_ok]; cbv zeta; split_and!; rewrite ?Hs1; [done|done|done|]. by rewrite Ha. }
    apply wp_bind, wp_Now. intros now t1.
    set (st := deploying_status v w now). unfold Ctl.UpdateStatus.
    destruct (status_Marshal st) as [data|e] eqn:Hd; apply wp_on_etcd.
    2: { apply wp_ret. unfold reconciled; cbn [fst snd is_ok]; cbv zeta; split_and!; rewrite ?Hs1; [done|done|done|]. by rewrite Ha. }
    assert (∀ s2, kvs s2 = <[statusKey name := data]> (kvs s1) → store_ok (kvs s2) ∧
      (∀ key, key ≠ statusKey name → kvs s2 !! key = kvs s !! key) ∧
      Spec.a_status (abs (kvs s2) name) = Some st) as Hwrite.
    { intros s2 Hs2. rewrite Hs2, Hs1. split_and!.
      - by apply status_stored.
      - intros key Hkey. by apply lookup_insert_ne.
      - unfold abs. cbn. rewrite lookup_insert_eq. cbn. unfold decode.
        by rewrite (status_roundtrip _ _ Hd). }
    apply wp_Put.
    + intros s2 Hs2. destruct (Hwrite s2 Hs2) as (? & ? & ?). unfold reconciled; cbn [fst snd is_ok]; cbv zeta; split_and!; [done..|].
      rewrite Ha. intros _. exists spec, st. split_and!; try done. exists now. by subst.
    + intros e s2 [Hs2|Hs2]; unfold reconciled; cbn [fst snd is_ok]; cbv zeta; split_and!; rewrite ?Ha; try done.
      * by apply Hwrite.
      * by apply Hwrite.
      * by rewrite Hs2, Hs1.
      * by rewrite Hs2, Hs1.
  - assert (Spec.a_active (abs (kvs s) name) = None) as Ha.
    { destruct Hr as [Hnone|[Ha Hmiss]]; [unfold abs; cbn; by rewrite Hnone|].
      destruct (active_stored _ _ _ Hok Hn Ha) as (b & sp & _ & Hb & _).
      by rewrite Hb in Hmiss. }
    rewrite Hkube. apply wp_on_kube, wp_deleteRuntimeResources; [done|].
    intros r k' Hu Hpost. unfold reconciled; cbn [fst snd is_ok]; cbv zeta; split_and!; rewrite ?Hs1; [done|done|done|].
    rewrite Ha. split; [done|]. intros Hr'. destruct r as [u|]; [|done].
    intros key (kd & -> & Hkd)%list_elem_of_fmap. by rewrite Forall_forall in Hpost; apply Hpost.
Qed.

Definition encodable (spec : FlowSpec) : Prop :=
  runtime_image spec ≠ "" ∧ ∃ json yaml, spec_JSON spec = Ok json ∧ JSONToYAML json = Ok yaml.

(** The statuses a reconcile of [name] may write can be encoded. *)
Definition status_encodable (name : string) : Prop :=
  ∀ v kd now t t', clock _ Now t = (now, t') → in64 v →
    is_ok (status_Marshal (deploying_status v (workload_name kd name) now)) = true.

Lemma wp_reconcile_available P Q name s k t :
  available P → kube_available Q → P s → Q k → proper_seg name = true → store_ok (kvs s) →
  c_kube c = true → status_encodable name →
  (∀ v spec, Spec.a_active (abs (kvs s) name) = Some v →
     Spec.a_spec (abs (kvs s) name) v = Some spec → encodable spec) →
  wp ctl_exec (reconcile c name) (s, k, t)
    (λ r st, is_ok r = true ∧ P st.1.1 ∧ Q st.1.2).
Proof.
  intros HP HQ Hs Hk Hn Hok Hkube Hst Hspec. unfold reconcile.
  assert (name ≠ "") as Hne by (apply proper_seg_spec in Hn; naive_solver).
  apply wp_try, wp_on_etcd. apply run_wp. intros r s1 Hr.
  pose proof (wp_run _ _ _ _ _ _ (wp_GetActiveFlow_available P name s HP Hs Hn Hok) Hr)
    as [Hrok HP1].
  destruct r as [[[spec|] v]|]; [| |done].
  - assert (Spec.a_active (abs (kvs s) name) = Some v ∧
      Spec.a_spec (abs (kvs s) name) v = Some spec) as [Ha Hsp].
    { refine (wp_run etcd_exec (Ctl.GetActiveFlow name) s (λ r _, r = Ok (Some spec, v) →
        Spec.a_active (abs (kvs s) name) = Some v ∧
        Spec.a_spec (abs (kvs s) name) v = Some spec) _ s1 _ Hr eq_refl).
      apply wp_GetActiveFlow. intros r s' _ Hr' E. by specialize (Hr' _ _ E). }
    destruct (active_stored _ _ _ Hok Hn Ha) as (b & sp & H64 & _ & _ & Hsp' & Hname & _).
    assert (sp = spec) as -> by congruence.
    destruct (Hspec v spec Ha Hsp) as (Himg & json & yaml & Hj & Hy).
    rewrite Hkube. apply wp_bind, wp_on_kube. apply run_wp. intros [w err] k1 Hr1.
    assert (fs_Name spec ≠ "") as Hsn by congruence.
    destruct (ensureRuntime_ok Q (c_runtimeNamespace c) spec (pullPolicyFromSpec (Some spec))
      (c_observabilityEnabled c) (c_otelEndpoint c) k json yaml HQ Hk Hsn Himg Hj Hy)
      as (k2 & Hr2 & HQ2).
    rewrite Hr1 in Hr2. injection Hr2 as -> -> ->. cbn [fst snd].
    apply wp_bind, wp_liftR, wp_call. intros now t1 Hnow. unfold Ctl.UpdateStatus.
    specialize (Hst v (workload_kind spec) now t t1 Hnow H64). rewrite <-Hname in Hst.
    destruct (status_Marshal _) as [data|]; [|done].
    destruct (exec_Put P (Ctl.statusKey name) data s1 HP HP1) as (s2 & Hx & HP2 & _).
    apply wp_on_etcd, wp_call. intros r s3 Hx3. rewrite Hx in Hx3. by injection Hx3 as <- <-.
  - rewrite Hkube. apply wp_on_kube. eapply wp_mono; [by apply wp_delete_available|].
    by intros r k' [? ?].
Qed.
End Reconcile.

(** ** The worker and the queue *)

(** What the queue sees of a run. *)
Inductive qrec :=
  | RGet (key : string) (ok : bool)
  | RAdd (key : string)
  | RForget (key : string)
  | RRetry (key : string).

Definition queue_record (x : {X & (fullE X * X)%type}) : option qrec :=
  match x with
  | existT X (inrE e, r) =>
      match e in loopE Y return Y → option qrec with
      | QGet => λ r, Some (RGet r.1.1 r.2)
      | QAdd k => λ _, Some (RAdd k)
      | QForget k => λ _, Some (RForget k)
      | QRetry k => λ _, Some (RRetry k)
      | _ => λ _, None
      end r
  | _ => None
  end.

Definition queue_records (l : list {X & (fullE X * X)%type}) : list qrec := omap queue_record l.

Section Worker.
Context `{Codec} `{GoRuntime} `{RuntimeEncoding} {W : Type} (h : handler fullE W)
  (c : Controller).

(** Every key handed out is given back once, before the next is asked for:
    retried if its reconcile failed, forgotten if it succeeded. *)
Inductive rounds : list qrec → Prop :=
  | rounds_nil : rounds []
  | rounds_idle k l : rounds l → rounds (RGet k false :: l)
  | rounds_work k w l :
      rounds l →
      rounds (RGet k true ::
        (if is_ok (run h (ctl (reconcile c k)) w).1 then RForget k else RRetry k) :: l).

Lemma ctl_no_records {A} (p : prog ctlE A) w : queue_records (history h (ctl p) w) = [].
Proof.
  unfold ctl, liftL. revert w. induction p as [a|X e k IH]; intros w; [done|]. cbn. apply IH.
Qed.

Lemma round_records w l :
  rounds l → rounds (queue_records (history h (worker_round c) w) ++ l).
Proof.
  intros Hl. unfold worker_round. rewrite history_bind.
  unfold loop, liftR, call. cbn [translate history run app].
  destruct (h _ (inrE QGet) w) as [[[k lag] ok] w1] eqn:Hget. cbn [fst snd].
  unfold queue_records. cbn [omap list_omap queue_record fst snd].
  destruct ok; cbn [negb]; [|by apply rounds_idle].
  rewrite history_bind. cbn [history run app omap list_omap queue_record].
  set (w2 := (h _ (inrE QLen) w1).2).
  rewrite history_bind, omap_app. fold (queue_records (history h (ctl (reconcile c k)) w2)).
  rewrite ctl_no_records. cbn [app fst snd].
  pose proof (rounds_work k w2 l Hl) as Hr.
  by destruct (run h (ctl (reconcile c k)) w2) as [[u|e] w3].
Qed.

Lemma worker_records n w : rounds (queue_records (history h (worker_rounds c n) w)).
Proof.
  unfold worker_rounds. revert w. induction n as [|n IH]; intros w; [constructor|]. cbn [loop_rounds].
  set (K := λ again : bool, if again then _ else _). unfold worker_body, host, loop, liftR, call.
  rewrite history_bind, history_bind, run_bind. cbn [translate history run].
  unfold queue_records. rewrite !omap_app. cbn [omap list_omap queue_record app].
  destruct (h _ (inrE (Host CtxDone)) w) as [[] w1]; cbn [fst snd]; [constructor|].
  rewrite history_bind, run_bind, omap_app. cbn [run history omap list_omap fst snd].
  rewrite app_nil_r. apply round_records, IH.
Qed.
End Worker.

(** ** Properties *)
Section Properties.
Context `{Codec} `{GoRuntime} `{RuntimeEncoding}.
Context {S : Type} `{EtcdService S} {K : Type} `{KubeService K}.
Context {T : Type} (clock : handler clockE T) (c : Controller).

(** For proper names the controller reads off an active key the very
    flow the API stored there; for a name with a slash, which the API
    accepts and lists under its full name, the controller sees another
    flow. *)
Lemma controller_names_flows name team flow :
  proper_seg name = true → proper_seg team = true → proper_seg flow = true →
  Ctl.key_name (activeKey name) = name ∧ list_name (activeKey name) = name ∧
  Ctl.activeKey name = activeKey name ∧
  let nested := team +:+ "/" +:+ flow in
  list_name (activeKey nested) = nested ∧ Ctl.key_name (activeKey nested) = flow ∧
  flow ≠ nested.
Proof.
  intros Hn Ht Hf. assert (∀ x, list_name ("/flowpipe/flows/" +:+ x +:+ "/active") = x) as Hlist.
  { intros x. unfold list_name. change (rootPrefix +:+ "/") with "/flowpipe/flows/".
    by rewrite TrimPrefix_app, TrimSuffix_app. }
  assert (activeKey (team +:+ "/" +:+ flow) =
    abs_path ["flowpipe"; "flows"; team; flow; "active"]) as Hnested.
  { unfold activeKey, flowPrefix.
    change (path.Join [rootPrefix; team +:+ "/" +:+ flow])
      with (path.Join [rootPrefix; team; flow]).
    change rootPrefix with (abs_path ["flowpipe"; "flows"]).
    rewrite (Join_abs_path ["flowpipe"; "flows"] [team; flow]) by solve_segs.
    by rewrite Join_abs_path by solve_segs. }
  cbv zeta. split_and!; [by apply key_name_active| |done|..].
  - rewrite activeKey_proper by done. rewrite <-(Hlist name) at 2. done.
  - rewrite Hnested, <-(Hlist (team +:+ "/" +:+ flow)) at 1.
    by rewrite !abs_path_cons, !append_assoc.
  - rewrite Hnested. apply (key_name_path ["flowpipe"; "flows"; team]); [done|solve_segs].
  - intros E. apply (f_equal (λ s, lacks s "/")) in E. rewrite !lacks_app in E.
    apply proper_seg_spec in Hf as (_ & _ & _ & Hf). rewrite Hf in E. cbn in E.
    by rewrite andb_false_r in E.
Qed.

(** C22: of a flow's keys only the active pointer makes the controller act:
    a deletion is always reported; a put is reported with the spec read at
    that moment, and is dropped when that read fails; the controller's own
    status writes, and the specs, are ignored without any call. *)
Theorem watch_event_exact name ty kv created s :
  proper_seg name = true →
  let ev := Some (Ctl.Build_Event ty (Some kv) created) in
  let p := Ctl.buildWatchEvent ev Ctl.GetActiveFlow in
  (kv_Key kv = activeKey name → ty = Ctl.EventTypeDelete →
     run etcd_exec p s =
       (Some (Ctl.Build_WatchEvent Ctl.WatchDeleted (Some (Build_Flow name 0 None None))), s)) ∧
  (kv_Key kv = activeKey name → ty = Ctl.EventTypePut →
     let '(r, s') := run etcd_exec (Ctl.GetActiveFlow name) s in
     run etcd_exec p s =
       (match r with
        | Ok (spec, _) => Some (Ctl.Build_WatchEvent
            (if created then Ctl.WatchAdded else Ctl.WatchUpdated)
            (Some (Build_Flow name 0 spec None)))
        | Err _ => None
        end, s')) ∧
  (kv_Key kv = statusKey name ∨ (∃ v, kv_Key kv = versionSpecKey name v) →
     run etcd_exec p s = (None, s) ∧ trace etcd_exec p s = []).
Proof.
  intros Hn ev p. subst ev p. unfold Ctl.buildWatchEvent. cbn [Ctl.ev_Kv].
  split_and!.
  - intros -> ->. rewrite active_suffix, key_name_active by done. cbn [negb].
    unfold Ctl.event_type. cbn [Ctl.ev_Type]. by rewrite bool_decide_eq_false_2 by naive_solver.
  - intros -> ->. rewrite active_suffix, key_name_active by done. cbn [negb].
    unfold Ctl.event_type. cbn [Ctl.ev_Type Ctl.ev_IsCreate].
    rewrite bool_decide_eq_true_2 by by destruct created. rewrite run_bind.
    destruct (run etcd_exec (Ctl.GetActiveFlow name) s) as [[[spec v]|e] s']; done.
  - intros Hkey. assert (strings.HasSuffix (kv_Key kv) "/active" = false) as ->; [|done].
    destruct Hkey as [->|[v ->]].
    + rewrite statusKey_proper by done.
      apply (not_active_suffix ["flowpipe"; "flows"; name] "status"); [solve_segs|done].
    + rewrite versionSpecKey_proper by done.
      apply (not_active_suffix ["flowpipe"; "flows"; name; "versions"; strconv.FormatUint v]
        "spec"); [solve_segs|done].
Qed.

(** C21: at start-up, on an etcd that answers, the controller queues every
    flow that has an active version, each once, and nothing else. *)
Theorem startup_seeds_every_flow {L} (lh : handler loopE L) P s k t l :
  available P → P s → store_ok (kvs s) → proper_store (kvs s) →
  let h := sum_handler (ctl_exec clock) lh in
  (run h enqueueExisting (s, k, t, l)).1 = Ok tt ∧
  ∃ names, queue_records (history h enqueueExisting (s, k, t, l)) = RAdd <$> names ∧
    NoDup names ∧
    ∀ name, proper_seg name = true →
      (name ∈ names ↔ is_Some (Spec.a_active (abs (kvs s) name))).
Proof.
  intros HP Hs Hok Hprop h.
  pose proof (wp_Ctl_ListFlows P s HP Hs Hok Hprop) as Hw.
  unfold enqueueExisting, try_bind. rewrite run_bind, history_bind.
  unfold queue_records. rewrite omap_app.
  fold (queue_records (history h (ctl (on_etcd Ctl.ListFlows)) (s, k, t, l))).
  rewrite ctl_no_records. cbn [app].
  assert ((run h (ctl (on_etcd Ctl.ListFlows)) (s, k, t, l)).1 =
    (run etcd_exec Ctl.ListFlows s).1) as Hrun.
  { unfold h, ctl. rewrite run_liftL. cbn [fst]. by rewrite run_on_etcd. }
  destruct (run h (ctl (on_etcd Ctl.ListFlows)) (s, k, t, l)) as [r w]. cbn [fst snd] in *.
  unfold wp in Hw. rewrite <-Hrun in Hw.
  destruct Hw as (_ & _ & flows & -> & Hnd & Hlisted & Hall).
  assert (∀ u w,
    omap queue_record (history h (for_each flows (λ _ f, loop (QAdd (fl_Name f))) u) w) =
      RAdd <$> (fl_Name <$> flows)) as Hadds.
  { clear. induction flows as [|f flows IH]; intros u w; [done|]. cbn [for_each].
    rewrite history_bind, omap_app. unfold loop, liftR, call.
    cbn [translate history run omap list_omap queue_record app fst snd].
    cbn [fmap list_fmap]. f_equal. apply IH. }
  rewrite run_bind, history_bind, omap_app, Hadds.
  cbn [run history omap list_omap]. rewrite app_nil_r. split; [done|].
  exists (fl_Name <$> flows). split_and!; [done|done|]. intros name Hn. split.
  - intros (f & -> & Hf)%list_elem_of_fmap. rewrite Forall_forall in Hlisted.
    destruct (Hlisted f Hf) as (_ & v & spec & Ha & _). by eexists.
  - intros [v Hv]. apply Hall; [done|]. unfold abs in Hv. cbn in Hv.
    by destruct (kvs s !! activeKey name).
Qed.

(** C6: a reconcile that reports success has stored the configuration of the
    flow's active version and the workload that runs it, except that a Job
    that was there before is left as it was, and has recorded that version
    and the workload's name in the flow's status, in that exception too; for
    a flow without an active version it has removed all its objects.
    Whether it succeeds or fails, it changes no key of etcd but the flow's
    status and no object of another flow. *)
Theorem reconcile_correct name s k t r s' k' t' :
  proper_seg name = true → store_ok (kvs s) → c_kube c = true →
  run (ctl_exec clock) (reconcile c name) (s, k, t) = (r, (s', k', t')) →
  reconciled c name s k r s' k'.
Proof.
  intros Hn Hok Hk Hr.
  refine (wp_run (ctl_exec clock) _ _ (λ r st, reconciled c name s k r st.1.1 st.1.2)
    r (s', k', t') _ Hr). by apply wp_reconcile.
Qed.

(** C19: when etcd and the cluster answer, a reconcile succeeds: on a flow
    without an active version, and on one whose active spec names an image
    and can be encoded. *)
Theorem reconcile_succeeds P Q name s k t :
  available P → kube_available Q → P s → Q k → proper_seg name = true → store_ok (kvs s) →
  c_kube c = true → status_encodable clock name →
  (∀ v spec, Spec.a_active (abs (kvs s) name) = Some v →
     Spec.a_spec (abs (kvs s) name) v = Some spec → encodable spec) →
  ∃ s' k' t', run (ctl_exec clock) (reconcile c name) (s, k, t) = (Ok tt, (s', k', t')) ∧
    P s' ∧ Q k'.
Proof.
  intros HP HQ Hs Hk Hn Hok Hkube Hst Hspec.
  pose proof (wp_reconcile_available clock c P Q name s k t HP HQ Hs Hk Hn Hok Hkube Hst Hspec)
    as Hw.
  destruct (run _ _ _) as [r [[s' k'] t']] eqn:Hr. unfold wp in Hw. rewrite Hr in Hw.
  destruct Hw as (Hok' & ? & ?). destruct r as [[]|]; [|done]. by exists s', k', t'.
Qed.

(** C23: a worker gives every key it takes from the queue back exactly once
    before it takes the next: for a retry when the reconcile of that key
    failed, to be forgotten when it succeeded. *)
Theorem worker_protocol {W} (h : handler fullE W) n w :
  rounds h c (queue_records (history h (worker_rounds c n) w)).
Proof. apply worker_records. Qed.
End Properties.

(** ** Witnesses *)
Section Witnesses.
Import MemEtcd TestCodec.
#[local] Existing Instances std_runtime test_encoding.

Definition no_clock : handler clockE unit := λ X e t,
  match e with Now => (Build_Timestamp 0 0, t) end.

Definition controller : Controller := Build_Controller true "ns" true "otel" 0.

Definition ctl_run {A} (p : prog ctlE A) (s : state) (k : MemKube.state) :=
  run (ctl_exec no_clock) p (s, k, tt).

Lemma controller_names_flows_witness :
  list_name (activeKey ("team" +:+ "/" +:+ "flow")) = "team/flow" ∧
  Ctl.key_name (activeKey ("team" +:+ "/" +:+ "flow")) = "flow".
Proof.
  destruct (controller_names_flows "a" "team" "flow" eq_refl eq_refl eq_refl)
    as (_ & _ & _ & H1 & H2 & _).
  split; [exact H1|exact H2].
Defined.

Lemma watch_event_exact_witness :
  run etcd_exec (Ctl.buildWatchEvent (Some (Ctl.Build_Event Ctl.EventTypePut
    (Some (Build_KeyValue (statusKey "a") "" 3 4)) false)) Ctl.GetActiveFlow) two_flows
  = (None, two_flows).
Proof.
  apply (watch_event_exact "a" Ctl.EventTypePut (Build_KeyValue (statusKey "a") "" 3 4) false
    two_flows eq_refl). left. reflexivity.
Defined.

Lemma two_flows_proper : proper_store (kvs two_flows).
Proof.
  assert (map_Forall (λ k _, strings.HasSuffix k "/active" = true →
    k = activeKey "a" ∨ k = activeKey "ab") (kvs two_flows)) as Hf.
  { apply (bool_decide_unpack _). vm_compute. exact I. }
  intros k _ [v Hv] Hs. destruct (Hf k v Hv Hs) as [->| ->]; [exists "a"|exists "ab"]; by split.
Defined.

(** A loop environment in which nothing happens. *)
Definition idle : handler loopE unit := λ X e u,
  match e in loopE Y return Y * unit with
  | QGet => (("", 0%Z, false), u)
  | QLen => (0%Z, u)
  | QAdd _ | QForget _ | QRetry _ | QShutdown => (tt, u)
  | Host e => match e in hostE Y return Y * unit with
              | CtxDone => (true, u)
              | WatchSelect => (SelClosed, u)
              | CtxWait | Sleep _ | WatchStop | WgDone | WgWait => (tt, u)
              end
  end.

Lemma startup_seeds_every_flow_witness :
  ∃ names, queue_records (history (sum_handler (ctl_exec no_clock) idle)
      enqueueExisting (two_flows, MemKube.empty [], tt, tt)) = RAdd <$> names ∧
    "a" ∈ names ∧ "ab" ∈ names.
Proof.
  destruct (startup_seeds_every_flow no_clock idle (λ s, MemEtcd.outcomes s = []) two_flows
    (MemKube.empty []) tt tt mem_available ltac:(vm_compute; reflexivity) two_flows_ok
    two_flows_proper) as (_ & names & Hr & _ & Hn).
  exists names. split; [exact Hr|].
  split; (apply Hn; [reflexivity|]; vm_compute; eexists; reflexivity).
Defined.

Lemma reconcile_correct_witness :
  ∃ s' k' t', ctl_run (reconcile controller "a") two_flows (MemKube.empty []) =
      (Ok tt, (s', k', t')) ∧
    reconciled controller "a" two_flows (MemKube.empty []) (Ok tt) s' k'.
Proof.
  pose (x := (ctl_run (reconcile controller "a") two_flows (MemKube.empty [])).2).
  assert (ctl_run (reconcile controller "a") two_flows (MemKube.empty []) =
    (Ok tt, (x.1.1, x.1.2, x.2))) as Hr by (vm_compute; reflexivity).
  exists x.1.1, x.1.2, x.2. split; [exact Hr|].
  apply (reconcile_correct no_clock controller "a" _ _ _ _ _ _ _ eq_refl two_flows_ok eq_refl Hr).
Defined.

Lemma no_clock_encodable : status_encodable no_clock "a".
Proof.
  intros v kd now t t' [= <- <-] Hv. cbn. unfold join_fields. apply N.ltb_lt in Hv. rewrite Hv.
  destruct kd; reflexivity.
Defined.

Lemma reconcile_succeeds_witness :
  ∃ s' k' t', ctl_run (reconcile controller "a") two_flows (MemKube.empty []) =
    (Ok tt, (s', k', t')).
Proof.
  destruct (reconcile_succeeds no_clock controller (λ s, MemEtcd.outcomes s = [])
    (λ k, MemKube.m_failures k = []) "a" two_flows (MemKube.empty []) tt)
    as (s' & k' & t' & Hr & _);
    [apply mem_available|apply mem_kube_available|vm_compute; reflexivity|reflexivity|reflexivity
    |apply two_flows_ok|reflexivity|apply no_clock_encodable| |].
  - intros v spec Hv Hspec. revert Hspec. vm_compute in Hv. injection Hv as <-.
    intros Hspec. vm_compute in Hspec. injection Hspec as <-.
    split; [discriminate|]. eexists _, _. split; reflexivity.
  - exists s', k', t'. exact Hr.
Defined.
End Witnesses.
