(* ===== verification/ControllerRun.v ===== *)
(** * The goroutines of [Controller.Run] and the work queue they share

    [implement] replaces each call of the interface [WorkQueue] by the steps
    of [MemoryQueue]'s method; [start] is the pool of [Run] once it has
    started its goroutines: [Run] itself, waiting for its context, the watch
    and the workers.  The etcd, Kubernetes and clock calls are answered by an
    arbitrary handler; the queue by [mem_step], one atomic step at a time; the
    context is cancelled, and watch events arrive, at any moment.  Proved
    here: no key is lost and none processed twice at once, under every
    interleaving; and once the context is done, every interleaving ends, with
    every goroutine returned. *)
From S2P Require Import Prelude GoStd GoStdFacts Prog Goroutines Messages Etcd Codec Kube Runtime.
From S2P Require Import ControllerStore WorkQueue Controller ApiStore ApiStoreProps RuntimeProps ControllerProps.

(** ** Linking the goroutines to the queue *)

Inductive goE : Type → Type :=
  | OnCtl {X} (e : ctlE X) : goE X
  | OnQueue {X} (e : memE X) : goE X
  | OnHost {X} (e : hostE X) : goE X.

Definition implement {X} (e : fullE X) : prog goE X :=
  match e with
  | inlE e => call (OnCtl e)
  | inrE e =>
      match e in loopE X return prog goE X with
      | QAdd key => translate (@OnQueue) (Add key)
      | QGet => translate (@OnQueue) GetItem
      | QForget key => translate (@OnQueue) (Forget key)
      | QRetry key => translate (@OnQueue) (Retry key)
      | QLen => translate (@OnQueue) Len
      | QShutdown => translate (@OnQueue) Shutdown
      | Host e => call (OnHost e)
      end
  end.

Definition linked (r : routine fullE) : routine goE :=
  match r with
  | Straight p => Straight (interp (@implement) p)
  | Loop body current after =>
      Loop (interp (@implement) body) (interp (@implement) current) (interp (@implement) after)
  end.

(** What the goroutines share.  [sh_events] are the watch events sent and not
    yet received, and [sh_wg] the counter of the wait group. *)
Record shared (W Q : Type) := {
  sh_world : W;
  sh_queue : MemoryQueue Q;
  sh_done : bool;
  sh_events : list Ctl.WatchEvent;
  sh_wg : nat;
}.
Arguments Build_shared {W Q}.
Arguments sh_world {W Q}.
Arguments sh_queue {W Q}.
Arguments sh_done {W Q}.
Arguments sh_events {W Q}.
Arguments sh_wg {W Q}.

Section Semantics.
Context {W : Type} (h : handler ctlE W) {Q : Type} `{RateLimitingQueue Q}.
Implicit Types s : shared W Q.

(** [select] picks any case that is ready; a stream with nothing to receive
    may have been closed. *)
Definition host_step {X} (e : hostE X) s (x : X) s' : Prop :=
  match e in hostE X return X → Prop with
  | CtxDone => λ done, done = sh_done s ∧ s' = s
  | CtxWait => λ _, sh_done s = true ∧ s' = s
  | Sleep _ => λ _, s' = s
  | WatchSelect => λ sel,
      match sel with
      | SelDone => sh_done s = true ∧ s' = s
      | SelClosed => sh_events s = [] ∧ s' = s
      | SelEvent ev => ∃ rest, sh_events s = ev :: rest ∧
          s' = Build_shared (sh_world s) (sh_queue s) (sh_done s) rest (sh_wg s)
      end
  | WatchStop => λ _, s' = s
  | WgDone => λ _,
      s' = Build_shared (sh_world s) (sh_queue s) (sh_done s) (sh_events s) (pred (sh_wg s))
  | WgWait => λ _, sh_wg s = 0 ∧ s' = s
  end x.

Definition go_step X (e : goE X) s (x : X) s' : Prop :=
  match e in goE X return X → Prop with
  | OnCtl e => λ x, x = (h _ e (sh_world s)).1 ∧
      s' = Build_shared (h _ e (sh_world s)).2 (sh_queue s) (sh_done s) (sh_events s) (sh_wg s)
  | OnQueue e => λ x, ∃ m', mem_step e (sh_queue s) x m' ∧
      s' = Build_shared (sh_world s) m' (sh_done s) (sh_events s) (sh_wg s)
  | OnHost e => λ x, host_step e s x s'
  end x.

(** The context is cancelled, once, and until then events arrive: the stream
    is opened with that context. *)
Definition outside s s' : Prop :=
  sh_done s = false ∧
  (s' = Build_shared (sh_world s) (sh_queue s) true (sh_events s) (sh_wg s) ∨
   ∃ ev, s' = Build_shared (sh_world s) (sh_queue s) (sh_done s) (sh_events s ++ [ev]) (sh_wg s)).
End Semantics.

(** ** What the log reports of the queue *)

Inductive act :=
  | Added (key : string)
  | Got (key : string)
  | RateLimited (key : string)
  | Forgotten (key : string)
  | Done (key : string).

#[export] Instance act_eq_dec : EqDecision act.
Proof. solve_decision. Defined.

Definition queue_act {X} (e : memE X) : X → option act :=
  match e in memE X return X → option act with
  | QueueAdd key => λ _, Some (Added key)
  | QueueGet => λ item, Got <$> item
  | QueueAddRateLimited key => λ _, Some (RateLimited key)
  | QueueForget key => λ _, Some (Forgotten key)
  | QueueDone key => λ _, Some (Done key)
  | _ => λ _, None
  end.

Definition go_note X (e : goE X) (x : X) : option act :=
  match e in goE X return X → option act with
  | OnQueue e => queue_act e
  | _ => λ _, None
  end x.

(** What a goroutine is doing with a key, and how that changes; [None] is a
    breach of the protocol. *)
Inductive work :=
  | Idle
  | Holding (key : string)
  | Failing (key : string)
  | Succeeding (key : string).

Definition move (φ : work) (a : act) : option work :=
  match a, φ with
  | Added _, _ => Some φ
  | Got k, Idle => Some (Holding k)
  | RateLimited k, Holding k' => if decide (k = k') then Some (Failing k) else None
  | Forgotten k, Holding k' => if decide (k = k') then Some (Succeeding k) else None
  | Done k, (Failing k' | Succeeding k') => if decide (k = k') then Some Idle else None
  | _, _ => None
  end.

Definition key_of (φ : work) : option string :=
  match φ with Idle => None | Holding k | Failing k | Succeeding k => Some k end.

Notation qlog := (list (nat * act)).

(** The work of goroutine [i], and the key it has not finished with. *)
Definition work_of (l : qlog) (i : nat) : option work := phase Idle move l i.
Definition at_work (l : qlog) (i : nat) : option string := work_of l i ≫= key_of.

(** In [l] some goroutine took the key and, in the same run, finished with
    success. *)
Definition succeeds (l : qlog) (k : string) : Prop :=
  ∃ l1 i l2 l3, l = l1 ++ (i, Got k) :: l2 ++ (i, Forgotten k) :: l3 ∧
    ∀ k', (i, Got k') ∉ l2.

(** The key was waiting at the beginning, or has just been added. *)
Definition marked (initial : gset string) (l : qlog) (k : string) : Prop :=
  (l = [] ∧ k ∈ initial) ∨ ∃ l0 i, l = l0 ++ [(i, Added k)].

(** ** The protocol of the goroutines *)
Section Protocol.
Context `{Codec} `{GoRuntime} `{RuntimeEncoding} (c : Controller).

Notation keeps := (obeys (@go_note) move).

Lemma ctl_keeps {A} φ (p : prog ctlE A) :
  keeps φ (interp (@implement) (ctl p)) (λ _ ψ, ψ = φ).
Proof.
  unfold ctl, liftL. induction p as [a|X e k IH]; [done|]. cbn. intros x. exists φ. by split.
Qed.

(** Each call of the interface, by the moves of its implementation. *)
Ltac keeps_call :=
  cbn; unfold advance; cbn; intros;
  repeat (eexists; split; [first [done | by rewrite decide_True]|]; intros);
  repeat match goal with u : unit |- _ => destruct u end; eauto.

Lemma Add_keeps key φ (Φ : unit → work → Prop) :
  Φ tt φ → keeps φ (interp (@implement) (loop (QAdd key))) Φ.
Proof. intros HΦ. keeps_call. Qed.

Lemma Forget_keeps key (Φ : unit → work → Prop) :
  Φ tt Idle → keeps (Holding key) (interp (@implement) (loop (QForget key))) Φ.
Proof. intros HΦ. keeps_call. Qed.

Lemma Retry_keeps key (Φ : unit → work → Prop) :
  Φ tt Idle → keeps (Holding key) (interp (@implement) (loop (QRetry key))) Φ.
Proof. intros HΦ. keeps_call. Qed.

Lemma Get_keeps (Φ : string * Z * bool → work → Prop) :
  (∀ key lag, Φ (key, lag, true) (Holding key)) → Φ ("", 0%Z, false) Idle →
  keeps Idle (interp (@implement) (loop QGet)) Φ.
Proof. intros Hs Hn. cbn. intros [key|]; keeps_call. Qed.

Lemma Len_keeps φ (Φ : Z → work → Prop) :
  (∀ n, Φ n φ) → keeps φ (interp (@implement) (loop QLen)) Φ.
Proof. intros HΦ. keeps_call. Qed.

Lemma Shutdown_keeps φ (Φ : unit → work → Prop) :
  Φ tt φ → keeps φ (interp (@implement) (loop QShutdown)) Φ.
Proof. intros HΦ. keeps_call. Qed.

Lemma host_keeps {X} (e : hostE X) φ (Φ : X → work → Prop) :
  (∀ x, Φ x φ) → keeps φ (interp (@implement) (host e)) Φ.
Proof. intros HΦ. keeps_call. Qed.

Lemma worker_round_keeps : keeps Idle (interp (@implement) (worker_round c)) (λ _ ψ, ψ = Idle).
Proof.
  apply obeys_interp_bind, Get_keeps; [intros key lag|by apply host_keeps].
  apply obeys_interp_bind, Len_keeps. intros n.
  apply obeys_interp_bind. eapply obeys_mono; [apply ctl_keeps|].
  intros [u|e] ψ ->; [by apply Forget_keeps|by apply Retry_keeps].
Qed.

Lemma worker_keeps : robeys (@go_note) Idle move Idle (linked (worker c)).
Proof.
  assert (keeps Idle (interp (@implement) (worker_body c)) (λ _ ψ, ψ = Idle)) as Hb.
  { apply obeys_interp_bind, host_keeps. intros []; [done|].
    apply obeys_interp_bind. eapply obeys_mono; [apply worker_round_keeps|]. by intros _ ψ ->. }
  split_and!; [done|done|]. by apply host_keeps.
Qed.

Lemma handle_event_keeps ev : keeps Idle (interp (@implement) (handle_event ev)) (λ _ ψ, ψ = Idle).
Proof.
  unfold handle_event. destruct (Ctl.we_Flow ev); [|done]. by destruct (Ctl.we_Type ev); apply Add_keeps.
Qed.

Lemma watch_keeps : robeys (@go_note) Idle move Idle (linked runWatch).
Proof.
  assert (keeps Idle (interp (@implement) watch_body) (λ _ ψ, ψ = Idle)) as Hb.
  { apply obeys_interp_bind, host_keeps. intros [| |ev]; [done|done|].
    apply obeys_interp_bind. eapply obeys_mono; [apply handle_event_keeps|]. by intros _ ψ ->. }
  split_and!; [done|done|]. by apply host_keeps.
Qed.

Lemma Run_end_keeps : robeys (@go_note) Idle move Idle (linked (Straight Run_end)).
Proof.
  apply obeys_interp_bind, host_keeps. intros _.
  apply obeys_interp_bind, Shutdown_keeps. by apply host_keeps.
Qed.

(** [Run], once it has started its goroutines. *)
Definition run_goroutines : list (routine goE) := linked <$> Straight Run_end :: goroutines c.

Lemma goroutines_keep : Forall (robeys (@go_note) Idle move Idle) run_goroutines.
Proof.
  apply Forall_fmap. constructor; [apply Run_end_keeps|]. constructor; [apply watch_keeps|].
  apply Forall_replicate, worker_keeps.
Qed.

(** The pool, for the queue the seeding leaves behind. *)
Definition start {W Q} (w : W) (m : MemoryQueue Q) : pool (E := goE) (S := shared W Q) :=
  (Build_shared w m false [] (Z.to_nat (workers c)), run_goroutines).
End Protocol.

(** ** The queue under every interleaving *)

(** What an entry of the log does to the keys processed and, while the queue
    is open, to the keys waiting. *)
Definition act_processing (a : act) (p p' : gset string) : Prop :=
  match a with
  | Got k => k ∉ p ∧ p' = {[k]} ∪ p
  | Done k => p' = p ∖ {[k]}
  | _ => p' = p
  end.

Definition act_waiting (a : act) (w w' : gset string) : Prop :=
  match a with
  | Added k | RateLimited k => w' = {[k]} ∪ w
  | Got k => w ∖ {[k]} ⊆ w'
  | _ => w' = w
  end.

Lemma at_work_other l i j a : i ≠ j → at_work (l ++ [(j, a)]) i = at_work l i.
Proof. intros. unfold at_work, work_of. by rewrite phase_other. Qed.

Lemma at_work_own l i a φ φ' :
  work_of l i = Some φ → move φ a = Some φ' → at_work (l ++ [(i, a)]) i = key_of φ'.
Proof. intros Hφ Hm. unfold at_work, work_of in *. by rewrite phase_own, Hφ; cbn; rewrite Hm. Qed.

(** The keys processed are those of the goroutines, each of one. *)
Definition exclusive (l : qlog) (p : gset string) : Prop :=
  (∀ k, k ∈ p ↔ ∃ i, at_work l i = Some k) ∧
  (∀ i j k, at_work l i = Some k → at_work l j = Some k → i = j).

Lemma exclusive_act l j a φ φ' p p' :
  work_of l j = Some φ → move φ a = Some φ' → act_processing a p p' →
  exclusive l p → exclusive (l ++ [(j, a)]) p'.
Proof.
  intros Hφ Hm Ha [Hp Hu].
  pose proof (at_work_own l j a φ φ' Hφ Hm) as Hown.
  assert (at_work l j = key_of φ) as Hj by (unfold at_work; by rewrite Hφ).
  assert (∀ i, at_work (l ++ [(j, a)]) i = if decide (i = j) then key_of φ' else at_work l i) as Hat.
  { intros i. case_decide; [by subst|by apply at_work_other]. }
  assert (p' = p ∧ key_of φ' = key_of φ ∨ (∃ k, k ∉ p ∧ p' = {[k]} ∪ p ∧ key_of φ' = Some k ∧ key_of φ = None) ∨
    (∃ k, p' = p ∖ {[k]} ∧ key_of φ' = None ∧ key_of φ = Some k))
    as [[-> He]|[(k & Hk & -> & He & He')|(k & -> & He & He')]].
  { destruct a, φ; cbn in *; try case_decide; simplify_eq; cbn; naive_solver. }
  - assert (∀ i, at_work (l ++ [(j, a)]) i = at_work l i) as Hsame.
    { intros i. rewrite Hat. case_decide; [|done]. subst. by rewrite He, Hj. }
    split; [intros k; rewrite Hp; by setoid_rewrite Hsame|intros i i' k; rewrite !Hsame; apply Hu].
  - assert (∀ i, at_work l i ≠ Some k) as Hno by (intros i Hi; apply Hk, Hp; by exists i).
    split.
    + intros k0. rewrite elem_of_union, elem_of_singleton, Hp. split.
      * intros [->|[i Hi]]; [exists j; rewrite Hat; by rewrite decide_True|].
        exists i. rewrite Hat. case_decide; [|done]. subst. congruence.
      * intros [i Hi]. rewrite Hat in Hi. case_decide; [left; congruence|right; by exists i].
    + intros i i' k0. rewrite !Hat. repeat case_decide; subst; try done; [..|by apply Hu];
        intros Hi Hi'; exfalso; simplify_eq; by eapply Hno.
  - split.
    + intros k0. rewrite elem_of_difference, elem_of_singleton, Hp. split.
      * intros [[i Hi] Hne]. exists i. rewrite Hat. case_decide; [|done]. subst. congruence.
      * intros [i Hi]. rewrite Hat in Hi. case_decide; [congruence|]. split; [by exists i|].
        intros ->. destruct (Hu i j k); [done|congruence|done].
    + intros i i' k0. rewrite !Hat. repeat case_decide; subst; try congruence. apply Hu.
Qed.

(** A marked key: waiting, in the hands of a goroutine that took it after
    the mark, or done with. *)
Definition accounted (l l2 : qlog) (w : gset string) (k : string) : Prop :=
  k ∈ w ∨ succeeds l2 k ∨
  ∃ i l3 l4, work_of l i = Some (Holding k) ∧ l2 = l3 ++ (i, Got k) :: l4 ∧
    ∀ k', (i, Got k') ∉ l4.

Lemma accounted_act l l2 w w' k j a φ φ' :
  work_of l j = Some φ → move φ a = Some φ' → act_waiting a w w' →
  accounted l l2 w k → accounted (l ++ [(j, a)]) (l2 ++ [(j, a)]) w' k.
Proof.
  intros Hφ Hm Ha [Hk|[(l3 & i & l4 & l5 & -> & Hl)|(i & l3 & l4 & Hi & -> & Hl)]].
  - destruct (decide (a = Got k)) as [->|Hne].
    + right; right. exists j, l2, []. unfold work_of in *. rewrite phase_own, Hφ.
      destruct φ; try done. cbn in Hm |- *. split_and!; [done|done|]. intros k' []%elem_of_nil.
    + left. destruct a; cbn in Ha; subst; try set_solver.
  - right; left. exists l3, i, l4, (l5 ++ [(j, a)]). split; [|done].
    rewrite <-app_assoc. cbn. by rewrite <-app_assoc.
  - assert ((l3 ++ (i, Got k) :: l4) ++ [(j, a)] = l3 ++ (i, Got k) :: (l4 ++ [(j, a)])) as ->
      by by rewrite <-app_assoc.
    assert ((∀ k', a ≠ Got k') ∨ i ≠ j → ∀ k', (i, Got k') ∉ l4 ++ [(j, a)]) as Hnext.
    { intros Hor k' [Hin|Hin%list_elem_of_singleton]%elem_of_app; [by eapply Hl|].
      injection Hin as -> <-. by destruct Hor as [Hor|]; [apply (Hor k')|]. }
    destruct (decide (i = j)) as [<-|Hij].
    + rewrite Hφ in Hi. injection Hi as ->. destruct a; cbn in Hm; try case_decide; simplify_eq.
      * right; right. exists i, l3, (l4 ++ [(i, Added key)]). unfold work_of in *.
        rewrite phase_own, Hφ. split_and!; [done|done|]. apply Hnext. by left.
      * left. cbn in Ha. set_solver.
      * right; left. exists l3, i, l4, []. by split.
    + right; right. exists i, l3, (l4 ++ [(j, a)]). unfold work_of in *.
      rewrite phase_other by done. split_and!; [done|done|]. apply Hnext. by right.
Qed.

Definition all_accounted (initial : gset string) (l : qlog) (w : gset string) : Prop :=
  ∀ l1 l2 k, l = l1 ++ l2 → marked initial l1 k → accounted l l2 w k.

Lemma all_accounted_act initial l w w' j a φ φ' :
  work_of l j = Some φ → move φ a = Some φ' → act_waiting a w w' →
  all_accounted initial l w → all_accounted initial (l ++ [(j, a)]) w'.
Proof.
  intros Hφ Hm Ha Hall l1 l2 k Hl Hmark. destruct l2 as [|b l2 _] using rev_ind.
  - rewrite app_nil_r in Hl. subst l1. left.
    destruct Hmark as [[Hnil _]|(l0 & i & Heq)]; [by destruct l|].
    apply app_inj_tail in Heq as [_ Heq]. injection Heq as _ ->. cbn in Ha. set_solver.
  - rewrite app_assoc in Hl. apply app_inj_tail in Hl as [Hl <-].
    eapply accounted_act; [done|done|done|]. by apply (Hall l1).
Qed.

Section Queue.
Context `{Codec} `{GoRuntime} `{RuntimeEncoding} (c : Controller).
Context {W : Type} (h : handler ctlE W) {Q : Type} `{RateLimitingQueue Q}.

Lemma mem_step_act {X} (e : memE X) (m : MemoryQueue Q) x m' :
  mem_step e m x m' →
  (shutting (mq_q m') = false → shutting (mq_q m) = false) ∧
  match queue_act e x with
  | Some a => act_processing a (processing (mq_q m)) (processing (mq_q m')) ∧
      (shutting (mq_q m') = false → act_waiting a (waiting (mq_q m)) (waiting (mq_q m')))
  | None => processing (mq_q m') = processing (mq_q m) ∧
      (shutting (mq_q m') = false → waiting (mq_q m') = waiting (mq_q m))
  end.
Proof.
  intros Hs. destruct (mem_step_spec _ _ _ _ Hs) as (Hp & Hsh & Hw & _). split.
  { rewrite Hsh. by intros [_ ?]%orb_false_iff. }
  clear Hsh. destruct e; try destruct x as [key|]; cbn in *; (split; [done|]); naive_solver.
Qed.

Lemma rstep_queue s (r : routine goE) o s' r' :
  rstep (go_step h (Q := Q)) (@go_note) s r o s' r' →
  (sh_queue s' = sh_queue s ∧ o = None) ∨
  ∃ X (e : memE X) x, mem_step e (sh_queue s) x (sh_queue s') ∧ o = queue_act e x.
Proof.
  assert (∀ X (e : goE X) x, go_step h X e s x s' →
    (sh_queue s' = sh_queue s ∧ go_note X e x = None) ∨
    ∃ X' (e' : memE X') x', mem_step e' (sh_queue s) x' (sh_queue s') ∧ go_note X e x = queue_act e' x')
    as Hcall.
  { intros X [Y e|Y e|Y e] x; cbn.
    - intros [_ ->]. by left.
    - intros (m' & Hm & ->). right. by exists Y, e, x.
    - intros He. left. split; [|done]. destruct e; cbn in He; try (destruct x);
        repeat match goal with H : ∃ _, _ |- _ => destruct H | H : _ ∧ _ |- _ => destruct H end; by subst. }
  destruct r as [[u|X e k]|body [again|X e k] after]; cbn; [done|..].
  - intros (x & Hx & -> & _). by apply Hcall.
  - intros (-> & -> & _). by left.
  - intros (x & Hx & -> & _). by apply Hcall.
Qed.

Notation reach := (reaches (go_step h (Q := Q)) outside (@go_note)).

Lemma reach_inv w m l s rs :
  processing (mq_q m) = ∅ → reach (start c w m) l (s, rs) →
  let q := mq_q (sh_queue s) in
  exclusive l (processing q) ∧
  (shutting q = false → all_accounted (waiting (mq_q m)) l (waiting q)).
Proof.
  intros Hp Hr. remember (s, rs) as p eqn:Hpool. revert s rs Hpool.
  induction Hr as [|l p entry p' Hr IH Hstep]; intros s' rs' Hpool.
  { injection Hpool as <- <-. cbn. rewrite Hp. split.
    - split; [|by intros i j k]. intros k. split; [set_solver|]. by intros [i Hi].
    - intros _ l1 l2 k Hl [[-> Hk]|(l0 & i & ->)]; [by left|]. by destruct l0. }
  subst p'. destruct p as [s rs]. destruct (IH s rs eq_refl) as [Hex Hall]. clear IH.
  inversion Hstep as [s0 rs0 i r o s1 r' Hi Hstep'|s0 s1 rs0 Hout]; subst; cbn.
  - destruct (reaches_obeys _ _ _ _ _ _ _ _ _ (goroutines_keep c) Hr i r Hi) as (φ & Hφ & Hob).
    destruct (rstep_obeys _ _ _ _ _ _ _ _ _ _ Hstep' Hob) as (φ' & Hmove & _).
    destruct (rstep_queue _ _ _ _ _ Hstep') as [[-> ->]|(X & e & x & Hm & ->)].
    { cbn. by rewrite app_nil_r. }
    destruct (mem_step_act e _ _ _ Hm) as [Hopen Hact].
    destruct (queue_act e x) as [a|]; cbn in *.
    + destruct Hact as [Hap Haw]. split; [by eapply exclusive_act|].
      intros Ho. eapply all_accounted_act; [done|done|by apply Haw|]. by apply Hall, Hopen.
    + destruct Hact as [-> Haw]. rewrite app_nil_r. split; [done|].
      intros Ho. rewrite (Haw Ho). by apply Hall, Hopen.
  - rewrite app_nil_r. by destruct Hout as (_ & [->|[ev ->]]).
Qed.

End Queue.

(** ** The end of [Run] *)

(** Calls that leave the wait group alone. *)
Definition off_group X (e : goE X) : Prop :=
  match e with OnHost WgDone | OnHost WgWait => False | _ => True end.

Section Ending.
Context `{Codec} `{GoRuntime} `{RuntimeEncoding} (c : Controller).
Context {W : Type} (h : handler ctlE W) {Q : Type} `{RateLimitingQueue Q}.
Implicit Types s : shared W Q.

Notation reach := (reaches (go_step h (Q := Q)) outside (@go_note)).
Notation go_steps := (steps (go_step h (Q := Q)) outside (@go_note)).
Notation go_rstep := (rstep (go_step h (Q := Q)) (@go_note)).

(** *** No endless run *)

Definition is_done s : Prop := sh_done s = true.
Definition pending s : nat := length (sh_events s).

Lemma go_step_load X (e : goE X) s x s' :
  is_done s → go_step h X e s x s' → is_done s' ∧ pending s' ≤ pending s.
Proof.
  unfold is_done, pending. intros Hd. destruct e as [Y e|Y e|Y e]; cbn.
  - by intros [_ ->].
  - by intros (m' & _ & ->).
  - destruct e; cbn; try (destruct x as [| |ev]); try by first [intros -> | intros [_ ->]].
    intros (rest & -> & ->). cbn. split; [done|lia].
Qed.

Notation go_ends := (ends (go_step h (Q := Q)) (@go_note) pending is_done).

(** A loop whose body asks first whether to go on, and is told not to. *)
Lemma ends_at_once {X} (e : goE X) k after :
  (∀ s x s', is_done s → go_step h X e s x s' → pending s' = pending s → k x = Ret false) →
  go_ends (Loop (Vis e k) (Vis e k) after).
Proof.
  intros Hk. constructor. intros r (s & o & s' & Hd & (x & Hx & _ & ->) & Hl).
  rewrite (Hk s x s' Hd Hx Hl). constructor.
  intros r (s1 & o1 & s1' & _ & (_ & _ & ->) & _). apply acc_straight.
Qed.

Lemma goroutines_end : Forall go_ends (run_goroutines c).
Proof.
  apply Forall_fmap. constructor; [done|]. constructor; [|apply Forall_replicate].
  - apply ends_at_once. intros s [| |ev] s' _ Hs Hl; [done|done|].
    destruct Hs as (rest & He & ->). unfold pending in Hl. rewrite He in Hl. cbn in Hl. lia.
  - apply ends_at_once. intros s x s' Hd [-> _] _. by rewrite Hd.
Qed.

(** *** No deadlock *)

Definition run_wait : routine goE := Straight (call (OnHost WgWait)).
Definition run_shut : routine goE :=
  Straight (interp (@implement) (_ ← Run_stop; host WgWait)).

Definition main_ok s (r : routine goE) : Prop :=
  r = linked (Straight Run_end) ∨ r = run_shut ∨
  (shutting (mq_q (sh_queue s)) = true ∧ (r = run_wait ∨ finished r)).

Definition off_group_routine (r : routine goE) : Prop :=
  match r with
  | Straight p => confined off_group p
  | Loop body current after =>
      confined off_group body ∧ confined off_group current ∧ confined off_group after
  end.

(** A worker: in its loop, about to leave the group, or gone. *)
Definition worker_ok (r : routine goE) : Prop :=
  match r with
  | Straight p => p = call (OnHost WgDone) ∨ p = Ret tt
  | Loop body current after =>
      confined off_group body ∧ confined off_group current ∧ after = call (OnHost WgDone)
  end.

Definition unfinished (r : routine goE) : nat :=
  match r with Straight (Ret _) => 0 | _ => 1 end.

Definition group_ok s (rs : list (routine goE)) : Prop :=
  ∃ main watch ws, rs = main :: watch :: ws ∧ main_ok s main ∧ off_group_routine watch ∧
    Forall worker_ok ws ∧ sh_wg s = sum_list (unfinished <$> ws).

Definition off_group_full X (e : fullE X) : Prop :=
  match e with
  | inrE e => match e with Host e => off_group _ (OnHost e) | _ => True end
  | inlE _ => True
  end.

Lemma interp_off_group {A} (p : prog fullE A) :
  confined off_group_full p → confined off_group (interp (@implement) p).
Proof.
  induction 1 as [a|X e k He _ IH]; [constructor|]. cbn [interp]. apply confined_bind; [|done].
  destruct e as [e|[]]; try (by apply confined_call);
    by apply confined_translate, confined_all.
Qed.

Lemma confined_ctl {A} (p : prog ctlE A) : confined off_group_full (ctl p).
Proof. by apply confined_translate, confined_all. Qed.

Lemma confined_loop {A} (e : loopE A) : off_group_full A (inrE e) → confined off_group_full (loop e).
Proof. intros He. by apply confined_translate, confined_call. Qed.

Ltac off_group_step :=
  first [ apply confined_ctl | by apply confined_loop | apply confined_bind; [|intros ?]
        | constructor
        | match goal with |- confined _ (match ?x with _ => _ end) => destruct x end ].

Lemma worker_off_group : confined off_group (interp (@implement) (worker_body c)).
Proof. apply interp_off_group. unfold worker_body, worker_round, host. repeat off_group_step. Qed.

Lemma watch_off_group : confined off_group (interp (@implement) watch_body).
Proof. apply interp_off_group. unfold watch_body, handle_event, host. repeat off_group_step. Qed.

Lemma start_group_ok w (m : MemoryQueue Q) : group_ok (start c w m).1 (start c w m).2.
Proof.
  do 3 eexists. split; [reflexivity|]. split_and!.
  - by left.
  - split_and!; [apply watch_off_group..|]. by apply confined_call.
  - apply Forall_fmap, Forall_replicate. split_and!; [apply worker_off_group..|done].
  - cbn. induction (Z.to_nat (workers c)) as [|n IH]; [done|]. cbn in *. by f_equal.
Qed.

(** Steps off the group change neither the counter nor, once it is set,
    that the queue is shut down. *)
Lemma go_step_group X (e : goE X) s x s' :
  go_step h X e s x s' →
  (off_group X e → sh_wg s' = sh_wg s) ∧
  (shutting (mq_q (sh_queue s)) = true → shutting (mq_q (sh_queue s')) = true).
Proof.
  destruct e as [Y e|Y e|Y e]; cbn.
  - by intros [_ ->].
  - intros (m' & Hm & ->). split; [done|]. cbn.
    destruct (mem_step_spec _ _ _ _ Hm) as (_ & -> & _). intros ->. apply orb_true_r.
  - destruct e; cbn; try (destruct x as [| |ev]); try by first [intros -> | intros [_ ->]].
    by intros (rest & _ & ->).
Qed.

Lemma rstep_shutting s r o s' r' :
  go_rstep s r o s' r' →
  shutting (mq_q (sh_queue s)) = true → shutting (mq_q (sh_queue s')) = true.
Proof.
  destruct r as [[u|X e k]|body [again|X e k] after]; cbn; [done|..].
  - intros (x & Hx & _). by apply go_step_group in Hx as [_ ?].
  - by intros (-> & _).
  - intros (x & Hx & _). by apply go_step_group in Hx as [_ ?].
Qed.

Lemma rstep_off_group s r o s' r' :
  go_rstep s r o s' r' → off_group_routine r → off_group_routine r' ∧ sh_wg s' = sh_wg s.
Proof.
  destruct r as [[u|X e k]|body [again|X e k] after]; cbn; [done|..].
  - intros (x & Hx & _ & ->) [He Hk]%confined_inv. split; [apply Hk|]. by apply go_step_group in Hx as [? _]; auto.
  - intros (-> & _ & ->) (? & ? & ?). by destruct again.
  - intros (x & Hx & _ & ->) (Hb & [He Hk]%confined_inv & Ha). split; [by split_and!|].
    apply go_step_group in Hx as [Hx _]. by apply Hx.
Qed.

Lemma rstep_worker s r o s' r' n :
  go_rstep s r o s' r' → worker_ok r → sh_wg s = unfinished r + n →
  worker_ok r' ∧ sh_wg s' = unfinished r' + n.
Proof.
  destruct r as [p|body [again|X e k] after]; cbn.
  - intros Hr [->| ->]; [|done]. destruct Hr as (x & -> & _ & ->). cbn. intros ->.
    split; [destruct x; by right|done].
  - intros (-> & _ & ->) (? & ? & ->) Hn. destruct again; cbn; [by split_and!|].
    split; [by left|done].
  - intros (x & Hx & _ & ->) (Hb & [He Hk]%confined_inv & Ha) Hn. split; [by split_and!|].
    apply go_step_group in Hx as [Hx _]. rewrite (Hx He). exact Hn.
Qed.

Lemma rstep_main s r o s' r' :
  go_rstep s r o s' r' → main_ok s r → main_ok s' r' ∧ sh_wg s' = sh_wg s.
Proof.
  intros Hr [->|[->|[Hs [->| ->]]]].
  - destruct Hr as (x & [_ ->] & _ & ->). split; [by right; left|done].
  - destruct Hr as (x & (m' & (q & _ & Hm) & ->) & _ & ->). cbn in Hm. split; [|done].
    right; right. cbn. rewrite Hm. cbn. split; [|by left]. by destruct (q_ShutDown_spec q) as (_ & _ & ->).
  - destruct Hr as (x & [_ ->] & _ & ->). split; [|done]. right; right. split; [done|].
    right. by destruct x.
  - done.
Qed.

Lemma main_ok_kept s s' r :
  (shutting (mq_q (sh_queue s)) = true → shutting (mq_q (sh_queue s')) = true) →
  main_ok s r → main_ok s' r.
Proof. intros Hs [->|[->|[? ?]]]; [by left|by right; left|right; right; auto]. Qed.

Lemma sum_list_insert (f : routine goE → nat) ws i r r' :
  ws !! i = Some r → ∃ n, sum_list (f <$> ws) = f r + n ∧ sum_list (f <$> <[i := r']> ws) = f r' + n.
Proof.
  revert i. induction ws as [|w ws IH]; intros [|i] Hi; try done; cbn in *.
  - injection Hi as ->. by eexists.
  - destruct (IH i Hi) as (n & Hn1 & Hn2). exists (f w + n).
    change (f w + sum_list (f <$> ws) = f r + (f w + n) ∧
      f w + sum_list (f <$> <[i := r']> ws) = f r' + (f w + n)). lia.
Qed.

Lemma group_ok_step s rs entry s' rs' :
  pstep (go_step h (Q := Q)) outside (@go_note) (s, rs) entry (s', rs') →
  group_ok s rs → group_ok s' rs'.
Proof.
  intros Hstep (main & watch & ws & -> & Hm & Hw & Hws & Hn).
  inversion Hstep as [s0 rs0 i r o s1 r' Hi Hr|s0 s1 rs0 Hout]; subst.
  - pose proof (rstep_shutting _ _ _ _ _ Hr) as Hsh. destruct i as [|[|i]]; cbn in Hi |- *.
    + injection Hi as ->. destruct (rstep_main _ _ _ _ _ Hr Hm) as [? Hg].
      exists r', watch, ws. by rewrite Hg.
    + injection Hi as ->. destruct (rstep_off_group _ _ _ _ _ Hr Hw) as [? Hg].
      exists main, r', ws. rewrite Hg. split_and!; [done|by eapply main_ok_kept|done..].
    + destruct (sum_list_insert unfinished ws i r r' Hi) as (n & Hn1 & Hn2). rewrite Hn1 in Hn.
      destruct (rstep_worker _ _ _ _ _ _ Hr (Forall_lookup_1 _ _ _ _ Hws Hi) Hn) as [Hr' Hn'].
      exists main, watch, (<[i := r']> ws). rewrite Hn2.
      split_and!; [done|by eapply main_ok_kept|done|by apply Forall_insert|done].
  - destruct Hout as [_ [->|[ev ->]]]; exists main, watch, ws; by split_and!.
Qed.

(** A call that cannot be made, the context being done: [Get] while the
    queue is open, and [Wait] while a worker is left. *)
Definition waits X (e : goE X) s : bool :=
  match e with
  | OnQueue e => gets e && negb (shutting (mq_q (sh_queue s)))
  | OnHost WgWait => bool_decide (sh_wg s ≠ 0)
  | _ => false
  end.

Lemma go_step_progress X (e : goE X) s :
  is_done s → waits X e s = false → ∃ x s', go_step h X e s x s'.
Proof.
  intros Hd. unfold is_done in Hd. destruct e as [Y e|Y e|Y e]; cbn.
  - intros _. by do 2 eexists.
  - intros Hw. destruct (mem_step_progress e (sh_queue s)) as (x & m' & Hm).
    { destruct (gets e), (shutting (mq_q (sh_queue s))); auto. }
    exists x. eexists. by exists m'.
  - destruct e; cbn; intros Hw; try (by exists tt; eexists).
    + by do 2 eexists.
    + by exists SelDone, s.
    + exists tt, s. split; [|done]. by apply bool_decide_eq_false, dec_stable in Hw.
Qed.

Definition next_waits s (r : routine goE) : bool :=
  match r with
  | Straight (Vis e _) | Loop _ (Vis e _) _ => waits _ e s
  | _ => false
  end.

Lemma routine_progress s rs i r :
  is_done s → rs !! i = Some r → ¬ finished r → next_waits s r = false → ∃ c', go_steps (s, rs) c'.
Proof.
  intros Hd Hi Hf Hw. assert (∃ o s' r', go_rstep s r o s' r') as (o & s' & r' & Hr).
  { destruct r as [[[]|X e k]|body [again|X e k] after]; cbn in *; [done|..].
    - destruct (go_step_progress X e s Hd Hw) as (x & s' & Hx). by eexists _, s', _, x.
    - by do 3 eexists.
    - destruct (go_step_progress X e s Hd Hw) as (x & s' & Hx). by eexists _, s', _, x. }
  eexists _, _. by econstructor.
Qed.

Lemma off_group_waits X (e : goE X) s :
  off_group X e → shutting (mq_q (sh_queue s)) = true → waits X e s = false.
Proof.
  intros He Hs. destruct e as [Y e|Y e|Y e]; cbn; [done| |by destruct e].
  rewrite Hs. apply andb_false_r.
Qed.

Lemma watch_waits s r :
  off_group_routine r → shutting (mq_q (sh_queue s)) = true → next_waits s r = false.
Proof.
  destruct r as [[u|X e k]|body [again|X e k] after]; cbn; try done.
  - intros [He _]%confined_inv. by apply off_group_waits.
  - intros (_ & [He _]%confined_inv & _). by apply off_group_waits.
Qed.

Lemma worker_waits s r :
  worker_ok r → shutting (mq_q (sh_queue s)) = true → next_waits s r = false.
Proof.
  destruct r as [p|body [again|X e k] after]; cbn; try done.
  - by intros [->| ->].
  - intros (_ & [He _]%confined_inv & _). by apply off_group_waits.
Qed.

Lemma worker_finished r : worker_ok r → unfinished r = 0 → finished r.
Proof. destruct r as [p|]; [|done]. by intros [->| ->]. Qed.

Lemma workers_left ws :
  Forall worker_ok ws → sum_list (unfinished <$> ws) ≠ 0 → ∃ i r, ws !! i = Some r ∧ ¬ finished r.
Proof.
  induction 1 as [|r ws Hr _ IH]; [done|]. intros Hn.
  destruct (decide (unfinished r = 0)) as [H0'|Hne].
  - destruct IH as (i & r' & ? & ?); [|by exists (Datatypes.S i), r'].
    intros Heq. apply Hn. change (unfinished r + sum_list (unfinished <$> ws) = 0). lia.
  - exists 0, r. split; [done|]. intros ->. done.
Qed.

Lemma stuck_finished s rs :
  is_done s → group_ok s rs → (∀ c', ¬ go_steps (s, rs) c') →
  Forall finished rs ∧ shutting (mq_q (sh_queue s)) = true.
Proof.
  intros Hd (main & watch & ws & -> & Hm & Hw & Hws & Hn) Hstuck.
  assert (∀ i r, (main :: watch :: ws) !! i = Some r → next_waits s r = false → finished r) as Hall.
  { intros i r Hi Hno. destruct r as [[[]|X e k]|body cur after]; [done|exfalso..];
      (edestruct (routine_progress s (main :: watch :: ws) i) as [c' Hc'];
        [done|exact Hi|done|exact Hno|by eapply Hstuck]). }
  assert (shutting (mq_q (sh_queue s)) = true) as Hs.
  { destruct Hm as [->|[->|[Hs _]]]; [|..|done]; exfalso;
      by specialize (Hall 0 _ eq_refl eq_refl). }
  assert (∀ i r, ws !! i = Some r → finished r) as Hdone.
  { intros i r Hi. apply (Hall (Datatypes.S (Datatypes.S i))); [done|]. apply worker_waits; [|done].
    by eapply Forall_lookup_1. }
  split; [|done]. constructor; [|constructor].
  - destruct Hm as [->|[->|[_ [->|Hm]]]]; try by specialize (Hall 0 _ eq_refl eq_refl). 2: done.
    apply (Hall 0); [done|]. cbn. apply bool_decide_eq_false. intros Hne. apply Hne. rewrite Hn.
    destruct (decide (sum_list (unfinished <$> ws) = 0)) as [|Hleft]; [done|].
    destruct (workers_left ws Hws Hleft) as (i & r & Hi & Hf). destruct Hf. by eapply Hdone.
  - apply (Hall 1); [done|]. by apply watch_waits.
  - apply Forall_lookup. intros i r. apply Hdone.
Qed.

Lemma steps_done p p' : rtc go_steps p p' → is_done p.1 → is_done p'.1.
Proof.
  induction 1 as [|p1 p2 p3 [entry Hst] _ IH]; [done|]. intros Hd. apply IH.
  destruct Hst as [s1 rs1 i r o s2 r' _ Hr|s1 s2 rs1 [_ [->|[ev ->]]]]; [|done..].
  by destruct (rstep_load _ _ _ _ go_step_load _ _ _ _ _ Hr Hd).
Qed.

(** C18: [Run] ends with its context.  Once the context is done, whatever
    happened before, every interleaving of the goroutines comes to an end,
    and one that can go no further has all of them returned: the watch, every
    worker and [Run] itself, which waits for the workers.  A worker blocked
    in [Get] on an empty queue is released, since [Run] shuts the queue down
    before it waits.  The calls of a reconcile in progress are taken to
    return, as they do for a context that is done. *)
Theorem run_ends w m l s rs :
  reach (start c w m) l (s, rs) → sh_done s = true →
  sn go_steps (s, rs) ∧
  ∀ s' rs', rtc go_steps (s, rs) (s', rs') → (∀ c', ¬ go_steps (s', rs') c') →
    Forall finished rs' ∧ shutting (mq_q (sh_queue s')) = true.
Proof.
  intros Hr Hd. split.
  - apply (pool_ends (go_step h) outside (@go_note) pending is_done go_step_load); [|done|].
    + unfold is_done. intros s1 s1' Hd1 [Hf _]. congruence.
    + by eapply reaches_ends; [apply goroutines_end|exact Hr].
  - intros s' rs' Hsteps Hstuck. destruct (reaches_steps _ _ _ _ _ _ _ Hr Hsteps) as [l' Hr'].
    apply stuck_finished; [| |done].
    + by apply (steps_done _ _ Hsteps).
    + apply (reaches_invariant _ _ _ (λ p, group_ok p.1 p.2) _ _ _ (start_group_ok w m)) in Hr'; [done|].
      intros [s1 rs1] entry [s2 rs2] Hok Hst. by eapply group_ok_step.
Qed.
End Ending.

(** ** Witnesses *)
Section Witnesses.
Import MemEtcd TestCodec.
#[local] Existing Instances std_runtime test_encoding.

Notation reach := (reaches (go_step (ctl_exec no_clock) (Q := MapQueue.state)) outside (@go_note)).

(** The queue after the seeding: "a" is waiting. *)
Definition seeded : MemoryQueue MapQueue.state :=
  Build_MemoryQueue (MapQueue.Build_state ["a"] ∅ false) {["a" := 1%Z]}.

Definition world := (two_flows, MemKube.empty [], tt).

(** A worker's loop makes a call. *)
Lemma reach_loop p l s rs i body {X} (e : goE X) k after x s' :
  reach p l (s, rs) → rs !! i = Some (Loop body (Vis e k) after) →
  go_step (ctl_exec no_clock) X e s x s' →
  reach p (l ++ option_list (pair i <$> go_note X e x)) (s', <[i := Loop body (k x) after]> rs).
Proof.
  intros Hr Hi Hs. eapply reaches_snoc; [exact Hr|]. eapply pstep_go; [exact Hi|]. by exists x.
Qed.


(** The context is cancelled at once. *)
Lemma run_ends_witness :
  ∃ s rs, reach (start controller world seeded) [] (s, rs) ∧
    sn (steps (go_step (ctl_exec no_clock)) outside (@go_note)) (s, rs).
Proof.
  assert (reach (start controller world seeded) []
    (Build_shared world seeded true [] 1, run_goroutines controller)) as Hr.
  { eapply (reaches_snoc _ _ _ _ [] _ []); [apply reaches_nil|]. apply pstep_env.
    split; [reflexivity|]. left. reflexivity. }
  do 2 eexists. split; [exact Hr|].
  exact (proj1 (run_ends controller (ctl_exec no_clock) world seeded _ _ _ Hr eq_refl)).
Defined.
End Witnesses.
