(* ===== verification/Config.v ===== *)
(** * api/internal/config and controller/internal/config

    [Load] of both packages: the environment is a map, the command line the
    list of arguments after the program's name.  [flag.Parse] is the Go
    package's parser with its ExitOnError policy ([None]: the process
    exits).  [time.ParseDuration], which computes fractions in floating
    point, is the parameter of the class [Durations]; a duration is a number
    of nanoseconds. *)
From S2P Require Import Prelude GoStd GoStdFacts.

Class Durations := { ParseDuration : string → option Z }.

(** ** os *)
Module os.
Definition environment : Type := gmap string string.
Definition Getenv (env : environment) (key : string) : string := default "" (env !! key).
Definition LookupEnv (env : environment) (key : string) : option string := env !! key.
End os.

(** ** strconv.ParseInt with base 0 *)
Module ParseInt.

Definition lower (c : ascii) : ascii := strings.lower_ascii c.

Definition digit_of (c : ascii) : option N :=
  let n := N_of_ascii (lower c) in
  if (48 <=? n)%N && (n <=? 57)%N then Some (n - 48)%N
  else if (97 <=? n)%N && (n <=? 122)%N then Some (n - 87)%N
  else None.

(** The base a literal announces, and its digits. *)
Definition base_prefix (s : string) : N * string :=
  match s with
  | String "0" (String c (String d rest)) =>
      if bool_decide (lower c = "b"%char) then (2%N, String d rest)
      else if bool_decide (lower c = "o"%char) then (8%N, String d rest)
      else if bool_decide (lower c = "x"%char) then (16%N, String d rest)
      else (8%N, String c (String d rest))
  | String "0" rest => (8%N, rest)
  | _ => (10%N, s)
  end.

(** Digits of the base, underscores skipped. *)
Fixpoint digits (base acc : N) (s : string) : option N :=
  match s with
  | EmptyString => Some acc
  | String c s =>
      if bool_decide (c = "_"%char) then digits base acc s
      else match digit_of c with
           | Some d => if (d <? base)%N then digits base (acc * base + d) s else None
           | None => None
           end
  end.

(** [underscoreOK] on text whose other characters are digits: an underscore
    follows a digit or a base prefix and is followed by a digit. *)
Fixpoint underscores_ok (after_digit : bool) (s : string) : bool :=
  match s with
  | EmptyString => true
  | String c s =>
      if bool_decide (c = "_"%char)
      then after_digit && negb (bool_decide (s = "")) && underscores_ok false s
      else underscores_ok true s
  end.

Definition prefixed (s : string) : bool :=
  match s with
  | String "0" (String c _) =>
      bool_decide (lower c = "b"%char) || bool_decide (lower c = "o"%char) ||
      bool_decide (lower c = "x"%char)
  | _ => false
  end.

Definition magnitude (s : string) : option N :=
  if bool_decide (s = "") then None else
  let '(base, ds) := base_prefix s in
  if (if prefixed s then underscores_ok true ds else underscores_ok false s)
  then digits base 0 ds else None.

Definition ParseInt (s : string) : option Z :=
  let signed (neg : bool) (s : string) :=
    match magnitude s with
    | Some n =>
        let z := if neg then (- Z.of_N n)%Z else Z.of_N n in
        if (- 2 ^ 63 <=? z)%Z && (z <? 2 ^ 63)%Z then Some z else None
    | None => None
    end in
  match s with
  | String "-" s => signed true s
  | String "+" s => signed false s
  | _ => signed false s
  end.

End ParseInt.

(** ** flag *)
Module flag.
Section flag.
Context `{Durations}.

Inductive value :=
  | VString (s : string)
  | VBool (b : bool)
  | VInt (z : Z)
  | VDuration (z : Z).

(** The flags of a set with their current values. *)
Notation FlagSet := (gmap string value).

(** [Value.Set]: the text is read the way the flag's type reads it. *)
Definition set_value (old : value) (text : string) : option value :=
  match old with
  | VString _ => Some (VString text)
  | VBool _ => VBool <$> strconv.ParseBool text
  | VInt _ => VInt <$> ParseInt.ParseInt text
  | VDuration _ => VDuration <$> ParseDuration text
  end.

(** The text after the dashes of an argument that is a flag; [None] for an
    argument that ends the flags. *)
Definition flag_text (s : string) : option string :=
  match s with
  | String "-" EmptyString => None
  | String "-" (String "-" EmptyString) => None
  | String "-" (String "-" name) => Some name
  | String "-" name => Some name
  | _ => None
  end.

Definition bad_syntax (name : string) : bool :=
  bool_decide (name = "") || strings.HasPrefix name "-" || strings.HasPrefix name "=".

(** [name=value], at the first "=" *)
Fixpoint cut_value (s : string) : string * option string :=
  match s with
  | EmptyString => (EmptyString, None)
  | String c s =>
      if bool_decide (c = "="%char) then (EmptyString, Some s)
      else let '(name, v) := cut_value s in (String c name, v)
  end.

Fixpoint Parse (args : list string) (flags : FlagSet) : option FlagSet :=
  match args with
  | [] => Some flags
  | s :: args =>
      match flag_text s with
      | None => Some flags
      | Some text =>
          if bad_syntax text then None else
          let '(name, given) := cut_value text in
          match flags !! name, given with
          | None, _ => None
          | Some old, Some v =>
              match set_value old v with
              | Some new => Parse args (<[name := new]> flags)
              | None => None
              end
          | Some (VBool _), None => Parse args (<[name := VBool true]> flags)
          | Some old, None =>
              match args with
              | [] => None
              | v :: args =>
                  match set_value old v with
                  | Some new => Parse args (<[name := new]> flags)
                  | None => None
                  end
              end
          end
      end
  end.

(** [*flag.String(...)] and the like, after parsing. *)
Definition get_string (flags : FlagSet) (name : string) : string :=
  match flags !! name with Some (VString s) => s | _ => "" end.
Definition get_bool (flags : FlagSet) (name : string) : bool :=
  match flags !! name with Some (VBool b) => b | _ => false end.
Definition get_int (flags : FlagSet) (name : string) : Z :=
  match flags !! name with Some (VInt z) | Some (VDuration z) => z | _ => 0%Z end.

End flag.
End flag.

(** ** env.go, util.go (the same in both packages) *)
Section Env.
Context `{Durations} (env : os.environment).

Definition envOrDefault (key def : string) : string :=
  let v := os.Getenv env key in if bool_decide (v ≠ "") then v else def.

Definition envBoolOrDefault (key : string) (def : bool) : bool :=
  let v := os.Getenv env key in
  if bool_decide (v ≠ "") then
    let l := strings.ToLower v in
    if bool_decide (l ∈ ["1"; "true"; "t"; "yes"; "y"]) then true
    else if bool_decide (l ∈ ["0"; "false"; "f"; "no"; "n"]) then false
    else def
  else def.

Definition envDurationOrDefault (key : string) (def : Z) : Z :=
  let v := os.Getenv env key in
  if bool_decide (v ≠ "") then default def (ParseDuration v) else def.

Definition envIntOrDefault (key : string) (def : Z) : Z :=
  let v := os.Getenv env key in
  if bool_decide (v ≠ "") then default def (strconv.Atoi v) else def.
End Env.

Definition splitComma (v : string) : list string :=
  filter (λ p, p ≠ "") (strings.Split v ",").

Definition flag_set (l : list (string * flag.value)) : gmap string flag.value := list_to_map l.
Definition second : Z := 1000000000.

(** ** api/internal/config *)
Module ApiConfig.

Record Config := {
  GRPCAddr : string;
  HTTPAddr : string;
  EtcdEndpoints : list string;
  OTLPEndpoint : string;
  ServiceName : string;
  ObservabilityEnabled : bool;
  LogLevel : string;
  AuthEnabled : bool;
  APIKey : string;
  HTTPTLSEnabled : bool;
  HTTPTLSCertFile : string;
  HTTPTLSKeyFile : string;
  GRPCTLSEnabled : bool;
  GRPCTLSCertFile : string;
  GRPCTLSKeyFile : string;
  GRPCTLSServerName : string;
}.

Section Load.
Context `{Durations} (env : os.environment).

(** The flags [Load] declares, at their defaults. *)
Definition flags : gmap string flag.value := flag_set [
  ("grpc-addr", flag.VString (envOrDefault env "FLOW_GRPC_ADDR" ":9090"));
  ("http-addr", flag.VString (envOrDefault env "FLOW_HTTP_ADDR" ":8080"));
  ("etcd", flag.VString (envOrDefault env "ETCD_ENDPOINTS" "http://127.0.0.1:2379"));
  ("otel-endpoint",
    flag.VString (envOrDefault env "OTEL_EXPORTER_OTLP_ENDPOINT" "localhost:4317"));
  ("service-name", flag.VString (envOrDefault env "OTEL_SERVICE_NAME" "flow-api"));
  ("observability-enabled",
    flag.VBool (envBoolOrDefault env "FLOW_OBSERVABILITY_ENABLED" false));
  ("log-level", flag.VString (envOrDefault env "FLOW_LOG_LEVEL" "info"));
  ("auth-enabled", flag.VBool (envBoolOrDefault env "FLOW_AUTH_ENABLED" false));
  ("api-key", flag.VString (envOrDefault env "FLOW_API_KEY" ""));
  ("http-tls-enabled", flag.VBool (envBoolOrDefault env "FLOW_HTTP_TLS_ENABLED" false));
  ("http-tls-cert", flag.VString (envOrDefault env "FLOW_HTTP_TLS_CERT" ""));
  ("http-tls-key", flag.VString (envOrDefault env "FLOW_HTTP_TLS_KEY" ""));
  ("grpc-tls-enabled", flag.VBool (envBoolOrDefault env "FLOW_GRPC_TLS_ENABLED" false));
  ("grpc-tls-cert", flag.VString (envOrDefault env "FLOW_GRPC_TLS_CERT" ""));
  ("grpc-tls-key", flag.VString (envOrDefault env "FLOW_GRPC_TLS_KEY" ""));
  ("grpc-tls-server-name", flag.VString (envOrDefault env "FLOW_GRPC_TLS_SERVER_NAME" ""))].

Definition Load (args : list string) : option Config :=
  f ← flag.Parse args flags;
  let str := flag.get_string f in let bool := flag.get_bool f in
  Some {|
    GRPCAddr := str "grpc-addr";
    HTTPAddr := str "http-addr";
    EtcdEndpoints := splitComma (str "etcd");
    OTLPEndpoint := str "otel-endpoint";
    ServiceName := str "service-name";
    ObservabilityEnabled := bool "observability-enabled";
    LogLevel := str "log-level";
    AuthEnabled := bool "auth-enabled";
    APIKey := str "api-key";
    HTTPTLSEnabled := bool "http-tls-enabled";
    HTTPTLSCertFile := str "http-tls-cert";
    HTTPTLSKeyFile := str "http-tls-key";
    GRPCTLSEnabled := bool "grpc-tls-enabled";
    GRPCTLSCertFile := str "grpc-tls-cert";
    GRPCTLSKeyFile := str "grpc-tls-key";
    GRPCTLSServerName := str "grpc-tls-server-name";
  |}.
End Load.
End ApiConfig.

(** ** controller/internal/config *)
Module CtlConfig.

Record Config := {
  EtcdEndpoints : list string;
  OTLPEndpoint : string;
  ServiceName : string;
  RuntimeNamespace : string;
  ObservabilityEnabled : bool;
  LogLevel : string;
  WorkerCount : Z;
  LeaderElectionEnabled : bool;
  LeaderElectionName : string;
  LeaderElectionNamespace : string;
  LeaderElectionLeaseDuration : Z;
  LeaderElectionRenewDeadline : Z;
  LeaderElectionRetryPeriod : Z;
}.

Section Load.
Context `{Durations} (env : os.environment).

Definition flags : gmap string flag.value := flag_set [
  ("etcd", flag.VString (envOrDefault env "ETCD_ENDPOINTS" "http://127.0.0.1:2379"));
  ("otel-endpoint",
    flag.VString (envOrDefault env "OTEL_EXPORTER_OTLP_ENDPOINT" "localhost:4317"));
  ("service-name", flag.VString (envOrDefault env "OTEL_SERVICE_NAME" "flow-controller"));
  ("observability-enabled",
    flag.VBool (envBoolOrDefault env "FLOW_OBSERVABILITY_ENABLED" false));
  ("log-level", flag.VString (envOrDefault env "FLOW_LOG_LEVEL" "info"));
  ("worker-count", flag.VInt (envIntOrDefault env "FLOW_CONTROLLER_WORKER_COUNT" 1));
  ("runtime-namespace", flag.VString (envOrDefault env "FLOW_PIPE_RUNTIME_NAMESPACE"
    (envOrDefault env "POD_NAMESPACE" "default")));
  ("leader-election-enabled",
    flag.VBool (envBoolOrDefault env "FLOW_CONTROLLER_LEADER_ELECTION_ENABLED" true));
  ("leader-election-namespace",
    flag.VString (envOrDefault env "FLOW_CONTROLLER_LEADER_ELECTION_NAMESPACE"
      (envOrDefault env "POD_NAMESPACE" "default")));
  ("leader-election-name",
    flag.VString (envOrDefault env "FLOW_CONTROLLER_LEADER_ELECTION_NAME" "flow-controller"));
  ("leader-election-lease-duration", flag.VDuration (envDurationOrDefault env
    "FLOW_CONTROLLER_LEADER_ELECTION_LEASE_DURATION" (30 * second)));
  ("leader-election-renew-deadline", flag.VDuration (envDurationOrDefault env
    "FLOW_CONTROLLER_LEADER_ELECTION_RENEW_DEADLINE" (20 * second)));
  ("leader-election-retry-period", flag.VDuration (envDurationOrDefault env
    "FLOW_CONTROLLER_LEADER_ELECTION_RETRY_PERIOD" (5 * second)))].

Definition Load (args : list string) : option Config :=
  f ← flag.Parse args flags;
  let str := flag.get_string f in let bool := flag.get_bool f in let int := flag.get_int f in
  let workers := int "worker-count" in
  let workers := if (workers <? 1)%Z then 1%Z else workers in
  Some {|
    EtcdEndpoints := splitComma (str "etcd");
    OTLPEndpoint := str "otel-endpoint";
    ServiceName := str "service-name";
    RuntimeNamespace := str "runtime-namespace";
    ObservabilityEnabled := bool "observability-enabled";
    LogLevel := str "log-level";
    WorkerCount := workers;
    LeaderElectionEnabled := bool "leader-election-enabled";
    LeaderElectionName := str "leader-election-name";
    LeaderElectionNamespace := str "leader-election-namespace";
    LeaderElectionLeaseDuration := int "leader-election-lease-duration";
    LeaderElectionRenewDeadline := int "leader-election-renew-deadline";
    LeaderElectionRetryPeriod := int "leader-election-retry-period";
  |}.
End Load.
End CtlConfig.

(** ** Facts *)

Lemma flag_lookup l name v :
  NoDup l.*1 → (name, v) ∈ l → flag_set l !! name = Some v.
Proof. apply elem_of_list_to_map_1. Qed.

(** Looks a name up in a concrete list of flags. *)
Ltac find_flag :=
  apply flag_lookup;
    [apply (bool_decide_unpack _); vm_compute; exact I
    |repeat first [by left | right]].

Lemma splitComma_endpoints v : Forall (λ e, e ≠ "" ∧ lacks e "," = true) (splitComma v).
Proof.
  apply Forall_forall. intros e [Hne He]%list_elem_of_filter. split; [done|].
  revert e He Hne. induction v as [|c v IH]; intros e; cbn.
  - intros ->%list_elem_of_singleton. done.
  - case_bool_decide as Hc.
    + intros [->|He]%elem_of_cons Hne; [done|]. by apply IH.
    + pose proof (Split_nonempty v ",") as Hs.
      destruct (strings.Split v ",") as [|w ws] eqn:Hw; [done|].
      intros [->|He]%elem_of_cons Hne; [|by apply IH; [right|]].
      cbn. rewrite bool_decide_eq_false_2 by done. cbn.
      destruct (decide (w = "")) as [->|Hne']; [done|]. by apply IH; [left|].
Qed.

(** A flag given as [-name=value]. *)
Lemma Parse_one `{Durations} name v flags :
  strings.HasPrefix name "-" = false → name ≠ "" → lacks name "=" = true →
  flag.Parse ["-" +:+ name +:+ "=" +:+ v] flags =
    old ← flags !! name; new ← flag.set_value old v; Some (<[name := new]> flags).
Proof.
  intros Hd Hne Hl. destruct name as [|c name]; [done|].
  assert (flag.cut_value (String c name +:+ "=" +:+ v) = (String c name, Some v)) as Hc.
  { clear Hd Hne. revert Hl. generalize (String c name). intros n. induction n as [|d n IH].
    - done.
    - cbn [lacks]. intros [Hd Hn]%andb_true_iff. apply negb_true_iff, bool_decide_eq_false in Hd.
      rewrite append_cons. cbn [flag.cut_value]. rewrite bool_decide_eq_false_2 by done.
      by rewrite IH. }
  assert (c ≠ "-"%char) as Hc'.
  { intros ->. cbn in Hd. destruct name; discriminate Hd. }
  assert (c ≠ "="%char) as He.
  { intros ->. cbn [lacks] in Hl. by rewrite bool_decide_eq_true_2 in Hl. }
  assert (flag.flag_text ("-" +:+ String c name +:+ "=" +:+ v) =
    Some (String c name +:+ "=" +:+ v)) as Ht.
  { rewrite append_cons. cbn. destruct c as [[] [] [] [] [] [] [] []]; done. }
  cbn [flag.Parse]. rewrite Ht, Hc.
  assert (flag.bad_syntax (String c name +:+ "=" +:+ v) = false) as ->.
  { unfold flag.bad_syntax. rewrite append_cons.
    destruct c as [[] [] [] [] [] [] [] []]; first [done | congruence]. }
  destruct (flags !! String c name) as [old|]; [|done]. cbn.
  destruct old; cbn; try done; by repeat (destruct (_ : option _) as [?|]; cbn).
Qed.

(** ** Properties *)

Section Properties.
Context `{Durations} (env : os.environment).

(** C31: the API's configuration.  Without a flag, authentication is on
    exactly when FLOW_AUTH_ENABLED is one of the five accepted spellings of
    true, so that any other text, a misspelt one too, leaves the API open
    without an error; on the command line the text decides, and the process
    does not start when it is not a boolean.  The API key is the
    environment's.  Whatever the command line, no etcd endpoint is empty or
    holds a comma. *)
Theorem auth_switch v :
  (∃ cfg, ApiConfig.Load env [] = Some cfg ∧
     ApiConfig.AuthEnabled cfg = bool_decide
       (strings.ToLower (os.Getenv env "FLOW_AUTH_ENABLED") ∈ ["1"; "true"; "t"; "yes"; "y"]) ∧
     ApiConfig.APIKey cfg = os.Getenv env "FLOW_API_KEY") ∧
  match strconv.ParseBool v with
  | Some b => ∃ cfg, ApiConfig.Load env ["-auth-enabled=" +:+ v] = Some cfg ∧
      ApiConfig.AuthEnabled cfg = b ∧ ApiConfig.APIKey cfg = os.Getenv env "FLOW_API_KEY"
  | None => ApiConfig.Load env ["-auth-enabled=" +:+ v] = None
  end ∧
  ∀ args, from_option (λ cfg, Forall (λ e, e ≠ "" ∧ lacks e "," = true)
    (ApiConfig.EtcdEndpoints cfg)) True (ApiConfig.Load env args).
Proof.
  assert (ApiConfig.flags env !! "auth-enabled" =
    Some (flag.VBool (envBoolOrDefault env "FLOW_AUTH_ENABLED" false))) as Ha by find_flag.
  assert (ApiConfig.flags env !! "api-key" =
    Some (flag.VString (envOrDefault env "FLOW_API_KEY" ""))) as Hk by find_flag.
  assert (envOrDefault env "FLOW_API_KEY" "" = os.Getenv env "FLOW_API_KEY") as Hkey.
  { unfold envOrDefault. by case_bool_decide. }
  unfold ApiConfig.Load. split_and!.
  - cbn [flag.Parse mbind option_bind]. eexists. split; [reflexivity|].
    cbn [ApiConfig.AuthEnabled ApiConfig.APIKey]. unfold flag.get_bool, flag.get_string.
    rewrite Ha, Hk, Hkey. split; [|done]. unfold envBoolOrDefault.
    case_bool_decide as E; [by repeat case_bool_decide|]. by rewrite E.
  - change ("-auth-enabled=" +:+ v) with ("-" +:+ "auth-enabled" +:+ "=" +:+ v).
    rewrite Parse_one by done. rewrite Ha. cbn [mbind option_bind flag.set_value].
    destruct (strconv.ParseBool v) as [b|]; [|done].
    cbn [mbind option_bind fmap option_fmap option_map]. eexists. split; [reflexivity|].
    cbn [ApiConfig.AuthEnabled ApiConfig.APIKey]. unfold flag.get_bool, flag.get_string.
    rewrite lookup_insert_eq, lookup_insert_ne by done. by rewrite Hk.
  - intros args. destruct (flag.Parse args _); [|done]. apply splitComma_endpoints.
Qed.
End Properties.
