(* ===== verification/Observability.v ===== *)
(** * internal/observability of the API and of the controller

    The logger over slog's text handler, the log levels, and [Setup] as a
    program over the calls into otel and its exporters ([obsE]).  The two
    packages differ in three lines: the API makes its logger slog's default,
    the controller's has [Debug]. *)
From S2P Require Import Prelude GoStd Prog Config.

(** ** Levels *)

(** [slog.Level] *)
Definition LevelDebug : Z := -4.
Definition LevelInfo : Z := 0.
Definition LevelWarn : Z := 4.
Definition LevelError : Z := 8.

Definition parseLogLevel (level : string) : Z :=
  let level := strings.ToLower level in
  if bool_decide (level = "debug") then LevelDebug
  else if bool_decide (level ∈ ["warn"; "warning"]) then LevelWarn
  else if bool_decide (level = "error") then LevelError
  else LevelInfo.

(** ** Calls *)

Inductive Attr :=
  | AttrString (key value : string)
  | AttrInt (key : string) (value : Z)
  | AttrError (key : string) (err : GoError).

Inductive obsE : Type → Type :=
  | SlogSetDefault (level : Z) : obsE unit
  | Stdout (level : Z) (msg : string) (attrs : list Attr) : obsE unit
  | SetNoop : obsE unit
  | ResourceNew (service : string) : obsE (result unit)
  | TraceExporterNew (endpoint : string) : obsE (result unit)
  | MetricExporterNew (endpoint : string) : obsE (result unit)
  | SetTracerProvider : obsE unit
  | SetTextMapPropagator : obsE unit
  | SetMeterProvider : obsE unit
  | TracerShutdown : obsE (option GoError)
  | MeterShutdown : obsE (option GoError).

(** ** Logger *)

(** [slog] holds the level of the handler; [None] in the zero value. *)
Record Logger := { slog : option Z }.

(** [LogAttrs] drops what is below the handler's level. *)
Definition write (l : Logger) (level : Z) (msg : string) (attrs : list Attr) : prog obsE unit :=
  match slog l with
  | Some min => if (min <=? level)%Z then call (Stdout level msg attrs) else Ret tt
  | None => Ret tt
  end.

Definition log_Debug (l : Logger) := write l LevelDebug.
Definition log_Info (l : Logger) := write l LevelInfo.
Definition log_Warn (l : Logger) := write l LevelWarn.
Definition log_Error (l : Logger) := write l LevelError.

(** ** Setup *)

(** The error a failed shutdown of the providers answers: the first one. *)
Definition shutdown : prog obsE (option GoError) :=
  err ← call TracerShutdown;
  let shutdownErr := match err with
                     | Some err => Some (Wrapf "trace shutdown: %w" [] err)
                     | None => None
                     end in
  err ← call MeterShutdown;
  Ret (match err, shutdownErr with
       | Some err, None => Some (Wrapf "metric shutdown: %w" [] err)
       | _, _ => shutdownErr
       end).

Definition Shutdown : Type := prog obsE (option GoError).

(** [Setup] answers the shutdown function, the logger and the error. *)
Definition setup (setDefault : bool) (enabled : bool) (level service endpoint : string) :
    prog obsE (option Shutdown * Logger * option GoError) :=
  let level := parseLogLevel level in
  _ ← (if setDefault then call (SlogSetDefault level) else Ret tt);
  let lg := Build_Logger (Some level) in
  if negb enabled then
    _ ← call SetNoop;
    Ret (Some (Ret None), lg, None)
  else
    res ← call (ResourceNew service);
    match res with
    | Err e => Ret (None, Build_Logger None, Some (Wrapf "resource: %w" [] e))
    | Ok _ =>
        traceExporter ← call (TraceExporterNew endpoint);
        match traceExporter with
        | Err e => Ret (None, Build_Logger None, Some (Wrapf "trace exporter: %w" [] e))
        | Ok _ =>
            metricExporter ← call (MetricExporterNew endpoint);
            match metricExporter with
            | Err e => Ret (None, Build_Logger None, Some (Wrapf "metric exporter: %w" [] e))
            | Ok _ =>
                _ ← call SetTracerProvider;
                _ ← call SetTextMapPropagator;
                _ ← call SetMeterProvider;
                Ret (Some shutdown, lg, None)
            end
        end
    end.

Module ApiObservability.
Definition Setup (cfg : ApiConfig.Config) :=
  setup true (ApiConfig.ObservabilityEnabled cfg) (ApiConfig.LogLevel cfg)
    (ApiConfig.ServiceName cfg) (ApiConfig.OTLPEndpoint cfg).
End ApiObservability.

Module CtlObservability.
Definition Setup (cfg : CtlConfig.Config) :=
  setup false (CtlConfig.ObservabilityEnabled cfg) (CtlConfig.LogLevel cfg)
    (CtlConfig.ServiceName cfg) (CtlConfig.OTLPEndpoint cfg).
End CtlObservability.

(** ** Facts *)

Definition is_shutdown {X} (e : obsE X) : bool :=
  match e with TracerShutdown | MeterShutdown => true | _ => false end.

(** Whatever the level is set to, errors are written. *)
Lemma parseLogLevel_error level : (parseLogLevel level <= LevelError)%Z.
Proof. unfold parseLogLevel. repeat case_bool_decide; vm_compute; congruence. Qed.

Lemma run_log_Error {S} (h : handler obsE S) level msg attrs s :
  trace h (log_Error (Build_Logger (Some (parseLogLevel level))) msg attrs) s =
    [existT _ (Stdout LevelError msg attrs)].
Proof.
  unfold log_Error, write. cbn [slog].
  by rewrite (proj2 (Z.leb_le _ _) (parseLogLevel_error level)).
Qed.

Lemma confined_write l level msg attrs :
  confined (λ X e, is_shutdown e = false) (write l level msg attrs).
Proof. unfold write. repeat confined_step; done. Qed.

(** What [Setup] answers: an error and nothing else, or a logger at the level
    asked for and the shutdown of what was set up. *)
Definition setup_result (enabled : bool) (level : string)
    (r : option Shutdown * Logger * option GoError) : Prop :=
  match r with
  | (sd, l, None) => l = Build_Logger (Some (parseLogLevel level)) ∧
      sd = Some (if enabled then shutdown else Ret None)
  | (sd, l, Some _) => enabled = true ∧ sd = None
  end.

Lemma setup_spec {S} (h : handler obsE S) def enabled level service endpoint s :
  setup_result enabled level (run h (setup def enabled level service endpoint) s).1.
Proof.
  change (wp h (setup def enabled level service endpoint) s
    (λ r _, setup_result enabled level r)).
  unfold setup. apply wp_bind. eapply wp_mono with (Φ := λ _ _, True); [done|]. intros _ s1 _.
  destruct enabled; cbn [negb];
    repeat first [wp_step | apply wp_call; intros ? ? ?]; cbn; done.
Qed.

Lemma confined_setup def enabled level service endpoint :
  confined (λ X e, is_shutdown e = false) (setup def enabled level service endpoint).
Proof. unfold setup. repeat confined_step; done. Qed.

(** The failures of [Setup]. *)
Definition setup_fault {X} (e : obsE X) : X → bool :=
  match e in obsE X return X → bool with
  | ResourceNew _ | TraceExporterNew _ | MetricExporterNew _ => λ r, negb (is_ok r)
  | _ => λ _, false
  end.

(** [Setup] answers an error exactly when one of its calls failed. *)
Lemma setup_notices def enabled level service endpoint :
  notices (@setup_fault) False (λ r, match r.2 with None => true | Some _ => false end)
    (setup def enabled level service endpoint).
Proof.
  unfold setup. apply notices_quiet; [repeat confined_step; done|]. intros _.
  destruct enabled; cbn [negb].
  2: { apply notices_quiet; [by repeat confined_step|]. intros _. by apply notices_ret. }
  eapply notices_bind with (ok1 := is_ok); [by apply notices_call| |by intros []].
  intros [u|e]; [intros _|done].
  eapply notices_bind with (ok1 := is_ok); [by apply notices_call| |by intros []].
  intros [u1|e]; [intros _|done].
  eapply notices_bind with (ok1 := is_ok); [by apply notices_call| |by intros []].
  intros [u2|e]; [intros _|done].
  do 3 (apply notices_quiet; [by repeat confined_step|]; intros _). by apply notices_ret.
Qed.
