(* ===== verification/ControllerMain.v ===== *)
(** * controller/cmd/flow-controller and controller/internal/kube: start-up
    and leader election

    [runWithLeaderElection] is a program over the elector, the channels its
    callbacks write to and the context ([leadE]); the callback that runs the
    controller is [OnStartedLeading].  The elector (client-go) is behind
    these calls.  All terms share one controller, hence one work queue: the
    property below says what is left of it after the first term. *)
From S2P Require Import Prelude GoStd GoStdFacts Prog Goroutines Messages Config Etcd Codec Kube Runtime ControllerStore.
From S2P Require Import ApiStore ApiStoreProps RuntimeProps WorkQueue Controller ControllerProps ControllerRun.

(** ** kube/client.go *)

Definition kubeconfigPath (env : os.environment) (home : result string) : string :=
  let kubeconfig := os.Getenv env "KUBECONFIG" in
  if bool_decide (kubeconfig ≠ "") then kubeconfig
  else match home with
       | Err _ => ""
       | Ok home => path.Join [home; ".kube"; "config"]
       end.

(** Building a client from the cluster or from a file is client-go's. *)
Inductive kubeConfigE : Type → Type :=
  | InClusterConfig : kubeConfigE (result string)
  | BuildConfigFromFlags (path : string) : kubeConfigE (result string)
  | NewForConfig (cfg : string) : kubeConfigE (result unit).

Definition loadConfig (env : os.environment) (home : result string) :
    prog kubeConfigE (result string) :=
  cfg ← call InClusterConfig;
  match cfg with
  | Ok cfg => Ret (Ok cfg)
  | Err _ =>
      let kubeconfig := kubeconfigPath env home in
      cfg ← call (BuildConfigFromFlags kubeconfig);
      match cfg with
      | Err e => Ret (Err (Wrapf "load kubeconfig (%s): %w" [AStr kubeconfig] e))
      | Ok cfg => Ret (Ok cfg)
      end
  end.

Definition kube_New (env : os.environment) (home : result string) :
    prog kubeConfigE (result string) :=
  cfg ←? loadConfig env home;
  cs ← call (NewForConfig cfg);
  match cs with
  | Err e => Ret (Err (Wrapf "create kubernetes clientset: %w" [] e))
  | Ok _ => Ret (Ok cfg)
  end.

(** ** main.go *)

(** The identity of the process in the election. *)
Definition nodeName (env : os.environment) (hostname : result string) (pid : N) : string :=
  let podName := os.Getenv env "POD_NAME" in
  if bool_decide (podName = "") then
    let hostname := match hostname with
      | Ok h => if bool_decide (h = "") then "flow-controller-local" else h
      | Err _ => "flow-controller-local"
      end in
    hostname +:+ "-" +:+ strconv.FormatUint pid
  else podName.

(** What the [select] of the loop picks. *)
Inductive lead_select := LeadDone | LeadErr (e : GoError) | LeadStopped.

Inductive leadE : Type → Type :=
  | NewLeaderElector (name namespace identity : string) (lease renew retry : Z) :
      leadE (result unit)
  | StartElection : leadE unit
  | LeadSelect : leadE lead_select
  | WaitRunDone : leadE unit
  | CtxErr : leadE bool
  | SendErr (e : GoError) : leadE unit
  | SendStopped : leadE unit.

(** [OnStartedLeading], given the outcome of [ctrl.Run].  Both sends give up
    when the channel, of capacity one, is full. *)
Definition OnStartedLeading (ran : result unit) : prog leadE unit :=
  match ran with
  | Err e => call (SendErr e)
  | Ok _ => Ret tt
  end.

Definition OnStoppedLeading : prog leadE unit := call SendStopped.

(** The loop, for a number of rounds; [None] when it goes on. *)
Fixpoint lead_loop (rounds : nat) : prog leadE (option (result unit)) :=
  match rounds with
  | 0 => Ret None
  | S rounds =>
      _ ← call StartElection;
      sel ← call LeadSelect;
      match sel with
      | LeadDone => Ret (Some (Ok tt))
      | LeadErr e => Ret (Some (Err e))
      | LeadStopped =>
          _ ← call WaitRunDone;
          done ← call CtxErr;
          if (done : bool) then Ret (Some (Ok tt)) else lead_loop rounds
      end
  end.

Definition runWithLeaderElection (cfg : CtlConfig.Config) (identity : string) (rounds : nat) :
    prog leadE (option (result unit)) :=
  err ← call (NewLeaderElector (CtlConfig.LeaderElectionName cfg)
    (CtlConfig.LeaderElectionNamespace cfg) identity
    (CtlConfig.LeaderElectionLeaseDuration cfg) (CtlConfig.LeaderElectionRenewDeadline cfg)
    (CtlConfig.LeaderElectionRetryPeriod cfg));
  match err with
  | Err e => Ret (Some (Err e))
  | Ok _ => lead_loop rounds
  end.

(** When the context ends the loop returns at once: it does not wait for the
    elector, hence not for the controller's workers, nor for the lease to be
    released. *)
Lemma election_shutdown_does_not_wait {W} (h : handler leadE W) rounds w :
  let w1 := (h _ StartElection w).2 in
  (h _ LeadSelect w1).1 = LeadDone →
  (run h (lead_loop (S rounds)) w).1 = Some (Ok tt) ∧
  trace h (lead_loop (S rounds)) w = [existT _ StartElection; existT _ LeadSelect].
Proof.
  intros w1 Hs. cbn. fold w1. by rewrite Hs.
Qed.

(** ** The queue over the terms *)

(** A world whose queue calls are steps of [MemoryQueue], except that a [Get]
    that blocks leaves the queue alone; so do the other calls. *)
Section Terms.
Context {Q : Type} `{RateLimitingQueue Q} {W : Type} (h : handler goE W)
  (queue : W → MemoryQueue Q).

Definition queue_backed : Prop := ∀ X (e : goE X) w,
  let w' := (h _ e w).2 in
  match e in goE X return X → Prop with
  | OnQueue e => λ x, mem_step e (queue w) x (queue w') ∨ (gets e = true ∧ queue w' = queue w)
  | _ => λ _, queue w' = queue w
  end (h _ e w).1.

(** A shut-down queue hands out only the keys it held. *)
Definition shrinks (m m' : MemoryQueue Q) : Prop :=
  shutting (mq_q m') = true ∧ waiting (mq_q m') ⊆ waiting (mq_q m) ∧
  processing (mq_q m') ⊆ processing (mq_q m) ∪ waiting (mq_q m).

Lemma shrinks_refl m : shutting (mq_q m) = true → shrinks m m.
Proof. intros. split_and!; [done|set_solver..]. Qed.

Lemma shrinks_trans m1 m2 m3 : shrinks m1 m2 → shrinks m2 m3 → shrinks m1 m3.
Proof. intros (? & ? & ?) (? & ? & ?). split_and!; [done|set_solver..]. Qed.

Lemma mem_step_shrinks {X} (e : memE X) m x m' :
  shutting (mq_q m) = true → mem_step e m x m' → shrinks m m'.
Proof.
  intros Hs Hm. destruct (mem_step_spec _ _ _ _ Hm) as (_ & Hsh & _ & Hw).
  destruct (Hw Hs). split_and!; [|done|done]. rewrite Hsh, Hs. apply orb_true_r.
Qed.

Context (Hq : queue_backed).

Lemma call_shrinks {X} (e : goE X) w :
  shutting (mq_q (queue w)) = true → shrinks (queue w) (queue (h _ e w).2).
Proof using Hq.
  intros Hs. pose proof (Hq X e w) as He. destruct e as [Y e|Y e|Y e]; cbn in He.
  - rewrite He. by apply shrinks_refl.
  - destruct He as [He|[_ ->]]; [by eapply mem_step_shrinks|by apply shrinks_refl].
  - rewrite He. by apply shrinks_refl.
Qed.

Lemma run_shrinks {A} (p : prog goE A) w :
  shutting (mq_q (queue w)) = true → shrinks (queue w) (queue (run h p w).2).
Proof using Hq.
  revert w. induction p as [a|X e k IH]; intros w Hs; [by apply shrinks_refl|].
  cbn. eapply shrinks_trans; [exact (call_shrinks e w Hs)|]. apply IH.
  by destruct (call_shrinks e w Hs).
Qed.

Lemma schedule_shrinks {A} sched w (pool : list (prog goE A)) :
  shutting (mq_q (queue w)) = true → shrinks (queue w) (queue (run_schedule h sched (w, pool)).1).
Proof using Hq.
  unfold run_schedule. revert w pool. induction sched as [|i sched IH]; intros w pool Hs;
    [by apply shrinks_refl|].
  cbn [foldl]. unfold pool_step at 2. cbn [fst snd].
  destruct (pool !! i) as [[a|X e k]|]; [by apply IH| |by apply IH].
  eapply shrinks_trans; [exact (call_shrinks e w Hs)|]. apply IH. by destruct (call_shrinks e w Hs).
Qed.

Lemma stop_shrinks w :
  shrinks (queue w) (queue (run h (interp (@implement) Run_stop) w).2).
Proof using Hq.
  pose proof (Hq _ (OnQueue QueueShutDown) w) as [(q & Hq' & Hs)|[Hf _]]; [|done].
  cbn in Hs |- *. rewrite Hs. destruct (q_elapse_spec _ _ Hq') as (Hw & _ & Hp & _).
  unfold shrinks. cbn. destruct (q_ShutDown_spec q) as (Hw' & -> & ->).
  rewrite Hp. split_and!; [done|set_solver..].
Qed.
End Terms.

(** C17: a controller that loses the leadership and gets it back does nothing
    any more.  [Run] shuts the queue down when its context ends, and
    [runWithLeaderElection] starts the next term with the same controller:
    from then on, under any interleaving of the single steps of what is left
    of the first term and of the goroutines of any further terms (the
    seeding, the watch, the workers), a key that was not in the queue when it
    was shut down is never handed to a worker, whatever is added, and the
    seeding reports success all the same. *)
Theorem regained_leadership_is_inert `{Codec} `{GoRuntime} `{RuntimeEncoding} (c : Controller)
    {Q} `{RateLimitingQueue Q} {W} (h : handler goE W) (queue : W → MemoryQueue Q) w
    {A} (left pool : list (prog goE A)) sched1 sched2 :
  queue_backed h queue →
  let m := queue w in
  let stopped := (run h (interp (@implement) Run_stop) w).2 in
  let w1 := (run_schedule h sched1 (stopped, left)).1 in
  let started := run h (interp (@implement) (Run_start c)) w1 in
  let m' := queue (run_schedule h sched2 (started.2, pool)).1 in
  (is_ok started.1 =
     is_ok (run h (interp (@implement) (ctl (on_etcd Ctl.ListFlows))) w1).1) ∧
  waiting (mq_q m') ⊆ waiting (mq_q m) ∧
  processing (mq_q m') ⊆ processing (mq_q m) ∪ waiting (mq_q m).
Proof.
  intros Hq m stopped w1.
  assert (shrinks m (queue w1)) as Hsh1.
  { pose proof (stop_shrinks h queue Hq w) as Hs. eapply shrinks_trans; [exact Hs|].
    apply schedule_shrinks; [done|]. by destruct Hs. }
  intros started.
  assert (shrinks (queue w1) (queue started.2)) as Hsh2.
  { apply run_shrinks; [done|]. by destruct Hsh1. }
  assert (shrinks m (queue (run_schedule h sched2 (started.2, pool)).1)) as (_ & Hw & Hp).
  { eapply shrinks_trans; [exact Hsh1|]. eapply shrinks_trans; [exact Hsh2|].
    apply schedule_shrinks; [done|]. by destruct Hsh2. }
  split_and!; [|done|done].
  unfold started, Run_start, enqueueExisting, try_bind. rewrite !run_interp_bind.
  destruct (run h (interp (@implement) (ctl (on_etcd Ctl.ListFlows))) w1) as [[flows|e] w3]; [|done].
  cbn [fst snd]. rewrite run_interp_bind. done.
Qed.

(** ** Witness: two flows in the store, and a second term *)
Section Witness.
Import MemEtcd TestCodec.
#[local] Existing Instances std_runtime test_encoding.

Definition mem_handler : handler memE (MemoryQueue MapQueue.state) := λ X e,
  match e in memE X return MemoryQueue MapQueue.state → X * MemoryQueue MapQueue.state with
  | MarkEnqueued key => λ m, (tt, markEnqueued 0 key m)
  | ClearEnqueued key => λ m, (tt, clearEnqueued key m)
  | DequeueLag key => λ m, dequeueLag 0 key m
  | QueueAdd key => λ m, (tt, on_q (q_Add key) m)
  | QueueGet => λ m, match q_Get (mq_q m) with
                     | Some (Some (key, q)) => (Some key, on_q (λ _, q) m)
                     | _ => (None, m)
                     end
  | QueueForget key => λ m, (tt, on_q (q_Forget key) m)
  | QueueAddRateLimited key => λ m, (tt, on_q (q_AddRateLimited key) m)
  | QueueDone key => λ m, (tt, on_q (q_Done key) m)
  | QueueLen => λ m, (q_Len (mq_q m), m)
  | QueueShutDown => λ m, (tt, on_q q_ShutDown m)
  end.

(** A context that is not done, and a stream that is closed. *)
Definition host_answer {X} (e : hostE X) : X :=
  match e in hostE X return X with
  | CtxDone => false
  | WatchSelect => SelClosed
  | CtxWait | Sleep _ | WatchStop | WgDone | WgWait => tt
  end.

Definition term_handler : handler goE (state * MemKube.state * unit * MemoryQueue MapQueue.state) :=
  λ X e w,
  match e in goE X return X * _ with
  | OnCtl e => let r := ctl_exec no_clock _ e w.1 in (r.1, (r.2, w.2))
  | OnQueue e => let r := mem_handler _ e w.2 in (r.1, (w.1, r.2))
  | OnHost e => (host_answer e, w)
  end.

Lemma term_backed : queue_backed (Q := MapQueue.state) term_handler snd.
Proof.
  intros X e [w m]. destruct e as [Y e|Y e|Y e]; cbn; [done| |done].
  assert (∀ x m', mem_atomic e m x m' → mem_step e m x m') as Hstep.
  { intros x m' Hm. exists (mq_q m). split; [apply q_elapse_refl|]. by destruct m. }
  destruct e; cbn; try (left; apply Hstep; by eexists); try (left; by apply Hstep).
  - left. apply Hstep. exists 0%Z. by destruct (dequeueLag 0 key m).
  - destruct (MapQueue.get (mq_q m)) as [[[key q]|]|] eqn:Hg; [left|left|by right];
      apply Hstep; cbn; by rewrite Hg.
Defined.

Definition first_term := (two_flows, MemKube.empty [], tt, NewMemoryQueue MapQueue.empty).

(** In the first term the seeding queues both flows; in the second none. *)
Lemma regained_leadership_is_inert_witness :
  let seeding := interp (@implement) (Run_start controller) in
  let watch := interp (@implement) (loop_rounds watch_body 1) in
  let worker := interp (@implement) (worker_rounds controller 1) in
  waiting (mq_q (run term_handler seeding first_term).2.2) = {["a"; "ab"]} ∧
  let w1 := (run term_handler (interp (@implement) Run_stop) first_term).2 in
  let w2 := run term_handler seeding w1 in
  is_ok w2.1 = true ∧ waiting (mq_q (run_schedule term_handler [0; 1; 0; 1]
    (w2.2, [watch; worker])).1.2) ⊆ ∅.
Proof.
  intros seeding watch worker. split; [apply (bool_decide_unpack _); vm_compute; exact I|].
  intros w1 w2. split; [vm_compute; reflexivity|].
  exact (proj1 (proj2 (regained_leadership_is_inert controller term_handler snd first_term
    [] [watch; worker] [] [0; 1; 0; 1] term_backed))).
Defined.
End Witness.
