(* ===== verification/ApiService.v ===== *)
(** * api/internal/service: the two gRPC services, over the store interfaces

    [APIStore], [SchemaRegistryStore] and [Store] are the interfaces of
    api/internal/store/store.go, pointers as options; [etcd_store] is the
    etcd implementation.  The servers follow flow_service.go and
    schema_registry_service.go method by method, without the debug log
    lines.  A request is the non-nil pointer gRPC passes; of a pair of a
    response and an error that is not nil only the error is kept. *)
From S2P Require Import Prelude GoStd Prog Messages Etcd Codec ApiStore SchemaStore.

(** ** Store interfaces *)

Class APIStore (E : Type → Type) := {
  store_CreateFlow : option FlowSpec → prog E (result (option Flow));
  store_UpdateFlow : string → option FlowSpec → prog E (result (option Flow));
  store_GetFlow : string → prog E (result (option Flow));
  store_ListFlows : prog E (result (list (option Flow)));
  store_DeleteFlow : string → prog E (result unit);
  store_GetFlowStatus : string → prog E (result (option FlowStatus));
  store_RollbackFlow : string → N → prog E (result (option Flow));
}.

Class SchemaRegistryStore (E : Type → Type) := {
  store_CreateSchema : option SchemaDefinition → prog E (result (option SchemaDefinition));
  store_GetSchema : string → N → prog E (result (option SchemaDefinition));
  store_ListSchemaVersions : string → prog E (result (list (option SchemaDefinition)));
  store_DeleteSchema : string → prog E (result unit);
}.

Class Store (E : Type → Type) := {
  Store_SchemaRegistryStore :: SchemaRegistryStore E;
  Store_APIStore :: APIStore E;
}.

(** A pointer that is not nil when the error is. *)
Definition pointer {E A} (p : prog E (result A)) : prog E (result (option A)) :=
  a ←? p; Ret (Ok (Some a)).

(** [*EtcdStore] implements [Store]. *)
Section EtcdStore.
Context `{Codec} `{GoRuntime}.

#[export] Instance etcd_api_store : APIStore etcdE := {|
  store_CreateFlow spec := pointer (CreateFlow spec);
  store_UpdateFlow name spec := pointer (UpdateFlow name spec);
  store_GetFlow name := pointer (GetFlow name);
  store_ListFlows := l ←? ListFlows; Ret (Ok (Some <$> l));
  store_DeleteFlow := DeleteFlow;
  store_GetFlowStatus := GetFlowStatus;
  store_RollbackFlow name version := pointer (RollbackFlow name version);
|}.

#[export] Instance etcd_schema_store : SchemaRegistryStore etcdE := {|
  store_CreateSchema schema := pointer (CreateSchema schema);
  store_GetSchema schemaID version := pointer (GetSchema schemaID version);
  store_ListSchemaVersions schemaID :=
    l ←? ListSchemaVersions schemaID; Ret (Ok (Some <$> l));
  store_DeleteSchema := DeleteSchema;
|}.

#[export] Instance etcd_store : Store etcdE := {|
  Store_SchemaRegistryStore := etcd_schema_store;
  Store_APIStore := etcd_api_store;
|}.
End EtcdStore.

(** ** FlowServer *)
Module FlowServer.
Section FlowServer.
Context {E : Type → Type} `{APIStore E}.

Definition CreateFlow (r : CreateFlowRequest) : prog E (result (option Flow)) :=
  store_CreateFlow (cfr_Spec r).

Definition UpdateFlow (r : UpdateFlowRequest) : prog E (result (option Flow)) :=
  store_UpdateFlow (ufr_Name r) (ufr_Spec r).

Definition GetFlow (r : GetFlowRequest) : prog E (result (option Flow)) :=
  store_GetFlow (gfr_Name r).

(** The loop over the listed flows: nil ones are skipped. *)
Fixpoint summaries (flows : list (option Flow)) : list FlowSummary :=
  match flows with
  | [] => []
  | None :: flows => summaries flows
  | Some flow :: flows =>
      Build_FlowSummary (Flow_GetName (Some flow)) (Flow_GetStatus (Some flow)) :: summaries flows
  end.

Definition ListFlows (_ : ListFlowsRequest) : prog E (result (option ListFlowsResponse)) :=
  flows ←? store_ListFlows;
  Ret (Ok (Some (Build_ListFlowsResponse (summaries flows)))).

Definition DeleteFlow (r : DeleteFlowRequest) : prog E (result (option Empty)) :=
  _ ←? store_DeleteFlow (dfr_Name r);
  Ret (Ok (Some Build_Empty)).

Definition GetFlowStatus (r : GetFlowStatusRequest) : prog E (result (option FlowStatus)) :=
  store_GetFlowStatus (gfsr_Name r).

Definition RollbackFlow (r : RollbackFlowRequest) : prog E (result (option Flow)) :=
  store_RollbackFlow (rfr_Name r) (rfr_Version r).

End FlowServer.
End FlowServer.

(** ** SchemaRegistryServer *)

Definition schemaToModel (schema : option PbSchemaDefinition) : option SchemaDefinition :=
  match schema with
  | None => None
  | Some _ => Some (Build_SchemaDefinition (SchemaDefinition_GetSchemaId schema)
      (SchemaDefinition_GetVersion schema) (SchemaDefinition_GetFormat schema)
      (SchemaDefinition_GetRawSchema schema))
  end.

Definition modelToSchema (schema : option SchemaDefinition) : option PbSchemaDefinition :=
  match schema with
  | None => None
  | Some schema => Some (Build_PbSchemaDefinition (sd_SchemaID schema) (sd_Version schema)
      (sd_Format schema) (sd_RawSchema schema))
  end.

Definition modelsToSchemas (schemas : list (option SchemaDefinition)) :
    list (option PbSchemaDefinition) :=
  match schemas with
  | [] => []
  | _ => modelToSchema <$> schemas
  end.

Module SchemaRegistryServer.
Section SchemaRegistryServer.
Context {E : Type → Type} `{SchemaRegistryStore E}.

Definition CreateSchema (r : CreateSchemaRequest) : prog E (result (option PbSchemaDefinition)) :=
  let schema := CreateSchemaRequest_GetSchema (Some r) in
  created ←? store_CreateSchema (schemaToModel schema);
  Ret (Ok (modelToSchema created)).

Definition GetSchema (r : GetSchemaRequest) : prog E (result (option PbSchemaDefinition)) :=
  schema ←? store_GetSchema (GetSchemaRequest_GetSchemaId (Some r))
    (GetSchemaRequest_GetVersion (Some r));
  Ret (Ok (modelToSchema schema)).

Definition ListSchemaVersions (r : ListSchemaVersionsRequest) :
    prog E (result (option ListSchemaVersionsResponse)) :=
  schemas ←? store_ListSchemaVersions (ListSchemaVersionsRequest_GetSchemaId (Some r));
  Ret (Ok (Some (Build_ListSchemaVersionsResponse (modelsToSchemas schemas)))).

Definition DeleteSchema (r : DeleteSchemaRequest) : prog E (result (option Empty)) :=
  _ ←? store_DeleteSchema (DeleteSchemaRequest_GetSchemaId (Some r));
  Ret (Ok (Some Build_Empty)).

End SchemaRegistryServer.
End SchemaRegistryServer.

(** ** Conversions lose nothing *)

Lemma schema_conversions (m : option SchemaDefinition) (p : option PbSchemaDefinition) :
  schemaToModel (modelToSchema m) = m ∧ modelToSchema (schemaToModel p) = p.
Proof. by destruct m as [[]|], p as [[]|]. Qed.

Lemma modelsToSchemas_fmap l : modelsToSchemas l = modelToSchema <$> l.
Proof. by destruct l. Qed.

Lemma summaries_fmap (l : list Flow) :
  FlowServer.summaries (Some <$> l) = (λ f, Build_FlowSummary (fl_Name f) (fl_Status f)) <$> l.
Proof. induction l as [|f l IH]; [done|]. cbn. by rewrite <-IH. Qed.
