(* ===== verification/Rpc.v ===== *)
(** * service_grpc.pb.go: the two gRPC services on the wire

    Client stubs, method handlers and service descriptors.  What the grpc
    package does between a stub and a handler is the class [GrpcChannel]:
    a call may fail, and then the handler ran or did not; a call that
    succeeds ran the handler of the method once, on the request that was
    sent, and brings back its reply, a nil one as the empty message.  An
    interceptor is a function that works for all request and response types,
    since the ones of the API server never look at them.  A [Context] is the
    part of the incoming context they read. *)
From S2P Require Import Prelude GoStd Prog Messages.

(** ** Messages on the wire *)

Inductive message : Type → Type :=
  | M_CreateFlowRequest : message CreateFlowRequest
  | M_UpdateFlowRequest : message UpdateFlowRequest
  | M_DeleteFlowRequest : message DeleteFlowRequest
  | M_GetFlowRequest : message GetFlowRequest
  | M_ListFlowsRequest : message ListFlowsRequest
  | M_GetFlowStatusRequest : message GetFlowStatusRequest
  | M_RollbackFlowRequest : message RollbackFlowRequest
  | M_CreateSchemaRequest : message CreateSchemaRequest
  | M_GetSchemaRequest : message GetSchemaRequest
  | M_ListSchemaVersionsRequest : message ListSchemaVersionsRequest
  | M_DeleteSchemaRequest : message DeleteSchemaRequest
  | M_Flow : message Flow
  | M_Empty : message Empty
  | M_ListFlowsResponse : message ListFlowsResponse
  | M_FlowStatus : message FlowStatus
  | M_SchemaDefinition : message PbSchemaDefinition
  | M_ListSchemaVersionsResponse : message ListSchemaVersionsResponse.

(** The zero value of a response, [new(T)]. *)
Definition zero {A} (m : message A) : option A :=
  match m with
  | M_Flow => Some (Build_Flow "" 0 None None)
  | M_Empty => Some Build_Empty
  | M_ListFlowsResponse => Some (Build_ListFlowsResponse [])
  | M_FlowStatus => Some (Build_FlowStatus FLOW_STATE_UNSPECIFIED "" 0 "" None)
  | M_SchemaDefinition =>
      Some (Build_PbSchemaDefinition "" 0 IN_MEMORY_SCHEMA_FORMAT_UNSPECIFIED [])
  | M_ListSchemaVersionsResponse => Some (Build_ListSchemaVersionsResponse [])
  | _ => None
  end.

(** What the client gets for the reply a handler returned. *)
Definition received {A} (m : message A) (reply : option A) : option A :=
  match reply with Some a => Some a | None => zero m end.

(** ** Full method names *)

Definition FlowService_CreateFlow_FullMethodName : string :=
  "/flowpipe.v1.FlowService/CreateFlow".
Definition FlowService_UpdateFlow_FullMethodName : string :=
  "/flowpipe.v1.FlowService/UpdateFlow".
Definition FlowService_DeleteFlow_FullMethodName : string :=
  "/flowpipe.v1.FlowService/DeleteFlow".
Definition FlowService_GetFlow_FullMethodName : string :=
  "/flowpipe.v1.FlowService/GetFlow".
Definition FlowService_ListFlows_FullMethodName : string :=
  "/flowpipe.v1.FlowService/ListFlows".
Definition FlowService_GetFlowStatus_FullMethodName : string :=
  "/flowpipe.v1.FlowService/GetFlowStatus".
Definition FlowService_RollbackFlow_FullMethodName : string :=
  "/flowpipe.v1.FlowService/RollbackFlow".
Definition SchemaRegistryService_CreateSchema_FullMethodName : string :=
  "/flowpipe.v1.SchemaRegistryService/CreateSchema".
Definition SchemaRegistryService_GetSchema_FullMethodName : string :=
  "/flowpipe.v1.SchemaRegistryService/GetSchema".
Definition SchemaRegistryService_ListSchemaVersions_FullMethodName : string :=
  "/flowpipe.v1.SchemaRegistryService/ListSchemaVersions".
Definition SchemaRegistryService_DeleteSchema_FullMethodName : string :=
  "/flowpipe.v1.SchemaRegistryService/DeleteSchema".

(** ** Clients *)

Inductive grpcE : Type → Type :=
  | Invoke {A B} (method : string) (mA : message A) (in_ : A) (mB : message B) : grpcE (result B).

Module flowServiceClient.

Definition CreateFlow (in_ : CreateFlowRequest) : prog grpcE (result Flow) :=
  out ←? call (Invoke FlowService_CreateFlow_FullMethodName M_CreateFlowRequest in_ M_Flow); Ret (Ok out).
Definition UpdateFlow (in_ : UpdateFlowRequest) : prog grpcE (result Flow) :=
  out ←? call (Invoke FlowService_UpdateFlow_FullMethodName M_UpdateFlowRequest in_ M_Flow); Ret (Ok out).
Definition DeleteFlow (in_ : DeleteFlowRequest) : prog grpcE (result Empty) :=
  out ←? call (Invoke FlowService_DeleteFlow_FullMethodName M_DeleteFlowRequest in_ M_Empty); Ret (Ok out).
Definition GetFlow (in_ : GetFlowRequest) : prog grpcE (result Flow) :=
  out ←? call (Invoke FlowService_GetFlow_FullMethodName M_GetFlowRequest in_ M_Flow); Ret (Ok out).
Definition ListFlows (in_ : ListFlowsRequest) : prog grpcE (result ListFlowsResponse) :=
  out ←? call (Invoke FlowService_ListFlows_FullMethodName M_ListFlowsRequest in_ M_ListFlowsResponse); Ret (Ok out).
Definition GetFlowStatus (in_ : GetFlowStatusRequest) : prog grpcE (result FlowStatus) :=
  out ←? call (Invoke FlowService_GetFlowStatus_FullMethodName M_GetFlowStatusRequest in_ M_FlowStatus); Ret (Ok out).
Definition RollbackFlow (in_ : RollbackFlowRequest) : prog grpcE (result Flow) :=
  out ←? call (Invoke FlowService_RollbackFlow_FullMethodName M_RollbackFlowRequest in_ M_Flow); Ret (Ok out).

End flowServiceClient.

Module schemaRegistryServiceClient.

Definition CreateSchema (in_ : CreateSchemaRequest) : prog grpcE (result PbSchemaDefinition) :=
  out ←? call (Invoke SchemaRegistryService_CreateSchema_FullMethodName M_CreateSchemaRequest in_ M_SchemaDefinition); Ret (Ok out).
Definition GetSchema (in_ : GetSchemaRequest) : prog grpcE (result PbSchemaDefinition) :=
  out ←? call (Invoke SchemaRegistryService_GetSchema_FullMethodName M_GetSchemaRequest in_ M_SchemaDefinition); Ret (Ok out).
Definition ListSchemaVersions (in_ : ListSchemaVersionsRequest) : prog grpcE (result ListSchemaVersionsResponse) :=
  out ←? call (Invoke SchemaRegistryService_ListSchemaVersions_FullMethodName M_ListSchemaVersionsRequest in_ M_ListSchemaVersionsResponse); Ret (Ok out).
Definition DeleteSchema (in_ : DeleteSchemaRequest) : prog grpcE (result Empty) :=
  out ←? call (Invoke SchemaRegistryService_DeleteSchema_FullMethodName M_DeleteSchemaRequest in_ M_Empty); Ret (Ok out).

End schemaRegistryServiceClient.

(** ** Servers *)

(** google.golang.org/grpc/metadata: the pairs that travel with a call, their
    keys without regard to case. *)
Module metadata.

Notation MD := (list (string * string)) (only parsing).

Definition Get (md : MD) (key : string) : list string :=
  snd <$> filter (λ kv, strings.ToLower kv.1 = strings.ToLower key) md.

Lemma Get_keyed key l : Get (pair key <$> l) key = l.
Proof.
  unfold Get. induction l as [|x l IH]; [done|]. cbn [fmap list_fmap].
  rewrite filter_cons_True by done. cbn. by f_equal.
Qed.

End metadata.

(** [ctx_metadata]: what [metadata.FromIncomingContext] reads. *)
Record Context := { ctx_metadata : metadata.MD }.

Definition ctx_authorization (ctx : Context) : list string :=
  metadata.Get (ctx_metadata ctx) "authorization".

Definition UnaryHandler (E : Type → Type) (A B : Type) : Type :=
  Context → A → prog E (result (option B)).

(** [interceptor(ctx, req, info, handler)], of [info] the full method. *)
Definition UnaryServerInterceptor (E : Type → Type) : Type :=
  ∀ A B, string → UnaryHandler E A B → UnaryHandler E A B.

Record FlowServiceServer (E : Type → Type) := {
  srv_CreateFlow : UnaryHandler E CreateFlowRequest Flow;
  srv_UpdateFlow : UnaryHandler E UpdateFlowRequest Flow;
  srv_DeleteFlow : UnaryHandler E DeleteFlowRequest Empty;
  srv_GetFlow : UnaryHandler E GetFlowRequest Flow;
  srv_ListFlows : UnaryHandler E ListFlowsRequest ListFlowsResponse;
  srv_GetFlowStatus : UnaryHandler E GetFlowStatusRequest FlowStatus;
  srv_RollbackFlow : UnaryHandler E RollbackFlowRequest Flow;
}.
Arguments srv_CreateFlow {E} _.
Arguments srv_UpdateFlow {E} _.
Arguments srv_DeleteFlow {E} _.
Arguments srv_GetFlow {E} _.
Arguments srv_ListFlows {E} _.
Arguments srv_GetFlowStatus {E} _.
Arguments srv_RollbackFlow {E} _.

Record SchemaRegistryServiceServer (E : Type → Type) := {
  srv_CreateSchema : UnaryHandler E CreateSchemaRequest PbSchemaDefinition;
  srv_GetSchema : UnaryHandler E GetSchemaRequest PbSchemaDefinition;
  srv_ListSchemaVersions : UnaryHandler E ListSchemaVersionsRequest ListSchemaVersionsResponse;
  srv_DeleteSchema : UnaryHandler E DeleteSchemaRequest Empty;
}.
Arguments srv_CreateSchema {E} _.
Arguments srv_GetSchema {E} _.
Arguments srv_ListSchemaVersions {E} _.
Arguments srv_DeleteSchema {E} _.

(** [UnimplementedFlowServiceServer], [UnimplementedSchemaRegistryServiceServer] *)
Definition unimplemented {E A B} (method : string) : UnaryHandler E A B := λ _ _,
  Ret (Err (StatusErr "Unimplemented" ("method " +:+ method +:+ " not implemented"))).

Definition UnimplementedFlowServiceServer {E} : FlowServiceServer E := {|
  srv_CreateFlow := unimplemented "CreateFlow";
  srv_UpdateFlow := unimplemented "UpdateFlow";
  srv_DeleteFlow := unimplemented "DeleteFlow";
  srv_GetFlow := unimplemented "GetFlow";
  srv_ListFlows := unimplemented "ListFlows";
  srv_GetFlowStatus := unimplemented "GetFlowStatus";
  srv_RollbackFlow := unimplemented "RollbackFlow";
|}.

Definition UnimplementedSchemaRegistryServiceServer {E} : SchemaRegistryServiceServer E := {|
  srv_CreateSchema := unimplemented "CreateSchema";
  srv_GetSchema := unimplemented "GetSchema";
  srv_ListSchemaVersions := unimplemented "ListSchemaVersions";
  srv_DeleteSchema := unimplemented "DeleteSchema";
|}.

(** The body the method handlers share: decode, then call the method or hand
    it to the interceptor. *)
Definition unary_handler {E A B} (fullMethod : string) (method : UnaryHandler E A B)
    (ctx : Context) (dec : result A) (interceptor : option (UnaryServerInterceptor E)) :
    prog E (result (option B)) :=
  match dec with
  | Err e => Ret (Err e)
  | Ok in_ =>
      match interceptor with
      | None => method ctx in_
      | Some interceptor =>
          let handler := λ ctx req, method ctx req in
          interceptor A B fullMethod handler ctx in_
      end
  end.

Section Handlers.
Context {E : Type → Type}.

Definition _FlowService_CreateFlow_Handler (srv : FlowServiceServer E) :=
  unary_handler FlowService_CreateFlow_FullMethodName (srv_CreateFlow srv).
Definition _FlowService_UpdateFlow_Handler (srv : FlowServiceServer E) :=
  unary_handler FlowService_UpdateFlow_FullMethodName (srv_UpdateFlow srv).
Definition _FlowService_DeleteFlow_Handler (srv : FlowServiceServer E) :=
  unary_handler FlowService_DeleteFlow_FullMethodName (srv_DeleteFlow srv).
Definition _FlowService_GetFlow_Handler (srv : FlowServiceServer E) :=
  unary_handler FlowService_GetFlow_FullMethodName (srv_GetFlow srv).
Definition _FlowService_ListFlows_Handler (srv : FlowServiceServer E) :=
  unary_handler FlowService_ListFlows_FullMethodName (srv_ListFlows srv).
Definition _FlowService_GetFlowStatus_Handler (srv : FlowServiceServer E) :=
  unary_handler FlowService_GetFlowStatus_FullMethodName (srv_GetFlowStatus srv).
Definition _FlowService_RollbackFlow_Handler (srv : FlowServiceServer E) :=
  unary_handler FlowService_RollbackFlow_FullMethodName (srv_RollbackFlow srv).

Definition _SchemaRegistryService_CreateSchema_Handler (srv : SchemaRegistryServiceServer E) :=
  unary_handler SchemaRegistryService_CreateSchema_FullMethodName (srv_CreateSchema srv).
Definition _SchemaRegistryService_GetSchema_Handler (srv : SchemaRegistryServiceServer E) :=
  unary_handler SchemaRegistryService_GetSchema_FullMethodName (srv_GetSchema srv).
Definition _SchemaRegistryService_ListSchemaVersions_Handler (srv : SchemaRegistryServiceServer E) :=
  unary_handler SchemaRegistryService_ListSchemaVersions_FullMethodName (srv_ListSchemaVersions srv).
Definition _SchemaRegistryService_DeleteSchema_Handler (srv : SchemaRegistryServiceServer E) :=
  unary_handler SchemaRegistryService_DeleteSchema_FullMethodName (srv_DeleteSchema srv).

(** ** Service descriptors *)

Record MethodDesc := {
  desc_Request : Type;
  desc_Response : Type;
  desc_request : message desc_Request;
  desc_response : message desc_Response;
  desc_MethodName : string;
  desc_Handler : Context → result desc_Request → option (UnaryServerInterceptor E) →
    prog E (result (option desc_Response));
}.

Record ServiceDesc := {
  desc_ServiceName : string;
  desc_Methods : list MethodDesc;
}.

Definition FlowService_ServiceDesc (srv : FlowServiceServer E) : ServiceDesc := {|
  desc_ServiceName := "flowpipe.v1.FlowService";
  desc_Methods := [
    Build_MethodDesc _ _ M_CreateFlowRequest M_Flow "CreateFlow" (_FlowService_CreateFlow_Handler srv);
    Build_MethodDesc _ _ M_UpdateFlowRequest M_Flow "UpdateFlow" (_FlowService_UpdateFlow_Handler srv);
    Build_MethodDesc _ _ M_DeleteFlowRequest M_Empty "DeleteFlow" (_FlowService_DeleteFlow_Handler srv);
    Build_MethodDesc _ _ M_GetFlowRequest M_Flow "GetFlow" (_FlowService_GetFlow_Handler srv);
    Build_MethodDesc _ _ M_ListFlowsRequest M_ListFlowsResponse "ListFlows" (_FlowService_ListFlows_Handler srv);
    Build_MethodDesc _ _ M_GetFlowStatusRequest M_FlowStatus "GetFlowStatus" (_FlowService_GetFlowStatus_Handler srv);
    Build_MethodDesc _ _ M_RollbackFlowRequest M_Flow "RollbackFlow" (_FlowService_RollbackFlow_Handler srv)];
|}.

Definition SchemaRegistryService_ServiceDesc (srv : SchemaRegistryServiceServer E) : ServiceDesc := {|
  desc_ServiceName := "flowpipe.v1.SchemaRegistryService";
  desc_Methods := [
    Build_MethodDesc _ _ M_CreateSchemaRequest M_SchemaDefinition "CreateSchema" (_SchemaRegistryService_CreateSchema_Handler srv);
    Build_MethodDesc _ _ M_GetSchemaRequest M_SchemaDefinition "GetSchema" (_SchemaRegistryService_GetSchema_Handler srv);
    Build_MethodDesc _ _ M_ListSchemaVersionsRequest M_ListSchemaVersionsResponse "ListSchemaVersions" (_SchemaRegistryService_ListSchemaVersions_Handler srv);
    Build_MethodDesc _ _ M_DeleteSchemaRequest M_Empty "DeleteSchema" (_SchemaRegistryService_DeleteSchema_Handler srv)];
|}.

(** [RegisterService] adds a service to the ones a server serves. *)
Definition RegisterFlowServiceServer (s : list ServiceDesc) (srv : FlowServiceServer E) :
    list ServiceDesc := s ++ [FlowService_ServiceDesc srv].

Definition RegisterSchemaRegistryServiceServer (s : list ServiceDesc)
    (srv : SchemaRegistryServiceServer E) : list ServiceDesc :=
  s ++ [SchemaRegistryService_ServiceDesc srv].

(** The method served under a full name. *)
Definition full_method (svc : ServiceDesc) (m : MethodDesc) : string :=
  "/" +:+ desc_ServiceName svc +:+ "/" +:+ desc_MethodName m.

Definition serves (services : list ServiceDesc) (full : string) (m : MethodDesc) : Prop :=
  ∃ svc, svc ∈ services ∧ m ∈ desc_Methods svc ∧ full = full_method svc m.
End Handlers.
Arguments MethodDesc E : clear implicits.
Arguments ServiceDesc E : clear implicits.

(** ** The transport *)

Class GrpcChannel {E : Type → Type} {S : Type} (h : handler E S) (services : list (ServiceDesc E))
    (interceptor : UnaryServerInterceptor E) (md : metadata.MD) (C : Type) := {
  grpc_exec : handler grpcE C;
  (** The state of the server's world. *)
  server_state : C → S;

  Invoke_spec : ∀ full (m : MethodDesc E) in_ c r c', serves services full m →
    grpc_exec _ (Invoke full (desc_request m) in_ (desc_response m)) c = (r, c') →
    let ran := run h (desc_Handler m (Build_Context md) (Ok in_) (Some interceptor))
      (server_state c) in
    match r with
    | Err _ => server_state c' = server_state c ∨ server_state c' = ran.2
    | Ok out => server_state c' = ran.2 ∧
        ∃ reply, ran.1 = Ok reply ∧ received (desc_response m) reply = Some out
    end;
}.

(** The names under which a list of services is served. *)
Definition methods {E} (services : list (ServiceDesc E)) : list (string * MethodDesc E) :=
  svc ← services; m ← desc_Methods svc; [(full_method svc m, m)].

Lemma serves_methods {E} (services : list (ServiceDesc E)) full m :
  serves services full m ↔ (full, m) ∈ methods services.
Proof.
  unfold serves, methods. rewrite list_elem_of_bind. split.
  - intros (svc & Hs & Hm & ->). exists svc. split; [|done].
    rewrite list_elem_of_bind. exists m. split; [|done]. by apply list_elem_of_singleton.
  - intros (svc & Hm & Hs). rewrite list_elem_of_bind in Hm.
    destruct Hm as (m' & Hin%list_elem_of_singleton & Hm'). injection Hin as -> ->. by exists svc.
Qed.

(** A channel that calls the handler directly. *)
Module LocalChannel.

Definition same_message {A B} (m : message A) (n : message B) : option (A = B).
Proof. destruct m, n; first [exact (Some eq_refl) | exact None]. Defined.

Definition cast {A B} (e : A = B) (a : A) : B := eq_rect A (λ T, T) a B e.

Lemma same_message_refl {A} (m : message A) : same_message m m = Some eq_refl.
Proof. by destruct m. Qed.

Section LocalChannel.
Context {E : Type → Type} {S : Type} (h : handler E S) (services : list (ServiceDesc E))
  (interceptor : UnaryServerInterceptor E) (md : metadata.MD).

Definition find_method (full : string) : option (MethodDesc E) :=
  snd <$> (snd <$> list_find (λ x, x.1 = full) (methods services)).

Definition exec : handler grpcE S := λ X e,
  match e in grpcE X return S → X * S with
  | @Invoke A B full mA in_ mB => λ s,
      match find_method full with
      | None => (Err (StatusErr "Unimplemented" "unknown method"), s)
      | Some m =>
          match same_message mA (desc_request m), same_message (desc_response m) mB with
          | Some eA, Some eB =>
              let '(reply, s') := run h (desc_Handler m (Build_Context md)
                (Ok (cast eA in_)) (Some interceptor)) s in
              (match reply with
               | Err e => Err e
               | Ok b => match received (desc_response m) b with
                         | Some out => Ok (cast eB out)
                         | None => Err (StatusErr "Internal" "no response")
                         end
               end, s')
          | _, _ => (Err (StatusErr "Internal" "wrong message"), s)
          end
      end
  end.

Lemma find_method_serves full m :
  NoDup (methods services).*1 → serves services full m → find_method full = Some m.
Proof.
  intros Hnd [i Hi]%serves_methods%list_elem_of_lookup_1. unfold find_method.
  enough (list_find (λ x, x.1 = full) (methods services) = Some (i, (full, m))) as -> by done.
  apply list_find_Some. split_and!; [done|done|].
  intros j [full' m'] Hj Hlt Heq. cbn in Heq. subst full'.
  assert (j = i) as ->; [|lia].
  eapply (NoDup_lookup _ _ _ full Hnd); by rewrite list_lookup_fmap, ?Hj, ?Hi.
Qed.

Definition channel (Hnd : NoDup (methods services).*1) :
  GrpcChannel h services interceptor md S.
Proof.
  refine {| grpc_exec := exec; server_state := λ s, s |}.
  intros full m in_ s r s' Hm Hx. unfold exec in Hx.
  rewrite (find_method_serves _ _ Hnd Hm), !same_message_refl in Hx. cbn in Hx |- *.
  destruct (run _ _ _) as [reply s1]. cbn. injection Hx as <- <-.
  destruct reply as [b|e]; [|by right].
  destruct (received _ b) as [out|] eqn:Hr; [|by right].
  split; [done|]. by exists b.
Defined.
End LocalChannel.
End LocalChannel.
