(* ===== verification/Gateway.v ===== *)
(** * service.pb.gw.go: the HTTP gateway

    The reverse proxy that turns HTTP requests into calls on the two gRPC
    services: one route per method, each decoding its request from the body
    and the path, over a client of the service ([Register...HandlerClient],
    what the API server uses) or on the server itself
    ([Register...HandlerServer]).  grpc-gateway's runtime package is the
    class [GatewayRuntime], with what it documents as laws.  Response
    metadata, draining the body and the request-scoped cancellation have no
    effect in this program and are left out. *)
From S2P Require Import Prelude GoStd Prog Messages Rpc.

(** ** net/http *)

(** [http.Request]: the values of the Authorization header and of the
    Grpc-Metadata-Authorization header, which the gateway treats alike. *)
Record Request := {
  rq_Method : string;
  rq_Path : string;
  rq_Authorization : list string;
  rq_GrpcMetadataAuthorization : list string;
  rq_Body : string;
}.

(** What a handler sends; [rs_WriteHeader] is the status when it sets one. *)
Record Response := { rs_WriteHeader : option N; rs_Body : string }.

Definition Handler (E : Type → Type) : Type := Request → prog E Response.

Definition MethodGet : string := "GET".
Definition MethodPost : string := "POST".
Definition MethodPut : string := "PUT".
Definition MethodDelete : string := "DELETE".

(** ** grpc-gateway's runtime *)

(** A path template compiled by protoc-gen-grpc-gateway:
    [runtime.NewPattern(version, ops, pool, verb)]. *)
Record Pattern := NewPattern {
  pat_version : N;
  pat_ops : list nat;
  pat_pool : list string;
  pat_verb : string;
}.

(** The templates of this service: literal segments and variables that
    stand for one segment.  The compiled code is a list of (code, operand)
    pairs: 2 expects a literal of the pool, 1 takes a segment, 4 joins the
    last n taken, 5 binds what was joined to a variable of the pool. *)
Inductive segment := Lit (s : string) | Var (name : string).

#[export] Instance segment_eq_dec : EqDecision segment.
Proof. solve_decision. Defined.

Fixpoint segments (ops : list nat) (pool : list string) : option (list segment) :=
  match ops with
  | [] => Some []
  | 2 :: i :: ops => s ← pool !! i; l ← segments ops pool; Some (Lit s :: l)
  | 1 :: _ :: 4 :: 1 :: 5 :: i :: ops => s ← pool !! i; l ← segments ops pool; Some (Var s :: l)
  | _ => None
  end.

(** The segments of a request path, [components[1:]] split at the slashes. *)
Definition components (path : string) : list string :=
  strings.Split (strings.slice_from 1 path) "/".

(** A template against a path: the variables' values. *)
Fixpoint bind_segments (segs : list segment) (path : list string) : option (gmap string string) :=
  match segs, path with
  | [], [] => Some ∅
  | Lit s :: segs, c :: path =>
      if bool_decide (s = c) then bind_segments segs path else None
  | Var x :: segs, c :: path => <[x := c]> <$> bind_segments segs path
  | _, _ => None
  end.

Definition matches (p : Pattern) (path : string) : option (gmap string string) :=
  segs ← segments (pat_ops p) (pat_pool p); bind_segments segs (components path).

(** A path the mux does not refuse before it looks at the routes: rooted,
    with no empty segment. *)
Definition plain_path (path : string) : Prop :=
  strings.HasPrefix path "/" = true ∧ Forall (λ c, c ≠ "") (components path).

(** The error of a body decoder; [EOF] when the body is empty. *)
Inductive decode_error := EOF | DecodeFailed (msg : string).

(** The message fields a body is decoded into. *)
Inductive body_field : Type → Type :=
  | F_Spec : body_field FlowSpec
  | F_Schema : body_field PbSchemaDefinition.

(** grpc-gateway.  [Decode] answers what the field holds afterwards with the
    error; [runtime_Uint64] and its kin the value or an error text;
    [dispatch] the index of the route that serves a request with the values
    of its path variables, or the response of the mux itself. *)
Class GatewayRuntime := {
  Marshaler : Type;
  MarshalerForRequest : Request → Marshaler * Marshaler;
  Decode : ∀ {A}, body_field A → Marshaler → string → option A * option decode_error;
  runtime_String : string → string + string;
  runtime_Uint32 : string → N + string;
  runtime_Uint64 : string → N + string;
  AnnotateContext : Request → string → string → result Context;
  AnnotateIncomingContext : Request → string → string → result Context;
  HTTPError : Marshaler → Request → GoError → Response;
  ForwardResponseMessage : ∀ {A}, message A → Marshaler → Request → option A → Response;
  effective_method : list (string * Pattern) → Request → string;
  dispatch : list (string * Pattern) → Request → (nat * gmap string string) + Response;

  runtime_String_id : ∀ s, runtime_String s = inl s;
  runtime_Uint32_range : ∀ s n, runtime_Uint32 s = inl n → in32 n;
  runtime_Uint32_decimal : ∀ n, in32 n → runtime_Uint32 (strconv.FormatUint n) = inl n;
  runtime_Uint64_range : ∀ s n, runtime_Uint64 s = inl n → in64 n;
  runtime_Uint64_decimal : ∀ n, in64 n → runtime_Uint64 (strconv.FormatUint n) = inl n;
  (** The headers become metadata, in an order Go leaves open. *)
  AnnotateContext_authorization : ∀ req full path ctx,
    AnnotateContext req full path = Ok ctx →
    ctx_authorization ctx = rq_Authorization req ++ rq_GrpcMetadataAuthorization req ∨
    ctx_authorization ctx = rq_GrpcMetadataAuthorization req ++ rq_Authorization req;
  HTTPError_status : ∀ m req e, ∃ code,
    rs_WriteHeader (HTTPError m req e) = Some code ∧ (400 <= code)%N;
  (** Only a POST request can stand for another method. *)
  effective_method_plain : ∀ rules req,
    rq_Method req ≠ MethodPost → effective_method rules req = rq_Method req;
  dispatch_found : ∀ rules req i params, dispatch rules req = inl (i, params) →
    ∃ p, rules !! i = Some (effective_method rules req, p) ∧
      ∀ segs, segments (pat_ops p) (pat_pool p) = Some segs → pat_verb p = "" →
        bind_segments segs (components (rq_Path req)) = Some params;
  dispatch_refused : ∀ rules req resp, dispatch rules req = inr resp →
    (∃ code, rs_WriteHeader resp = Some code ∧ (400 <= code)%N) ∧
    (plain_path (rq_Path req) → ∀ p, (effective_method rules req, p) ∈ rules →
      pat_verb p = "" → matches p (rq_Path req) = None);
}.

Definition Forward `{GatewayRuntime} (A : Type) : Type :=
  Marshaler → Request → option A → Response.

(** [runtime.ServeMux]: the routes in the order they were registered. *)
Record route (E : Type → Type) := {
  rt_Method : string;
  rt_Pattern : Pattern;
  rt_handler : Request → gmap string string → prog E Response;
}.
Arguments rt_Method {E} _.
Arguments rt_Pattern {E} _.
Arguments rt_handler {E} _.

Notation ServeMux E := (list (route E)).

Definition NewServeMux {E} : ServeMux E := [].

Definition Handle {E} (mux : ServeMux E) (meth : string) (pat : Pattern)
    (h : Request → gmap string string → prog E Response) : ServeMux E :=
  mux ++ [Build_route E meth pat h].

Definition rules {E} (mux : ServeMux E) : list (string * Pattern) :=
  (λ rt, (rt_Method rt, rt_Pattern rt)) <$> mux.

Definition ServeHTTP {E} `{GatewayRuntime} (mux : ServeMux E) : Handler E := λ req,
  match dispatch (rules mux) req with
  | inl (i, pathParams) =>
      match mux !! i with
      | Some rt => rt_handler rt req pathParams
      | None => Ret (Build_Response (Some 404%N) "")
      end
  | inr resp => Ret resp
  end.

(** ** Clients over a connection *)

Record ClientConn := { conn_target : string; conn_tls : bool }.

(** A call a stub makes on a connection, under a context. *)
Inductive connE : Type → Type :=
  | OnConn {X} (conn : ClientConn) (ctx : Context) (e : grpcE X) : connE X.

Definition on_conn {A} (conn : ClientConn) (ctx : Context) (p : prog grpcE A) : prog connE A :=
  translate (λ X e, OnConn conn ctx e) p.

Record FlowServiceClient (E : Type → Type) := {
  cli_CreateFlow : Context → CreateFlowRequest → prog E (result Flow);
  cli_UpdateFlow : Context → UpdateFlowRequest → prog E (result Flow);
  cli_DeleteFlow : Context → DeleteFlowRequest → prog E (result Empty);
  cli_GetFlow : Context → GetFlowRequest → prog E (result Flow);
  cli_ListFlows : Context → ListFlowsRequest → prog E (result ListFlowsResponse);
  cli_GetFlowStatus : Context → GetFlowStatusRequest → prog E (result FlowStatus);
  cli_RollbackFlow : Context → RollbackFlowRequest → prog E (result Flow);
}.
Arguments cli_CreateFlow {E} _.
Arguments cli_UpdateFlow {E} _.
Arguments cli_DeleteFlow {E} _.
Arguments cli_GetFlow {E} _.
Arguments cli_ListFlows {E} _.
Arguments cli_GetFlowStatus {E} _.
Arguments cli_RollbackFlow {E} _.

Record SchemaRegistryServiceClient (E : Type → Type) := {
  cli_CreateSchema : Context → CreateSchemaRequest → prog E (result PbSchemaDefinition);
  cli_GetSchema : Context → GetSchemaRequest → prog E (result PbSchemaDefinition);
  cli_ListSchemaVersions :
    Context → ListSchemaVersionsRequest → prog E (result ListSchemaVersionsResponse);
  cli_DeleteSchema : Context → DeleteSchemaRequest → prog E (result Empty);
}.
Arguments cli_CreateSchema {E} _.
Arguments cli_GetSchema {E} _.
Arguments cli_ListSchemaVersions {E} _.
Arguments cli_DeleteSchema {E} _.

Definition NewFlowServiceClient (cc : ClientConn) : FlowServiceClient connE := {|
  cli_CreateFlow ctx in_ := on_conn cc ctx (flowServiceClient.CreateFlow in_);
  cli_UpdateFlow ctx in_ := on_conn cc ctx (flowServiceClient.UpdateFlow in_);
  cli_DeleteFlow ctx in_ := on_conn cc ctx (flowServiceClient.DeleteFlow in_);
  cli_GetFlow ctx in_ := on_conn cc ctx (flowServiceClient.GetFlow in_);
  cli_ListFlows ctx in_ := on_conn cc ctx (flowServiceClient.ListFlows in_);
  cli_GetFlowStatus ctx in_ := on_conn cc ctx (flowServiceClient.GetFlowStatus in_);
  cli_RollbackFlow ctx in_ := on_conn cc ctx (flowServiceClient.RollbackFlow in_);
|}.

Definition NewSchemaRegistryServiceClient (cc : ClientConn) : SchemaRegistryServiceClient connE := {|
  cli_CreateSchema ctx in_ := on_conn cc ctx (schemaRegistryServiceClient.CreateSchema in_);
  cli_GetSchema ctx in_ := on_conn cc ctx (schemaRegistryServiceClient.GetSchema in_);
  cli_ListSchemaVersions ctx in_ :=
    on_conn cc ctx (schemaRegistryServiceClient.ListSchemaVersions in_);
  cli_DeleteSchema ctx in_ := on_conn cc ctx (schemaRegistryServiceClient.DeleteSchema in_);
|}.

(** ** Decoding a request *)
Section Decoding.
Context `{GatewayRuntime}.

(** [marshaler.NewDecoder(req.Body).Decode(&protoReq.Spec)] *)
Definition decode_body {A} (marshaler : Marshaler) (f : body_field A) (req : Request) :
    result (option A) :=
  match Decode f marshaler (rq_Body req) with
  | (v, None) => Ok v
  | (v, Some EOF) => Ok v
  | (_, Some (DecodeFailed msg)) => Err (StatusErr "InvalidArgument" msg)
  end.

Definition path_param (pathParams : gmap string string) (name : string) : result string :=
  match pathParams !! name with
  | Some val => Ok val
  | None => Err (StatusErr "InvalidArgument" ("missing parameter " +:+ name))
  end.

Definition convert {A} (name : string) (r : A + string) : result A :=
  match r with
  | inl v => Ok v
  | inr err => Err (StatusErr "InvalidArgument"
      ("type mismatch, parameter: " +:+ name +:+ ", error: " +:+ err))
  end.
End Decoding.

(** ** The body the registered handlers share *)
Section Shared.
Context {E : Type → Type} `{GatewayRuntime}.

(** In [Register...HandlerClient]. *)
Definition client_route {A} (fullMethod pathPattern : string)
    (request : Context → Marshaler → Request → gmap string string → prog E (result A))
    (forward : Forward A) : Request → gmap string string → prog E Response := λ req pathParams,
  let '(inboundMarshaler, outboundMarshaler) := MarshalerForRequest req in
  match AnnotateContext req fullMethod pathPattern with
  | Err err => Ret (HTTPError outboundMarshaler req err)
  | Ok annotatedContext =>
      r ← request annotatedContext inboundMarshaler req pathParams;
      Ret (match r with
           | Err err => HTTPError outboundMarshaler req err
           | Ok resp => forward outboundMarshaler req (Some resp)
           end)
  end.

(** In [Register...HandlerServer]. *)
Definition server_route {A} (fullMethod pathPattern : string)
    (request : Context → Marshaler → Request → gmap string string → prog E (result (option A)))
    (forward : Forward A) : Request → gmap string string → prog E Response := λ req pathParams,
  let '(inboundMarshaler, outboundMarshaler) := MarshalerForRequest req in
  match AnnotateIncomingContext req fullMethod pathPattern with
  | Err err => Ret (HTTPError outboundMarshaler req err)
  | Ok annotatedContext =>
      r ← request annotatedContext inboundMarshaler req pathParams;
      Ret (match r with
           | Err err => HTTPError outboundMarshaler req err
           | Ok resp => forward outboundMarshaler req resp
           end)
  end.
End Shared.

(** ** The methods *)

(** *** [request_...]: over a gRPC client *)
Section Requests.
Context {E : Type → Type} `{GatewayRuntime}.

Definition request_FlowService_CreateFlow_0 (ctx : Context) (marshaler : Marshaler)
    (client : FlowServiceClient E) (req : Request) (pathParams : gmap string string) :
    prog E (result Flow) :=
  spec ←? Ret (decode_body marshaler F_Spec req);
  cli_CreateFlow client ctx (Build_CreateFlowRequest spec).

Definition request_FlowService_UpdateFlow_0 (ctx : Context) (marshaler : Marshaler)
    (client : FlowServiceClient E) (req : Request) (pathParams : gmap string string) :
    prog E (result Flow) :=
  spec ←? Ret (decode_body marshaler F_Spec req);
  val ←? Ret (path_param pathParams "name");
  name ←? Ret (convert "name" (runtime_String val));
  cli_UpdateFlow client ctx (Build_UpdateFlowRequest name spec).

Definition request_FlowService_DeleteFlow_0 (ctx : Context) (marshaler : Marshaler)
    (client : FlowServiceClient E) (req : Request) (pathParams : gmap string string) :
    prog E (result Empty) :=
  val ←? Ret (path_param pathParams "name");
  name ←? Ret (convert "name" (runtime_String val));
  cli_DeleteFlow client ctx (Build_DeleteFlowRequest name).

Definition request_FlowService_GetFlow_0 (ctx : Context) (marshaler : Marshaler)
    (client : FlowServiceClient E) (req : Request) (pathParams : gmap string string) :
    prog E (result Flow) :=
  val ←? Ret (path_param pathParams "name");
  name ←? Ret (convert "name" (runtime_String val));
  cli_GetFlow client ctx (Build_GetFlowRequest name).

Definition request_FlowService_ListFlows_0 (ctx : Context) (marshaler : Marshaler)
    (client : FlowServiceClient E) (req : Request) (pathParams : gmap string string) :
    prog E (result ListFlowsResponse) :=
  cli_ListFlows client ctx Build_ListFlowsRequest.

Definition request_FlowService_GetFlowStatus_0 (ctx : Context) (marshaler : Marshaler)
    (client : FlowServiceClient E) (req : Request) (pathParams : gmap string string) :
    prog E (result FlowStatus) :=
  val ←? Ret (path_param pathParams "name");
  name ←? Ret (convert "name" (runtime_String val));
  cli_GetFlowStatus client ctx (Build_GetFlowStatusRequest name).

Definition request_FlowService_RollbackFlow_0 (ctx : Context) (marshaler : Marshaler)
    (client : FlowServiceClient E) (req : Request) (pathParams : gmap string string) :
    prog E (result Flow) :=
  val ←? Ret (path_param pathParams "name");
  name ←? Ret (convert "name" (runtime_String val));
  val ←? Ret (path_param pathParams "version");
  version ←? Ret (convert "version" (runtime_Uint64 val));
  cli_RollbackFlow client ctx (Build_RollbackFlowRequest name version).

Definition request_SchemaRegistryService_CreateSchema_0 (ctx : Context) (marshaler : Marshaler)
    (client : SchemaRegistryServiceClient E) (req : Request) (pathParams : gmap string string) :
    prog E (result PbSchemaDefinition) :=
  schema ←? Ret (decode_body marshaler F_Schema req);
  cli_CreateSchema client ctx (Build_CreateSchemaRequest schema).

Definition request_SchemaRegistryService_GetSchema_0 (ctx : Context) (marshaler : Marshaler)
    (client : SchemaRegistryServiceClient E) (req : Request) (pathParams : gmap string string) :
    prog E (result PbSchemaDefinition) :=
  val ←? Ret (path_param pathParams "schema_id");
  schemaId ←? Ret (convert "schema_id" (runtime_String val));
  val ←? Ret (path_param pathParams "version");
  version ←? Ret (convert "version" (runtime_Uint32 val));
  cli_GetSchema client ctx (Build_GetSchemaRequest schemaId version).

Definition request_SchemaRegistryService_ListSchemaVersions_0 (ctx : Context) (marshaler : Marshaler)
    (client : SchemaRegistryServiceClient E) (req : Request) (pathParams : gmap string string) :
    prog E (result ListSchemaVersionsResponse) :=
  val ←? Ret (path_param pathParams "schema_id");
  schemaId ←? Ret (convert "schema_id" (runtime_String val));
  cli_ListSchemaVersions client ctx (Build_ListSchemaVersionsRequest schemaId).

Definition request_SchemaRegistryService_DeleteSchema_0 (ctx : Context) (marshaler : Marshaler)
    (client : SchemaRegistryServiceClient E) (req : Request) (pathParams : gmap string string) :
    prog E (result Empty) :=
  val ←? Ret (path_param pathParams "schema_id");
  schemaId ←? Ret (convert "schema_id" (runtime_String val));
  cli_DeleteSchema client ctx (Build_DeleteSchemaRequest schemaId).

(** *** [local_request_...]: on the server itself *)

Definition local_request_FlowService_CreateFlow_0 (ctx : Context) (marshaler : Marshaler)
    (server : FlowServiceServer E) (req : Request) (pathParams : gmap string string) :
    prog E (result (option Flow)) :=
  spec ←? Ret (decode_body marshaler F_Spec req);
  srv_CreateFlow server ctx (Build_CreateFlowRequest spec).

Definition local_request_FlowService_UpdateFlow_0 (ctx : Context) (marshaler : Marshaler)
    (server : FlowServiceServer E) (req : Request) (pathParams : gmap string string) :
    prog E (result (option Flow)) :=
  spec ←? Ret (decode_body marshaler F_Spec req);
  val ←? Ret (path_param pathParams "name");
  name ←? Ret (convert "name" (runtime_String val));
  srv_UpdateFlow server ctx (Build_UpdateFlowRequest name spec).

Definition local_request_FlowService_DeleteFlow_0 (ctx : Context) (marshaler : Marshaler)
    (server : FlowServiceServer E) (req : Request) (pathParams : gmap string string) :
    prog E (result (option Empty)) :=
  val ←? Ret (path_param pathParams "name");
  name ←? Ret (convert "name" (runtime_String val));
  srv_DeleteFlow server ctx (Build_DeleteFlowRequest name).

Definition local_request_FlowService_GetFlow_0 (ctx : Context) (marshaler : Marshaler)
    (server : FlowServiceServer E) (req : Request) (pathParams : gmap string string) :
    prog E (result (option Flow)) :=
  val ←? Ret (path_param pathParams "name");
  name ←? Ret (convert "name" (runtime_String val));
  srv_GetFlow server ctx (Build_GetFlowRequest name).

Definition local_request_FlowService_ListFlows_0 (ctx : Context) (marshaler : Marshaler)
    (server : FlowServiceServer E) (req : Request) (pathParams : gmap string string) :
    prog E (result (option ListFlowsResponse)) :=
  srv_ListFlows server ctx Build_ListFlowsRequest.

Definition local_request_FlowService_GetFlowStatus_0 (ctx : Context) (marshaler : Marshaler)
    (server : FlowServiceServer E) (req : Request) (pathParams : gmap string string) :
    prog E (result (option FlowStatus)) :=
  val ←? Ret (path_param pathParams "name");
  name ←? Ret (convert "name" (runtime_String val));
  srv_GetFlowStatus server ctx (Build_GetFlowStatusRequest name).

Definition local_request_FlowService_RollbackFlow_0 (ctx : Context) (marshaler : Marshaler)
    (server : FlowServiceServer E) (req : Request) (pathParams : gmap string string) :
    prog E (result (option Flow)) :=
  val ←? Ret (path_param pathParams "name");
  name ←? Ret (convert "name" (runtime_String val));
  val ←? Ret (path_param pathParams "version");
  version ←? Ret (convert "version" (runtime_Uint64 val));
  srv_RollbackFlow server ctx (Build_RollbackFlowRequest name version).

Definition local_request_SchemaRegistryService_CreateSchema_0 (ctx : Context) (marshaler : Marshaler)
    (server : SchemaRegistryServiceServer E) (req : Request) (pathParams : gmap string string) :
    prog E (result (option PbSchemaDefinition)) :=
  schema ←? Ret (decode_body marshaler F_Schema req);
  srv_CreateSchema server ctx (Build_CreateSchemaRequest schema).

Definition local_request_SchemaRegistryService_GetSchema_0 (ctx : Context) (marshaler : Marshaler)
    (server : SchemaRegistryServiceServer E) (req : Request) (pathParams : gmap string string) :
    prog E (result (option PbSchemaDefinition)) :=
  val ←? Ret (path_param pathParams "schema_id");
  schemaId ←? Ret (convert "schema_id" (runtime_String val));
  val ←? Ret (path_param pathParams "version");
  version ←? Ret (convert "version" (runtime_Uint32 val));
  srv_GetSchema server ctx (Build_GetSchemaRequest schemaId version).

Definition local_request_SchemaRegistryService_ListSchemaVersions_0 (ctx : Context) (marshaler : Marshaler)
    (server : SchemaRegistryServiceServer E) (req : Request) (pathParams : gmap string string) :
    prog E (result (option ListSchemaVersionsResponse)) :=
  val ←? Ret (path_param pathParams "schema_id");
  schemaId ←? Ret (convert "schema_id" (runtime_String val));
  srv_ListSchemaVersions server ctx (Build_ListSchemaVersionsRequest schemaId).

Definition local_request_SchemaRegistryService_DeleteSchema_0 (ctx : Context) (marshaler : Marshaler)
    (server : SchemaRegistryServiceServer E) (req : Request) (pathParams : gmap string string) :
    prog E (result (option Empty)) :=
  val ←? Ret (path_param pathParams "schema_id");
  schemaId ←? Ret (convert "schema_id" (runtime_String val));
  srv_DeleteSchema server ctx (Build_DeleteSchemaRequest schemaId).

End Requests.

Create HintDb gateway.
#[export] Hint Unfold request_FlowService_CreateFlow_0
  request_FlowService_UpdateFlow_0
  request_FlowService_DeleteFlow_0
  request_FlowService_GetFlow_0
  request_FlowService_ListFlows_0
  request_FlowService_GetFlowStatus_0
  request_FlowService_RollbackFlow_0
  request_SchemaRegistryService_CreateSchema_0
  request_SchemaRegistryService_GetSchema_0
  request_SchemaRegistryService_ListSchemaVersions_0
  request_SchemaRegistryService_DeleteSchema_0 : gateway.
#[export] Hint Unfold local_request_FlowService_CreateFlow_0
  local_request_FlowService_UpdateFlow_0
  local_request_FlowService_DeleteFlow_0
  local_request_FlowService_GetFlow_0
  local_request_FlowService_ListFlows_0
  local_request_FlowService_GetFlowStatus_0
  local_request_FlowService_RollbackFlow_0
  local_request_SchemaRegistryService_CreateSchema_0
  local_request_SchemaRegistryService_GetSchema_0
  local_request_SchemaRegistryService_ListSchemaVersions_0
  local_request_SchemaRegistryService_DeleteSchema_0 : gateway.

(** *** Patterns and answers *)

Definition pattern_FlowService_CreateFlow_0 : Pattern :=
  NewPattern 1 [2; 0; 2; 1] ["v1"; "flows"] "".

Definition pattern_FlowService_UpdateFlow_0 : Pattern :=
  NewPattern 1 [2; 0; 2; 1; 1; 0; 4; 1; 5; 2] ["v1"; "flows"; "name"] "".

Definition pattern_FlowService_DeleteFlow_0 : Pattern :=
  NewPattern 1 [2; 0; 2; 1; 1; 0; 4; 1; 5; 2] ["v1"; "flows"; "name"] "".

Definition pattern_FlowService_GetFlow_0 : Pattern :=
  NewPattern 1 [2; 0; 2; 1; 1; 0; 4; 1; 5; 2] ["v1"; "flows"; "name"] "".

Definition pattern_FlowService_ListFlows_0 : Pattern :=
  NewPattern 1 [2; 0; 2; 1] ["v1"; "flows"] "".

Definition pattern_FlowService_GetFlowStatus_0 : Pattern :=
  NewPattern 1 [2; 0; 2; 1; 1; 0; 4; 1; 5; 2; 2; 3] ["v1"; "flows"; "name"; "status"] "".

Definition pattern_FlowService_RollbackFlow_0 : Pattern :=
  NewPattern 1 [2; 0; 2; 1; 1; 0; 4; 1; 5; 2; 2; 3; 1; 0; 4; 1; 5; 4] ["v1"; "flows"; "name"; "rollback"; "version"] "".

Definition pattern_SchemaRegistryService_CreateSchema_0 : Pattern :=
  NewPattern 1 [2; 0; 2; 1] ["v1"; "schemas"] "".

Definition pattern_SchemaRegistryService_GetSchema_0 : Pattern :=
  NewPattern 1 [2; 0; 2; 1; 1; 0; 4; 1; 5; 2; 2; 3; 1; 0; 4; 1; 5; 4] ["v1"; "schemas"; "schema_id"; "versions"; "version"] "".

Definition pattern_SchemaRegistryService_ListSchemaVersions_0 : Pattern :=
  NewPattern 1 [2; 0; 2; 1; 1; 0; 4; 1; 5; 2; 2; 3] ["v1"; "schemas"; "schema_id"; "versions"] "".

Definition pattern_SchemaRegistryService_DeleteSchema_0 : Pattern :=
  NewPattern 1 [2; 0; 2; 1; 1; 0; 4; 1; 5; 2] ["v1"; "schemas"; "schema_id"] "".


Section Routes.
Context {E : Type → Type} `{GatewayRuntime}.

Definition forward_FlowService_CreateFlow_0 : Forward Flow := ForwardResponseMessage M_Flow.

Definition forward_FlowService_UpdateFlow_0 : Forward Flow := ForwardResponseMessage M_Flow.

Definition forward_FlowService_DeleteFlow_0 : Forward Empty := ForwardResponseMessage M_Empty.

Definition forward_FlowService_GetFlow_0 : Forward Flow := ForwardResponseMessage M_Flow.

Definition forward_FlowService_ListFlows_0 : Forward ListFlowsResponse := ForwardResponseMessage M_ListFlowsResponse.

Definition forward_FlowService_GetFlowStatus_0 : Forward FlowStatus := ForwardResponseMessage M_FlowStatus.

Definition forward_FlowService_RollbackFlow_0 : Forward Flow := ForwardResponseMessage M_Flow.

Definition forward_SchemaRegistryService_CreateSchema_0 : Forward PbSchemaDefinition := ForwardResponseMessage M_SchemaDefinition.

Definition forward_SchemaRegistryService_GetSchema_0 : Forward PbSchemaDefinition := ForwardResponseMessage M_SchemaDefinition.

Definition forward_SchemaRegistryService_ListSchemaVersions_0 : Forward ListSchemaVersionsResponse := ForwardResponseMessage M_ListSchemaVersionsResponse.

Definition forward_SchemaRegistryService_DeleteSchema_0 : Forward Empty := ForwardResponseMessage M_Empty.


Definition RegisterFlowServiceHandlerServer (mux : ServeMux E) (server : FlowServiceServer E) :
    result (ServeMux E) :=
  let mux := Handle mux MethodPost pattern_FlowService_CreateFlow_0
    (server_route "/flowpipe.v1.FlowService/CreateFlow" "/v1/flows"
      (λ ctx m, local_request_FlowService_CreateFlow_0 ctx m server) forward_FlowService_CreateFlow_0) in
  let mux := Handle mux MethodPut pattern_FlowService_UpdateFlow_0
    (server_route "/flowpipe.v1.FlowService/UpdateFlow" "/v1/flows/{name}"
      (λ ctx m, local_request_FlowService_UpdateFlow_0 ctx m server) forward_FlowService_UpdateFlow_0) in
  let mux := Handle mux MethodDelete pattern_FlowService_DeleteFlow_0
    (server_route "/flowpipe.v1.FlowService/DeleteFlow" "/v1/flows/{name}"
      (λ ctx m, local_request_FlowService_DeleteFlow_0 ctx m server) forward_FlowService_DeleteFlow_0) in
  let mux := Handle mux MethodGet pattern_FlowService_GetFlow_0
    (server_route "/flowpipe.v1.FlowService/GetFlow" "/v1/flows/{name}"
      (λ ctx m, local_request_FlowService_GetFlow_0 ctx m server) forward_FlowService_GetFlow_0) in
  let mux := Handle mux MethodGet pattern_FlowService_ListFlows_0
    (server_route "/flowpipe.v1.FlowService/ListFlows" "/v1/flows"
      (λ ctx m, local_request_FlowService_ListFlows_0 ctx m server) forward_FlowService_ListFlows_0) in
  let mux := Handle mux MethodGet pattern_FlowService_GetFlowStatus_0
    (server_route "/flowpipe.v1.FlowService/GetFlowStatus" "/v1/flows/{name}/status"
      (λ ctx m, local_request_FlowService_GetFlowStatus_0 ctx m server) forward_FlowService_GetFlowStatus_0) in
  let mux := Handle mux MethodPost pattern_FlowService_RollbackFlow_0
    (server_route "/flowpipe.v1.FlowService/RollbackFlow" "/v1/flows/{name}/rollback/{version}"
      (λ ctx m, local_request_FlowService_RollbackFlow_0 ctx m server) forward_FlowService_RollbackFlow_0) in
  Ok mux.

Definition RegisterSchemaRegistryServiceHandlerServer (mux : ServeMux E) (server : SchemaRegistryServiceServer E) :
    result (ServeMux E) :=
  let mux := Handle mux MethodPost pattern_SchemaRegistryService_CreateSchema_0
    (server_route "/flowpipe.v1.SchemaRegistryService/CreateSchema" "/v1/schemas"
      (λ ctx m, local_request_SchemaRegistryService_CreateSchema_0 ctx m server) forward_SchemaRegistryService_CreateSchema_0) in
  let mux := Handle mux MethodGet pattern_SchemaRegistryService_GetSchema_0
    (server_route "/flowpipe.v1.SchemaRegistryService/GetSchema" "/v1/schemas/{schema_id}/versions/{version}"
      (λ ctx m, local_request_SchemaRegistryService_GetSchema_0 ctx m server) forward_SchemaRegistryService_GetSchema_0) in
  let mux := Handle mux MethodGet pattern_SchemaRegistryService_ListSchemaVersions_0
    (server_route "/flowpipe.v1.SchemaRegistryService/ListSchemaVersions" "/v1/schemas/{schema_id}/versions"
      (λ ctx m, local_request_SchemaRegistryService_ListSchemaVersions_0 ctx m server) forward_SchemaRegistryService_ListSchemaVersions_0) in
  let mux := Handle mux MethodDelete pattern_SchemaRegistryService_DeleteSchema_0
    (server_route "/flowpipe.v1.SchemaRegistryService/DeleteSchema" "/v1/schemas/{schema_id}"
      (λ ctx m, local_request_SchemaRegistryService_DeleteSchema_0 ctx m server) forward_SchemaRegistryService_DeleteSchema_0) in
  Ok mux.

Definition RegisterFlowServiceHandlerClient (mux : ServeMux E) (client : FlowServiceClient E) :
    result (ServeMux E) :=
  let mux := Handle mux MethodPost pattern_FlowService_CreateFlow_0
    (client_route "/flowpipe.v1.FlowService/CreateFlow" "/v1/flows"
      (λ ctx m, request_FlowService_CreateFlow_0 ctx m client) forward_FlowService_CreateFlow_0) in
  let mux := Handle mux MethodPut pattern_FlowService_UpdateFlow_0
    (client_route "/flowpipe.v1.FlowService/UpdateFlow" "/v1/flows/{name}"
      (λ ctx m, request_FlowService_UpdateFlow_0 ctx m client) forward_FlowService_UpdateFlow_0) in
  let mux := Handle mux MethodDelete pattern_FlowService_DeleteFlow_0
    (client_route "/flowpipe.v1.FlowService/DeleteFlow" "/v1/flows/{name}"
      (λ ctx m, request_FlowService_DeleteFlow_0 ctx m client) forward_FlowService_DeleteFlow_0) in
  let mux := Handle mux MethodGet pattern_FlowService_GetFlow_0
    (client_route "/flowpipe.v1.FlowService/GetFlow" "/v1/flows/{name}"
      (λ ctx m, request_FlowService_GetFlow_0 ctx m client) forward_FlowService_GetFlow_0) in
  let mux := Handle mux MethodGet pattern_FlowService_ListFlows_0
    (client_route "/flowpipe.v1.FlowService/ListFlows" "/v1/flows"
      (λ ctx m, request_FlowService_ListFlows_0 ctx m client) forward_FlowService_ListFlows_0) in
  let mux := Handle mux MethodGet pattern_FlowService_GetFlowStatus_0
    (client_route "/flowpipe.v1.FlowService/GetFlowStatus" "/v1/flows/{name}/status"
      (λ ctx m, request_FlowService_GetFlowStatus_0 ctx m client) forward_FlowService_GetFlowStatus_0) in
  let mux := Handle mux MethodPost pattern_FlowService_RollbackFlow_0
    (client_route "/flowpipe.v1.FlowService/RollbackFlow" "/v1/flows/{name}/rollback/{version}"
      (λ ctx m, request_FlowService_RollbackFlow_0 ctx m client) forward_FlowService_RollbackFlow_0) in
  Ok mux.

Definition RegisterSchemaRegistryServiceHandlerClient (mux : ServeMux E) (client : SchemaRegistryServiceClient E) :
    result (ServeMux E) :=
  let mux := Handle mux MethodPost pattern_SchemaRegistryService_CreateSchema_0
    (client_route "/flowpipe.v1.SchemaRegistryService/CreateSchema" "/v1/schemas"
      (λ ctx m, request_SchemaRegistryService_CreateSchema_0 ctx m client) forward_SchemaRegistryService_CreateSchema_0) in
  let mux := Handle mux MethodGet pattern_SchemaRegistryService_GetSchema_0
    (client_route "/flowpipe.v1.SchemaRegistryService/GetSchema" "/v1/schemas/{schema_id}/versions/{version}"
      (λ ctx m, request_SchemaRegistryService_GetSchema_0 ctx m client) forward_SchemaRegistryService_GetSchema_0) in
  let mux := Handle mux MethodGet pattern_SchemaRegistryService_ListSchemaVersions_0
    (client_route "/flowpipe.v1.SchemaRegistryService/ListSchemaVersions" "/v1/schemas/{schema_id}/versions"
      (λ ctx m, request_SchemaRegistryService_ListSchemaVersions_0 ctx m client) forward_SchemaRegistryService_ListSchemaVersions_0) in
  let mux := Handle mux MethodDelete pattern_SchemaRegistryService_DeleteSchema_0
    (client_route "/flowpipe.v1.SchemaRegistryService/DeleteSchema" "/v1/schemas/{schema_id}"
      (λ ctx m, request_SchemaRegistryService_DeleteSchema_0 ctx m client) forward_SchemaRegistryService_DeleteSchema_0) in
  Ok mux.

End Routes.


(** *** Registration over a connection *)

(** Calls that construct a client connection; [GoCloseOnDone] starts the
    goroutine that closes it when the context ends. *)
Inductive dialE : Type → Type :=
  | GrpcNewClient (target : string) (tls : bool) : dialE (result unit)
  | CloseConn (conn : ClientConn) : dialE unit
  | GoCloseOnDone (conn : ClientConn) : dialE unit.

Section Endpoints.
Context `{GatewayRuntime}.

Definition RegisterFlowServiceHandler (mux : ServeMux connE) (conn : ClientConn) :
    result (ServeMux connE) :=
  RegisterFlowServiceHandlerClient mux (NewFlowServiceClient conn).

Definition RegisterSchemaRegistryServiceHandler (mux : ServeMux connE) (conn : ClientConn) :
    result (ServeMux connE) :=
  RegisterSchemaRegistryServiceHandlerClient mux (NewSchemaRegistryServiceClient conn).

(** The deferred function of the two below. *)
Definition deferred_close {A} (conn : ClientConn) (r : result A) : prog dialE (result A) :=
  match r with
  | Err e => _ ← call (CloseConn conn); Ret (Err e)
  | Ok a => _ ← call (GoCloseOnDone conn); Ret (Ok a)
  end.

Definition RegisterFlowServiceHandlerFromEndpoint (mux : ServeMux connE) (endpoint : string)
    (tls : bool) : prog dialE (result (ServeMux connE)) :=
  _ ←? call (GrpcNewClient endpoint tls);
  let conn := Build_ClientConn endpoint tls in
  deferred_close conn (RegisterFlowServiceHandler mux conn).

Definition RegisterSchemaRegistryServiceHandlerFromEndpoint (mux : ServeMux connE)
    (endpoint : string) (tls : bool) : prog dialE (result (ServeMux connE)) :=
  _ ←? call (GrpcNewClient endpoint tls);
  let conn := Build_ClientConn endpoint tls in
  deferred_close conn (RegisterSchemaRegistryServiceHandler mux conn).
End Endpoints.
