(* ===== verification/ApiServer.v ===== *)
(** * api/internal/server: authentication, the gRPC and the HTTP server

    [apiKeyUnaryInterceptor] and [apiKeyHTTPMiddleware] follow auth.go,
    [NewGRPCServer], [NewHTTPServer], [New] and [Run] follow grpc.go, http.go
    and server.go as programs over the calls into grpc, net and otel that
    can fail ([serverE]).  Spans and metrics are left out of the interceptor
    and the middleware. *)
From S2P Require Import Prelude GoStd Prog Messages Config ApiService Rpc Gateway.
Import ApiConfig.

(** ** auth.go *)

Definition bearerPrefix : string := "bearer ".

Definition blank (s : string) : bool := bool_decide (strings.TrimSpace s = "").

Definition ensureAPIKeyConfigured (cfg : Config) : option GoError :=
  if negb (AuthEnabled cfg) then None
  else if blank (APIKey cfg) then Some (Errorf "api auth enabled but api key is empty" [])
  else None.

Definition ensureHTTPServerTLSConfigured (cfg : Config) : option GoError :=
  if negb (HTTPTLSEnabled cfg) then None
  else if blank (HTTPTLSCertFile cfg) then
    Some (Errorf "http tls enabled but cert file is empty" [])
  else if blank (HTTPTLSKeyFile cfg) then
    Some (Errorf "http tls enabled but key file is empty" [])
  else None.

Definition ensureGRPCServerTLSConfigured (cfg : Config) : option GoError :=
  if negb (GRPCTLSEnabled cfg) then None
  else if blank (GRPCTLSCertFile cfg) then
    Some (Errorf "grpc tls enabled but cert file is empty" [])
  else if blank (GRPCTLSKeyFile cfg) then
    Some (Errorf "grpc tls enabled but key file is empty" [])
  else if blank (GRPCTLSServerName cfg) then
    Some (Errorf "grpc tls enabled but server name is empty" [])
  else None.

Definition parseBearerToken (value : string) : string :=
  let value := strings.TrimSpace value in
  if bool_decide (value = "") then ""
  else
    let lower := strings.ToLower value in
    if negb (strings.HasPrefix lower bearerPrefix) then ""
    else strings.TrimSpace (strings.slice_from (String.length bearerPrefix) value).

Fixpoint firstBearerToken (values : list string) : string :=
  match values with
  | [] => ""
  | value :: values =>
      let token := parseBearerToken value in
      if bool_decide (token ≠ "") then token else firstBearerToken values
  end.

Section Interceptors.
Context {E : Type → Type}.

Definition apiKeyUnaryInterceptor (cfg : Config) : UnaryServerInterceptor E :=
  if negb (AuthEnabled cfg) then λ A B _ handler ctx req, handler ctx req
  else λ A B _ handler ctx req,
    let token := firstBearerToken (metadata.Get (ctx_metadata ctx) "authorization") in
    if bool_decide (token = "") then Ret (Err (StatusErr "Unauthenticated" "missing api key"))
    else if bool_decide (token ≠ APIKey cfg) then
      Ret (Err (StatusErr "Unauthenticated" "invalid api key"))
    else handler ctx req.

(** grpc.go: the handler's answer is passed on. *)
Definition unaryTracingInterceptor : UnaryServerInterceptor E := λ A B _ handler ctx req,
  resp ← handler ctx req; Ret resp.

(** [r.Header.Get("Authorization")] *)
Definition header_Get (values : list string) : string := default "" (head values).

Definition apiKeyHTTPMiddleware (cfg : Config) (next : Handler E) : Handler E :=
  if negb (AuthEnabled cfg) then next
  else λ r,
    let token := firstBearerToken [header_Get (rq_Authorization r)] in
    if bool_decide (token = "") || bool_decide (token ≠ APIKey cfg)
    then Ret (Build_Response (Some 401%N) ("unauthorized" +:+ String "010" EmptyString))
    else next r.

Definition httpMiddleware (next : Handler E) : Handler E := λ r, resp ← next r; Ret resp.

(** [statusRecorder]: 200 unless the handler sets a status. *)
Definition recorder_status (resp : Response) : N := default 200%N (rs_WriteHeader resp).
End Interceptors.

(** ** Calls that construct a server *)

Inductive serverE : Type → Type :=
  | NewInstrument (name : string) : serverE (result unit)
  | Listen (addr : string) : serverE (result unit)
  | NewServerTLSFromFile (cert key : string) : serverE (result unit)
  | NewClientTLSFromFile (cert serverName : string) : serverE (result unit)
  | Dial {X} (e : dialE X) : serverE X.

Definition dial {A} (p : prog dialE A) : prog serverE A := translate (λ X e, Dial e) p.

(** [fmt.Errorf("...: %w", err)] around an error. *)
Definition wrap_err {E A} (format : string) (args : list GoArg) (p : prog E (result A)) :
    prog E (result A) :=
  r ← p; Ret (match r with Ok a => Ok a | Err e => Err (Wrapf format args e) end).

(** An [ensure...] check as a step. *)
Definition check {E} (e : option GoError) : prog E (result unit) :=
  Ret (match e with Some e => Err e | None => Ok tt end).

(** Rules for the steps of a constructor. *)
Section Steps.
Context {E : Type → Type} {S : Type} (h : handler E S).

Lemma wp_check e s Φ :
  (e = None → Φ (Ok tt) s) → (∀ err, e = Some err → Φ (Err err) s) → wp h (check e) s Φ.
Proof. destruct e as [err|]; intros Hn Hs; apply wp_ret; [by apply Hs|by apply Hn]. Qed.

Lemma wp_wrap_err {A} format args (p : prog E (result A)) s Φ :
  wp h p s (λ r s', match r with
                    | Ok a => Φ (Ok a) s'
                    | Err e => Φ (Err (Wrapf format args e)) s'
                    end) →
  wp h (wrap_err format args p) s Φ.
Proof. intros Hp. apply wp_bind. eapply wp_mono; [exact Hp|]. by intros [] s'. Qed.
End Steps.

(** One step of a constructor. *)
Ltac server_step :=
  first [ apply wp_check; [intros ?|intros ? ?] | apply wp_wrap_err | wp_step
        | apply wp_call; intros [[]|?] ? ? ].

(** http.go *)

Record HTTPServer := {
  h_addr : string;
  h_Handler : Handler connE;
  h_tlsEnabled : bool;
  h_tlsCertFile : string;
  h_tlsKeyFile : string;
}.

Definition NewHTTPServer `{GatewayRuntime} (cfg : Config) : prog serverE (result HTTPServer) :=
  _ ←? check (ensureAPIKeyConfigured cfg);
  _ ←? check (ensureHTTPServerTLSConfigured cfg);
  let mux := NewServeMux in
  _ ←? (if GRPCTLSEnabled cfg then
      wrap_err "grpc tls config: %w" []
        (call (NewClientTLSFromFile (GRPCTLSCertFile cfg) (GRPCTLSServerName cfg)))
    else Ret (Ok tt));
  mux ←? wrap_err "register gateway: %w" []
    (dial (RegisterFlowServiceHandlerFromEndpoint mux (GRPCAddr cfg) (GRPCTLSEnabled cfg)));
  mux ←? wrap_err "register schema registry gateway: %w" []
    (dial (RegisterSchemaRegistryServiceHandlerFromEndpoint mux (GRPCAddr cfg) (GRPCTLSEnabled cfg)));
  _ ←? wrap_err "http metrics: %w" [] (call (NewInstrument "flow_api_http_requests_total"));
  _ ←? wrap_err "http latency metrics: %w" [] (call (NewInstrument "flow_api_http_latency_ms"));
  let handler := apiKeyHTTPMiddleware cfg (ServeHTTP mux) in
  Ret (Ok (Build_HTTPServer (HTTPAddr cfg) (httpMiddleware handler)
    (HTTPTLSEnabled cfg) (HTTPTLSCertFile cfg) (HTTPTLSKeyFile cfg))).

Section Servers.
Context {E : Type → Type} `{Store E}.

(** The services over a store. *)
Definition NewFlowServer : FlowServiceServer E := {|
  srv_CreateFlow _ r := FlowServer.CreateFlow r;
  srv_UpdateFlow _ r := FlowServer.UpdateFlow r;
  srv_DeleteFlow _ r := FlowServer.DeleteFlow r;
  srv_GetFlow _ r := FlowServer.GetFlow r;
  srv_ListFlows _ r := FlowServer.ListFlows r;
  srv_GetFlowStatus _ r := FlowServer.GetFlowStatus r;
  srv_RollbackFlow _ r := FlowServer.RollbackFlow r;
|}.

Definition NewSchemaRegistryServer : SchemaRegistryServiceServer E := {|
  srv_CreateSchema _ r := SchemaRegistryServer.CreateSchema r;
  srv_GetSchema _ r := SchemaRegistryServer.GetSchema r;
  srv_ListSchemaVersions _ r := SchemaRegistryServer.ListSchemaVersions r;
  srv_DeleteSchema _ r := SchemaRegistryServer.DeleteSchema r;
|}.

Record GRPCServer := {
  g_addr : string;
  g_interceptors : list (UnaryServerInterceptor E);
  g_creds : option (string * string);
  g_services : list (ServiceDesc E);
}.

Definition NewGRPCServer (cfg : Config) : prog serverE (result GRPCServer) :=
  _ ←? check (ensureAPIKeyConfigured cfg);
  _ ←? check (ensureGRPCServerTLSConfigured cfg);
  _ ←? wrap_err "grpc metrics: %w" [] (call (NewInstrument "flow_api_grpc_requests_total"));
  _ ←? wrap_err "grpc metrics histogram: %w" [] (call (NewInstrument "flow_api_grpc_latency_ms"));
  _ ←? wrap_err "listen %s: %w" [AStr (GRPCAddr cfg)] (call (Listen (GRPCAddr cfg)));
  let serverOpts := [apiKeyUnaryInterceptor cfg; unaryTracingInterceptor] in
  creds ←? (if GRPCTLSEnabled cfg then
      _ ←? wrap_err "grpc tls config: %w" []
        (call (NewServerTLSFromFile (GRPCTLSCertFile cfg) (GRPCTLSKeyFile cfg)));
      Ret (Ok (Some (GRPCTLSCertFile cfg, GRPCTLSKeyFile cfg)))
    else Ret (Ok None));
  let services := RegisterFlowServiceServer [] NewFlowServer in
  let services := RegisterSchemaRegistryServiceServer services NewSchemaRegistryServer in
  Ret (Ok (Build_GRPCServer (GRPCAddr cfg) serverOpts creds services)).

(** ** server.go *)

Record Server := { s_grpc : GRPCServer; s_http : HTTPServer }.

Definition New `{GatewayRuntime} (cfg : Config) : prog serverE (result Server) :=
  grpcSrv ←? wrap_err "grpc server: %w" [] (NewGRPCServer cfg);
  httpSrv ←? wrap_err "http server: %w" [] (NewHTTPServer cfg);
  Ret (Ok (Build_Server grpcSrv httpSrv)).

(** ** Serving *)

Inductive serve :=
  | ServeGRPC
  | ListenAndServe (addr : string)
  | ListenAndServeTLS (addr cert key : string).

(** What the [select] of [Run] picks: the context, or the error one of the
    two goroutines ended with ([None]: nil). *)
Inductive run_select := RunDone | RunErr (err : option GoError).

Inductive runE : Type → Type :=
  | Go (s : serve) : runE unit
  | RunSelect : runE run_select
  | GracefulStop : runE unit
  | HTTPShutdown : runE unit.

Definition GRPCServer_Run : serve := ServeGRPC.

Definition HTTPServer_Run (h : HTTPServer) : serve :=
  if h_tlsEnabled h then ListenAndServeTLS (h_addr h) (h_tlsCertFile h) (h_tlsKeyFile h)
  else ListenAndServe (h_addr h).

Definition Run (s : Server) : prog runE (option GoError) :=
  _ ← call (Go GRPCServer_Run);
  _ ← call (Go (HTTPServer_Run (s_http s)));
  sel ← call RunSelect;
  match sel with
  | RunDone => _ ← call GracefulStop; _ ← call HTTPShutdown; Ret None
  | RunErr err => _ ← call GracefulStop; _ ← call HTTPShutdown; Ret err
  end.
End Servers.
Arguments GRPCServer E : clear implicits.
Arguments Server E : clear implicits.

(** [grpc.ChainUnaryInterceptor]: the first interceptor is the outermost. *)
Fixpoint chain {E} (l : list (UnaryServerInterceptor E)) : UnaryServerInterceptor E :=
  match l with
  | [] => λ A B _ handler ctx req, handler ctx req
  | i :: l => λ A B full handler ctx req, i A B full (chain l A B full handler) ctx req
  end.
