(* ===== verification/Main.v ===== *)
(** * The two processes: api/cmd/flow-api and controller/cmd/flow-controller

    [main] of each binary as a program over everything it calls, with what
    becomes of the process ([exit]).  A deferred call runs when [main]
    returns, not when it calls [os.Exit]. *)
From S2P Require Import Prelude GoStd Prog Config Observability Controller ControllerMain.
From S2P Require Import ApiService Gateway ApiServer.

(** ** Processes *)

(** [Running]: the loop of the leader election goes on. *)
Inductive exit := Returned | Exited (code : Z) | Panicked (e : GoError) | Running.

Inductive meterE : Type → Type :=
  | GetMeterProvider : meterE bool
  | Instrument (name : string) : meterE unit
  | RegisterCallback : meterE (result unit).

Inductive processE : Type → Type :=
  | OnObs {X} (e : obsE X) : processE X
  | NewEtcd (endpoints : list string) : processE (result unit)
  | CloseStore : processE unit
  | NotifyContext : processE unit
  | CancelContext : processE unit
  | OnServer {X} (e : serverE X) : processE X
  | OnRun {X} (e : runE X) : processE X
  | OnKube {X} (e : kubeConfigE X) : processE X
  | OnMeter {X} (e : meterE X) : processE X
  | OnLead {X} (e : leadE X) : processE X
  | CtrlRun (c : Controller) : processE (result unit).

Definition obs {A} (p : prog obsE A) : prog processE A := translate (λ X e, OnObs e) p.
Definition server {A} (p : prog serverE A) : prog processE A := translate (λ X e, OnServer e) p.
Definition running {A} (p : prog runE A) : prog processE A := translate (λ X e, OnRun e) p.
Definition kube {A} (p : prog kubeConfigE A) : prog processE A := translate (λ X e, OnKube e) p.
Definition meter {A} (p : prog meterE A) : prog processE A := translate (λ X e, OnMeter e) p.
Definition lead {A} (p : prog leadE A) : prog processE A := translate (λ X e, OnLead e) p.

(** [defer cleanup; body] *)
Definition defer {E} (cleanup : prog E unit) (body : prog E exit) : prog E exit :=
  x ← body;
  match x with
  | Returned | Panicked _ => _ ← cleanup; Ret x
  | Exited _ | Running => Ret x
  end.

(** [logger.Error(..., slog.Any("error", err)); os.Exit(1)] *)
Definition fatal (logger : Logger) (msg : string) (err : GoError) : prog processE exit :=
  _ ← obs (log_Error logger msg [AttrError "error" err]);
  Ret (Exited 1).

(** What the deferred function after [Setup] does. *)
Definition shutdownTelemetry (sd : option Shutdown) (logger : Logger) : prog processE unit :=
  err ← obs (default (Ret None) sd);
  match err with
  | Some err => obs (log_Error logger "failed to shutdown telemetry" [AttrError "error" err])
  | None => Ret tt
  end.

(** ** flow-api *)
Section Api.
Context {E : Type → Type} `{Store E} `{GatewayRuntime}.

Definition api_main (cfg : ApiConfig.Config) : prog processE exit :=
  '(sd, logger, err) ← obs (ApiObservability.Setup cfg);
  match err with
  | Some err => Ret (Panicked err)
  | None =>
      defer (shutdownTelemetry sd logger)
      (st ← call (NewEtcd (ApiConfig.EtcdEndpoints cfg));
       match st with
       | Err err => fatal logger "failed to connect to etcd" err
       | Ok _ =>
           defer (call CloseStore)
           (srv ← server (New (E := E) cfg);
            match srv with
            | Err err => fatal logger "failed to create server" err
            | Ok srv =>
                _ ← call NotifyContext;
                defer (call CancelContext)
                (_ ← obs (log_Info logger "flow-api starting" []);
                 err ← running (Run srv);
                 match err with
                 | Some err => fatal logger "flow-api exited with error" err
                 | None => _ ← obs (log_Info logger "flow-api stopped" []); Ret Returned
                 end)
            end)
       end)
  end.
End Api.

(** ** flow-controller *)

(** controller.go: the meter is a no-op one when there is no provider. *)
Definition otelMeter : prog meterE bool := call GetMeterProvider.

(** [controller.New]: instruments that cannot be created are left nil, a
    callback that cannot be registered is logged. *)
Definition controller_New (logger : Logger) (kubeClient : bool) (runtimeNamespace : string)
    (observabilityEnabled : bool) (otelEndpoint : string) (workerCount : Z) :
    prog processE Controller :=
  _ ← meter otelMeter;
  _ ← meter (call (Instrument "flow_controller_reconcile_success_total"));
  _ ← meter (call (Instrument "flow_controller_reconcile_failure_total"));
  _ ← meter (call (Instrument "flow_controller_watch_events_total"));
  _ ← meter (call (Instrument "flow_controller_queue_depth"));
  _ ← meter (call (Instrument "flow_controller_queue_lag_seconds"));
  err ← meter (call RegisterCallback);
  _ ← match err with
      | Err err => obs (log_Error logger "failed to register queue depth metric callback"
                     [AttrError "error" err])
      | Ok _ => Ret tt
      end;
  Ret {|
    c_kube := kubeClient;
    c_runtimeNamespace := runtimeNamespace;
    c_observabilityEnabled := observabilityEnabled;
    c_otelEndpoint := otelEndpoint;
    c_workerCount := workerCount;
  |}.

(** [rounds] of the election are looked at. *)
Definition controller_main (env : os.environment) (home hostname : result string) (pid : N)
    (rounds : nat) (cfg : CtlConfig.Config) : prog processE exit :=
  '(sd, logger, err) ← obs (CtlObservability.Setup cfg);
  match err with
  | Some err => Ret (Panicked err)
  | None =>
      defer (shutdownTelemetry sd logger)
      (let identity := nodeName env hostname pid in
       st ← call (NewEtcd (CtlConfig.EtcdEndpoints cfg));
       match st with
       | Err err => fatal logger "failed to connect to etcd" err
       | Ok _ =>
           defer (call CloseStore)
           (kubeClient ← kube (kube_New env home);
            match kubeClient with
            | Err err => fatal logger "failed to create kubernetes client" err
            | Ok _ =>
                ctrl ← controller_New logger true (CtlConfig.RuntimeNamespace cfg)
                  (CtlConfig.ObservabilityEnabled cfg) (CtlConfig.OTLPEndpoint cfg)
                  (CtlConfig.WorkerCount cfg);
                _ ← call NotifyContext;
                defer (call CancelContext)
                (_ ← obs (log_Info logger "flow-controller starting" []);
                 ran ← (if CtlConfig.LeaderElectionEnabled cfg
                        then lead (runWithLeaderElection cfg identity rounds)
                        else r ← call (CtrlRun ctrl); Ret (Some r));
                 match ran with
                 | None => Ret Running
                 | Some (Err err) => fatal logger "flow-controller exited with error" err
                 | Some (Ok _) =>
                     _ ← obs (log_Info logger "flow-controller stopped" []); Ret Returned
                 end)
            end)
       end)
  end.

(** ** What becomes of the processes *)

(** Closing what was opened: the etcd client and the telemetry. *)
Definition is_cleanup {X} (e : processE X) : bool :=
  match e with
  | CloseStore => true
  | OnObs e => is_shutdown e
  | _ => false
  end.

Definition is_error_line {X} (e : processE X) : bool :=
  match e with OnObs (Stdout level _ _) => (level =? LevelError)%Z | _ => false end.

(** A call of a process with its answer. *)
Notation answered := {X & (processE X * X)%type}.

(** The cleanups among the calls of a run, in order. *)
Inductive cleanup := ClStore | ClTracer | ClMeter.

Definition cleanup_of (c : answered) : option cleanup :=
  match (projT2 c).1 with
  | CloseStore => Some ClStore
  | OnObs TracerShutdown => Some ClTracer
  | OnObs MeterShutdown => Some ClMeter
  | _ => None
  end.

Definition cleanups (l : list answered) : list cleanup := omap cleanup_of l.

Definition error_line (l : list answered) : Prop :=
  Exists (λ c, is_error_line (projT2 c).1 = true) l.

(** The answers that are failures of the process: connecting to etcd,
    constructing the servers, serving, the Kubernetes client, the election
    and the controller's run.  That the cluster's own configuration is not
    there is none, a file is tried then. *)
Definition failure {X} (e : processE X) : X → bool :=
  match e in processE X return X → bool with
  | NewEtcd _ => λ r, negb (is_ok r)
  | OnServer e =>
      match e in serverE X return X → bool with
      | NewInstrument _ | Listen _ | NewServerTLSFromFile _ _ | NewClientTLSFromFile _ _ =>
          λ r, negb (is_ok r)
      | Dial e => match e in dialE X return X → bool with
                  | GrpcNewClient _ _ => λ r, negb (is_ok r)
                  | _ => λ _, false
                  end
      end
  | OnRun e => match e in runE X return X → bool with
               | RunSelect => λ sel, match sel with RunErr (Some _) => true | _ => false end
               | _ => λ _, false
               end
  | OnKube e => match e in kubeConfigE X return X → bool with
                | InClusterConfig => λ _, false
                | BuildConfigFromFlags _ | NewForConfig _ => λ r, negb (is_ok r)
                end
  | OnLead e => match e in leadE X return X → bool with
                | NewLeaderElector _ _ _ _ _ _ => λ r, negb (is_ok r)
                | LeadSelect => λ sel, match sel with LeadErr _ => true | _ => false end
                | _ => λ _, false
                end
  | CtrlRun _ => λ r, negb (is_ok r)
  | _ => λ _, false
  end.

Definition failed (l : list answered) : bool := any_fault (@failure) l.

(** The failures of [Setup]. *)
Definition setup_failure {X} (e : processE X) : X → bool :=
  match e in processE X return X → bool with
  | OnObs e => setup_fault e
  | _ => λ _, false
  end.

Definition setup_failed (l : list answered) : bool := any_fault (@setup_failure) l.

(** Calls that close nothing and are no part of [Setup]. *)
Definition quiet {X} (e : processE X) : Prop :=
  is_cleanup e = false ∧ ∀ x, setup_failure e x = false.

(** Calls that cannot fail either. *)
Definition harmless {X} (e : processE X) : Prop := quiet e ∧ ∀ x, failure e x = false.

Lemma cleanups_none l :
  Forall (λ c : answered, is_cleanup (projT2 c).1 = false) l → cleanups l = [].
Proof.
  induction 1 as [|[X [e x]] l He _ IH]; [done|]. unfold cleanups in *. cbn in *.
  destruct e; try done. destruct e; done.
Qed.

Lemma cleanups_app l k : cleanups (l ++ k) = cleanups l ++ cleanups k.
Proof. apply omap_app. Qed.

Lemma error_line_app l k : error_line l ∨ error_line k → error_line (l ++ k).
Proof. intros. by apply Exists_app. Qed.

(** What the part of [main] between the deferred calls ends with, given that
    the process needs [U] to run. *)
Definition body_ok (U : Prop) (x : exit) (l : list answered) : Prop :=
  cleanups l = [] ∧ setup_failed l = false ∧
  match x with
  | Returned => U ∧ failed l = false
  | Exited code => code = 1%Z ∧ (¬ U ∨ failed l = true) ∧ error_line l
  | Panicked _ => False
  | Running => failed l = false
  end.

(** What becomes of a process that needs [U] to run. *)
Definition process_ok (enabled : bool) (U : Prop) (x : exit) (l : list answered) : Prop :=
  match x with
  | Panicked _ => enabled = true ∧ setup_failed l = true ∧ cleanups l = []
  | Returned => setup_failed l = false ∧ U ∧ failed l = false ∧
      cleanups l = ClStore :: (if enabled then [ClTracer; ClMeter] else [])
  | Exited code => setup_failed l = false ∧ (¬ U ∨ failed l = true) ∧
      code = 1%Z ∧ cleanups l = [] ∧ error_line l
  | Running => setup_failed l = false ∧ failed l = false ∧ cleanups l = []
  end.

Section Outcome.
Context {W : Type} (h : handler processE W).

Lemma quiet_history {A} (p : prog processE A) w :
  confined (@quiet) p →
  cleanups (history h p w) = [] ∧ setup_failed (history h p w) = false.
Proof.
  intros Hp. split.
  - apply cleanups_none. apply (confined_history _ h p w) in Hp.
    eapply Forall_impl; [exact Hp|]. by intros c [? _].
  - apply faultless. eapply confined_mono; [exact Hp|]. by intros X e [_ ?].
Qed.

Lemma harmless_quiet {A} (p : prog processE A) : confined (@harmless) p → confined (@quiet) p.
Proof. intros Hp. eapply confined_mono; [exact Hp|]. by intros X e [? _]. Qed.

(** Nothing of interest happens. *)
Definition nothing (l : list answered) : Prop :=
  cleanups l = [] ∧ setup_failed l = false ∧ failed l = false.

Lemma harmless_history {A} (p : prog processE A) w :
  confined (@harmless) p → nothing (history h p w).
Proof.
  intros Hp. destruct (quiet_history p w (harmless_quiet p Hp)) as [H1 H2]. split_and!; [done|done|].
  apply faultless. eapply confined_mono; [exact Hp|]. by intros X e [_ ?].
Qed.

Lemma body_ok_nothing U x l k : body_ok U x l → nothing k → body_ok U x (l ++ k).
Proof.
  intros (H1 & H2 & Hx) (K1 & K2 & K3). unfold body_ok, setup_failed, failed in *.
  rewrite cleanups_app, !any_fault_app, K1, K2, K3, app_nil_r, !orb_false_r.
  split_and!; [done|done|]. destruct x; try done. destruct Hx as (? & ? & ?).
  split_and!; [done|done|]. apply error_line_app. by left.
Qed.

(** A step that is right when [ok] accepts its result, before a body. *)
Lemma wph_step {A} (ok : A → bool) (p : prog processE A) (k : A → prog processE exit) w
    (Q : A → W → Prop) (U V : Prop) :
  confined (@quiet) p → notices (@failure) V ok p → (V → ¬ U) → wp h p w Q →
  (∀ a w', Q a w' → ok a = true → wph h (k a) w' (λ x _ l, body_ok U x l)) →
  (∀ a w', Q a w' → ok a = false → wph h (k a) w' (λ x _ l,
     x = Exited 1 ∧ cleanups l = [] ∧ setup_failed l = false ∧ error_line l)) →
  wph h (p ≫= k) w (λ x _ l, body_ok U x l).
Proof.
  intros Hc Hn HV Hq Hok Herr. apply wph_bind.
  destruct (quiet_history p w Hc) as [Hcl Hse]. specialize (Hn W h w).
  unfold wph at 1. unfold wp in Hq. fold (failed (history h p w)) in Hn.
  destruct (ok (run h p w).1) eqn:E.
  - eapply wph_mono; [by apply Hok|]. intros x w2 l (H1 & H2 & H3).
    unfold body_ok, setup_failed, failed in *. rewrite cleanups_app, !any_fault_app, Hcl, Hse, Hn.
    split_and!; [done|done|]. destruct x; try done. destruct H3 as (? & ? & ?).
    split_and!; [done|done|]. apply error_line_app. by right.
  - eapply wph_mono; [by apply Herr|]. intros x w2 l (-> & H1 & H2 & H3).
    unfold body_ok, setup_failed, failed in *. rewrite cleanups_app, !any_fault_app, Hcl, Hse, H1, H2.
    split_and!; [done|done|done| |by apply error_line_app; right].
    destruct Hn as [Hn| ->]; [left; auto|by right].
Qed.

(** A step that cannot fail. *)
Lemma wph_harmless {A} (p : prog processE A) (k : A → prog processE exit) w U :
  confined (@harmless) p →
  (∀ a w', wph h (k a) w' (λ x _ l, body_ok U x l)) →
  wph h (p ≫= k) w (λ x _ l, body_ok U x l).
Proof.
  intros Hp Hk. apply (wph_step (λ _, true) p k w (λ _ _, True) U False); try done.
  - by apply harmless_quiet.
  - intros S g s. apply faultless. eapply confined_mono; [exact Hp|]. by intros X e [_ ?].
Qed.

Lemma wph_fatal level msg err w :
  wph h (fatal (Build_Logger (Some (parseLogLevel level))) msg err) w (λ x _ l,
    x = Exited 1 ∧ cleanups l = [] ∧ setup_failed l = false ∧ failed l = false ∧ error_line l).
Proof.
  unfold fatal, log_Error, write. cbn [slog].
  rewrite (proj2 (Z.leb_le _ _) (parseLogLevel_error level)).
  apply wph_bind, wph_call. intros [] w' _. apply wph_ret. cbn. split_and!; try done.
  apply Exists_cons_hd. reflexivity.
Qed.

Lemma wph_fatal' level msg err w :
  wph h (fatal (Build_Logger (Some (parseLogLevel level))) msg err) w (λ x _ l,
    x = Exited 1 ∧ cleanups l = [] ∧ setup_failed l = false ∧ error_line l).
Proof. eapply wph_mono; [apply wph_fatal|]. by intros x w' l (? & ? & ? & _ & ?). Qed.

(** A deferred call: made on return, not on [os.Exit]. *)
Lemma wph_defer cl body w (C : list answered → Prop) (Φ : exit → W → list answered → Prop) :
  (∀ w, wph h cl w (λ _ _ l, C l)) →
  wph h body w (λ x w1 l1, ∀ w2 l2, (match x with
    | Returned | Panicked _ => C l2
    | Exited _ | Running => l2 = [] end) → Φ x w2 (l1 ++ l2)) →
  wph h (defer cl body) w Φ.
Proof.
  intros Hcl Hb. apply wph_bind. eapply wph_mono; [exact Hb|]. intros x w1 l1 HΦ.
  destruct x; [apply wph_bind|apply wph_ret, HΦ; done|apply wph_bind|apply wph_ret, HΦ; done];
    (eapply wph_mono; [apply Hcl|]); intros [] w2 l2 Hl2; apply wph_ret, HΦ; by rewrite app_nil_r.
Qed.

Lemma wph_body_defer (cl : prog processE unit) body w U :
  confined (@harmless) cl →
  wph h body w (λ x _ l, body_ok U x l) → wph h (defer cl body) w (λ x _ l, body_ok U x l).
Proof.
  intros Hcl Hb. eapply wph_defer with (C := nothing); [intros; by apply harmless_history|].
  eapply wph_mono; [exact Hb|]. intros x w1 l Hl w2 k Hk. apply body_ok_nothing; [done|].
  destruct x; by subst.
Qed.

Lemma harmless_write logger level msg attrs : confined (@harmless) (obs (write logger level msg attrs)).
Proof. unfold write. apply confined_translate. repeat confined_step. by split_and!. Qed.

(** The telemetry is shut down exactly when it was set up. *)
Definition closes (C : list cleanup) (l : list answered) : Prop :=
  cleanups l = C ∧ setup_failed l = false ∧ failed l = false.

Lemma closes_app C D l k : closes C l → closes D k → closes (C ++ D) (l ++ k).
Proof.
  intros (H1 & H2 & H3) (K1 & K2 & K3). unfold closes, setup_failed, failed in *.
  rewrite cleanups_app, !any_fault_app, H1, H2, H3, K1, K2, K3. by split_and!.
Qed.

Lemma wph_shutdownTelemetry (enabled : bool) logger w :
  wph h (shutdownTelemetry (Some (if enabled then shutdown else Ret None)) logger) w
    (λ _ _ l, closes (if enabled then [ClTracer; ClMeter] else []) l).
Proof.
  unfold shutdownTelemetry. cbn [default]. destruct enabled; [|by apply wph_ret].
  apply (wph_bind h (call (OnObs TracerShutdown))), wph_call. intros e1 w1 _.
  apply (wph_bind h (call (OnObs MeterShutdown))), wph_call. intros e2 w2 _.
  set (r := match e2 with Some _ => _ | None => _ end).
  assert (nothing (history h (match r with
    | Some err => obs (log_Error logger "failed to shutdown telemetry" [AttrError "error" err])
    | None => Ret tt end) w2)) as (H1 & H2 & H3).
  { apply harmless_history. destruct r; [apply harmless_write|constructor]. }
  unfold wph. apply (closes_app [ClTracer] [ClMeter]); [by split_and!|].
  by apply (closes_app [ClMeter] []).
Qed.

Lemma confined_obs {A} (p : prog obsE A) :
  confined (λ X e, is_shutdown e = false) p → confined (λ X e, is_cleanup e = false) (obs p).
Proof. exact (confined_translate _ (λ X e, OnObs e) p). Qed.

(** The frame both [main]s share: telemetry, the etcd client, the body. *)
Lemma wph_process def enabled level service endpoint endpoints msg (body : Logger → prog processE exit)
    w U :
  (∀ w, wph h (body (Build_Logger (Some (parseLogLevel level)))) w (λ x _ l, body_ok U x l)) →
  wph h ('(sd, logger, err) ← obs (setup def enabled level service endpoint);
    match err with
    | Some err => Ret (Panicked err)
    | None =>
        defer (shutdownTelemetry sd logger)
        (st ← call (NewEtcd endpoints);
         match st with
         | Err err => fatal logger msg err
         | Ok _ => defer (call CloseStore) (body logger)
         end)
    end) w (λ x _ l, process_ok enabled U x l).
Proof.
  intros Hbody. apply wph_bind. unfold wph at 1.
  pose proof (wp_translate h (λ X e, OnObs e) (setup def enabled level service endpoint) w
    (λ r _, setup_result enabled level r) (setup_spec _ def enabled level service endpoint w)) as Hr.
  unfold wp in Hr.
  pose proof (notices_translate (@setup_failure) False (λ X e, OnObs e) _ _
    (setup_notices def enabled level service endpoint) W h w) as Hn.
  assert (cleanups (history h (obs (setup def enabled level service endpoint)) w) = []) as Hcl
    by apply cleanups_none, (confined_history (λ X e, is_cleanup e = false)), confined_obs, confined_setup.
  assert (failed (history h (obs (setup def enabled level service endpoint)) w) = false) as Hf.
  { apply faultless, confined_translate, confined_all. done. }
  set (l1 := history h _ w) in *. clearbody l1.
  destruct (run h _ w) as [[[sd logger] [err|]] w1]; cbn [fst snd] in *.
  { apply wph_ret. rewrite app_nil_r. destruct Hr, Hn as [[]|Hn]. by split_and!. }
  destruct Hr as [-> ->]. change (any_fault _ l1) with (setup_failed l1) in Hn.
  eapply wph_defer; [intros; apply wph_shutdownTelemetry|].
  apply wph_bind, wph_call. intros [u|err] w2 _.
  - eapply wph_defer with (C := closes [ClStore]); [intros; by apply wph_call|].
    eapply wph_mono; [apply Hbody|]. intros x _ l3 (H1 & H2 & H3) w4 l4 Hl4 w5 l5 Hl5.
    unfold setup_failed, failed, closes in *.
    destruct x; cbn [process_ok]; unfold closes, setup_failed, failed in *; subst;
      rewrite ?cleanups_app, ?any_fault_app, ?Hcl, ?Hn, ?Hf, ?H1, ?H2; cbn; try done.
    + destruct H3 as [? H3], Hl4 as (H4 & -> & ->), Hl5 as (H5 & -> & ->).
      rewrite H3, H4, H5. by split_and!.
    + destruct H3 as (-> & Hor & He). rewrite !orb_false_r. split_and!; [done|done|done|done|].
      apply error_line_app. right. apply Exists_cons_tl. rewrite !app_nil_r. exact He.
    + by rewrite H3.
  - eapply wph_mono; [apply wph_fatal|]. intros x w3 l3 (-> & H1 & H2 & H3 & He) w4 l4 ->.
    cbn [process_ok].
    unfold setup_failed, failed in *.
    rewrite ?cleanups_app, ?any_fault_app, ?Hcl, ?Hn, ?Hf, ?H1, ?H2, ?H3. cbn.
    split_and!; [done|by right|done|done|]. apply error_line_app. right. rewrite app_nil_r.
    by apply Exists_cons_tl.
Qed.
End Outcome.

(** ** flow-api *)

(** A configuration the servers can be built from. *)
Definition usable (cfg : ApiConfig.Config) : Prop :=
  ensureAPIKeyConfigured cfg = None ∧ ensureHTTPServerTLSConfigured cfg = None ∧
  ensureGRPCServerTLSConfigured cfg = None.

Section ApiOutcome.
Context {E : Type → Type} `{Store E} `{GatewayRuntime}.

Lemma New_usable {W} (h : handler serverE W) cfg w :
  wp h (New (E := E) cfg) w (λ r _, is_ok r = true → usable cfg).
Proof.
  unfold New, NewGRPCServer, NewHTTPServer.
  repeat first [server_step | apply wp_translate; unfold RegisterFlowServiceHandlerFromEndpoint,
    RegisterSchemaRegistryServiceHandlerFromEndpoint, deferred_close | apply wp_call; intros [] ? ?];
    try discriminate; intros _; by split_and!.
Qed.

Definition server_failure {X} (e : serverE X) : X → bool := failure (OnServer e).

Lemma notices_wrap {F A} (bad : ∀ X, F X → X → bool) P format args (p : prog F (result A)) :
  notices bad P is_ok p → notices bad P is_ok (wrap_err format args p).
Proof.
  intros Hp. eapply notices_bind; [exact Hp| |]; by intros [a|e].
Qed.

Lemma notices_check {F} (bad : ∀ X, F X → X → bool) (P : Prop) e :
  (e ≠ None → P) → notices bad P is_ok (check e).
Proof. intros Hp. destruct e; apply notices_ret; [|done]. intros _. by apply Hp. Qed.

(** The routes of the generated registrations are all well formed. *)
Lemma Register_ok (mux : ServeMux connE) conn :
  is_ok (RegisterFlowServiceHandler mux conn) = true ∧
  is_ok (RegisterSchemaRegistryServiceHandler mux conn) = true.
Proof. by split. Qed.

Lemma notices_dial P (r : result (ServeMux connE)) endpoint tls :
  is_ok r = true →
  notices (@server_failure) P is_ok
    (dial (_ ←? call (GrpcNewClient endpoint tls); deferred_close (Build_ClientConn endpoint tls) r)).
Proof.
  intros Hr. apply notices_translate, notices_try; [by apply notices_call|]. intros _.
  destruct r as [mux|e]; [|done]. apply notices_quiet; [by repeat confined_step|].
  intros _. by apply notices_ret.
Qed.

(** [New] fails exactly for a configuration it refuses or when one of the
    calls it makes fails. *)
Lemma New_notices cfg : notices (@server_failure) (¬ usable cfg) is_ok (New (E := E) cfg).
Proof.
  unfold New, NewGRPCServer, NewHTTPServer, usable.
  repeat first [ apply notices_try; [|intros ?] | apply notices_wrap
    | apply notices_check; naive_solver | apply notices_dial, Register_ok
    | by apply notices_call | by apply notices_ret
    | match goal with |- notices _ _ _ (if ?b then _ else _) => destruct b end ].
Qed.

Lemma Run_notices srv P :
  notices (λ X e, @failure X (OnRun e)) P (λ r, match r with None => true | Some _ => false end)
    (Run (E := E) srv).
Proof.
  unfold Run. do 2 (apply notices_quiet; [by repeat confined_step|]; intros _).
  eapply notices_bind with (ok1 := λ sel, match sel with RunErr (Some _) => false | _ => true end).
  - apply notices_call. by intros [|[]].
  - intros [|[e|]] Hs; try done;
      (do 2 (apply notices_quiet; [by repeat confined_step|]; intros _)); by apply notices_ret.
  - by intros [|[e|]] Hs.
Qed.

Lemma quiet_embedded {F A} (f : ∀ X, F X → processE X) (p : prog F A) :
  (∀ X e, quiet (f X e)) → confined (@quiet) (translate f p).
Proof. intros Hf. by apply confined_translate, confined_all. Qed.

Lemma harmless_call {X} (e : processE X) : harmless e → confined (@harmless) (call e).
Proof. intros. by apply confined_call. Qed.

Lemma api_process {W} (h : handler processE W) cfg w :
  wph h (api_main (E := E) cfg) w (λ x _ l,
    process_ok (ApiConfig.ObservabilityEnabled cfg) (usable cfg) x l).
Proof.
  apply wph_process. intros w1.
  apply (wph_step _ is_ok) with (Q := λ r _, is_ok r = true → usable cfg) (V := ¬ usable cfg);
    [by apply quiet_embedded|apply notices_translate, New_notices|done
    |apply wp_translate, New_usable| |intros [] w2 _ Hs; [done|apply wph_fatal']].
  intros [srv|err] w2 Hu Hs; [|done]. specialize (Hu Hs).
  apply wph_harmless; [by apply harmless_call|]. intros _ w3.
  apply wph_body_defer; [by apply harmless_call|].
  apply wph_harmless; [apply harmless_write|]. intros _ w4.
  apply (wph_step _ (λ r, match r with None => true | Some _ => false end))
    with (Q := λ _ _, True) (V := False);
    [by apply quiet_embedded|apply notices_translate, Run_notices|done|done|
    |intros [err|] w5 _ Hs'; [apply wph_fatal'|done]].
  intros [err|] w5 _ Hs'; [done|].
  apply wph_harmless; [apply harmless_write|]. intros _ w6. apply wph_ret. by split_and!.
Qed.
End ApiOutcome.

(** ** flow-controller *)
Section ControllerOutcome.

Lemma kube_notices env home :
  notices (λ X e, @failure X (OnKube e)) False is_ok (kube_New env home).
Proof.
  unfold kube_New. apply notices_try.
  - unfold loadConfig. apply notices_quiet; [by repeat confined_step|].
    intros [c|e]; [by apply notices_ret|].
    eapply notices_bind with (ok1 := is_ok); [by apply notices_call| |by intros []].
    intros [c|e']; [intros _; by apply notices_ret|done].
  - intros c. eapply notices_bind with (ok1 := is_ok); [by apply notices_call| |by intros []].
    intros [u|e']; [intros _; by apply notices_ret|done].
Qed.

Definition ended_well (r : option (result unit)) : bool :=
  match r with Some (Err _) => false | _ => true end.

Lemma lead_notices cfg identity rounds :
  notices (λ X e, @failure X (OnLead e)) False ended_well (runWithLeaderElection cfg identity rounds).
Proof.
  unfold runWithLeaderElection.
  eapply notices_bind with (ok1 := is_ok); [by apply notices_call| |by intros []].
  intros [u|e]; [intros _|done].
  induction rounds as [|rounds IH]; [by apply notices_ret|]. cbn [lead_loop].
  apply notices_quiet; [by repeat confined_step|]. intros _.
  eapply notices_bind with (ok1 := λ sel, match sel with LeadErr _ => false | _ => true end);
    [by apply notices_call; intros []| |by intros []].
  intros [|e|] Hs; [by apply notices_ret|done|].
  do 2 (apply notices_quiet; [by repeat confined_step|]; intros ?).
  case_match; [by apply notices_ret|exact IH].
Qed.

Lemma harmless_controller_New logger kubeClient ns oe ep wc :
  confined (@harmless) (controller_New logger kubeClient ns oe ep wc).
Proof.
  unfold controller_New, meter, otelMeter.
  repeat first [apply harmless_write | confined_step]; done.
Qed.

Lemma controller_process {W} (h : handler processE W) env home hostname pid rounds cfg w :
  wph h (controller_main env home hostname pid rounds cfg) w (λ x _ l,
    process_ok (CtlConfig.ObservabilityEnabled cfg) True x l).
Proof.
  apply wph_process. intros w1.
  apply (wph_step _ is_ok) with (Q := λ _ _, True) (V := False);
    [by apply quiet_embedded|apply notices_translate, kube_notices|done|done|
    |intros [] w2 _ Hs; [done|apply wph_fatal']].
  intros [k|err] w2 _ Hs; [|done].
  apply wph_harmless; [apply harmless_controller_New|]. intros ctrl w3.
  apply wph_harmless; [by apply harmless_call|]. intros _ w4.
  apply wph_body_defer; [by apply harmless_call|].
  apply wph_harmless; [apply harmless_write|]. intros _ w5.
  apply (wph_step _ ended_well) with (Q := λ _ _, True) (V := False); [| |done|done| |].
  - destruct (CtlConfig.LeaderElectionEnabled cfg); [by apply quiet_embedded|].
    by repeat confined_step.
  - destruct (CtlConfig.LeaderElectionEnabled cfg); [apply notices_translate, lead_notices|].
    eapply notices_bind with (ok1 := is_ok); [by apply notices_call| |by intros []].
    intros [u|e]; [intros _; by apply notices_ret|done].
  - intros [[[]|err]|] w6 _ Hs'; [|done|by apply wph_ret].
    apply wph_harmless; [apply harmless_write|]. intros _ w7. by apply wph_ret.
  - intros [[[]|err]|] w6 _ Hs'; [done|apply wph_fatal'|done].
Qed.
End ControllerOutcome.

(** C28: how the two processes end.  [main] returns only if the telemetry was
    set up, the configuration is one the servers accept (API) and no call
    failed: not the connection to etcd, no step of the construction of the
    servers or of the Kubernetes client, not the serving, the election or the
    controller's run; then the etcd client is closed and, if telemetry was
    enabled, its traces and metrics are shut down, in that order.  If one of
    these failed, or the configuration is refused, the exit status is 1 and
    a line was written at level error, which no configured log level
    suppresses, but nothing is closed and buffered telemetry is lost:
    [os.Exit] skips the deferred calls.  A failure to set up telemetry
    panics, without such a line. *)
Theorem processes_end {E} `{Store E} `{GatewayRuntime} {W} (h : handler processE W) w
    (acfg : ApiConfig.Config) env home hostname pid rounds (ccfg : CtlConfig.Config) :
  let api := api_main (E := E) acfg in
  let controller := controller_main env home hostname pid rounds ccfg in
  process_ok (ApiConfig.ObservabilityEnabled acfg) (usable acfg) (run h api w).1 (history h api w) ∧
  process_ok (CtlConfig.ObservabilityEnabled ccfg) True (run h controller w).1
    (history h controller w).
Proof. split; [apply api_process|apply controller_process]. Qed.
