(* ===== verification/Remote.v ===== *)
(** * Calls to the API server over gRPC

    A client stub, the transport, the interceptors, the method handler, the
    service and the store put together: what a remote call does to the
    server's world and what it answers. *)
From S2P Require Import Prelude GoStd GoStdFacts Prog Messages Etcd Codec ApiStore ApiStoreSpec.
From S2P Require Import ApiStoreProps SchemaStore Config ApiService Rpc Gateway ApiServer.

(** ** The remote calls *)

Inductive rpc : Type → Type → Type :=
  | R_CreateFlow : rpc CreateFlowRequest Flow
  | R_UpdateFlow : rpc UpdateFlowRequest Flow
  | R_DeleteFlow : rpc DeleteFlowRequest Empty
  | R_GetFlow : rpc GetFlowRequest Flow
  | R_ListFlows : rpc ListFlowsRequest ListFlowsResponse
  | R_GetFlowStatus : rpc GetFlowStatusRequest FlowStatus
  | R_RollbackFlow : rpc RollbackFlowRequest Flow
  | R_CreateSchema : rpc CreateSchemaRequest PbSchemaDefinition
  | R_GetSchema : rpc GetSchemaRequest PbSchemaDefinition
  | R_ListSchemaVersions : rpc ListSchemaVersionsRequest ListSchemaVersionsResponse
  | R_DeleteSchema : rpc DeleteSchemaRequest Empty.

(** The stub, the wire type of the response and the service method. *)
Definition client_call {A B} (c : rpc A B) : A → prog grpcE (result B) :=
  match c with
  | R_CreateFlow => flowServiceClient.CreateFlow
  | R_UpdateFlow => flowServiceClient.UpdateFlow
  | R_DeleteFlow => flowServiceClient.DeleteFlow
  | R_GetFlow => flowServiceClient.GetFlow
  | R_ListFlows => flowServiceClient.ListFlows
  | R_GetFlowStatus => flowServiceClient.GetFlowStatus
  | R_RollbackFlow => flowServiceClient.RollbackFlow
  | R_CreateSchema => schemaRegistryServiceClient.CreateSchema
  | R_GetSchema => schemaRegistryServiceClient.GetSchema
  | R_ListSchemaVersions => schemaRegistryServiceClient.ListSchemaVersions
  | R_DeleteSchema => schemaRegistryServiceClient.DeleteSchema
  end.

Definition response_message {A B} (c : rpc A B) : message B :=
  match c with
  | R_CreateFlow => M_Flow
  | R_UpdateFlow => M_Flow
  | R_DeleteFlow => M_Empty
  | R_GetFlow => M_Flow
  | R_ListFlows => M_ListFlowsResponse
  | R_GetFlowStatus => M_FlowStatus
  | R_RollbackFlow => M_Flow
  | R_CreateSchema => M_SchemaDefinition
  | R_GetSchema => M_SchemaDefinition
  | R_ListSchemaVersions => M_ListSchemaVersionsResponse
  | R_DeleteSchema => M_Empty
  end.

Definition service_call {E} `{Store E} {A B} (c : rpc A B) : A → prog E (result (option B)) :=
  match c with
  | R_CreateFlow => FlowServer.CreateFlow
  | R_UpdateFlow => FlowServer.UpdateFlow
  | R_DeleteFlow => FlowServer.DeleteFlow
  | R_GetFlow => FlowServer.GetFlow
  | R_ListFlows => FlowServer.ListFlows
  | R_GetFlowStatus => FlowServer.GetFlowStatus
  | R_RollbackFlow => FlowServer.RollbackFlow
  | R_CreateSchema => SchemaRegistryServer.CreateSchema
  | R_GetSchema => SchemaRegistryServer.GetSchema
  | R_ListSchemaVersions => SchemaRegistryServer.ListSchemaVersions
  | R_DeleteSchema => SchemaRegistryServer.DeleteSchema
  end.

(** The descriptor a call is served under. *)
Definition method_desc {E} `{Store E} {A B} (c : rpc A B) : string * MethodDesc E :=
  match c with
  | R_CreateFlow => (FlowService_CreateFlow_FullMethodName,
      Build_MethodDesc _ _ M_CreateFlowRequest M_Flow "CreateFlow" (_FlowService_CreateFlow_Handler NewFlowServer))
  | R_UpdateFlow => (FlowService_UpdateFlow_FullMethodName,
      Build_MethodDesc _ _ M_UpdateFlowRequest M_Flow "UpdateFlow" (_FlowService_UpdateFlow_Handler NewFlowServer))
  | R_DeleteFlow => (FlowService_DeleteFlow_FullMethodName,
      Build_MethodDesc _ _ M_DeleteFlowRequest M_Empty "DeleteFlow" (_FlowService_DeleteFlow_Handler NewFlowServer))
  | R_GetFlow => (FlowService_GetFlow_FullMethodName,
      Build_MethodDesc _ _ M_GetFlowRequest M_Flow "GetFlow" (_FlowService_GetFlow_Handler NewFlowServer))
  | R_ListFlows => (FlowService_ListFlows_FullMethodName,
      Build_MethodDesc _ _ M_ListFlowsRequest M_ListFlowsResponse "ListFlows" (_FlowService_ListFlows_Handler NewFlowServer))
  | R_GetFlowStatus => (FlowService_GetFlowStatus_FullMethodName,
      Build_MethodDesc _ _ M_GetFlowStatusRequest M_FlowStatus "GetFlowStatus" (_FlowService_GetFlowStatus_Handler NewFlowServer))
  | R_RollbackFlow => (FlowService_RollbackFlow_FullMethodName,
      Build_MethodDesc _ _ M_RollbackFlowRequest M_Flow "RollbackFlow" (_FlowService_RollbackFlow_Handler NewFlowServer))
  | R_CreateSchema => (SchemaRegistryService_CreateSchema_FullMethodName,
      Build_MethodDesc _ _ M_CreateSchemaRequest M_SchemaDefinition "CreateSchema" (_SchemaRegistryService_CreateSchema_Handler NewSchemaRegistryServer))
  | R_GetSchema => (SchemaRegistryService_GetSchema_FullMethodName,
      Build_MethodDesc _ _ M_GetSchemaRequest M_SchemaDefinition "GetSchema" (_SchemaRegistryService_GetSchema_Handler NewSchemaRegistryServer))
  | R_ListSchemaVersions => (SchemaRegistryService_ListSchemaVersions_FullMethodName,
      Build_MethodDesc _ _ M_ListSchemaVersionsRequest M_ListSchemaVersionsResponse "ListSchemaVersions" (_SchemaRegistryService_ListSchemaVersions_Handler NewSchemaRegistryServer))
  | R_DeleteSchema => (SchemaRegistryService_DeleteSchema_FullMethodName,
      Build_MethodDesc _ _ M_DeleteSchemaRequest M_Empty "DeleteSchema" (_SchemaRegistryService_DeleteSchema_Handler NewSchemaRegistryServer))
  end.

Definition authorized (cfg : ApiConfig.Config) (authorization : list string) : Prop :=
  ApiConfig.AuthEnabled cfg = true →
  firstBearerToken authorization ≠ "" ∧ firstBearerToken authorization = ApiConfig.APIKey cfg.

Section Remote.
Context {E : Type → Type} `{Store E} {S : Type} (h : handler E S).

Definition api_services : list (ServiceDesc E) :=
  [FlowService_ServiceDesc NewFlowServer;
   SchemaRegistryService_ServiceDesc NewSchemaRegistryServer].

Definition api_interceptors (cfg : ApiConfig.Config) : list (UnaryServerInterceptor E) :=
  [apiKeyUnaryInterceptor cfg; unaryTracingInterceptor].

Lemma run_NewGRPCServer {W} (wh : handler serverE W) cfg w g w' :
  run wh (NewGRPCServer cfg) w = (Ok g, w') →
  g_services g = api_services ∧ g_interceptors g = api_interceptors cfg.
Proof.
  intros Hr. refine (wp_run wh _ _
    (λ r _, ∀ g, r = Ok g → g_services g = api_services ∧ g_interceptors g = api_interceptors cfg)
    _ _ _ Hr g eq_refl). clear Hr.
  unfold NewGRPCServer. repeat server_step; try discriminate; by intros ? [= <-].
Qed.

Lemma serves_call {A B} (c : rpc A B) :
  serves api_services (method_desc (E := E) c).1 (method_desc (E := E) c).2.
Proof.
  apply serves_methods. destruct c; cbn [method_desc fst snd];
    repeat first [by left | right].
Qed.

(** The handler behind a call, with the server's interceptors. *)
Lemma run_handler cfg {A B} (full : string) (method : UnaryHandler E A B) md in_ s :
  authorized cfg (metadata.Get md "authorization") →
  run h (unary_handler full method (Build_Context md) (Ok in_)
    (Some (chain (api_interceptors cfg)))) s = run h (method (Build_Context md) in_) s.
Proof.
  intros Ha. cbn. unfold apiKeyUnaryInterceptor, unaryTracingInterceptor.
  destruct (ApiConfig.AuthEnabled cfg) eqn:Hen; cbn.
  - destruct (Ha Hen) as [Hne Heq]. rewrite bool_decide_eq_false_2, bool_decide_eq_false_2.
    + apply (bind_ret_r (method _ in_)).
    + intros Hk. by apply Hk.
    + done.
  - apply (bind_ret_r (method _ in_)).
Qed.

Lemma run_handler_denied cfg {A B} (full : string) (method : UnaryHandler E A B) md
    in_ s :
  ¬ authorized cfg (metadata.Get md "authorization") →
  ∃ msg, run h (unary_handler full method (Build_Context md) (Ok in_)
    (Some (chain (api_interceptors cfg)))) s = (Err (StatusErr "Unauthenticated" msg), s).
Proof.
  intros Ha. cbn. unfold apiKeyUnaryInterceptor.
  destruct (ApiConfig.AuthEnabled cfg) eqn:Hen; cbn; [|exfalso; apply Ha; intros Hen'; congruence].
  destruct (decide (firstBearerToken (metadata.Get md "authorization") = "")) as [Ht|Ht].
  { rewrite bool_decide_eq_true_2 by done. by eexists. }
  rewrite (bool_decide_eq_false_2 (_ = "")) by done.
  destruct (decide (firstBearerToken (metadata.Get md "authorization") = ApiConfig.APIKey cfg)) as [Hk|Hk].
  - exfalso. by apply Ha.
  - rewrite bool_decide_eq_true_2 by done. by eexists.
Qed.

#[export] Instance authorized_dec cfg tokens : Decision (authorized cfg tokens).
Proof. unfold authorized. apply _. Defined.

(** What the interceptors make of a handler that the transport ran. *)
Lemma outcome cfg {A B} (mB : message B) (full : string) (method : UnaryHandler E A B)
    md in_ (s s' : S) r :
  let served := run h (unary_handler full method (Build_Context md) (Ok in_)
    (Some (chain (api_interceptors cfg)))) s in
  let ran := run h (method (Build_Context md) in_) s in
  match r with
  | Err _ => s' = s ∨ s' = served.2
  | Ok out => s' = served.2 ∧ ∃ reply, served.1 = Ok reply ∧ received mB reply = Some out
  end →
  match r with
  | Ok out => authorized cfg (metadata.Get md "authorization") ∧ s' = ran.2 ∧
      ∃ reply, ran.1 = Ok reply ∧ received mB reply = Some out
  | Err _ => s' = s ∨ (authorized cfg (metadata.Get md "authorization") ∧ s' = ran.2)
  end.
Proof.
  destruct (decide (authorized cfg (metadata.Get md "authorization"))) as [Ha|Ha].
  - rewrite run_handler by done. cbn. destruct r; naive_solver.
  - destruct (run_handler_denied cfg full method md in_ s Ha) as [msg ->].
    cbn. destruct r; naive_solver.
Qed.

(** A stub makes one call and answers what the transport answers. *)
Lemma run_stub {C B} (gh : handler grpcE C) (e : grpcE (result B)) x :
  run gh (out ←? call e; Ret (Ok out)) x = gh _ e x.
Proof. cbn. destruct (gh _ e x) as [[out|err] x']; done. Qed.

(** What a call does, on a server with the API's services and interceptors. *)
Lemma call_outcome cfg md
    {C} `{!GrpcChannel h api_services (chain (api_interceptors cfg)) md C}
    {A B} (c : rpc A B) a (x : C) r x' :
  run grpc_exec (client_call c a) x = (r, x') →
  let ran := run h (service_call c a) (server_state x) in
  match r with
  | Ok out => authorized cfg (metadata.Get md "authorization") ∧ server_state x' = ran.2 ∧
      ∃ reply, ran.1 = Ok reply ∧ received (response_message c) reply = Some out
  | Err _ => server_state x' = server_state x ∨
      (authorized cfg (metadata.Get md "authorization") ∧ server_state x' = ran.2)
  end.
Proof.
  intros Hr.
  pose proof (outcome cfg (response_message c) (method_desc (E := E) c).1 (λ _, service_call c)
    md a (server_state x) (server_state x') r) as Hout.
  pose proof (serves_call c) as Hsv.
  destruct c; cbn [client_call method_desc fst snd] in *;
    exact (Hout (Invoke_spec _ _ _ _ _ _ Hsv
      (eq_trans (eq_sym (run_stub grpc_exec (Invoke _ _ _ _) x)) Hr))).
Qed.

(** C4: a call to the API server, whatever the transport does.  A call that
    answers carried an accepted API key (when authentication is on), ran the
    service method exactly once on the request that was sent, and brings back
    its reply, an absent status as the empty one.  A call that fails has
    changed nothing, or ran the method once; without an accepted key it never
    changes anything. *)
Theorem remote_calls {W} (wh : handler serverE W) cfg w g w' md
    {C} `{!GrpcChannel h (g_services g) (chain (g_interceptors g)) md C}
    {A B} (c : rpc A B) a (x : C) r x' :
  run wh (NewGRPCServer cfg) w = (Ok g, w') →
  run grpc_exec (client_call c a) x = (r, x') →
  let ran := run h (service_call c a) (server_state x) in
  match r with
  | Ok out => authorized cfg (metadata.Get md "authorization") ∧ server_state x' = ran.2 ∧
      ∃ reply, ran.1 = Ok reply ∧ received (response_message c) reply = Some out
  | Err _ => server_state x' = server_state x ∨
      (authorized cfg (metadata.Get md "authorization") ∧ server_state x' = ran.2)
  end.
Proof.
  intros Hg Hr. destruct g as [addr ints creds services].
  destruct (run_NewGRPCServer wh cfg w _ w' Hg) as [Hs Hi].
  cbn [g_services g_interceptors] in *. subst services ints. by apply call_outcome.
Qed.
End Remote.

(** ** Witness: a flow is created with the right key, over a store in memory *)

Import MemEtcd TestCodec.
#[local] Existing Instance std_runtime.

Definition secret_config : ApiConfig.Config := {|
  ApiConfig.GRPCAddr := ":9090"; ApiConfig.HTTPAddr := ":8080";
  ApiConfig.EtcdEndpoints := ["http://127.0.0.1:2379"];
  ApiConfig.OTLPEndpoint := ""; ApiConfig.ServiceName := "flow-api";
  ApiConfig.ObservabilityEnabled := false; ApiConfig.LogLevel := "info";
  ApiConfig.AuthEnabled := true; ApiConfig.APIKey := "secret";
  ApiConfig.HTTPTLSEnabled := false; ApiConfig.HTTPTLSCertFile := "";
  ApiConfig.HTTPTLSKeyFile := ""; ApiConfig.GRPCTLSEnabled := false;
  ApiConfig.GRPCTLSCertFile := ""; ApiConfig.GRPCTLSKeyFile := "";
  ApiConfig.GRPCTLSServerName := "";
|}.

(** Every call that constructs the server succeeds. *)
Definition all_ok : handler serverE unit := λ X e u,
  match e in serverE X return X * unit with
  | NewInstrument _ => (Ok tt, u)
  | Listen _ => (Ok tt, u)
  | NewServerTLSFromFile _ _ => (Ok tt, u)
  | NewClientTLSFromFile _ _ => (Ok tt, u)
  | Dial e => match e in dialE X return X * unit with
              | GrpcNewClient _ _ => (Ok tt, u)
              | CloseConn _ => (tt, u)
              | GoCloseOnDone _ => (tt, u)
              end
  end.

Definition secret_server : GRPCServer etcdE :=
  Build_GRPCServer ":9090" (api_interceptors secret_config) None api_services.

Lemma services_NoDup : NoDup (methods (g_services secret_server)).*1.
Proof. apply (bool_decide_unpack _). vm_compute. exact I. Qed.

Definition secret_channel (md : metadata.MD) :=
  LocalChannel.channel etcd_exec (g_services secret_server)
    (chain (g_interceptors secret_server)) md services_NoDup.

Definition create_a : CreateFlowRequest := Build_CreateFlowRequest (Some (simple_spec "a" 0 img)).

Lemma remote_calls_witness :
  let ch := secret_channel [("authorization", "Bearer secret")] in
  ∃ out x', run (grpc_exec (GrpcChannel := ch)) (client_call R_CreateFlow create_a) fresh =
      (Ok out, x') ∧ fl_Version out = 1%N ∧
    server_state (GrpcChannel := ch) x' =
      (run etcd_exec (service_call R_CreateFlow create_a) fresh).2.
Proof.
  intros ch. destruct (run grpc_exec (client_call R_CreateFlow create_a) fresh)
    as [[out|e] x'] eqn:Hr.
  - exists out, x'. split; [done|]. split.
    + apply (f_equal fst) in Hr. vm_compute in Hr. injection Hr as <-. reflexivity.
    + exact (proj1 (proj2 (remote_calls (S := state) etcd_exec all_ok secret_config tt
        secret_server tt [("authorization", "Bearer secret")] R_CreateFlow create_a fresh (Ok out) x'
        eq_refl Hr))).
  - apply (f_equal (λ p, is_ok p.1)) in Hr. vm_compute in Hr. discriminate Hr.
Defined.
