(* ===== verification/GatewayProps.v ===== *)
(** * Properties of the HTTP gateway

    The routes are those the google.api.http rules of
    proto/flowpipe/v1/service.proto ask for, and a request to the HTTP
    server is the remote call its method and path name, or nothing. *)
From S2P Require Import Prelude GoStd GoStdFacts Prog Messages Etcd ApiStore Config ApiService.
From S2P Require Import Codec ApiStoreSpec ApiStoreProps SchemaStore Rpc Gateway ApiServer Remote.

(** ** The rules of service.proto *)

Definition template_segment (s : string) : segment :=
  if strings.HasPrefix s "{" then Var (strings.TrimSuffix (strings.slice_from 1 s) "}")
  else Lit s.

(** A template like /v1/flows/{name}/status *)
Definition template_segments (t : string) : list segment :=
  template_segment <$> components t.

Definition full_name {A B} (c : rpc A B) : string :=
  match c with
  | R_CreateFlow => "/flowpipe.v1.FlowService/CreateFlow"
  | R_UpdateFlow => "/flowpipe.v1.FlowService/UpdateFlow"
  | R_DeleteFlow => "/flowpipe.v1.FlowService/DeleteFlow"
  | R_GetFlow => "/flowpipe.v1.FlowService/GetFlow"
  | R_ListFlows => "/flowpipe.v1.FlowService/ListFlows"
  | R_GetFlowStatus => "/flowpipe.v1.FlowService/GetFlowStatus"
  | R_RollbackFlow => "/flowpipe.v1.FlowService/RollbackFlow"
  | R_CreateSchema => "/flowpipe.v1.SchemaRegistryService/CreateSchema"
  | R_GetSchema => "/flowpipe.v1.SchemaRegistryService/GetSchema"
  | R_ListSchemaVersions => "/flowpipe.v1.SchemaRegistryService/ListSchemaVersions"
  | R_DeleteSchema => "/flowpipe.v1.SchemaRegistryService/DeleteSchema"
  end.

Section Rules.
Context `{GatewayRuntime}.

(** One rule: the verb, the template, the method, and the request it makes
    of the decoded body and the path variables. *)
Record rule := {
  rl_verb : string;
  rl_template : string;
  rl_request : Type;
  rl_response : Type;
  rl_call : rpc rl_request rl_response;
  rl_build : Marshaler → Request → (string → string) → result rl_request;
}.

Definition rollback_rule : rule :=
  Build_rule "POST" "/v1/flows/{name}/rollback/{version}" _ _ R_RollbackFlow (λ _ _ p,
    version ← convert "version" (runtime_Uint64 (p "version"));
    Ok (Build_RollbackFlowRequest (p "name") version)).

Definition get_schema_rule : rule :=
  Build_rule "GET" "/v1/schemas/{schema_id}/versions/{version}" _ _ R_GetSchema (λ _ _ p,
    version ← convert "version" (runtime_Uint32 (p "version"));
    Ok (Build_GetSchemaRequest (p "schema_id") version)).

Definition http_rules : list rule := [
  Build_rule "POST" "/v1/flows" _ _ R_CreateFlow (λ m req _,
    spec ← decode_body m F_Spec req; Ok (Build_CreateFlowRequest spec));
  Build_rule "PUT" "/v1/flows/{name}" _ _ R_UpdateFlow (λ m req p,
    spec ← decode_body m F_Spec req; Ok (Build_UpdateFlowRequest (p "name") spec));
  Build_rule "DELETE" "/v1/flows/{name}" _ _ R_DeleteFlow (λ _ _ p,
    Ok (Build_DeleteFlowRequest (p "name")));
  Build_rule "GET" "/v1/flows/{name}" _ _ R_GetFlow (λ _ _ p,
    Ok (Build_GetFlowRequest (p "name")));
  Build_rule "GET" "/v1/flows" _ _ R_ListFlows (λ _ _ _, Ok Build_ListFlowsRequest);
  Build_rule "GET" "/v1/flows/{name}/status" _ _ R_GetFlowStatus (λ _ _ p,
    Ok (Build_GetFlowStatusRequest (p "name")));
  rollback_rule;
  Build_rule "POST" "/v1/schemas" _ _ R_CreateSchema (λ m req _,
    schema ← decode_body m F_Schema req; Ok (Build_CreateSchemaRequest schema));
  get_schema_rule;
  Build_rule "GET" "/v1/schemas/{schema_id}/versions" _ _ R_ListSchemaVersions (λ _ _ p,
    Ok (Build_ListSchemaVersionsRequest (p "schema_id")));
  Build_rule "DELETE" "/v1/schemas/{schema_id}" _ _ R_DeleteSchema (λ _ _ p,
    Ok (Build_DeleteSchemaRequest (p "schema_id")))].

Definition param_of (params : gmap string string) (x : string) : string :=
  default "" (params !! x).

(** Serving a rule over a connection, and on the servers themselves. *)
Definition rule_handler (conn : ClientConn) (r : rule) :
    Request → gmap string string → prog connE Response :=
  client_route (full_name (rl_call r)) (rl_template r)
    (λ ctx m req params, match rl_build r m req (param_of params) with
                         | Ok a => on_conn conn ctx (client_call (rl_call r) a)
                         | Err e => Ret (Err e)
                         end)
    (ForwardResponseMessage (response_message (rl_call r))).

Definition srv_call {E A B} (fs : FlowServiceServer E) (ss : SchemaRegistryServiceServer E)
    (c : rpc A B) : UnaryHandler E A B :=
  match c with
  | R_CreateFlow => srv_CreateFlow fs
  | R_UpdateFlow => srv_UpdateFlow fs
  | R_DeleteFlow => srv_DeleteFlow fs
  | R_GetFlow => srv_GetFlow fs
  | R_ListFlows => srv_ListFlows fs
  | R_GetFlowStatus => srv_GetFlowStatus fs
  | R_RollbackFlow => srv_RollbackFlow fs
  | R_CreateSchema => srv_CreateSchema ss
  | R_GetSchema => srv_GetSchema ss
  | R_ListSchemaVersions => srv_ListSchemaVersions ss
  | R_DeleteSchema => srv_DeleteSchema ss
  end.

Definition rule_local {E} (fs : FlowServiceServer E) (ss : SchemaRegistryServiceServer E)
    (r : rule) : Request → gmap string string → prog E Response :=
  server_route (full_name (rl_call r)) (rl_template r)
    (λ ctx m req params, match rl_build r m req (param_of params) with
                         | Ok a => srv_call fs ss (rl_call r) ctx a
                         | Err e => Ret (Err e)
                         end)
    (ForwardResponseMessage (response_message (rl_call r))).

(** A route serves a rule: it listens for the rule's verb and template, and
    on every path that matches, it does what the rule says. *)
Definition serves_rule {E} (handle : rule → Request → gmap string string → prog E Response)
    (rt : route E) (r : rule) : Prop :=
  rt_Method rt = rl_verb r ∧ pat_verb (rt_Pattern rt) = "" ∧
  segments (pat_ops (rt_Pattern rt)) (pat_pool (rt_Pattern rt)) =
    Some (template_segments (rl_template r)) ∧
  ∀ req path params, bind_segments (template_segments (rl_template r)) path = Some params →
    rt_handler rt req params = handle r req params.

Definition api_mux (conn : ClientConn) : result (ServeMux connE) :=
  mux ← RegisterFlowServiceHandler NewServeMux conn;
  RegisterSchemaRegistryServiceHandler mux conn.

Definition local_mux {E} (fs : FlowServiceServer E) (ss : SchemaRegistryServiceServer E) :
    result (ServeMux E) :=
  mux ← RegisterFlowServiceHandlerServer NewServeMux fs;
  RegisterSchemaRegistryServiceHandlerServer mux ss.
End Rules.

(** ** The routes implement the rules *)

Lemma bind_segments_Lit s segs path params :
  bind_segments (Lit s :: segs) path = Some params →
  ∃ path', path = s :: path' ∧ bind_segments segs path' = Some params.
Proof. destruct path as [|c path]; cbn; [done|]. case_bool_decide; [subst; eauto|done]. Qed.

Lemma bind_segments_Var x segs path params :
  bind_segments (Var x :: segs) path = Some params →
  ∃ c path' params', path = c :: path' ∧ bind_segments segs path' = Some params' ∧
    params = <[x := c]> params'.
Proof.
  destruct path as [|c path]; cbn; [done|]. intros (p & Hp & ->)%fmap_Some. eauto 10.
Qed.

Lemma bind_segments_nil path params :
  bind_segments [] path = Some params → path = [] ∧ params = ∅.
Proof. destruct path; cbn; [|done]. by intros [= <-]. Qed.

(** The path a template bound. *)
Ltac bind_inv H :=
  lazymatch type of H with
  | bind_segments [] _ = Some _ =>
      apply bind_segments_nil in H as [? ?]; subst
  | bind_segments (Lit _ :: _) _ = Some _ =>
      apply bind_segments_Lit in H as (? & ? & H); subst; bind_inv H
  | bind_segments (Var _ :: _) _ = Some _ =>
      let p := fresh "params'" in
      apply bind_segments_Var in H as (? & ? & p & ? & H & ?); subst; bind_inv H
  end.

Section Routes.
Context `{GatewayRuntime}.

Lemma client_route_ext {E A} full pat (f g : Context → Marshaler → Request → gmap string string →
    prog E (result A)) fw req params :
  (∀ ctx m, f ctx m req params = g ctx m req params) →
  client_route full pat f fw req params = client_route full pat g fw req params.
Proof.
  intros Hfg. unfold client_route. destruct (MarshalerForRequest req).
  destruct (AnnotateContext _ _ _); [|done]. by rewrite Hfg.
Qed.

Lemma server_route_ext {E A} full pat (f g : Context → Marshaler → Request → gmap string string →
    prog E (result (option A))) fw req params :
  (∀ ctx m, f ctx m req params = g ctx m req params) →
  server_route full pat f fw req params = server_route full pat g fw req params.
Proof.
  intros Hfg. unfold server_route. destruct (MarshalerForRequest req).
  destruct (AnnotateIncomingContext _ _ _); [|done]. by rewrite Hfg.
Qed.

Lemma path_param_eq params x v : params !! x = Some v → path_param params x = Ok v.
Proof. unfold path_param. by intros ->. Qed.

Lemma param_of_eq params x v : params !! x = Some v → param_of params x = v.
Proof. unfold param_of. by intros ->. Qed.

Lemma convert_String x v : convert x (runtime_String v) = Ok v.
Proof. by rewrite runtime_String_id. Qed.

(** One route: the pattern by computation, the request by cases on what the
    runtime answers. *)
Ltac solve_route :=
  split_and!; [reflexivity..|];
  let req := fresh "req" in let path := fresh "path" in let Hp := fresh "Hp" in
  intros req path ? Hp;
  lazymatch type of Hp with bind_segments ?segs _ = _ =>
    let v := eval vm_compute in segs in change segs with v in Hp end;
  bind_inv Hp; first [apply client_route_ext | apply server_route_ext]; intros ctx m;
  autounfold with gateway; unfold rollback_rule, get_schema_rule; cbn [rl_build];
  repeat match goal with
  | |- context [path_param ?p ?x] => erewrite (path_param_eq p x) by (by simplify_map_eq)
  | |- context [param_of ?p ?x] => erewrite (param_of_eq p x) by (by simplify_map_eq)
  end;
  unfold try_bind; cbn [mbind prog_bind]; rewrite ?convert_String;
  cbn; repeat (case_match; simplify_eq/=); reflexivity.

Lemma mux_serves conn :
  ∃ mux, api_mux conn = Ok mux ∧ Forall2 (serves_rule (rule_handler conn)) mux http_rules.
Proof. eexists. split; [reflexivity|]. repeat (constructor; [solve_route|]). constructor. Qed.
Lemma local_mux_serves {E} (fs : FlowServiceServer E) (ss : SchemaRegistryServiceServer E) :
  ∃ mux, local_mux fs ss = Ok mux ∧ Forall2 (serves_rule (rule_local fs ss)) mux http_rules.
Proof. eexists. split; [reflexivity|]. repeat (constructor; [solve_route|]). constructor. Qed.

(** *** No path is named by two rules *)

Fixpoint overlap (s t : list segment) : bool :=
  match s, t with
  | [], [] => true
  | Lit a :: s, Lit b :: t => bool_decide (a = b) && overlap s t
  | Lit _ :: s, Var _ :: t => overlap s t
  | Var _ :: s, _ :: t => overlap s t
  | _, _ => false
  end.

Lemma bind_overlap s t path p q :
  bind_segments s path = Some p → bind_segments t path = Some q → overlap s t = true.
Proof.
  revert t path p q. induction s as [|[a|x] s IH]; intros [|[b|y] t] [|c path] p q Hs Ht; cbn in *;
    try done; repeat case_bool_decide; simplify_option_eq; eauto.
Qed.

(** The rule a verb and a path name, with the path variables. *)
Definition names (verb path : string) (r : rule) (params : gmap string string) : Prop :=
  r ∈ http_rules ∧ rl_verb r = verb ∧
  bind_segments (template_segments (rl_template r)) (components path) = Some params.

Lemma rules_disjoint :
  ∀ i j r t, http_rules !! i = Some r → http_rules !! j = Some t → rl_verb r = rl_verb t →
  overlap (template_segments (rl_template r)) (template_segments (rl_template t)) = true → i = j.
Proof.
  assert (Forall (λ i, Forall (λ j, ∀ r t, http_rules !! i = Some r → http_rules !! j = Some t →
    rl_verb r = rl_verb t →
    overlap (template_segments (rl_template r)) (template_segments (rl_template t)) = true → i = j)
    (seq 0 11)) (seq 0 11)) as Hall.
  { repeat (apply Forall_cons; split; [repeat (apply Forall_cons; split;
      [intros r t [= <-] [= <-] Hv Ho; first [reflexivity | discriminate Hv | discriminate Ho]|]);
      apply Forall_nil; done|]). by apply Forall_nil. }
  intros i j r t Hr Ht. rewrite Forall_forall in Hall.
  pose proof (lookup_lt_Some _ _ _ Hr). pose proof (lookup_lt_Some _ _ _ Ht).
  change (length http_rules) with 11 in *.
  specialize (Hall i). rewrite elem_of_seq, Forall_forall in Hall.
  apply Hall; [lia|apply elem_of_seq; lia|done..].
Qed.

Lemma names_unique verb path r p t q :
  names verb path r p → names verb path t q → r = t ∧ p = q.
Proof.
  intros (Hr & <- & Hp) (Ht & Hv & Hq).
  apply list_elem_of_lookup_1 in Hr as [i Hr], Ht as [j Ht].
  assert (i = j) as -> by (eapply rules_disjoint; eauto using bind_overlap). simplify_eq. done.
Qed.
End Routes.

(** *** Every call has a path *)
Section Paths.
Context `{GatewayRuntime}.

(** The path of a template with values for its variables. *)
Definition segment_text (val : string → string) (s : segment) : string :=
  match s with Lit s => s | Var x => val x end.

Definition rule_path (r : rule) (val : string → string) : string :=
  abs_path (segment_text val <$> template_segments (rl_template r)).

Lemma components_abs_path segs :
  segs ≠ [] → Forall (λ s, proper_seg s = true) segs → components (abs_path segs) = segs.
Proof.
  intros Hne Hs. destruct segs as [|x segs]; [done|]. apply Forall_cons in Hs as [Hx Hs].
  unfold components. rewrite abs_path_cons. change (strings.slice_from 1 ("/" +:+ ?z)) with z.
  apply Split_abs_path_aux; [|done]. apply proper_seg_spec in Hx. naive_solver.
Qed.

Lemma bind_segment_text segs val :
  ∃ params, bind_segments segs (segment_text val <$> segs) = Some params ∧
    ∀ x, Var x ∈ segs → params !! x = Some (val x).
Proof.
  induction segs as [|[s|x] segs (params & Hb & Hp)]; cbn.
  - eexists. split; [done|]. by intros x ?%not_elem_of_nil.
  - rewrite bool_decide_eq_true_2 by done. exists params. split; [done|].
    intros x [?|?]%elem_of_cons; [done|auto].
  - fold (segment_text val <$> segs). exists (<[x := val x]> params). rewrite Hb. split; [done|].
    intros y [[= ->]|Hy]%elem_of_cons; [by rewrite lookup_insert_eq|].
    destruct (decide (x = y)) as [->|]; [by rewrite lookup_insert_eq|].
    rewrite lookup_insert_ne by done. auto.
Qed.

Lemma every_rule (Q : rule → Prop) : Forall Q http_rules → ∀ r, r ∈ http_rules → Q r.
Proof. by rewrite Forall_forall. Qed.

(** A rule's request depends on the variables of its template only. *)
Lemma rule_build_ext r m req p q :
  r ∈ http_rules → (∀ x, Var x ∈ template_segments (rl_template r) → p x = q x) →
  rl_build r m req p = rl_build r m req q.
Proof.
  revert r. apply (every_rule (λ r, (∀ x, Var x ∈ template_segments (rl_template r) → p x = q x) →
    rl_build r m req p = rl_build r m req q)).
  assert (∀ (l : list segment) x, bool_decide (Var x ∈ l) = true → (∀ x, Var x ∈ l → p x = q x) → p x = q x) as Hd.
  { intros l x Hl%bool_decide_eq_true Hpq. auto. }
  repeat (apply Forall_cons; split; [intros Hpq; cbn;
    pose proof (λ x Hx, Hd _ x Hx Hpq) as Hx;
    try rewrite (Hx "name") by (vm_compute; reflexivity);
    try rewrite (Hx "version") by (vm_compute; reflexivity);
    try rewrite (Hx "schema_id") by (vm_compute; reflexivity); reflexivity|]).
  by apply Forall_nil.
Qed.

(** No template is empty, and its literals are segments of a path. *)
Definition template_well_formed (r : rule) : bool :=
  match template_segments (rl_template r) with
  | [] => false
  | l => forallb (λ g, match g with Lit s => proper_seg s | Var _ => true end) l
  end.

Lemma templates_well_formed r :
  r ∈ http_rules →
  template_segments (rl_template r) ≠ [] ∧
  Forall (λ g, match g with Lit s => proper_seg s = true | Var _ => True end)
    (template_segments (rl_template r)).
Proof.
  intros Hr. assert (forallb template_well_formed http_rules = true) as Hall by (vm_compute; reflexivity).
  rewrite forallb_forall in Hall. specialize (Hall r (proj1 (list_elem_of_In _ _) Hr)). revert Hall.
  unfold template_well_formed. destruct (template_segments (rl_template r)) as [|g l]; [done|].
  rewrite forallb_forall. intros Hall. split; [done|]. apply Forall_forall.
  intros [t|x] Hg%list_elem_of_In; [exact (Hall _ Hg)|done].
Qed.

Lemma rule_path_names r val :
  r ∈ http_rules → (∀ x, proper_seg (val x) = true) →
  ∃ params, names (rl_verb r) (rule_path r val) r params ∧
    ∀ m req, rl_build r m req (param_of params) = rl_build r m req val.
Proof.
  intros Hr Hval.
  destruct (bind_segment_text (template_segments (rl_template r)) val) as (params & Hb & Hp).
  destruct (templates_well_formed r Hr) as [Hne Hl].
  exists params. split.
  - split; [done|]. split; [done|]. unfold rule_path. rewrite components_abs_path; [done| |].
    + by intros ?%fmap_nil_inv.
    + apply Forall_fmap. eapply Forall_impl; [exact Hl|]. intros [s|x] Hs; cbn; auto.
  - intros m req. apply rule_build_ext; [done|]. intros x Hx. by apply param_of_eq, Hp.
Qed.

(** Version numbers arrive as they were printed. *)
Lemma version_arrives val n m req :
  val "version" = strconv.FormatUint n →
  (in64 n → rl_build rollback_rule m req val = Ok (Build_RollbackFlowRequest (val "name") n)) ∧
  (in32 n → rl_build get_schema_rule m req val = Ok (Build_GetSchemaRequest (val "schema_id") n)).
Proof.
  intros Hv. split; intros Hn; cbn; rewrite Hv.
  - by rewrite runtime_Uint64_decimal.
  - by rewrite runtime_Uint32_decimal.
Qed.
End Paths.

(** ** From an HTTP request to the store *)

(** The key check of the HTTP middleware. *)
Definition accepted (cfg : ApiConfig.Config) (req : Request) : Prop :=
  authorized cfg [header_Get (rq_Authorization req)].

#[export] Instance accepted_dec cfg req : Decision (accepted cfg req).
Proof. unfold accepted. apply _. Defined.

(** The response of a mux that serves no route, or of a handler's error. *)
Definition refusal (resp : Response) : Prop :=
  ∃ code, rs_WriteHeader resp = Some code ∧ (400 <= code)%N.

Lemma run_middleware {E} cfg (next : Handler E) {S} (h : handler E S) req s :
  run h (httpMiddleware (apiKeyHTTPMiddleware cfg next) req) s =
  if decide (accepted cfg req) then run h (next req) s
  else (Build_Response (Some 401%N) ("unauthorized" +:+ String "010" EmptyString), s).
Proof.
  unfold httpMiddleware. rewrite run_bind. cbn [run]. rewrite <-surjective_pairing.
  unfold apiKeyHTTPMiddleware.
  destruct (decide (accepted cfg req)) as [Ha|Ha]; unfold accepted, authorized in Ha;
    destruct (ApiConfig.AuthEnabled cfg) eqn:Hen; cbn [negb]; try done.
  - destruct (Ha eq_refl) as [Hne Heq]. by rewrite !bool_decide_eq_false_2 by naive_solver.
  - do 2 case_bool_decide; try done. exfalso. apply Ha. intros _. done.
  - exfalso. by apply Ha.
Qed.

Section EndToEnd.
Context `{GatewayRuntime} {E : Type → Type} `{Store E} {S : Type} (h : handler E S).

(** The connection to an address leads to a server with the given services
    and interceptors: under every context the calls are those of a gRPC
    channel that carries the context's metadata. *)
Definition leads_to {C} (gh : handler connE C) (conn : ClientConn)
    (services : list (ServiceDesc E)) (interceptor : UnaryServerInterceptor E) (st : C → S) : Prop :=
  ∀ ctx, ∃ ch : GrpcChannel h services interceptor (ctx_metadata ctx) C,
    server_state = st ∧ ∀ X (e : grpcE X) c, gh _ (OnConn conn ctx e) c = grpc_exec _ e c.

(** What a request that names a rule does on the state [s] of the server,
    and what it is answered. *)
Definition rule_outcome (cfg : ApiConfig.Config) (req : Request) (r : rule)
    (params : gmap string string) (s s' : S) (resp : Response) : Prop :=
  let '(inboundMarshaler, outboundMarshaler) := MarshalerForRequest req in
  match AnnotateContext req (full_name (rl_call r)) (rl_template r) with
  | Err e => resp = HTTPError outboundMarshaler req e ∧ s' = s
  | Ok ctx =>
      match rl_build r inboundMarshaler req (param_of params) with
      | Err e => resp = HTTPError outboundMarshaler req e ∧ s' = s
      | Ok a =>
          let ran := run h (service_call (rl_call r) a) s in
          (∃ e, resp = HTTPError outboundMarshaler req e ∧
             (s' = s ∨ authorized cfg (ctx_authorization ctx) ∧ s' = ran.2)) ∨
          (∃ out reply, authorized cfg (ctx_authorization ctx) ∧ s' = ran.2 ∧ ran.1 = Ok reply ∧
             received (response_message (rl_call r)) reply = Some out ∧
             resp = ForwardResponseMessage (response_message (rl_call r)) outboundMarshaler req
               (Some out))
      end
  end.

Lemma run_rule_handler {C} (gh : handler connE C) cfg conn st r req params x resp x' :
  leads_to gh conn api_services (chain (api_interceptors cfg)) st →
  run gh (rule_handler conn r req params) x = (resp, x') →
  rule_outcome cfg req r params (st x) (st x') resp.
Proof.
  intros Hl. unfold rule_handler, client_route, rule_outcome.
  destruct (MarshalerForRequest req) as [inb outb].
  destruct (AnnotateContext req _ _) as [ctx|e]; [|by intros [= <- <-]].
  rewrite run_bind. destruct (rl_build r inb req _) as [a|e]; [|by intros [= <- <-]].
  destruct (Hl ctx) as (ch & <- & Hch). unfold on_conn. rewrite run_translate.
  assert (∀ A (p : prog grpcE A) c, run (λ X e, gh X (OnConn conn ctx e)) p c =
    run grpc_exec p c) as ->.
  { induction p as [a'|X e k IH]; intros c; cbn; [done|]. by rewrite Hch, IH. }
  destruct (run grpc_exec _ x) as [ans x1] eqn:Hr. cbn [fst snd run]. intros [= <- <-].
  pose proof (call_outcome h cfg (ctx_metadata ctx) (rl_call r) a x ans x1 Hr) as Ho.
  destruct ans as [out|e].
  - right. destruct Ho as (Ha & Hs & reply & Hrep & Hrec). by exists out, reply.
  - left. exists e. by split.
Qed.

Lemma run_NewHTTPServer {W} (wh : handler serverE W) cfg w srv w' :
  run wh (NewHTTPServer cfg) w = (Ok srv, w') →
  ∃ mux, api_mux (Build_ClientConn (ApiConfig.GRPCAddr cfg) (ApiConfig.GRPCTLSEnabled cfg)) = Ok mux ∧
    h_Handler srv = httpMiddleware (apiKeyHTTPMiddleware cfg (ServeHTTP mux)).
Proof.
  intros Hr. refine (wp_run wh _ _ (λ r _, ∀ srv, r = Ok srv → ∃ mux, api_mux
    (Build_ClientConn (ApiConfig.GRPCAddr cfg) (ApiConfig.GRPCTLSEnabled cfg)) = Ok mux ∧
    h_Handler srv = httpMiddleware (apiKeyHTTPMiddleware cfg (ServeHTTP mux))) _ _ _ Hr srv eq_refl).
  clear Hr. unfold NewHTTPServer.
  repeat first [server_step | apply wp_translate; unfold RegisterFlowServiceHandlerFromEndpoint,
    RegisterSchemaRegistryServiceHandlerFromEndpoint, deferred_close | apply wp_call; intros [] ? ?];
    try discriminate; intros ? [= <-]; eexists; (split; [|reflexivity]);
    unfold api_mux; cbn [mbind result_bind];
    match goal with H : RegisterFlowServiceHandler _ _ = Ok _ |- _ => by rewrite H end.
Qed.

(** What the mux does with a request the middleware let through. *)
Lemma run_mux {C} (gh : handler connE C) cfg conn mux st req x resp x' :
  api_mux conn = Ok mux →
  leads_to gh conn api_services (chain (api_interceptors cfg)) st →
  run gh (ServeHTTP mux req) x = (resp, x') →
  ∃ verb, (rq_Method req ≠ MethodPost → verb = rq_Method req) ∧
    ((refusal resp ∧ x' = x ∧
        (plain_path (rq_Path req) → ∀ r params, ¬ names verb (rq_Path req) r params)) ∨
     (∃ r params, names verb (rq_Path req) r params ∧
        rule_outcome cfg req r params (st x) (st x') resp)).
Proof.
  intros Hmux Hl Hr. destruct (mux_serves conn) as (mux' & Hmux' & Hall).
  assert (mux' = mux) as -> by congruence.
  exists (effective_method (rules mux) req). split; [apply effective_method_plain|].
  unfold ServeHTTP in Hr. destruct (dispatch (rules mux) req) as [[i params]|resp'] eqn:Hd.
  - right. destruct (dispatch_found _ _ _ _ Hd) as (p & Hi & Hbind).
    unfold rules in Hi. rewrite list_lookup_fmap in Hi.
    destruct (mux !! i) as [rt|] eqn:Hrt; [|done]. injection Hi as Hverb <-.
    destruct (Forall2_lookup_l _ _ _ _ _ Hall Hrt) as (r & Hrule & Hm & Hv & Hsegs & Hsv).
    specialize (Hbind _ Hsegs Hv). exists r, params. split.
    + split_and!; [by eapply list_elem_of_lookup_2| |done]. by rewrite <-Hm.
    + rewrite (Hsv req _ _ Hbind) in Hr. by eapply run_rule_handler.
  - left. destruct (dispatch_refused _ _ _ Hd) as [Href Hnone]. injection Hr as <- <-.
    split_and!; [done|done|]. intros Hplain r params (Hin & Hverb & Hbind).
    apply list_elem_of_lookup_1 in Hin as [i Hi].
    destruct (Forall2_lookup_r _ _ _ _ _ Hall Hi) as (rt & Hrt & Hm & Hv & Hsegs & _).
    assert (matches (rt_Pattern rt) (rq_Path req) = None) as Hn.
    { apply Hnone; [done| |done]. unfold rules. apply list_elem_of_fmap. exists rt.
      split; [by rewrite Hm, Hverb|by eapply list_elem_of_lookup_2]. }
    unfold matches in Hn. rewrite Hsegs in Hn. cbn [mbind option_bind] in Hn. congruence.
Qed.

(** C3: an HTTP request to the API server, from the middleware to the store.
    Without the API key (when authentication is on) it is answered 401 and
    nothing happens.  Otherwise the verb and the path name at most one of
    the eleven rules of service.proto.  If none, the request is refused and
    nothing happens.  If one, the request built from the body and the path
    variables is the only one made: an answer of the method is forwarded and
    the store is where the method left it; an error answer means that nothing
    happened, or that the method ran and only its answer was lost or an
    error.  The gRPC server checks the key again. *)
Theorem http_calls {W} (wh : handler serverE W) cfg w1 g w1' w2 srv w2'
    {C} (gh : handler connE C) st req x resp x' :
  run wh (NewGRPCServer cfg) w1 = (Ok g, w1') →
  run wh (NewHTTPServer cfg) w2 = (Ok srv, w2') →
  leads_to gh (Build_ClientConn (ApiConfig.GRPCAddr cfg) (ApiConfig.GRPCTLSEnabled cfg))
    (g_services g) (chain (g_interceptors g)) st →
  run gh (h_Handler srv req) x = (resp, x') →
  (¬ accepted cfg req → rs_WriteHeader resp = Some 401%N ∧ x' = x) ∧
  (accepted cfg req →
   ∃ verb, (rq_Method req ≠ MethodPost → verb = rq_Method req) ∧
    ((refusal resp ∧ x' = x ∧
        (plain_path (rq_Path req) → ∀ r params, ¬ names verb (rq_Path req) r params)) ∨
     (∃ r params, names verb (rq_Path req) r params ∧
        rule_outcome cfg req r params (st x) (st x') resp))).
Proof.
  intros Hg Hs Hl Hr. destruct (run_NewGRPCServer wh cfg w1 g w1' Hg) as [Hsv Hin].
  rewrite Hsv, Hin in Hl. destruct (run_NewHTTPServer wh cfg w2 srv w2' Hs) as (mux & Hmux & Hh).
  rewrite Hh, run_middleware in Hr. case_decide.
  - split; [done|]. intros _. by eapply run_mux.
  - split; [|done]. intros _. injection Hr as <- <-. done.
Qed.
End EndToEnd.

(** C8: the gateway serves the google.api.http rules of service.proto.  The
    routes registered over a connection, and the ones registered on the
    servers themselves, are the eleven rules in order: each compiled pattern
    is the rule's template, and on a path that matches no variable is
    missing and the handler makes the rule's call with the rule's request.
    No verb and path are named by two rules, and every call has a path: with
    proper path segments for the variables, the rule's path names the rule
    and its request is read back off it, a version printed in decimal as
    that number. *)
Theorem gateway_implements_rules `{GatewayRuntime} {E} conn
    (fs : FlowServiceServer E) (ss : SchemaRegistryServiceServer E) :
  (∃ mux, api_mux conn = Ok mux ∧ Forall2 (serves_rule (rule_handler conn)) mux http_rules) ∧
  (∃ mux, local_mux fs ss = Ok mux ∧ Forall2 (serves_rule (rule_local fs ss)) mux http_rules) ∧
  (∀ verb path r p t q, names verb path r p → names verb path t q → r = t ∧ p = q) ∧
  (∀ r val, r ∈ http_rules → (∀ x, proper_seg (val x) = true) →
     ∃ params, names (rl_verb r) (rule_path r val) r params ∧
       ∀ m req, rl_build r m req (param_of params) = rl_build r m req val) ∧
  (∀ val n m req, val "version" = strconv.FormatUint n →
     (in64 n → rl_build rollback_rule m req val = Ok (Build_RollbackFlowRequest (val "name") n)) ∧
     (in32 n → rl_build get_schema_rule m req val = Ok (Build_GetSchemaRequest (val "schema_id") n))).
Proof.
  split_and!; [apply mux_serves|apply local_mux_serves| |apply rule_path_names|].
  - intros *. apply names_unique.
  - intros *. apply version_arrives.
Qed.

(** ** Witnesses: a gateway in memory *)

Module LocalGateway.

(** The first route of the request's method whose template matches. *)
Fixpoint find_route (rules : list (string * Pattern)) (req : Request) :
    option (nat * gmap string string) :=
  match rules with
  | [] => None
  | (meth, p) :: rules =>
      match matches p (rq_Path req) with
      | Some params =>
          if bool_decide (meth = rq_Method req) then Some (0, params)
          else prod_map S id <$> find_route rules req
      | None => prod_map S id <$> find_route rules req
      end
  end.

Lemma find_route_Some rules req i params :
  find_route rules req = Some (i, params) →
  ∃ p, rules !! i = Some (rq_Method req, p) ∧ matches p (rq_Path req) = Some params.
Proof.
  revert i. induction rules as [|[meth p] rules IH]; intros i; [done|]. cbn [find_route].
  assert (prod_map S id <$> find_route rules req = Some (i, params) → ∃ q,
    ((meth, p) :: rules) !! i = Some (rq_Method req, q) ∧ matches q (rq_Path req) = Some params) as Hn.
  { intros ([j q] & Hf & Heq)%fmap_Some. injection Heq as -> ->. by apply IH. }
  destruct (matches p (rq_Path req)) as [q|] eqn:Hm; [|done]. case_bool_decide; [|done].
  intros [= <- <-]. exists p. by subst.
Qed.

Lemma find_route_None rules req p :
  find_route rules req = None → (rq_Method req, p) ∈ rules → matches p (rq_Path req) = None.
Proof.
  induction rules as [|[meth q] rules IH]; cbn [find_route]; [by intros _ ?%not_elem_of_nil|].
  intros Hf [Heq|Hin]%elem_of_cons; [injection Heq as <- <-|].
  - destruct (matches p _); [|done]. by rewrite bool_decide_eq_true_2 in Hf.
  - apply IH; [|done]. repeat case_match; try done; by apply fmap_None in Hf.
Qed.

Definition parse (bits : N) (s : string) : N + string :=
  match strconv.ParseUint s bits with Some n => inl n | None => inr "invalid syntax" end.

Definition decode {A} (f : body_field A) (body : string) : option A * option decode_error :=
  if bool_decide (body = "") then (None, Some EOF) else
  match f in body_field A return option A * option decode_error with
  | F_Spec => match Codec.spec_Unmarshal (Codec := TestCodec.test_codec) body with
              | Ok spec => (Some spec, None)
              | Err _ => (None, Some (DecodeFailed "syntax error"))
              end
  | F_Schema => (None, Some (DecodeFailed "syntax error"))
  end.

#[export] Instance gateway : GatewayRuntime.
Proof.
  refine {|
    Marshaler := unit; MarshalerForRequest _ := (tt, tt); Decode A f _ := decode f;
    runtime_String := inl; runtime_Uint32 := parse 32; runtime_Uint64 := parse 64;
    AnnotateContext req _ _ :=
      Ok (Build_Context (pair "authorization" <$>
        (rq_Authorization req ++ rq_GrpcMetadataAuthorization req)));
    AnnotateIncomingContext req _ _ := Ok (Build_Context (pair "authorization" <$> rq_Authorization req));
    HTTPError _ _ _ := Build_Response (Some 500%N) "";
    ForwardResponseMessage A _ _ _ _ := Build_Response None "";
    effective_method _ := rq_Method;
    dispatch rules req := match find_route rules req with
                          | Some m => inl m
                          | None => inr (Build_Response (Some 404%N) "")
                          end;
  |}; try done.
  - intros s n. unfold parse. intros Hp. destruct (strconv.ParseUint s 32) eqn:E; [|done].
    injection Hp as <-. by eapply ParseUint_bound in E.
  - intros n Hn. unfold parse. by rewrite ParseUint_FormatUint.
  - intros s n. unfold parse. intros Hp. destruct (strconv.ParseUint s 64) eqn:E; [|done].
    injection Hp as <-. by eapply ParseUint_bound in E.
  - intros n Hn. unfold parse. by rewrite ParseUint_FormatUint.
  - intros req full path ctx [= <-]. left. apply metadata.Get_keyed.
  - intros. by eexists.
  - intros rules req i params. destruct (find_route rules req) as [m|] eqn:Hf; [|done].
    intros [= ->]. apply find_route_Some in Hf as (p & Hi & Hm). exists p. split; [done|].
    intros segs Hs _. unfold matches in Hm. by rewrite Hs in Hm.
  - intros rules req resp. destruct (find_route rules req) as [m|] eqn:Hf; [done|].
    intros [= <-]. split; [by eexists|]. intros _ p Hin _. by eapply find_route_None.
Defined.

End LocalGateway.

Lemma gateway_implements_rules_witness :
  let conn := Build_ClientConn ":9090" false in
  (∃ mux, api_mux (H := LocalGateway.gateway) conn = Ok mux ∧ length mux = 11) ∧
  ∃ r params, names (H := LocalGateway.gateway) "GET" "/v1/schemas/orders/versions/3" r params ∧
    full_name (rl_call r) = SchemaRegistryService_GetSchema_FullMethodName ∧
    ∀ t q, names "GET" "/v1/schemas/orders/versions/3" t q → r = t ∧ params = q.
Proof.
  intros conn.
  destruct (gateway_implements_rules (H := LocalGateway.gateway) conn
    (UnimplementedFlowServiceServer (E := grpcE)) UnimplementedSchemaRegistryServiceServer)
    as ((mux & Hm & Hall) & _ & Huniq & _).
  split.
  - exists mux. split; [exact Hm|]. by rewrite (Forall2_length _ _ _ Hall).
  - assert (∃ r params, names (H := LocalGateway.gateway) "GET" "/v1/schemas/orders/versions/3" r params ∧
      full_name (rl_call r) = SchemaRegistryService_GetSchema_FullMethodName) as (r & params & Hn & Hf).
    { eexists _, _. split; [split; [do 8 right; left|split; reflexivity]|reflexivity]. }
    exists r, params. split; [exact Hn|]. split; [exact Hf|]. intros t q Ht. exact (Huniq _ _ _ _ _ _ Hn Ht).
Defined.

Section Witness.
Import MemEtcd TestCodec LocalGateway.
#[local] Existing Instance std_runtime.

Definition memory_conn : handler connE state := λ X e,
  match e in connE X return state → X * state with
  | OnConn conn ctx e => λ s,
      grpc_exec (GrpcChannel := secret_channel (ctx_metadata ctx)) _ e s
  end.

Lemma memory_leads_to conn :
  leads_to etcd_exec memory_conn conn (g_services secret_server)
    (chain (g_interceptors secret_server)) (λ s, s).
Proof. intros ctx. exists (secret_channel (ctx_metadata ctx)). by split. Qed.

Definition put_flow (authorization : list string) : Request :=
  Build_Request "PUT" "/v1/flows/a" authorization [] "0|a".

(** With the key the flow is written; without, the answer is 401. *)
Lemma http_calls_witness :
  ∃ srv, (run all_ok (NewHTTPServer secret_config) tt).1 = Ok srv ∧
    (∃ r params, names "PUT" "/v1/flows/a" r params ∧
      rule_outcome etcd_exec secret_config (put_flow ["Bearer secret"]) r params fresh
        (run memory_conn (h_Handler srv (put_flow ["Bearer secret"])) fresh).2
        (run memory_conn (h_Handler srv (put_flow ["Bearer secret"])) fresh).1) ∧
    rs_WriteHeader (run memory_conn (h_Handler srv (put_flow [])) fresh).1 = Some 401%N.
Proof.
  destruct (run all_ok (NewHTTPServer secret_config) tt) as [[srv|e] []] eqn:Hs;
    [|apply (f_equal (λ p, is_ok p.1)) in Hs; vm_compute in Hs; discriminate Hs].
  exists srv. split; [done|].
  pose proof (λ req, http_calls etcd_exec all_ok secret_config tt secret_server tt tt srv tt
    memory_conn (λ s, s) req fresh _ _ eq_refl Hs (memory_leads_to _)
    (surjective_pairing _)) as Hc.
  split.
  - destruct (Hc (put_flow ["Bearer secret"])) as [_ Hok].
    destruct Hok as (verb & Hverb & [(_ & _ & Hnone)|(r & params & Hn & Ho)]).
    + apply (bool_decide_unpack _). vm_compute. exact I.
    + exfalso. rewrite Hverb in Hnone by done.
      eapply Hnone; [apply (bool_decide_unpack _); vm_compute; exact I|].
      split; [right; left|split; reflexivity].
    + rewrite Hverb in Hn by done. by exists r, params.
  - apply (Hc (put_flow [])). apply (bool_decide_unpack _). vm_compute. exact I.
Defined.
End Witness.
