(* ===== verification/Cli.v ===== *)
(** * cli: the flowctl commands

    Every command's [RunE] is a program over files, the connection to the
    API, the terminal and the flow runtime ([cliE]), with the values of its
    flags as arguments; the table of commands and flags and [Execute] are in
    CliFlags.v, how cobra reads a command line is not modelled.  YAML and JSON are the parameters of
    [FlowFile].  cli/internal/loader is [LoadFlowSpec]. *)
From S2P Require Import Prelude GoStd GoStdFacts Prog Messages FlowPkg Config Rpc ApiServer.

(** ** Effects *)

(** [apiKeyCredentials] and the options [dialAPI] passes. *)
Record apiKeyCredentials := {
  token : string;
  requireTransportSecurity : bool;
}.

Record DialOptions := {
  opt_transport : option (string * string);
  opt_perRPC : option apiKeyCredentials;
}.

Inductive cliE : Type → Type :=
  | ReadFile (path : string) : cliE (result string)
  | ReadStdin : cliE (result string)
  | ClientTLSFromFile (cert serverName : string) : cliE (result unit)
  | DialContext (timeout : Z) (addr : string) (opts : DialOptions) : cliE (result unit)
  | Rpc {X} (e : grpcE X) : cliE X
  | CloseConn : cliE unit
  | Printf (format : string) (args : list GoArg) : cliE unit
  | Eprintln (s : string) : cliE unit
  | EprintErr (e : GoError) : cliE unit
  | ExecRun (name : string) (args : list string) : cliE (result unit).

Definition rpc_call {A} (p : prog grpcE A) : prog cliE A := translate (λ X e, Rpc e) p.

(** [defer conn.Close()] *)
Definition with_conn {A} (p : prog cliE A) : prog cliE A := r ← p; _ ← call CloseConn; Ret r.

(** ** Encodings *)
Class FlowFile := {
  yaml : Type;
  yaml_Unmarshal : string → result yaml;
  json_Marshal : yaml → result string;
  protojson_Unmarshal : string → result FlowSpec;
  (** with unpopulated fields and the names of the proto file *)
  protojson_Marshal : ∀ {A}, message A → A → result string;
}.

(** ** Globals (root.go) *)

Record Globals := {
  apiKey : string;
  grpcTLSEnabled : bool;
  grpcTLSCertFile : string;
  grpcTLSServerName : string;
}.

Definition envBoolDefault (env : os.environment) (key : string) (fallback : bool) : bool :=
  match os.LookupEnv env key with
  | None => fallback
  | Some value => default fallback (strconv.ParseBool value)
  end.

(** The values the persistent flags have when they are not given. *)
Definition default_globals (env : os.environment) : Globals := {|
  apiKey := os.Getenv env "FLOW_API_KEY";
  grpcTLSEnabled := envBoolDefault env "FLOW_GRPC_TLS_ENABLED" false;
  grpcTLSCertFile := os.Getenv env "FLOW_GRPC_TLS_CERT";
  grpcTLSServerName := os.Getenv env "FLOW_GRPC_TLS_SERVER_NAME";
|}.

(** ** api.go *)

Definition formatBearerToken (token : string) : string :=
  let value := strings.TrimSpace token in
  if bool_decide (value = "") then ""
  else if strings.HasPrefix (strings.ToLower value) "bearer " then value
  else "Bearer " +:+ value.

Definition GetRequestMetadata (c : apiKeyCredentials) : metadata.MD :=
  if bool_decide (token c = "") then [] else [("authorization", token c)].

Definition RequireTransportSecurity (c : apiKeyCredentials) : bool := requireTransportSecurity c.

(** The checks of [dialAPI] before it does anything. *)
Definition dial_check (g : Globals) (addr : string) : option GoError :=
  if bool_decide (addr = "") then Some (Errorf "api address is required" [])
  else if grpcTLSEnabled g then
    if blank (grpcTLSCertFile g) then Some (Errorf "grpc tls enabled but cert file is empty" [])
    else if blank (grpcTLSServerName g) then
      Some (Errorf "grpc tls enabled but server name is empty" [])
    else None
  else None.

Definition dial_credentials (g : Globals) : option apiKeyCredentials :=
  if blank (apiKey g) then None
  else Some (Build_apiKeyCredentials (formatBearerToken (apiKey g)) (grpcTLSEnabled g)).

Definition dialAPI (g : Globals) (timeout : Z) (addr : string) : prog cliE (result unit) :=
  _ ←? check (dial_check g addr);
  transport ←? (if grpcTLSEnabled g then
      _ ←? wrap_err "grpc tls config: %w" []
        (call (ClientTLSFromFile (grpcTLSCertFile g) (grpcTLSServerName g)));
      Ret (Ok (Some (grpcTLSCertFile g, grpcTLSServerName g)))
    else Ret (Ok None));
  wrap_err "connect to api %s: %w" [AStr addr]
    (call (DialContext timeout addr (Build_DialOptions transport (dial_credentials g)))).

(** ** schema.go: reading the arguments *)

Definition parseQueueSchemaFormat (value : string) : result InMemorySchemaFormat :=
  let v := strings.ToLower (strings.TrimSpace value) in
  if bool_decide (v ∈ ["arrow"; "apache-arrow"]) then Ok IN_MEMORY_SCHEMA_FORMAT_ARROW
  else if bool_decide (v = "json") then Ok IN_MEMORY_SCHEMA_FORMAT_JSON
  else if bool_decide (v ∈ ["protobuf"; "proto"]) then Ok IN_MEMORY_SCHEMA_FORMAT_PROTOBUF
  else if bool_decide (v ∈ ["flatbuffers"; "flatbuffer"]) then
    Ok IN_MEMORY_SCHEMA_FORMAT_FLATBUFFERS
  else Err (Errorf "unsupported schema format %q (use arrow, json, protobuf, flatbuffers)"
    [AStr value]).

Definition parseSchemaVersion (value : string) : result N :=
  match strconv.ParseUint value 32 with
  | None => Err (Errorf "invalid schema version %q" [AStr value])
  | Some version =>
      if (version =? 0)%N then Err (Errorf "schema version must be greater than 0" [])
      else Ok (wrap32 version)
  end.

Definition readSchemaPayload (path : string) : prog cliE (result (list Byte.byte)) :=
  if bool_decide (path = "") then Ret (Err (Errorf "schema file path is required" []))
  else if bool_decide (path = "-") then
    data ←? wrap_err "read schema from stdin: %w" [] (call ReadStdin);
    Ret (Ok (String.list_byte_of_string data))
  else
    data ←? wrap_err "read schema file %s: %w" [AStr path] (call (ReadFile path));
    Ret (Ok (String.list_byte_of_string data)).

Section Commands.
Context `{FlowFile} `{GoRuntime} (g : Globals).

(** ** output.go *)
Definition writeProto {A} (m : message A) (msg : A) : prog cliE (result unit) :=
  match protojson_Marshal m msg with
  | Err e => Ret (Err (Wrapf "encode response: %w" [] e))
  | Ok data => _ ← call (Printf "%s\n" [AStr data]); Ret (Ok tt)
  end.

(** ** loader *)
Definition yamlToJSON (v : yaml) : result string := json_Marshal v.

Definition LoadFlowSpec (path : string) : prog cliE (result FlowSpec) :=
  data ←? wrap_err "read %s: %w" [AStr path] (call (ReadFile path));
  raw ←? wrap_err "yaml decode: %w" [] (Ret (yaml_Unmarshal data));
  jsonBytes ←? Ret (yamlToJSON raw);
  wrap_err "decode flow spec: %w" [] (Ret (protojson_Unmarshal jsonBytes)).

(** Load, normalize, validate: the first half of submit, update, run and
    validate. *)
Definition prepare (path : string) : prog cliE (result (option FlowSpec)) :=
  spec ←? LoadFlowSpec path;
  let spec := (Normalize.Normalize (Some spec)).1 in
  match Validate.Validate spec with
  | Some e => Ret (Err e)
  | None => Ret (Ok spec)
  end.

(** ** The commands on flows; [timeout] and [addr] are their flags *)
Section Flows.
Context (timeout : Z) (addr : string).

Definition submitCmd (path : string) : prog cliE (result unit) :=
  spec ←? prepare path;
  _ ←? wrap_err "connect to api %s: %w" [AStr addr] (dialAPI g timeout addr);
  with_conn (
    _ ←? wrap_err "submit flow: %w" []
      (rpc_call (flowServiceClient.CreateFlow (Build_CreateFlowRequest spec)));
    _ ← call (Printf "✅ flow %q submitted successfully to %s\n" [AStr (FlowSpec_GetName spec); AStr addr]);
    Ret (Ok tt)).

Definition updateCmd (updateName path : string) : prog cliE (result unit) :=
  spec ←? prepare path;
  let name := if bool_decide (updateName = "") then FlowSpec_GetName spec else updateName in
  if bool_decide (name = "") then Ret (Err (Errorf "flow name is required" []))
  else
    _ ←? dialAPI g timeout addr;
    with_conn (
      _ ←? wrap_err "update flow: %w" []
        (rpc_call (flowServiceClient.UpdateFlow (Build_UpdateFlowRequest name spec)));
      _ ← call (Printf "✅ flow %q updated successfully on %s\n" [AStr name; AStr addr]);
      Ret (Ok tt)).

(** A command that makes one call and prints its response. *)
Definition print_call {A} (what : string) (m : message A) (p : prog grpcE (result A)) :
    prog cliE (result unit) :=
  _ ←? dialAPI g timeout addr;
  with_conn (
    resp ←? wrap_err what [] (rpc_call p);
    writeProto m resp).

Definition getCmd (name : string) : prog cliE (result unit) :=
  print_call "get flow: %w" M_Flow (flowServiceClient.GetFlow (Build_GetFlowRequest name)).

Definition listCmd : prog cliE (result unit) :=
  print_call "list flows: %w" M_ListFlowsResponse
    (flowServiceClient.ListFlows Build_ListFlowsRequest).

Definition statusCmd (name : string) : prog cliE (result unit) :=
  print_call "get flow status: %w" M_FlowStatus
    (flowServiceClient.GetFlowStatus (Build_GetFlowStatusRequest name)).

Definition rollbackCmd (rollbackVersion : N) (name : string) : prog cliE (result unit) :=
  if (rollbackVersion =? 0)%N then Ret (Err (Errorf "version is required" []))
  else print_call "rollback flow: %w" M_Flow
    (flowServiceClient.RollbackFlow (Build_RollbackFlowRequest name rollbackVersion)).

Definition stopCmd (name : string) : prog cliE (result unit) :=
  _ ←? dialAPI g timeout addr;
  with_conn (
    _ ←? wrap_err "delete flow: %w" []
      (rpc_call (flowServiceClient.DeleteFlow (Build_DeleteFlowRequest name)));
    _ ← call (Printf "✅ flow %q deleted from %s\n" [AStr name; AStr addr]);
    Ret (Ok tt)).

(** ** The commands on schemas *)

Definition schemaCreateCmd (format filePath schemaID : string) : prog cliE (result unit) :=
  format ←? Ret (parseQueueSchemaFormat format);
  payload ←? readSchemaPayload filePath;
  print_call "create schema: %w" M_SchemaDefinition
    (schemaRegistryServiceClient.CreateSchema (Build_CreateSchemaRequest
      (Some (Build_PbSchemaDefinition schemaID 0 format payload)))).

Definition schemaGetCmd (schemaID version : string) : prog cliE (result unit) :=
  version ←? Ret (parseSchemaVersion version);
  print_call "get schema: %w" M_SchemaDefinition
    (schemaRegistryServiceClient.GetSchema (Build_GetSchemaRequest schemaID version)).

Definition schemaListCmd (schemaID : string) : prog cliE (result unit) :=
  print_call "list schema versions: %w" M_ListSchemaVersionsResponse
    (schemaRegistryServiceClient.ListSchemaVersions (Build_ListSchemaVersionsRequest schemaID)).

Definition schemaDeleteCmd (schemaID : string) : prog cliE (result unit) :=
  print_call "delete schema: %w" M_Empty
    (schemaRegistryServiceClient.DeleteSchema (Build_DeleteSchemaRequest schemaID)).
End Flows.

(** ** The commands that stay local *)

Definition validateCmd (path : string) : prog cliE (result unit) :=
  spec ←? LoadFlowSpec path;
  let spec := (Normalize.Normalize (Some spec)).1 in
  match Validate.Validate spec with
  | Some e => _ ← call (Eprintln "❌ flow is invalid"); Ret (Err e)
  | None => _ ← call (Printf "✅ flow is valid\n" []); Ret (Ok tt)
  end.

Definition runCmd (path : string) : prog cliE (result unit) :=
  _ ←? prepare path;
  wrap_err "run flow runtime: %w" [] (call (ExecRun "flow_runtime" [path])).

End Commands.
