(* ===== verification/CliFlags.v ===== *)
(** * cli: flowctl's commands, their flags and main

    The commands the init functions register, with their argument counts,
    their flags and defaults, and what [main] makes of one.  How cobra reads
    the command line is a parameter: the command, its arguments and the
    values of its flags, or an error. *)
From S2P Require Import Prelude GoStd Prog Messages Config Cli.

(** ** Flags *)

Inductive flag_value :=
  | FString (s : string)
  | FBool (b : bool)
  | FDuration (ns : Z)
  | FUint64 (n : N).

Definition flags := gmap string flag_value.

Definition get_string (f : flags) (name : string) : string :=
  match f !! name with Some (FString s) => s | _ => "" end.
Definition get_bool (f : flags) (name : string) : bool :=
  match f !! name with Some (FBool b) => b | _ => false end.
Definition get_duration (f : flags) (name : string) : Z :=
  match f !! name with Some (FDuration d) => d | _ => 0%Z end.
Definition get_uint64 (f : flags) (name : string) : N :=
  match f !! name with Some (FUint64 n) => n | _ => 0%N end.

(** The persistent flags of root.go. *)
Definition root_flags (env : os.environment) : list (string * flag_value) := [
  ("api", FString "");
  ("api-key", FString (os.Getenv env "FLOW_API_KEY"));
  ("grpc-tls-enabled", FBool (envBoolDefault env "FLOW_GRPC_TLS_ENABLED" false));
  ("grpc-tls-cert", FString (os.Getenv env "FLOW_GRPC_TLS_CERT"));
  ("grpc-tls-server-name", FString (os.Getenv env "FLOW_GRPC_TLS_SERVER_NAME"));
  ("namespace", FString "default");
  ("verbose", FBool false)].

(** The variables the flags are bound to, of which the commands read these. *)
Definition globals (f : flags) : Globals := {|
  apiKey := get_string f "api-key";
  grpcTLSEnabled := get_bool f "grpc-tls-enabled";
  grpcTLSCertFile := get_string f "grpc-tls-cert";
  grpcTLSServerName := get_string f "grpc-tls-server-name";
|}.

(** ** Commands *)

Record Command := {
  cmd_path : list string;
  cmd_Aliases : list string;
  cmd_nargs : nat;
  cmd_flags : list (string * flag_value);
  cmd_required : list string;
  cmd_RunE : flags → list string → prog cliE (result unit);
}.

Definition second : Z := 10 ^ 9.

Definition api_flags : list (string * flag_value) :=
  [("api", FString "localhost:9090"); ("timeout", FDuration (5 * second))].

Section Commands.
Context `{FlowFile} `{GoRuntime}.

(** A command on the API, given the globals, the timeout and the address. *)
Definition api_RunE (run : Globals → Z → string → flags → list string → prog cliE (result unit))
    (f : flags) (args : list string) : prog cliE (result unit) :=
  run (globals f) (get_duration f "timeout") (get_string f "api") f args.

(** [args[i]]; cobra has counted the arguments. *)
Definition arg (args : list string) (i : nat) : string := default "" (args !! i).

Definition submit_command := Build_Command ["submit"] [] 1 api_flags []
  (api_RunE (λ g timeout addr _ args, submitCmd g timeout addr (arg args 0))).

Definition update_command := Build_Command ["update"] [] 1
  (api_flags ++ [("name", FString "")]) []
  (api_RunE (λ g timeout addr f args, updateCmd g timeout addr (get_string f "name") (arg args 0))).

Definition get_command := Build_Command ["get"] [] 1 api_flags []
  (api_RunE (λ g timeout addr _ args, getCmd g timeout addr (arg args 0))).

Definition list_command := Build_Command ["list"] [] 0 api_flags []
  (api_RunE (λ g timeout addr _ _, listCmd g timeout addr)).

Definition status_command := Build_Command ["status"] [] 1 api_flags []
  (api_RunE (λ g timeout addr _ args, statusCmd g timeout addr (arg args 0))).

Definition rollback_command := Build_Command ["rollback"] [] 1
  (api_flags ++ [("version", FUint64 0)]) []
  (api_RunE (λ g timeout addr f args,
    rollbackCmd g timeout addr (get_uint64 f "version") (arg args 0))).

Definition stop_command := Build_Command ["stop"] ["remove"; "delete"] 1 api_flags []
  (api_RunE (λ g timeout addr _ args, stopCmd g timeout addr (arg args 0))).

Definition validate_command := Build_Command ["validate"] [] 1 [] []
  (λ _ args, validateCmd (arg args 0)).

Definition run_command := Build_Command ["run"] [] 1 [] [] (λ _ args, runCmd (arg args 0)).

Definition schema_create_command := Build_Command ["schema"; "create"] [] 1
  (api_flags ++ [("format", FString ""); ("schema-file", FString "")]) ["format"; "schema-file"]
  (api_RunE (λ g timeout addr f args,
    schemaCreateCmd g timeout addr (get_string f "format") (get_string f "schema-file") (arg args 0))).

Definition schema_get_command := Build_Command ["schema"; "get"] [] 2 api_flags []
  (api_RunE (λ g timeout addr _ args, schemaGetCmd g timeout addr (arg args 0) (arg args 1))).

Definition schema_list_command := Build_Command ["schema"; "list"] [] 1 api_flags []
  (api_RunE (λ g timeout addr _ args, schemaListCmd g timeout addr (arg args 0))).

Definition schema_delete_command := Build_Command ["schema"; "delete"] [] 1 api_flags []
  (api_RunE (λ g timeout addr _ args, schemaDeleteCmd g timeout addr (arg args 0))).

Definition schema_commands : list Command :=
  [schema_create_command; schema_get_command; schema_list_command; schema_delete_command].

Definition commands : list Command :=
  [submit_command; update_command; get_command; list_command; status_command; rollback_command;
   stop_command; validate_command; run_command] ++ schema_commands.

(** ** main *)

(** [Execute] once cobra has read the command line; a command without a body
    prints its help. *)
Definition Execute (parsed : result (option (Command * flags * list string))) :
    prog cliE (result unit) :=
  match parsed with
  | Err e => Ret (Err e)
  | Ok None => Ret (Ok tt)
  | Ok (Some (cmd, f, args)) => cmd_RunE cmd f args
  end.

(** The exit status. *)
Definition main (parsed : result (option (Command * flags * list string))) : prog cliE Z :=
  err ← Execute parsed;
  match err with
  | Err e => _ ← call (EprintErr e); Ret 1%Z
  | Ok _ => Ret 0%Z
  end.

(** [debugf] *)
Definition debugf (verbose : bool) (msg : string) : prog cliE unit :=
  if verbose then call (Eprintln msg) else Ret tt.

(** ** What cobra may be given and may give back *)

(** The flags of a command and of the root: the command's own come first. *)
Definition all_flags (env : os.environment) (cmd : Command) : list (string * flag_value) :=
  cmd_flags cmd ++ root_flags env.

(** With no flag given, a command has its defaults. *)
Definition default_flags (env : os.environment) (cmd : Command) : flags :=
  list_to_map (all_flags env cmd).

Lemma default_flags_globals env cmd :
  cmd ∈ commands → globals (default_flags env cmd) = default_globals env.
Proof.
  intros Hin. unfold commands, schema_commands in Hin. cbn [app] in Hin.
  repeat (apply elem_of_cons in Hin as [->|Hin]; [reflexivity|]). by apply elem_of_nil in Hin.
Qed.

Lemma default_api env cmd :
  cmd ∈ commands → cmd_flags cmd ≠ [] →
  get_string (default_flags env cmd) "api" = "localhost:9090" ∧
  get_duration (default_flags env cmd) "timeout" = (5 * second)%Z.
Proof.
  intros Hin Hf. unfold commands, schema_commands in Hin. cbn [app] in Hin.
  repeat (apply elem_of_cons in Hin as [->|Hin]; [first [by destruct Hf | by split]|]).
  by apply elem_of_nil in Hin.
Qed.

(** No two commands share a name or an alias. *)
Lemma commands_distinct : NoDup (commands ≫= λ c, cmd_path c :: ((λ a, [a]) <$> cmd_Aliases c)).
Proof. apply (bool_decide_unpack _). vm_compute. exact I. Qed.
End Commands.
