(* ===== verification/CliProps.v ===== *)
(** * Properties of flowctl

    The key it sends is the key the server checks, its schema arguments, and
    what a submit leaves in the store when flowctl talks to the API server. *)
From S2P Require Import Prelude GoStd GoStdFacts Prog Messages FlowPkg Etcd Codec ApiStore.
From S2P Require Import ApiStoreSpec ApiStoreProps SchemaStore Config ApiService Rpc ApiServer.
From S2P Require Import Remote Cli.

(** ** Tokens *)

Lemma parseBearerToken_trimmed v : trimmed (parseBearerToken v).
Proof.
  assert (trimmed "") as Hempty by (split; intros sp (c & t & -> & _)%space_first; done).
  unfold parseBearerToken. case_bool_decide; [done|].
  destruct (negb _); [done|]. apply TrimSpace_trimmed.
Qed.

Lemma firstBearerToken_trimmed l : trimmed (firstBearerToken l).
Proof.
  induction l as [|v l IH]; cbn.
  - apply (parseBearerToken_trimmed "").
  - case_bool_decide; [apply parseBearerToken_trimmed|done].
Qed.

(** What [formatBearerToken] writes, [parseBearerToken] reads. *)
Lemma parse_format key :
  strings.TrimSpace key ≠ "" →
  strings.HasPrefix (strings.ToLower (strings.TrimSpace key)) "bearer " = false →
  parseBearerToken (formatBearerToken key) = strings.TrimSpace key.
Proof.
  intros Hne Hp. unfold formatBearerToken. rewrite bool_decide_eq_false_2, Hp by done.
  pose proof (TrimSpace_trimmed key) as Ht. revert Hne Hp Ht.
  generalize (strings.TrimSpace key). intros v Hne _ Hv.
  assert (trimmed ("Bearer " +:+ v)) as Htr.
  { apply trimmed_app; [done|apply trimmed_eval; vm_compute; reflexivity|done..]. }
  unfold parseBearerToken. rewrite (TrimSpace_id _ Htr).
  rewrite bool_decide_eq_false_2 by done.
  change (strings.ToLower ("Bearer " +:+ v)) with (bearerPrefix +:+ strings.ToLower v).
  rewrite HasPrefix_app. cbn [negb].
  change (String.length bearerPrefix) with (String.length "Bearer ").
  rewrite slice_from_app. by apply TrimSpace_id.
Qed.

(** C33: the key flowctl is given reaches the server's check: for a key that
    is not blank and does not itself start with "bearer ", the token the
    server reads off the metadata flowctl sends is the key without
    surrounding space, so that it is accepted exactly when that is the
    server's key.  Tokens the server reads never have space around them: a
    server started with a key that has (its start-up check only asks that
    the key is not blank) accepts no request at all, and neither does one
    with an empty key. *)
Theorem cli_key_accepted (g : Globals) (cfg : ApiConfig.Config) creds :
  ApiConfig.AuthEnabled cfg = true → dial_credentials g = Some creds →
  let authorization := metadata.Get (GetRequestMetadata creds) "authorization" in
  let key := strings.TrimSpace (apiKey g) in
  (strings.HasPrefix (strings.ToLower key) "bearer " = false →
     authorized cfg authorization ↔ ApiConfig.APIKey cfg = key) ∧
  (strings.TrimSpace (ApiConfig.APIKey cfg) ≠ ApiConfig.APIKey cfg ∨ ApiConfig.APIKey cfg = "" →
     ∀ tokens, ¬ authorized cfg tokens).
Proof.
  intros Hen Hcreds authorization key. unfold dial_credentials, blank in Hcreds.
  case_bool_decide as Hblank; [done|]. injection Hcreds as <-. split.
  - intros Hp. pose proof (parse_format (apiKey g) Hblank Hp) as Hpf. fold key in Hpf, Hblank.
    assert (firstBearerToken authorization = key) as Hk.
    { unfold authorization, GetRequestMetadata. cbn [token]. case_bool_decide as E.
      - unfold formatBearerToken in E. fold key in E. rewrite bool_decide_eq_false_2, Hp in E by done.
        done.
      - change [(?k, ?v)] with (pair k <$> [v]). rewrite metadata.Get_keyed. cbn. by rewrite Hpf, bool_decide_eq_true_2 by (by rewrite ?Hpf). }
    unfold authorized. rewrite Hk. naive_solver.
  - intros Hbad tokens Ha. destruct (Ha Hen) as [Hne Heq].
    pose proof (TrimSpace_id _ (firstBearerToken_trimmed tokens)). destruct Hbad; congruence.
Qed.

(** ** Programs of the command line against the API server *)

(** A world of the command line: calls on the connection are answered by
    [gh], every other effect leaves the connection alone. *)
Record cli_backed {W C} (ch : handler cliE W) (gh : handler grpcE C) (conn : W → C) : Prop := {
  backed_rpc : ∀ X (e : grpcE X) w,
    (ch _ (Rpc e) w).1 = (gh _ e (conn w)).1 ∧ conn (ch _ (Rpc e) w).2 = (gh _ e (conn w)).2;
  backed_other : ∀ X (e : cliE X) w,
    match e with Rpc _ => True | _ => conn (ch _ e w).2 = conn w end;
}.

Section Backed.
Context {W C : Type} (ch : handler cliE W) (gh : handler grpcE C) (conn : W → C)
  (Hb : cli_backed ch gh conn).

Lemma wp_rpc_call {A} (p : prog grpcE A) w (Φ : A → W → Prop) :
  (∀ r x' w', run gh p (conn w) = (r, x') → conn w' = x' → Φ r w') →
  wp ch (rpc_call p) w Φ.
Proof using Hb.
  revert w. induction p as [a|X e k IH]; intros w HΦ.
  - apply wp_ret. by eapply HΦ.
  - apply wp_vis. intros x w1 Hx. destruct (backed_rpc _ _ _ Hb X e w) as [H1 H2].
    rewrite Hx in H1, H2. cbn in H1, H2. apply IH. intros r x' w' Hr Hw'. eapply HΦ; [|done].
    cbn. by rewrite <-H1, <-H2.
Qed.

(** Any other call. *)
Lemma wp_local {X} (e : cliE X) w (Φ : X → W → Prop) :
  match e with Rpc _ => False | _ => True end →
  (∀ x w', ch _ e w = (x, w') → conn w' = conn w → Φ x w') → wp ch (call e) w Φ.
Proof using Hb.
  intros He HΦ. apply wp_call. intros x w' Hx. apply HΦ; [done|].
  pose proof (backed_other _ _ _ Hb X e w) as Ho. rewrite Hx in Ho. by destruct e.
Qed.

Lemma wp_with_conn {A} (p : prog cliE A) w (Φ : A → W → Prop) :
  wp ch p w (λ r w1, ∀ w2, conn w2 = conn w1 → Φ r w2) → wp ch (with_conn p) w Φ.
Proof using Hb.
  intros Hp. apply wp_bind. eapply wp_mono; [exact Hp|]. intros r w1 HΦ.
  apply wp_bind, wp_local; [done|]. intros [] w2 _ Hw2. apply wp_ret. by apply HΦ.
Qed.

Lemma wp_dialAPI g timeout addr w (Φ : result unit → W → Prop) :
  (∀ r w', conn w' = conn w → Φ r w') → wp ch (dialAPI g timeout addr) w Φ.
Proof using Hb.
  intros HΦ. unfold dialAPI. apply wp_try, wp_check; [intros _|intros; by apply HΦ].
  assert (∀ t w1, conn w1 = conn w → wp ch (wrap_err "connect to api %s: %w" [AStr addr]
    (call (DialContext timeout addr (Build_DialOptions t (dial_credentials g))))) w1 Φ) as Hd.
  { intros t w1 Hw1. apply wp_wrap_err, wp_local; [done|]. intros r w2 _ Hw2.
    destruct r; apply HΦ; congruence. }
  apply wp_try. destruct (grpcTLSEnabled g).
  - apply wp_try, wp_wrap_err, wp_local; [done|]. intros [[]|e] w1 _ Hw1.
    + apply wp_ret. by apply Hd.
    + by apply HΦ.
  - apply wp_ret. by apply Hd.
Qed.

(** ** Submit *)
Context `{FlowFile} `{GoRuntime}.

(** The normalized spec of the file at [path]. *)
Definition loaded (path : string) (w : W) (spec : FlowSpec) : Prop :=
  ∃ data raw json spec0, (ch _ (ReadFile path) w).1 = Ok data ∧ yaml_Unmarshal data = Ok raw ∧
    json_Marshal raw = Ok json ∧ protojson_Unmarshal json = Ok spec0 ∧
    (Normalize.Normalize (Some spec0)).1 = Some spec.

Lemma wp_prepare path w (Φ : result (option FlowSpec) → W → Prop) :
  (∀ spec w', conn w' = conn w → loaded path w spec → Validate.valid_spec spec →
     Φ (Ok (Some spec)) w') →
  (∀ e w', conn w' = conn w → Φ (Err e) w') →
  wp ch (prepare path) w Φ.
Proof using Hb.
  intros Hok Herr. unfold prepare, LoadFlowSpec.
  apply wp_try, wp_try, wp_wrap_err, wp_local; [done|]. intros [data|e] w1 Hx Hw1; [|by apply Herr].
  apply wp_try, wp_wrap_err, wp_ret. destruct (yaml_Unmarshal data) as [raw|] eqn:Hraw;
    [|by apply Herr].
  apply wp_try, wp_ret. unfold yamlToJSON. destruct (json_Marshal raw) as [json|] eqn:Hjson;
    [|by apply Herr].
  apply wp_wrap_err, wp_ret. destruct (protojson_Unmarshal json) as [spec0|] eqn:Hspec;
    [|by apply Herr].
  destruct (Validate.Validate _) as [e|] eqn:Hv; [by apply Herr|].
  destruct (Normalize.Normalize (Some spec0)).1 as [spec|] eqn:Hn; [|done].
  apply Validate_none in Hv. apply wp_ret, Hok; [done| |done].
  exists data, raw, json, spec0. by rewrite Hx.
Qed.
End Backed.

(** ** Schema arguments *)

(** What the schema commands send.  A format is accepted when, without
    surrounding space and in any case, it is one of the seven names, and the
    format sent is never the unspecified one; a version is sent exactly when
    it is a decimal number from 1 to 2^32 - 1, unchanged, so that flowctl
    cannot ask for the active version (version 0). *)
Lemma schema_args_exact value :
  (match parseQueueSchemaFormat value with
   | Ok f => f ∈ [IN_MEMORY_SCHEMA_FORMAT_ARROW; IN_MEMORY_SCHEMA_FORMAT_JSON;
                  IN_MEMORY_SCHEMA_FORMAT_PROTOBUF; IN_MEMORY_SCHEMA_FORMAT_FLATBUFFERS]
   | Err _ => True
   end) ∧
  (is_ok (parseQueueSchemaFormat value) = true ↔
     strings.ToLower (strings.TrimSpace value) ∈ ["arrow"; "apache-arrow"; "json"; "protobuf";
       "proto"; "flatbuffers"; "flatbuffer"]) ∧
  (∀ n, parseSchemaVersion value = Ok n ↔
     strconv.ParseUint value 64 = Some n ∧ (1 <= n < 2 ^ 32)%N).
Proof.
  split_and!.
  - unfold parseQueueSchemaFormat. repeat (case_bool_decide; [set_solver|]). done.
  - unfold parseQueueSchemaFormat.
    repeat (case_bool_decide; [cbn; set_solver|]). cbn. set_solver.
  - intros n. unfold parseSchemaVersion.
    assert (strconv.ParseUint value 32 =
      (n ← strconv.ParseUint value 64; if (n <? 2 ^ 32)%N then Some n else None)) as ->.
    { unfold strconv.ParseUint. destruct value as [|c value]; [done|].
      destruct (strconv.parse_digits 0 _) as [m|]; [|done].
      destruct (N.ltb_spec m (2 ^ 64)), (N.ltb_spec m (2 ^ 32)); cbn; try done.
      - destruct (N.ltb_spec m (2 ^ 32)); [done|lia].
      - destruct (N.ltb_spec m (2 ^ 32)); [lia|done].
      - lia. }
    destruct (strconv.ParseUint value 64) as [m|]; cbn; [|naive_solver].
    destruct (N.ltb_spec m (2 ^ 32)) as [Hm|Hm]; [|naive_solver lia].
    destruct (N.eqb_spec m 0) as [->|Hm0]; [naive_solver lia|].
    rewrite wrap32_small by done. naive_solver lia.
Qed.

(** ** Submitting to the API server *)
Section Submit.
Context `{Codec} `{GoRuntime} `{FlowFile} {S : Type} `{EtcdService S}.

Lemma run_pointer {A} (p : prog etcdE (result A)) s :
  (run etcd_exec (pointer p) s).2 = (run etcd_exec p s).2 ∧
  ∀ b, (run etcd_exec (pointer p) s).1 = Ok b →
    ∃ a, b = Some a ∧ (run etcd_exec p s).1 = Ok a.
Proof.
  unfold pointer, try_bind. rewrite run_bind. destruct (run etcd_exec p s) as [[a|e] s']; cbn.
  - split; [done|]. intros b [= <-]. by exists a.
  - by split.
Qed.

(** The spec is the flow's next version, active, and nothing else changed;
    or, after an error, possibly nothing changed. *)
Definition created (spec : FlowSpec) (s s' : S) : Prop :=
  let σ := abs (kvs s) in let name := fs_Name spec in
  proper_seg name = true → store_ok (kvs s) →
  store_ok (kvs s') ∧ abs (kvs s') ≡ Spec.update name (Spec.push spec (σ name)) σ.

Definition maybe_created (spec : FlowSpec) (s s' : S) : Prop :=
  let σ := abs (kvs s) in let name := fs_Name spec in
  proper_seg name = true → store_ok (kvs s) →
  store_ok (kvs s') ∧
    (abs (kvs s') ≡ σ ∨ abs (kvs s') ≡ Spec.update name (Spec.push spec (σ name)) σ).

Lemma service_create spec s :
  let ran := run etcd_exec (service_call R_CreateFlow (Build_CreateFlowRequest (Some spec))) s in
  maybe_created spec s ran.2 ∧ (∀ b, ran.1 = Ok b → created spec s ran.2).
Proof.
  destruct (run_pointer (CreateFlow (Some spec)) s) as [Hst Hok].
  destruct (run etcd_exec (CreateFlow (Some spec)) s) as [r s'] eqn:Hr.
  cbn [fst snd] in Hst, Hok. cbn zeta. change (service_call R_CreateFlow _) with (pointer (CreateFlow (Some spec))).
  rewrite Hst. split.
  - intros Hn Hs. destruct (run_CreateFlow spec s r s' Hn Hs Hr) as [Hs' Hpost].
    split; [done|]. destruct r; [right; by destruct Hpost|done].
  - intros b Hb Hn Hs. destruct (Hok b Hb) as (f & _ & ->).
    by destruct (run_CreateFlow spec s _ s' Hn Hs Hr) as [? [? _]].
Qed.

(** C9: [flowctl submit] against an API server.  When it reports success the
    file was read, the key was accepted, and the store holds the file's
    normalized and valid spec as the flow's next version, active, everything
    else unchanged.  When it fails, the server's state is as before, or the
    key was accepted and the spec of a valid file may have been created with
    only the answer lost; a file that cannot be read or is not valid never
    reaches the server. *)
Theorem submit_stores_valid {W C} cfg md
    `{!GrpcChannel etcd_exec api_services (chain (api_interceptors cfg)) md C}
    (ch : handler cliE W) (conn : W → C) g timeout addr path w r w' :
  cli_backed ch grpc_exec conn →
  run ch (submitCmd g timeout addr path) w = (r, w') →
  let s := server_state (conn w) in let s' := server_state (conn w') in
  match r with
  | Ok _ => ∃ spec, loaded ch path w spec ∧ Validate.valid_spec spec ∧
      authorized cfg (metadata.Get md "authorization") ∧ created spec s s'
  | Err _ => s' = s ∨ ∃ spec, loaded ch path w spec ∧ Validate.valid_spec spec ∧
      authorized cfg (metadata.Get md "authorization") ∧ maybe_created spec s s'
  end.
Proof.
  intros Hb Hr s.
  refine (wp_run ch (submitCmd g timeout addr path) w (λ r w', match r with
    | Ok _ => ∃ spec, loaded ch path w spec ∧ Validate.valid_spec spec ∧
        authorized cfg (metadata.Get md "authorization") ∧ created spec s (server_state (conn w'))
    | Err _ => server_state (conn w') = s ∨ ∃ spec, loaded ch path w spec ∧
        Validate.valid_spec spec ∧ authorized cfg (metadata.Get md "authorization") ∧
        maybe_created spec s (server_state (conn w'))
    end) r w' _ Hr).
  clear r w' Hr. apply wp_try, (wp_prepare ch grpc_exec conn Hb);
    [intros spec w1 Hw1 Hl Hv|intros e w1 Hw1; left; by rewrite Hw1].
  apply wp_try, wp_wrap_err, (wp_dialAPI ch grpc_exec conn Hb).
  intros [[]|e] w2 Hw2; [|left; by rewrite Hw2, Hw1].
  apply (wp_with_conn ch grpc_exec conn Hb), wp_try, wp_wrap_err, (wp_rpc_call ch grpc_exec conn Hb).
  intros r x' w3 Hr Hw3. rewrite Hw2, Hw1 in Hr.
  pose proof (call_outcome etcd_exec cfg md R_CreateFlow
    (Build_CreateFlowRequest (Some spec)) (conn w) r x' Hr) as Ho.
  destruct (service_create spec s) as [Hm Hc]. destruct r as [out|e].
  - destruct Ho as (Ha & Hx & reply & Hreply & _).
    apply wp_bind, (wp_local ch grpc_exec conn Hb); [done|]. intros [] w4 _ Hw4.
    apply wp_ret. intros w5 Hw5. exists spec. split_and!; [done..|].
    rewrite Hw5, Hw4, Hw3, Hx. by eapply Hc.
  - intros w4 Hw4. rewrite Hw4, Hw3. destruct Ho as [->|[Ha ->]]; [by left|].
    right. exists spec. by split_and!.
Qed.
End Submit.

(** ** Witnesses *)

Lemma cli_key_accepted_witness :
  let g := Build_Globals " secret " false "" "" in
  ∃ creds, dial_credentials g = Some creds ∧
    (authorized secret_config (metadata.Get (GetRequestMetadata creds) "authorization") ↔
      ApiConfig.APIKey secret_config = strings.TrimSpace (apiKey g)).
Proof.
  intros g. eexists. split; [vm_compute; reflexivity|].
  eapply (proj1 (cli_key_accepted g secret_config _ eq_refl ltac:(vm_compute; reflexivity))).
  vm_compute. reflexivity.
Defined.

Section SubmitWitness.
Import MemEtcd TestCodec.
#[local] Existing Instance std_runtime.

(** A file "flow.yaml" with a flow of one stage. *)
#[local] Instance test_file : FlowFile := {|
  yaml := string;
  yaml_Unmarshal := Ok;
  json_Marshal := Ok;
  protojson_Unmarshal s :=
    if bool_decide (s = "a") then Ok (staged_spec "a" 0 "runtime:1" "read" "source")
    else Err (ExtErr "protojson");
  protojson_Marshal A m a := Ok "";
|}.

#[local] Instance test_channel :
  GrpcChannel etcd_exec api_services (chain (api_interceptors secret_config))
    [("authorization", "Bearer secret")] state := secret_channel [("authorization", "Bearer secret")].

Definition terminal : handler cliE state := λ X e,
  match e in cliE X return state → X * state with
  | ReadFile path => λ s, (if bool_decide (path = "flow.yaml") then Ok "a" else Err (ExtErr "io"), s)
  | ReadStdin => λ s, (Err (ExtErr "io"), s)
  | ClientTLSFromFile _ _ => λ s, (Ok tt, s)
  | DialContext _ _ _ => λ s, (Ok tt, s)
  | Rpc e => λ s, grpc_exec _ e s
  | CloseConn => λ s, (tt, s)
  | Printf _ _ => λ s, (tt, s)
  | Eprintln _ => λ s, (tt, s)
  | EprintErr _ => λ s, (tt, s)
  | ExecRun _ _ => λ s, (Ok tt, s)
  end.

Definition secret_globals : Globals := Build_Globals "secret" false "" "".

Lemma terminal_backed : cli_backed terminal grpc_exec (λ s, s).
Proof. split; [done|]. by intros X []. Qed.

Lemma submit_stores_valid_witness :
  ∃ spec w', run terminal (submitCmd secret_globals 5 "localhost:9090" "flow.yaml") fresh = (Ok tt, w') ∧
    Validate.valid_spec spec ∧ created spec fresh w' ∧ store_ok (kvs fresh).
Proof.
  destruct (run terminal (submitCmd secret_globals 5 "localhost:9090" "flow.yaml") fresh)
    as [r w'] eqn:Hr.
  pose proof (submit_stores_valid secret_config [("authorization", "Bearer secret")] terminal (λ s, s)
    secret_globals 5 "localhost:9090" "flow.yaml" fresh r w' terminal_backed Hr) as Hs.
  apply (f_equal fst) in Hr as Hok. vm_compute in Hok. subst r.
  destruct Hs as (spec & _ & Hv & _ & Hc). exists spec, w'.
  split; [done|]. split; [done|]. split; [done|]. apply store_ok_empty.
Defined.
End SubmitWitness.
