(* ===== verification/StoreTypes.v ===== *)
(** * The stored data stays well typed

    The API's two stores and the controller write to one etcd.  A program's
    writes are confined to a set of keys ([writes_within]); the flow store,
    the schema registry and the controller keep to their own, so each keeps
    the other's data well formed too, and any sequence of requests and
    reconciles keeps both. *)
From S2P Require Import Prelude GoStd GoStdFacts Prog Messages Etcd Codec ApiStore ApiStoreSpec.
From S2P Require Import ApiStoreProps SchemaStore SchemaSpec SchemaProps Kube Runtime RuntimeProps.
From S2P Require Import ControllerStore Controller ControllerProps.

(** ** Programs that write only to some keys *)

Definition call_within (P : string → Prop) {X} (e : etcdE X) : Prop :=
  match e with
  | Get _ | GetPrefix _ => True
  | Put k _ => P k
  | DeletePrefix p => ∀ k, strings.HasPrefix k p = true → P k
  | Txn _ ops => Forall (λ o, match o with OpPut k _ => P k end) ops
  end.

Definition writes_within (P : string → Prop) {A} (p : prog etcdE A) : Prop :=
  confined (@call_within P) p.

Section Within.
Context (P : string → Prop).

Lemma apply_ops_within ops m k :
  Forall (λ o, match o with OpPut k _ => P k end) ops → ¬ P k → apply_ops ops m !! k = m !! k.
Proof.
  intros Hops Hk. revert m. induction Hops as [|[k' v] ops Ho _ IH]; intros m; [done|].
  unfold apply_ops in *. cbn. rewrite IH. apply lookup_insert_ne. congruence.
Qed.

(** What an etcd does outside the keys a program is confined to: nothing. *)
Lemma within_run {S} `{EtcdService S} {A} (p : prog etcdE A) s k :
  writes_within P p → ¬ P k → kvs (run etcd_exec p s).2 !! k = kvs s !! k.
Proof.
  intros Hp Hk. revert s. induction Hp as [a|X e q He _ IH]; intros s; [done|].
  cbn [run]. rewrite IH. clear IH. destruct (etcd_exec X e s) as [r s'] eqn:Hx. cbn [snd].
  destruct e as [k'|p|k' v|p|cmps ops]; cbn in He.
  - by destruct (Get_spec _ _ _ _ Hx) as [-> _].
  - by destruct (GetPrefix_spec _ _ _ _ Hx) as [-> _].
  - destruct (Put_spec _ _ _ _ _ Hx) as [->|[_ ->]]; [|done]. apply lookup_insert_ne. congruence.
  - destruct (DeletePrefix_spec _ _ _ _ Hx) as [->|[_ ->]]; [|done]. unfold without_prefix.
    destruct (kvs s !! k) as [v|] eqn:Hv.
    + apply map_lookup_filter_Some. split; [done|]. cbn. auto.
    + apply map_lookup_filter_None. by left.
  - pose proof (Txn_spec _ _ _ _ _ Hx) as Ht. cbn in Ht.
    destruct r as [[]|e]; [destruct Ht as [_ ->]; by apply apply_ops_within
      |by destruct Ht as [_ ->]|destruct Ht as [->|[_ ->]]; [done|by apply apply_ops_within]].
Qed.
End Within.

(** ** The two stores *)

Definition flows_prefix : string := "/flowpipe/flows/".

Definition in_flows (k : string) : Prop := strings.HasPrefix k flows_prefix = true.
Definition in_registry (k : string) : Prop := strings.HasPrefix k registry_prefix = true.

Lemma flows_not_registry k : in_flows k → ¬ in_registry k.
Proof.
  unfold in_flows, in_registry. intros (r & ->)%HasPrefix_spec (r' & E)%HasPrefix_spec. done.
Qed.

Lemma flow_key_in name segs :
  proper_seg name = true → Forall (λ s, proper_seg s = true) segs →
  in_flows (abs_path (["flowpipe"; "flows"; name] ++ segs)).
Proof.
  intros Hn Hs. unfold in_flows. change flows_prefix with (abs_path ["flowpipe"; "flows"] +:+ "/").
  apply HasPrefix_abs_path; [repeat constructor; done|solve_segs|]. by exists (name :: segs).
Qed.

Section Stores.
Context `{Codec} `{GoRuntime}.

Lemma flowPrefix_in name : proper_seg name = true → in_flows (flowPrefix name).
Proof. intros Hn. rewrite flowPrefix_proper by done. by apply (flow_key_in name []). Qed.

Lemma activeKey_in name : proper_seg name = true → in_flows (activeKey name).
Proof. intros Hn. rewrite activeKey_proper by done. apply (flow_key_in name ["active"]); [done|solve_segs]. Qed.

Lemma statusKey_in name : proper_seg name = true → in_flows (statusKey name).
Proof. intros Hn. rewrite statusKey_proper by done. apply (flow_key_in name ["status"]); [done|solve_segs]. Qed.

Lemma versionSpecKey_in name v : proper_seg name = true → in_flows (versionSpecKey name v).
Proof.
  intros Hn. rewrite versionSpecKey_proper by done.
  apply (flow_key_in name ["versions"; strconv.FormatUint v; "spec"]); [done|solve_segs].
Qed.

Lemma in_flows_prefix name k :
  proper_seg name = true → strings.HasPrefix k (flowPrefix name) = true → in_flows k.
Proof. intros Hn Hk. eapply HasPrefix_trans; [exact Hk|by apply flowPrefix_in]. Qed.

(** The flow store writes below /flowpipe/flows/ only. *)
Lemma flow_ops_within o : op_ok o → writes_within in_flows (run_op o).
Proof.
  unfold writes_within.
  assert (∀ name spec, proper_seg name = true → confined (@call_within in_flows) (createNewVersion name spec)) as Hc.
  { intros name spec Hn. unfold createNewVersion. repeat confined_step; cbn; try done.
    constructor; [by apply versionSpecKey_in|]. constructor; [by apply activeKey_in|done]. }
  assert (∀ name, confined (@call_within in_flows) (GetFlow name)) as Hg.
  { intros name. unfold GetFlow, GetFlowStatus. repeat confined_step; done. }
  destruct o as [[spec|]|name [spec|]|name| |name|name|name v]; cbn [op_ok run_op]; intros Ho;
    confined_step.
  - unfold CreateFlow. confined_step; [constructor|by apply Hc].
  - constructor.
  - by apply Hc.
  - constructor.
  - apply Hg.
  - unfold ListFlows, list_step. repeat first [apply Hg | confined_step]; done.
  - apply confined_call. intros k. by apply in_flows_prefix.
  - unfold GetFlowStatus. repeat confined_step; done.
  - destruct Ho. unfold RollbackFlow. repeat first [apply Hg | confined_step]; [done|].
    by apply activeKey_in.
Qed.

(** Each invariant is about its own keys. *)
Lemma registry_ok_local m m' :
  registry_ok m → (∀ k, in_registry k → m' !! k = m !! k) → registry_ok m'.
Proof.
  intros Hm Heq id Hid. destruct (Hm id Hid) as [Ha Hv Hk].
  assert (∀ segs, Forall (λ s, proper_seg s = true) segs →
    in_registry (abs_path (["flowpipe"; "schemas"; id] ++ segs))) as Hin.
  { intros segs Hs. by apply registry_key_prefix. }
  assert (m' !! schemaActiveKey id = m !! schemaActiveKey id) as Ea.
  { apply Heq. rewrite schemaActiveKey_proper by done. apply (Hin ["active"]). solve_segs. }
  assert (∀ n, m' !! schemaVersionKey id n = m !! schemaVersionKey id n) as Ev.
  { intros n. apply Heq. rewrite schemaVersionKey_proper by done.
    apply (Hin ["versions"; strconv.FormatUint n]). solve_segs. }
  split.
  - intros v. rewrite Ea. intros Hx. destruct (Ha v Hx) as (n & ? & ? & ?). exists n. by rewrite Ev.
  - intros n b Hn. rewrite Ev. by apply Hv.
  - intros k Hp Hx. apply Hk; [done|]. rewrite <-Heq; [done|]. unfold in_registry.
    eapply HasPrefix_trans; [exact Hp|]. rewrite schemaVersionsPrefix_proper by done.
    apply HasPrefix_spec. eexists. reflexivity.
Qed.

Lemma store_ok_local m m' :
  store_ok m → (∀ k, in_flows k → m' !! k = m !! k) → store_ok m'.
Proof.
  intros Hm Heq name Hn. destruct (Hm name Hn) as [Ha Hv]. split.
  - intros v. rewrite Heq by by apply activeKey_in. intros Hx. destruct (Ha v Hx) as (n & ? & ? & ?).
    exists n. by rewrite Heq by by apply versionSpecKey_in.
  - intros n b Hin. rewrite Heq by by apply versionSpecKey_in. by apply Hv.
Qed.
End Stores.

(** ** Requests and reconciles in any order *)
Section Events.
Context `{Codec} `{GoRuntime} `{RuntimeEncoding}.
Context {S : Type} `{EtcdService S} {K : Type} `{KubeService K}.
Context {T : Type} (clock : handler clockE T) (c : Controller).

Inductive event :=
  | EFlow (o : op)
  | ESchema (o : sop)
  | EReconcile (name : string).

Definition run_event (e : event) : prog ctlE unit :=
  match e with
  | EFlow o => _ ← on_etcd (run_op o); Ret tt
  | ESchema o => _ ← on_etcd (run_sop o); Ret tt
  | EReconcile name => _ ← reconcile c name; Ret tt
  end.

Definition event_ok (e : event) : Prop :=
  match e with
  | EFlow o => op_ok o
  | ESchema o => sop_ok o
  | EReconcile name => proper_seg name = true
  end.

(** The data of both stores is well typed. *)
Definition well_typed (m : gmap string string) : Prop := store_ok m ∧ registry_ok m.

Lemma wp_run_event e w :
  c_kube c = true → event_ok e → well_typed (kvs w.1.1) →
  wp (ctl_exec clock) (run_event e) w (λ _ w', well_typed (kvs w'.1.1)).
Proof.
  intros Hkube He [Hs Hr]. destruct w as [[s k] t]. cbn [fst] in *.
  destruct e as [o|o|name]; cbn [run_event event_ok] in *; apply wp_bind.
  - apply wp_on_etcd. eapply wp_mono with (Φ := λ _ s', store_ok (kvs s') ∧
      ∀ key, ¬ in_flows key → kvs s' !! key = kvs s !! key).
    + apply run_wp. intros r s' Hrun. split.
      * refine (wp_run etcd_exec _ _ (λ _ s', store_ok (kvs s')) _ _ _ Hrun).
        by apply wp_run_op.
      * intros key Hkey. pose proof (within_run in_flows _ s key (flow_ops_within o He) Hkey) as Hx.
        by rewrite Hrun in Hx.
    + intros r s' [Hs' Hk]. apply wp_ret. split; [done|]. eapply registry_ok_local; [done|].
      intros key Hkey. apply Hk. intros Hf. by eapply flows_not_registry.
  - apply wp_on_etcd, wp_run_sop; [done..|]. intros r s' [Hr' Hout] _. apply wp_ret.
    split; [|done]. eapply store_ok_local; [done|]. intros key Hkey. apply Hout.
    apply not_true_iff_false. by apply flows_not_registry.
  - eapply wp_mono; [by apply (wp_reconcile clock c)|]. intros r w (Hs' & Hk & _). apply wp_ret.
    split; [done|]. eapply registry_ok_local; [done|]. intros key Hkey. apply Hk.
    intros ->. eapply flows_not_registry; [|done]. by apply statusKey_in.
Qed.

(** C7: whatever sequence of API requests, of either service, and of
    reconciles runs, and wherever etcd fails, the stored data stays well
    typed: every active pointer of a flow or a schema is the decimal form of
    a stored version, every stored version decodes to a spec or a definition
    of its own name and number, and the registry holds no other key below a
    schema's versions. *)
Theorem stores_stay_well_typed events s k t s' k' t' :
  c_kube c = true → Forall event_ok events → well_typed (kvs s) →
  run (ctl_exec clock) (for_each events (λ _ e, run_event e) tt) (s, k, t) = (tt, (s', k', t')) →
  well_typed (kvs s').
Proof.
  intros Hkube He Hwt Hr.
  refine (wp_run (ctl_exec clock) _ _ (λ _ w, well_typed (kvs w.1.1)) _ _ _ Hr).
  eapply wp_mono with (Φ := λ _ w, Forall event_ok [] ∧ well_typed (kvs w.1.1));
    [|by intros ? w [_ Hw]].
  apply (wp_for_each (ctl_exec clock) (λ l _ w, Forall event_ok l ∧ well_typed (kvs w.1.1)));
    [by split|]. intros e l [] w [He' Hw]. inversion_clear He'.
  eapply wp_mono; [by apply wp_run_event|]. by split.
Qed.
End Events.

(** ** Witness *)
Section Witness.
Import MemEtcd TestCodec.
#[local] Existing Instances std_runtime test_encoding.

Lemma stores_stay_well_typed_witness :
  let events := [EFlow (OpCreate (Some (simple_spec "a" 0 img))); ESchema (SCreate (Some (orders "x")));
    EReconcile "a"; EFlow (OpDelete "b"); ESchema (SDelete "b")] in
  let w := (run (ctl_exec no_clock) (for_each events (λ _ e, run_event controller e) tt)
    (fresh, MemKube.empty [], tt)).2 in
  well_typed (kvs w.1.1) ∧ kvs w.1.1 ≠ ∅.
Proof.
  intros events w. split.
  - refine (stores_stay_well_typed no_clock controller events fresh (MemKube.empty []) tt _
      w.1.2 w.2 eq_refl _ _ _).
    + unfold events. repeat (apply Forall_cons; split); try done; cbn; by right.
    + split; [apply store_ok_empty|apply registry_ok_empty].
    + unfold w. destruct (run _ _ _) as [[] [[? ?] ?]]. reflexivity.
  - intros Hw. apply (f_equal size) in Hw. vm_compute in Hw. discriminate Hw.
Defined.
End Witness.
