(* ===== verification/System.v ===== *)
(** * The control plane end to end

    The API's store calls and the controller's reconcile on the same etcd and
    the same cluster: what a user who creates or deletes a flow gets. *)
From S2P Require Import Prelude GoStd GoStdFacts Prog Messages Etcd Codec ApiStore ApiStoreSpec.
From S2P Require Import ApiStoreProps Kube Runtime RuntimeProps ControllerStore Controller ControllerProps.

Section System.
Context `{Codec} `{GoRuntime} `{RuntimeEncoding}.
Context {S : Type} `{EtcdService S} {K : Type} `{KubeService K}.
Context {T : Type} (clock : handler clockE T) (c : Controller).

(** A create, the reconcile it triggers, and a read of the status. *)
Definition deploy (spec : FlowSpec) : prog ctlE (result (Flow * option FlowStatus)) :=
  f ←? on_etcd (CreateFlow (Some spec));
  _ ←? reconcile c (fs_Name spec);
  st ←? on_etcd (GetFlowStatus (fs_Name spec));
  Ret (Ok (f, st)).

(** A delete and the reconcile it triggers. *)
Definition undeploy (name : string) : prog ctlE (result unit) :=
  _ ←? on_etcd (DeleteFlow name);
  reconcile c name.

Lemma wp_GetFlowStatus_available P name s st :
  available P → P s → Spec.a_status (abs (kvs s) name) = Some st →
  wp etcd_exec (GetFlowStatus name) s (λ r _, r = Ok (Some st)).
Proof.
  intros HP Hs Hst. unfold GetFlowStatus. apply wp_bind, (wp_Get_available P); [done..|].
  intros l s1 _ _ Hl. unfold abs in Hst. cbn in Hst.
  destruct (kvs s !! statusKey name) as [b|]; [|done]. destruct l as [|kv l]; [done|].
  injection Hl as ->. cbn in Hst. unfold decode in Hst.
  destruct (status_Unmarshal b); [|done]. injection Hst as ->. by apply wp_ret.
Qed.

Lemma wp_CreateFlow_available P spec s :
  available P → P s → proper_seg (fs_Name spec) = true → store_ok (kvs s) →
  (∀ v, in64 v → is_ok (spec_Marshal (set_fs_Version v spec)) = true) →
  wp etcd_exec (CreateFlow (Some spec)) s (λ r s', is_ok r = true ∧ P s' ∧ store_ok (kvs s') ∧
    write_post (fs_Name spec) spec (abs (kvs s)) r (abs (kvs s'))).
Proof.
  intros HP Hs Hn Hok Hm.
  assert (wp etcd_exec (CreateFlow (Some spec)) s (λ r s', is_ok r = true ∧ P s')) as Hav.
  { unfold CreateFlow. case_bool_decide as E; [by rewrite E in Hn|].
    by apply wp_create_available. }
  assert (wp etcd_exec (CreateFlow (Some spec)) s (λ r s', store_ok (kvs s') ∧
    write_post (fs_Name spec) spec (abs (kvs s)) r (abs (kvs s')))) as Hw.
  { apply run_wp. intros r s' Hr. by apply (run_CreateFlow spec s r s'). }
  eapply wp_mono; [exact (wp_and _ _ _ _ _ Hav Hw)|]. by intros r s' [[? ?] [? ?]].
Qed.

(** C1: with etcd and the cluster up, creating a flow whose spec names an
    image and can be encoded, and letting the controller reconcile it, both
    succeed.  The cluster then holds the configuration of the very spec that
    was created under its new version, and the workload that runs it, and the
    status the API reports names that version and the workload.  The one
    exception is a job flow whose Job is there already: the Job is left as it
    was, while the status names the new version all the same. *)
Theorem create_deploys P Q spec s k t :
  available P → kube_available Q → P s → Q k → c_kube c = true →
  proper_seg (fs_Name spec) = true → store_ok (kvs s) →
  (∀ v, in64 v → is_ok (spec_Marshal (set_fs_Version v spec)) = true) →
  (∀ v, in64 v → encodable (set_fs_Version v spec)) →
  status_encodable clock (fs_Name spec) →
  ∃ f st s' k' t',
    run (ctl_exec clock) (deploy spec) (s, k, t) = (Ok (f, Some st), (s', k', t')) ∧
    fl_Version f = Spec.next (abs (kvs s) (fs_Name spec)) ∧
    fl_Spec f = Some (set_fs_Version (fl_Version f) spec) ∧
    st_ActiveVersion st = fl_Version f ∧
    st_Workload st = workload_name (workload_kind spec) (fs_Name spec) ∧
    let spec' := set_fs_Version (fl_Version f) spec in
    let ns := c_runtimeNamespace c in
    ∃ json yaml, spec_JSON spec' = Ok json ∧ JSONToYAML json = Ok yaml ∧
      applied ConfigMaps (ns, fs_Name spec +:+ "-config") (desired_config ns spec' yaml)
        (objects k') ∧
      (¬ job_kept ns spec' (objects k) →
         workload_runs ns spec' (pullPolicyFromSpec (Some spec)) (sha256_hex yaml)
           (c_observabilityEnabled c) (c_otelEndpoint c) (objects k')) ∧
      (job_kept ns spec' (objects k) →
         objects k' Jobs !! (ns, fs_Name spec) = objects k Jobs !! (ns, fs_Name spec)).
Proof.
  intros HP HQ Hs Hk Hkube Hn Hok Hm Henc Hst.
  set (v := Spec.next (abs (kvs s) (fs_Name spec))).
  assert (wp (ctl_exec clock) (deploy spec) (s, k, t) (λ r w, ∃ f st, r = Ok (f, Some st) ∧
    fl_Version f = v ∧ fl_Spec f = Some (set_fs_Version v spec) ∧
    reports (set_fs_Version v spec) v st ∧
    deployed c (set_fs_Version v spec) (objects k) (objects w.1.2))) as Hw.
  { unfold deploy. apply wp_try, wp_on_etcd.
    eapply wp_mono; [by apply (wp_CreateFlow_available P)|].
    intros r s1 (Hr & HP1 & Hok1 & Hpost). destruct r as [f|]; [|done].
    destruct Hpost as [Habs ->].
    pose proof (updated_here _ _ _ _ Hn Habs) as (Ha & Hsp & _).
    change (Spec.a_active (abs (kvs s1) (fs_Name spec)) = Some v) in Ha.
    assert (Spec.a_spec (abs (kvs s1) (fs_Name spec)) v = Some (set_fs_Version v spec)) as Hv.
    { rewrite Hsp. cbn. by rewrite decide_True. }
    assert (in64 v) as H64.
    { destruct (active_stored _ _ _ Hok1 Hn Ha) as (? & ? & ? & _). done. }
    apply wp_try. eapply wp_mono.
    { apply wp_and; [by apply (wp_reconcile clock c)|].
      apply (wp_reconcile_available clock c P Q); try done.
      intros v' sp Ha' Hsp'. rewrite Ha in Ha'. injection Ha' as <-. rewrite Hv in Hsp'.
      injection Hsp' as <-. by apply Henc. }
    intros r [[s2 k2] t2] [(Hok2 & _ & _ & Hrec) (Hr2 & HP2 & HQ2)]. cbn [fst snd] in *.
    destruct r as [[]|]; [|done]. rewrite Ha in Hrec.
    destruct (Hrec eq_refl) as (sp & st & Hsp' & _ & _ & Hruns & Hrep & Hstat).
    rewrite Hv in Hsp'. injection Hsp' as <-.
    apply wp_try, wp_on_etcd. eapply wp_mono; [by apply (wp_GetFlowStatus_available P)|].
    intros r s3 ->. apply wp_ret. eexists _, st. split_and!; done. }
  destruct (run _ _ _) as [r [[s' k'] t']] eqn:Hr. unfold wp in Hw. rewrite Hr in Hw.
  destruct Hw as (f & st & Hf & Hfv & Hsp & (now & ->) & Hruns). cbn in Hf. subst r.
  eexists f, _, s', k', t'. split; [reflexivity|]. rewrite Hfv. split_and!; done.
Qed.

(** C10: with etcd and the cluster up, deleting a flow and letting the
    controller reconcile it succeeds and leaves no object of the flow in the
    cluster and no key of it in etcd; a flow with another name that starts
    with the deleted one keeps its objects but loses its desired state. *)
Theorem delete_undeploys P Q name s k t :
  available P → kube_available Q → P s → Q k → c_kube c = true →
  proper_seg name = true → store_ok (kvs s) → status_encodable clock name →
  ∃ s' k' t',
    run (ctl_exec clock) (undeploy name) (s, k, t) = (Ok tt, (s', k', t')) ∧
    (∀ key, key ∈ flow_objects (c_runtimeNamespace c) name →
       objects k' key.1 !! key.2 = None) ∧
    abs (kvs s') name ≡ Spec.none ∧
    ∀ other, proper_seg other = true → other ≠ name →
      (strings.HasPrefix other name = true → abs (kvs s') other ≡ Spec.none) ∧
      ∀ key, key ∈ flow_objects (c_runtimeNamespace c) other →
        objects k' key.1 !! key.2 = objects k key.1 !! key.2.
Proof.
  intros HP HQ Hs Hk Hkube Hn Hok Hst.
  assert (wp (ctl_exec clock) (undeploy name) (s, k, t) (λ r w, r = Ok tt ∧
    kvs w.1.1 = without_prefix (flowPrefix name) (kvs s) ∧
    unchanged_but (flow_objects (c_runtimeNamespace c) name) (objects k) (objects w.1.2) ∧
    ∀ key, key ∈ flow_objects (c_runtimeNamespace c) name →
      objects w.1.2 key.1 !! key.2 = None)) as Hw.
  { unfold undeploy. apply wp_try, wp_on_etcd, wp_call. intros r s1 Hx.
    destruct (exec_DeletePrefix P (flowPrefix name) s HP Hs) as (s2 & Hx2 & HP1 & Hs1).
    rewrite Hx in Hx2. injection Hx2 as -> <-.
    assert (Spec.a_active (abs (kvs s1) name) = None) as Hgone.
    { rewrite Hs1. pose proof (delete_abs (kvs s) name Hn name Hn) as (Ha & _).
      rewrite Ha. unfold Spec.delete. by rewrite HasPrefix_self. }
    eapply wp_mono.
    { apply wp_and; [apply (wp_reconcile clock c); [done| |done]; rewrite Hs1; by apply delete_ok|].
      apply (wp_reconcile_available clock c P Q); try done.
      - rewrite Hs1. by apply delete_ok.
      - intros v sp Ha. by rewrite Hgone in Ha. }
    intros r [[s2 k2] t2] [(_ & _ & Hu & Hrec) (Hr2 & _)]. cbn [fst snd] in *.
    rewrite Hgone in Hrec. destruct Hrec as [Hs2 Hobj]. destruct r as [[]|]; [|done].
    split_and!; [done|by rewrite Hs2|done|by apply Hobj]. }
  destruct (run _ _ _) as [r [[s' k'] t']] eqn:Hr. unfold wp in Hw. rewrite Hr in Hw.
  cbn [fst snd] in Hw. destruct Hw as (-> & Hs' & Hu & Hobj). exists s', k', t'.
  assert (∀ other, proper_seg other = true → strings.HasPrefix other name = true →
    abs (kvs s') other ≡ Spec.none) as Hgone.
  { intros other Ho Hp. rewrite Hs'. pose proof (delete_abs (kvs s) name Hn other Ho) as Ha.
    unfold Spec.delete in Ha. by rewrite Hp in Ha. }
  split_and!; [done|done|apply Hgone; [done|apply HasPrefix_self]|].
  intros other Ho Hne. split; [by apply Hgone|].
  intros key (kd & -> & _)%list_elem_of_fmap.
  destruct (object_key (c_runtimeNamespace c) other kd) as [k2 i] eqn:Hkey. apply (Hu k2 i).
  rewrite <-Hkey. intros (k3 & E & _)%list_elem_of_fmap. by apply object_key_inj in E as [_ ?].
Qed.
End System.

(** ** Witnesses *)
Section Witnesses.
Import MemEtcd TestCodec.
#[local] Existing Instances std_runtime test_encoding.

Lemma create_deploys_witness :
  ∃ f st s' k' t', ctl_run (deploy controller (simple_spec "a" 0 img)) two_flows
      (MemKube.empty []) = (Ok (f, Some st), (s', k', t')) ∧ st_ActiveVersion st = 3%N.
Proof.
  destruct (create_deploys no_clock controller (λ s, MemEtcd.outcomes s = [])
    (λ k, MemKube.m_failures k = []) (simple_spec "a" 0 img) two_flows (MemKube.empty []) tt)
    as (f & st & s' & k' & t' & Hr & Hv & _ & Hst & _);
    [apply mem_available|apply mem_kube_available|vm_compute; reflexivity|reflexivity|reflexivity
    |reflexivity|apply two_flows_ok| | |apply no_clock_encodable|].
  - intros v Hv. apply (simple_marshals "a" v img Hv); [reflexivity|]. intros i [= <-]. reflexivity.
  - intros v Hv. split; [discriminate|]. eexists _, _. split; reflexivity.
  - exists f, st, s', k', t'. split; [exact Hr|]. rewrite Hst, Hv. vm_compute. reflexivity.
Defined.

Lemma delete_undeploys_witness :
  ∃ s' k' t', ctl_run (undeploy controller "a") two_flows (MemKube.empty []) =
    (Ok tt, (s', k', t')) ∧ abs (kvs s') "ab" ≡ Spec.none.
Proof.
  destruct (delete_undeploys no_clock controller (λ s, MemEtcd.outcomes s = [])
    (λ k, MemKube.m_failures k = []) "a" two_flows (MemKube.empty []) tt)
    as (s' & k' & t' & Hr & _ & _ & Ho);
    [apply mem_available|apply mem_kube_available|vm_compute; reflexivity|reflexivity|reflexivity
    |reflexivity|apply two_flows_ok|apply no_clock_encodable|].
  exists s', k', t'. split; [exact Hr|]. apply Ho; [reflexivity|discriminate|reflexivity].
Defined.
End Witnesses.
